(* ===== verification/_CoqProject ===== *)
-Q . S2P
Prelude.v
IoBuffer.v
Text.v
Framing.v
Timer.v
Balancer.v
Poller.v
PollerFacts.v
Connecting.v
ConnectingFacts.v
Transport.v
Reactor.v
LoopSteps.v
EventManager.v
EventManagerFacts.v
EventLoop.v
LoopRun.v
LoopThread.v
Connector.v
NetAddress.v
Sockets.v
Acceptor.v
RpcCodec.v
RpcChannel.v
Logger.v
LoggerFacts.v
LogFiles.v
ConnApi.v
ChatRoom.v
Http.v
HttpFacts.v
RpcStack.v
RpcSync.v
SimpleServers.v
Pingpong.v
MemoryPool.v
MemoryPoolFacts.v
ConnectionPool.v
SpinLock.v
ReactorManager.v
Apps.v
