(* ===== verification/Prelude.v ===== *)
(** * Verification of taotu, a Reactor network library on io_uring

    taotu (src/src/, C++17) is a network library in the style of muduo. Each I/O
    thread runs an [EventManager]: a loop around a [Poller], which submits
    requests to io_uring and dispatches their completions, with a [Timer] for
    time tasks. An [Acceptor] accepts connections in the main thread, a
    [Balancer] spreads them over the loops, each becomes a [Connecting] with
    [IoBuffer]s for its input and output. On the client's side a [Connector]
    opens the connection. [ServerReactorManager] and [ClientReactorManager] put
    these together. On top of it are an RPC codec and RPC channels; a logger, a
    thread pool and a spin lock serve all of them.

    ** The files

    - Prelude (this file): machine integers with their wrap-around, the result
      monad with the faults of C++ (out of bounds, null, [length_error], exit),
      lists indexed by [Z], raw memory, byte order. Shared by all files. Text has
      string literals and decimal numbers.
    - IoBuffer: src/io_buffer.cc. The record has the vector and both indexes;
      [readable] is the abstraction to a queue of bytes, [wf] the invariant.
    - Framing: streams of frames and the reads they arrive in, shared by the
      codecs of ChatRoom and RpcStack.
    - Timer: src/timer.cc, src/time_point.cc. Tasks in key order.
    - Balancer: src/balancer.cc. Loops are represented by their loads.
    - Poller: src/eventer.cc and src/poller.cc. liburing is the class [Ring];
      contexts, completion functions and callbacks are the class [Handlers].
      PollerFacts has the invariants and properties.
    - Connecting: src/connecting.cc against the interface [PollerApi], whose
      laws are [PollerSpec]; ConnectingFacts proves the properties against the
      interface and gives [Poller] as its instance. Transport puts two
      connections and the bytes between them together. Reactor puts any number
      of connections, known by their addresses, on one Poller, with their
      construction and destruction and callbacks that use other connections.
    - EventManager: src/event_manager.cc. Closures are names with their code in
      the class [EmHandlers]; what one [Poll] does is given with every round.
      Properties in EventManagerFacts. LoopThread has the thread of the loop:
      [Loop], [Work], [Join], [Quit] and the destructor as interleaved steps.
      EventLoop has the table of connections and the pass that destroys the
      closed ones on the connections and the poller of Reactor; LoopRun has the
      whole of [Start] on them, [Poll], active eventers and time tasks included.
      LoopSteps has what both share: properties of all connections of a loop
      seen from one of them, and that methods and completions keep them.
    - Connector: src/connector.cc as a state machine with ledgers of
      descriptors.
    - NetAddress: src/net_address.cc and the creation of sockets in
      src/socketer.cc; Sockets: the other operations of src/socketer.cc, the
      set-up of the listening socket and the addresses of connections.
    - Acceptor: src/acceptor.cc on top of Poller; the new-connection callback is
      the class [AcceptorCallback], a function on the whole state.
    - RpcCodec: src/rpc_codec.cc on top of IoBuffer; adler32 and protobuf are the
      class [Wire].
    - RpcChannel: src/rpc_channel.cc and the service table of src/rpc_server.cc.
      RpcStack puts channel, codec and connection together, with the connection
      callback of src/rpc_server.cc and the default error callbacks. RpcSync has
      the blocking channel on its socket, and the time service of
      example/rpc_demo.
    - Logger, LoggerFacts: the ring of src/logger.cc as interleaved steps of its
      threads. LogFiles: src/logger.cc and src/logger.h at the level of calls,
      with the files on disk.
    - ConnApi: what the programs under example/ use of a connection, as an
      interface with its laws. On top of it ChatRoom (example/chat_room), Http
      and HttpFacts (example/http_server; llhttp is the class [Llhttp]),
      SimpleServers (example/simple_echo, simple_discard, simple_time and the
      pingpong server) and Pingpong (example/pingpong).
    - MemoryPool, MemoryPoolFacts: src/memory_pool.h and src/object_pool.h on a
      byte-addressed heap. ConnectionPool: the loops of a server with the object
      pool of its connections (src/reactor_manager.h, src/event_manager.cc),
      proved against the interface [PoolLaws], whose instance is MemoryPool's.
    - SpinLock: src/spin_lock.h, as interleaved steps.
    - ReactorManager: src/reactor_manager.cc with src/server.cc and src/client.cc.
      The slots of the vector of event managers are pointers, which may be equal;
      accepted descriptors go through the timers of the managers.
    - Apps: the [main] functions under example/, from their arguments through
      construction and [Start] to the destructors.

    ** How code becomes definitions

    A class is a record of its members, a method a function from the state to
    the state (and its result); members keep their names. Operations that can
    leave defined behaviour, throw or end the process return [result]. The
    answers of system calls, readings of the clock, spurious failures and the
    choice which thread runs next are arguments, so that the theorems hold for
    all of them. Integers are [Z] with the wrap-around of their type written
    out. Locks held for the length of one access make that access one step;
    the logger and the spin lock, where the order of single accesses matters, are
    modelled access by access, with sequentially
    consistent atomics. Members added to a record to observe the program (the
    descriptors closed, the records taken, the log of calls) are named in its
    comment; no operation reads them.

    ** What is proved

    Properties carry the ids C1, C2, ... in the comment above the theorem.
    - Buffers: any sequence of operations that keeps their contracts is a byte
      queue (refinement); the exact outcome of [Append] and [ReadFromFd] on every
      well-formed buffer, the faulting compaction included; integers read back.
    - Timer and balancer: tasks are conserved and expire exactly when due; loops
      are picked in turn, or the least loaded one.
    - Poller: every interest is polled, cancelled contexts are freed once, one
      call handles a bounded batch in order, ring set-up.
    - Connections: the output is the concatenation of what was sent, at most one
      request per direction is in flight, reads deliver what arrived, closing
      happens once. Two connections joined by a byte stream: what one side was
      told to send is what the other takes, then its input buffer, the bytes
      under way and the backlog. Both hold on connections that read and write,
      called from their callbacks and beside other users of the poller; the
      methods and completions that break the order (stopping while a request is
      in flight, [ConnectingFacts.stop_reading_reorders]) are excluded by
      [open_method] and by the rules of [out_run] and [in_run]. All connections
      of a loop on one poller: a completion that runs finds the live connection
      that waits for it.
    - Event loop: after [Quit] the loop returns with its connections destroyed;
      periodic tasks; wake-ups; the loop runs once, has a thread to be joined or
      a caller that waits, and nothing of it is left after the destructor. Where
      draining ends within a number of rounds, the destructor returns. No
      connection is lost: a closed one is on the list, and the next pass destroys
      it with its entry, its eventer and its requests. Once [should_quit_] is
      seen, [Start] on the connections and the poller themselves ends within 1001
      rounds of draining with all connections destroyed, if neither the callbacks
      nor the poller's other users open a connection meanwhile ([StopsQuietly],
      which a connector does not satisfy: [LoopRun.drain_waits_for_open]).
    - Connector, acceptor, engines: every descriptor is accounted for; an acceptor
      that listens has one accept request and hands on what it accepts, through
      the callback, until the submission queue is full; with two slots or more
      accepted connections are spread in turn over the managers in the slots
      behind the first; the client's stop.
    - RPC: frames are delivered exactly once and in order for any split of the
      stream, rejected frames, the blocking receiver; every call is finished at
      most once and by its own response; error replies. Through channel, codec
      and connection on both sides a batch of calls is served and answered,
      each call by its own response; a blocking call against such a server
      returns with its response, however the stream is cut.
    - Logger: the file is the sequence of records taken, for every interleaving;
      the writer does not sleep over records; a session from [START_LOG] to
      [END_LOG] that does not fill the ring cuts its lines into files as the limit
      demands, of which the last two and the named first one stay, since names
      are reused; the process ends exactly when the last call was [END_LOG].
    - Pools: the memory pool refines an abstract allocator, hands out the same
      addresses as a pool with an explicit free list, and frees every chunk;
      objects survive until they are deleted. The blocks in use in the pool of a
      server are exactly the addresses of the live connections of its loops, and
      a pass gives back those of the connections it destroys. Spin lock: mutual
      exclusion.
    - Examples: what is typed at one chat client is printed by every other
      member's, the requests of an HTTP connection that arrive one whole request
      to a read get their replies in order from its establishment on, rendering
      equals the reference text, the time server's text reads back, pingpong
      keeps its bytes in play and reports once. Which server programs serve, on
      which numbers of threads.
    Theorems without an id state further facts about the same operations, among
    them the outcomes behind the findings. Each property with hypotheses is
    applied to a concrete state by the lemma of the same name that ends in
    [_witness].

    ** Bounds and fuel

    - [strtoull], the wake-up drain, [await] and [OnMessage] have fuel or a list
      of answers; [OnMessage]'s fuel is one more than the bytes in the buffer,
      and [RpcCodec.decode_enough] shows that more changes nothing, since each
      round takes a byte. Loops that wait for the kernel (exact reads, the main
      loop) run over a given list of answers or rounds, and say so when it is
      used up; [LoopRun.loop_shuts_down] and [EventManagerFacts.start_returns]
      show how many rounds are enough to drain a loop that quits.
    - Decimal numbers have fuel for 20 digits, which is enough for 64 bits
      ([HttpFacts.dec_value_dec]); the loop of the memory pool's destructor has
      its rounds as fuel, and [pool_destructor_frees_all] shows that the number
      of chunks is enough.
    - Counters of 64 bits are taken to be below their limits where a theorem
      says so: fewer than 2^62 steps for the logger, fewer than 2^64 calls or
      keys for the channels and the poller.

    ** Not modelled

    The thread pool: nothing in the library uses it, and its [AddTask], which
    every use needs, cannot be instantiated (it returns [std::nullopt] where a
    future is expected), so that there is no behaviour to describe. Callbacks
    that only log, the texts of error numbers and of connection states
    in log lines, the floating-point averages the pingpong client prints,
    generated protobuf code, liburing, llhttp, zlib and the kernel beyond the
    answers of its calls; weak memory orders; concurrent calls of methods that
    the source does not protect. [NonCopyableMovable] has no behaviour. What single
    system calls do is given by their documentation. [std::unordered_map] and
    [std::unordered_set] are finite maps and sets; where the source iterates over
    one, the order is that of its elements in Rocq's representation. The bytes of
    a connection in the object pool are not related to the record of its members.
    In the runs of Reactor and EventLoop a completion of a multishot read that
    announces more completions is left out: there the properties fail, as
    [Reactor.Concrete.multishot_outlives_its_connection] shows. LoopRun and
    ConnectionPool allow it.

    ** Plan

    Every class of the library is modelled. What could follow is to put the
    engines on top of LoopRun: the acceptor's and the connector's completion
    functions as the poller's other users, and several loops with the calls they
    make on each other as steps of one system. *)

From stdpp Require Import prelude gmap list.
From coqutil Require Import Byte Word.LittleEndianList.

#[export] Set Default Goal Selector "!".
Open Scope Z_scope.

(** ** Machine integers

    A w-bit integer is a [Z]; the wrap-around of its type is written out where
    the source computes in that type. *)

Definition u16 (z : Z) : Z := z mod 2 ^ 16.
Definition u32 (z : Z) : Z := z mod 2 ^ 32.
Definition u64 (z : Z) : Z := z mod 2 ^ 64.

(** Two's complement reading of the low [bits] bits. *)
Definition sext (bits : Z) (z : Z) : Z :=
  (z + 2 ^ (bits - 1)) mod 2 ^ bits - 2 ^ (bits - 1).
Definition s8 : Z -> Z := sext 8.
Definition s16 : Z -> Z := sext 16.
Definition s32 : Z -> Z := sext 32.
Definition s64 : Z -> Z := sext 64.

Declare Scope size_t_scope.
Delimit Scope size_t_scope with size_t.
Notation "x +u y" := (u64 (x + y)) (at level 50, left associativity) : size_t_scope.
Notation "x -u y" := (u64 (x - y)) (at level 50, left associativity) : size_t_scope.
Open Scope size_t_scope.

Lemma u64_small z : 0 <= z < 2 ^ 64 -> u64 z = z.
Proof. apply Z.mod_small. Qed.

Lemma u64_range z : 0 <= u64 z < 2 ^ 64.
Proof. by apply Z.mod_pos_bound. Qed.

Lemma u64_wrap_neg z : - 2 ^ 64 <= z < 0 -> u64 z = z + 2 ^ 64.
Proof.
  intros. unfold u64. rewrite <- (Z.mod_add _ 1) by lia.
  apply Z.mod_small. lia.
Qed.

Lemma sext_small bits z :
  0 < bits -> - 2 ^ (bits - 1) <= z < 2 ^ (bits - 1) -> sext bits z = z.
Proof.
  intros Hb Hz. unfold sext.
  assert (2 ^ bits = 2 * 2 ^ (bits - 1)) as Hp.
  { rewrite <- Z.pow_succ_r by lia. f_equal. lia. }
  rewrite Z.mod_small; lia.
Qed.

(** The signed reading only depends on the value modulo [2 ^ bits]. *)
Lemma sext_mod bits z : sext bits (z mod 2 ^ bits) = sext bits z.
Proof. unfold sext. by rewrite Zplus_mod_idemp_l. Qed.

Lemma mod_sext bits z : sext bits z mod 2 ^ bits = z mod 2 ^ bits.
Proof. unfold sext. rewrite Zminus_mod_idemp_l. f_equal. lia. Qed.

Lemma s64_add a b : s64 (s64 a + b) = s64 (a + b).
Proof.
  unfold s64. rewrite <- (sext_mod 64 (sext 64 a + b)), <- (sext_mod 64 (a + b)).
  rewrite Zplus_mod, mod_sext, <- Zplus_mod. done.
Qed.

Lemma sext_range bits z :
  0 < bits -> - 2 ^ (bits - 1) <= sext bits z < 2 ^ (bits - 1).
Proof.
  intros Hb. unfold sext.
  assert (2 ^ bits = 2 * 2 ^ (bits - 1)) as Hp.
  { rewrite <- Z.pow_succ_r by lia. f_equal. lia. }
  assert (0 < 2 ^ (bits - 1)) by (apply Z.pow_pos_nonneg; lia).
  pose proof (Z.mod_pos_bound (z + 2 ^ (bits - 1)) (2 ^ bits)). lia.
Qed.

(** ** Results

    An operation of the source either returns, or leaves the behaviour that
    the language defines ([OutOfBounds]: an access outside of an object or
    through an invalid index, [NullPointer]: a dereferenced null pointer or an
    empty callback), or throws ([LengthError]: a vector asked for more than
    [max_size] elements), or ends the process ([ExitFailure]). *)

Inductive fault := OutOfBounds | NullPointer | LengthError | ExitFailure.

Inductive result (A : Type) := Ok (a : A) | Fault (f : fault).
Arguments Ok {A} a.
Arguments Fault {A} f.

#[export] Instance byte_eq_dec : EqDecision byte := Byte.byte_eq_dec.

#[export] Instance fault_eq_dec : EqDecision fault.
Proof. solve_decision. Defined.

#[export] Instance result_ret : MRet result := fun A a => Ok a.
#[export] Instance result_bind : MBind result :=
  fun A B k m => match m with Ok a => k a | Fault f => Fault f end.

Lemma result_bind_ok {A B} (m : result A) (k : A -> result B) b :
  m ≫= k = Ok b -> exists a, m = Ok a /\ k a = Ok b.
Proof. destruct m; simpl; intros H; [eauto | done]. Qed.

(** Splits every [x ← m; k = Ok _] hypothesis into its successful steps. *)
Ltac bind_ok :=
  repeat match goal with
  | H : (_ ≫= _) = Ok _ |- _ =>
      let a := fresh "a" in let Ha := fresh "Hok" in let Hk := fresh "Hok" in
      apply result_bind_ok in H as (a & Ha & Hk)
  | H : Ok _ = Ok _ |- _ => progress simplify_eq
  | H : Fault _ = Ok _ |- _ => discriminate H
  | H : (let '(_, _) := ?p in _) = Ok _ |- _ => destruct p eqn:?
  end.

(** ** Boolean guards *)

Lemma Zltb_cases (a b : Z) : (a <? b) = true /\ a < b \/ (a <? b) = false /\ b <= a.
Proof. destruct (Z.ltb_spec a b); auto. Qed.

(** Case analysis on the comparisons of the source, with their arithmetic
    meaning as a hypothesis. *)
Ltac case_cmp :=
  match goal with
  | |- context [Z.ltb ?a ?b] => destruct (Z.ltb_spec a b)
  | |- context [Z.leb ?a ?b] => destruct (Z.leb_spec a b)
  | |- context [Z.eqb ?a ?b] => destruct (Z.eqb_spec a b)
  | H : context [Z.ltb ?a ?b] |- _ => destruct (Z.ltb_spec a b)
  | H : context [Z.leb ?a ?b] |- _ => destruct (Z.leb_spec a b)
  | H : context [Z.eqb ?a ?b] |- _ => destruct (Z.eqb_spec a b)
  end.
Ltac cases_cmp := repeat (case_cmp; simpl in *; try lia; try done).

(** ** Lists indexed by [Z] *)

Definition zlen {A} (l : list A) : Z := Z.of_nat (length l).
Definition ztake {A} (n : Z) (l : list A) : list A := take (Z.to_nat n) l.
Definition zdrop {A} (n : Z) (l : list A) : list A := drop (Z.to_nat n) l.
Definition zlookup {A} (n : Z) (l : list A) : option A :=
  if n <? 0 then None else l !! Z.to_nat n.
(** The segment [l[pos, pos + len)]. *)
Definition zslice {A} (pos len : Z) (l : list A) : list A := ztake len (zdrop pos l).

Create Rewrite HintDb zlist.

Lemma zlen_nonneg {A} (l : list A) : 0 <= zlen l.
Proof. unfold zlen. lia. Qed.

Lemma zlen_nonpos {A} (l : list A) : zlen l <= 0 -> l = [].
Proof. destruct l; [done|]. unfold zlen. simpl. lia. Qed.

Lemma zlen_nil {A} : zlen (@nil A) = 0.
Proof. done. Qed.

Lemma zlen_cons {A} (x : A) l : zlen (x :: l) = 1 + zlen l.
Proof. unfold zlen. simpl. lia. Qed.

Lemma zlen_app {A} (l k : list A) : zlen (l ++ k) = zlen l + zlen k.
Proof. unfold zlen. rewrite length_app. lia. Qed.

Lemma zlen_zero {A} (l : list A) : zlen l = 0 -> l = [].
Proof. unfold zlen. destruct l; simpl; [done | lia]. Qed.

Lemma zlen_ztake {A} n (l : list A) : 0 <= n -> zlen (ztake n l) = Z.min n (zlen l).
Proof. intros. unfold zlen, ztake. rewrite length_take. lia. Qed.

Lemma zlen_zdrop {A} n (l : list A) : 0 <= n -> zlen (zdrop n l) = Z.max 0 (zlen l - n).
Proof. intros. unfold zlen, zdrop. rewrite length_drop. lia. Qed.

Lemma zlen_zslice {A} pos len (l : list A) :
  0 <= pos -> 0 <= len -> pos + len <= zlen l -> zlen (zslice pos len l) = len.
Proof. intros. unfold zslice. rewrite zlen_ztake, zlen_zdrop; lia. Qed.

Lemma ztake_zdrop {A} n (l : list A) : ztake n l ++ zdrop n l = l.
Proof. apply take_drop. Qed.

Lemma ztake_0 {A} (l : list A) : ztake 0 l = [].
Proof. done. Qed.

Lemma zdrop_0 {A} (l : list A) : zdrop 0 l = l.
Proof. done. Qed.

Lemma ztake_all {A} n (l : list A) : zlen l <= n -> ztake n l = l.
Proof. unfold zlen, ztake. intros. apply take_ge. lia. Qed.

Lemma zdrop_all {A} n (l : list A) : zlen l <= n -> zdrop n l = [].
Proof. unfold zlen, zdrop. intros. apply drop_ge. lia. Qed.

Lemma zdrop_zdrop {A} n m (l : list A) :
  0 <= n -> 0 <= m -> zdrop n (zdrop m l) = zdrop (m + n) l.
Proof. intros. unfold zdrop. rewrite drop_drop. f_equal. lia. Qed.

Lemma ztake_app_l {A} n (l k : list A) : n <= zlen l -> ztake n (l ++ k) = ztake n l.
Proof. unfold zlen, ztake. intros. apply take_app_le. lia. Qed.

Lemma ztake_app_exact {A} (l k : list A) : ztake (zlen l) (l ++ k) = l.
Proof. unfold zlen, ztake. rewrite Nat2Z.id. apply take_app_length. Qed.

Lemma zdrop_app_exact {A} (l k : list A) : zdrop (zlen l) (l ++ k) = k.
Proof. unfold zlen, zdrop. rewrite Nat2Z.id. apply drop_app_length. Qed.

Lemma zdrop_app_l {A} n (l k : list A) : n <= zlen l -> zdrop n (l ++ k) = zdrop n l ++ k.
Proof. unfold zlen, zdrop. intros. apply drop_app_le. lia. Qed.

Lemma zdrop_app_r {A} n (l k : list A) : zlen l <= n -> zdrop n (l ++ k) = zdrop (n - zlen l) k.
Proof.
  unfold zlen, zdrop. intros. rewrite drop_app_ge by lia. f_equal. lia.
Qed.

Lemma ztake_app_r {A} n (l k : list A) :
  zlen l <= n -> ztake n (l ++ k) = l ++ ztake (n - zlen l) k.
Proof.
  unfold zlen, ztake. intros. rewrite take_app_ge by lia. do 2 f_equal. lia.
Qed.

Lemma zdrop_ztake {A} n m (l : list A) :
  0 <= n -> zdrop n (ztake (n + m) l) = ztake m (zdrop n l).
Proof.
  intros. destruct (Z.le_gt_cases 0 m) as [Hm | Hm].
  - unfold zdrop, ztake. rewrite skipn_firstn_comm. f_equal. lia.
  - unfold zdrop, ztake. replace (Z.to_nat m) with 0%nat by lia. simpl.
    apply drop_ge. rewrite length_take. lia.
Qed.

Lemma ztake_ztake {A} n m (l : list A) : ztake n (ztake m l) = ztake (Z.min n m) l.
Proof. unfold ztake. rewrite take_take. f_equal. lia. Qed.

Lemma zlen_replicate {A} n (x : A) : 0 <= n -> zlen (replicate (Z.to_nat n) x) = n.
Proof. intros. unfold zlen. rewrite length_replicate. lia. Qed.

#[export] Hint Rewrite @zlen_nil @zlen_cons @zlen_app @ztake_0 @zdrop_0
  @ztake_app_exact @zdrop_app_exact : zlist.
#[export] Hint Rewrite @zlen_ztake @zlen_zdrop @zlen_replicate using lia : zlist.

Ltac zlist := autorewrite with zlist in *; try lia; try done.

Lemma zlookup_Some {A} i (l : list A) x :
  zlookup i l = Some x <-> 0 <= i /\ l !! Z.to_nat i = Some x.
Proof.
  unfold zlookup. destruct (Z.ltb_spec i 0); split; [done | lia | auto with lia | tauto].
Qed.

(** ** Raw memory

    The memory of one object (the storage of a [std::vector<char>], a C array)
    is a list of bytes. [memcpy], [memmove] and the string constructors go
    through these two accessors, which fault when the range leaves the
    object. *)

Definition mem_read (l : list byte) (pos len : Z) : result (list byte) :=
  if (0 <=? pos) && (0 <=? len) && (pos + len <=? zlen l)
  then Ok (zslice pos len l) else Fault OutOfBounds.

Definition mem_write (l : list byte) (pos : Z) (bs : list byte) : result (list byte) :=
  if (0 <=? pos) && (pos + zlen bs <=? zlen l)
  then Ok (ztake pos l ++ bs ++ zdrop (pos + zlen bs) l) else Fault OutOfBounds.

Lemma mem_read_ok l pos len :
  0 <= pos -> 0 <= len -> pos + len <= zlen l -> mem_read l pos len = Ok (zslice pos len l).
Proof. intros. unfold mem_read. cases_cmp. Qed.

Lemma mem_write_ok l pos bs :
  0 <= pos -> pos + zlen bs <= zlen l ->
  mem_write l pos bs = Ok (ztake pos l ++ bs ++ zdrop (pos + zlen bs) l).
Proof. intros. unfold mem_write. cases_cmp. Qed.

Lemma mem_write_oob l pos bs : zlen l < pos + zlen bs -> mem_write l pos bs = Fault OutOfBounds.
Proof. intros. unfold mem_write. cases_cmp; by rewrite ?andb_false_r. Qed.

(** A written segment reads back, and the memory before it is untouched. *)
Lemma zslice_written {A} (l : list A) pos (bs : list A) :
  0 <= pos -> pos + zlen bs <= zlen l ->
  zslice pos (zlen bs) (ztake pos l ++ bs ++ zdrop (pos + zlen bs) l) = bs.
Proof.
  intros Hp Hl. pose proof (zlen_nonneg bs). unfold zslice.
  rewrite zdrop_app_r by (rewrite zlen_ztake; lia).
  rewrite zlen_ztake by lia. replace (pos - Z.min pos (zlen l)) with 0 by lia.
  by rewrite zdrop_0, ztake_app_exact.
Qed.

Lemma zslice_before_written {A} (l : list A) pos (bs : list A) i n :
  0 <= i -> 0 <= n -> i + n <= pos -> pos <= zlen l ->
  zslice i n (ztake pos l ++ bs ++ zdrop (pos + zlen bs) l) = zslice i n l.
Proof.
  intros. unfold zslice at 1 2.
  rewrite zdrop_app_l by (rewrite zlen_ztake; lia).
  rewrite ztake_app_l by (rewrite zlen_zdrop, zlen_ztake; lia).
  replace pos with (i + (pos - i)) by lia.
  rewrite zdrop_ztake by lia. rewrite ztake_ztake. f_equal. lia.
Qed.

Lemma zlen_written {A} (l : list A) pos (bs : list A) :
  0 <= pos -> pos + zlen bs <= zlen l ->
  zlen (ztake pos l ++ bs ++ zdrop (pos + zlen bs) l) = zlen l.
Proof. intros. pose proof (zlen_nonneg bs). zlist. Qed.

(** Two adjacent segments make one. *)
Lemma zslice_app {A} pos n m (l : list A) :
  0 <= pos -> 0 <= n -> 0 <= m ->
  zslice pos n l ++ zslice (pos + n) m l = zslice pos (n + m) l.
Proof.
  intros. unfold zslice. rewrite <- (zdrop_zdrop n pos) by lia.
  set (k := zdrop pos l). rewrite <- zdrop_ztake by lia.
  rewrite <- (ztake_zdrop n (ztake (n + m) k)) at 2.
  rewrite ztake_ztake. do 2 f_equal. lia.
Qed.

Lemma zdrop_zslice {A} pos n len (l : list A) :
  0 <= pos -> 0 <= n <= len -> zdrop n (zslice pos len l) = zslice (pos + n) (len - n) l.
Proof.
  intros. unfold zslice. replace len with (n + (len - n)) at 1 by lia.
  rewrite zdrop_ztake by lia. by rewrite zdrop_zdrop by lia.
Qed.

Lemma ztake_zslice {A} pos n len (l : list A) :
  0 <= n <= len -> ztake n (zslice pos len l) = zslice pos n l.
Proof. intros. unfold zslice. rewrite ztake_ztake. f_equal. lia. Qed.

Lemma zslice_0 {A} pos (l : list A) : zslice pos 0 l = [].
Proof. done. Qed.

(** A string as [%s] reads it through its [c_str()]: up to the first zero byte. *)
Fixpoint c_str (m : list byte) : list byte :=
  match m with
  | [] => []
  | b :: m => if Byte.eqb b Byte.x00 then [] else b :: c_str m
  end.

(** [std::vector<char>::resize]: new elements are value-initialised; the
    largest size of a [vector<char>] is that of [ptrdiff_t]. *)
Definition vector_max_size : Z := 2 ^ 63 - 1.

Definition vector_resize (l : list byte) (n : Z) : result (list byte) :=
  if vector_max_size <? n then Fault LengthError
  else Ok (ztake n l ++ replicate (Z.to_nat (n - zlen l)) Byte.x00).

Lemma vector_resize_grow l n :
  zlen l <= n <= vector_max_size ->
  vector_resize l n = Ok (l ++ replicate (Z.to_nat (n - zlen l)) Byte.x00).
Proof.
  intros. unfold vector_resize. cases_cmp. by rewrite ztake_all by lia.
Qed.

(** ** Byte order

    The host stores integers in one of two orders; [htobeN] and [beNtoh] are
    the macros of [<endian.h>] for that host, [store_int] and [load_int] the
    object representation [memcpy] copies. *)

Inductive byte_order := LittleEndian | BigEndian.
Class HostOrder := host_order : byte_order.

Section Endian.
Context `{HostOrder}.

Definition store_int (n : nat) (z : Z) : list byte :=
  match host_order with
  | LittleEndian => le_split n z
  | BigEndian => rev (le_split n z)
  end.

Definition load_int (bs : list byte) : Z :=
  match host_order with
  | LittleEndian => le_combine bs
  | BigEndian => le_combine (rev bs)
  end.

Definition bswap (n : nat) (z : Z) : Z := le_combine (rev (le_split n z)).

Definition htobe (n : nat) (z : Z) : Z :=
  match host_order with
  | LittleEndian => bswap n z
  | BigEndian => z mod 2 ^ (Z.of_nat n * 8)
  end.
Definition betoh (n : nat) (z : Z) : Z := htobe n z.

(** The big-endian representation, whatever the host. *)
Definition be_bytes (n : nat) (z : Z) : list byte := rev (le_split n z).
Definition be_value (bs : list byte) : Z := le_combine (rev bs).

Lemma length_be_bytes n z : length (be_bytes n z) = n.
Proof. unfold be_bytes. by rewrite length_rev, length_le_split. Qed.

Lemma zlen_be_bytes n z : zlen (be_bytes n z) = Z.of_nat n.
Proof. unfold zlen. by rewrite length_be_bytes. Qed.

Lemma length_store_int n z : length (store_int n z) = n.
Proof.
  unfold store_int. destruct host_order; rewrite ?length_rev; apply length_le_split.
Qed.

Lemma zlen_store_int n z : zlen (store_int n z) = Z.of_nat n.
Proof. unfold zlen. by rewrite length_store_int. Qed.

Lemma store_int_mod n z : store_int n (z mod 2 ^ (Z.of_nat n * 8)) = store_int n z.
Proof. unfold store_int. by rewrite <- le_split_mod. Qed.

(** Storing [htobe x] puts the big-endian bytes of [x] in memory. *)
Lemma store_htobe n z : store_int n (htobe n z) = be_bytes n z.
Proof.
  unfold store_int, htobe, be_bytes, bswap. destruct host_order.
  - apply split_le_combine'. by rewrite length_rev, length_le_split.
  - by rewrite <- le_split_mod.
Qed.

(** Reading memory and applying [betoh] gives the big-endian value. *)
Lemma betoh_load n bs : length bs = n -> betoh n (load_int bs) = be_value bs.
Proof.
  intros Hn. unfold betoh, htobe, load_int, be_value, bswap. destruct host_order.
  - by rewrite split_le_combine'.
  - rewrite Z.mod_small; [done |].
    pose proof (le_combine_bound (rev bs)). rewrite length_rev in *.
    subst n. by rewrite (Z.mul_comm _ 8).
Qed.

Lemma be_value_bytes n z : be_value (be_bytes n z) = z mod 2 ^ (Z.of_nat n * 8).
Proof. unfold be_value, be_bytes. rewrite rev_involutive. apply le_combine_split. Qed.

Lemma be_bytes_mod n z : be_bytes n (z mod 2 ^ (Z.of_nat n * 8)) = be_bytes n z.
Proof. unfold be_bytes. by rewrite <- le_split_mod. Qed.

(** An integer written through [htobeN] with the casts of the source. *)
Lemma store_signed_htobe n z :
  store_int n (sext (Z.of_nat n * 8) (htobe n (z mod 2 ^ (Z.of_nat n * 8)))) = be_bytes n z.
Proof. by rewrite <- store_int_mod, mod_sext, store_int_mod, store_htobe, be_bytes_mod. Qed.

Lemma betoh_mod n z : betoh n (z mod 2 ^ (Z.of_nat n * 8)) = betoh n z.
Proof.
  unfold betoh, htobe, bswap. destruct host_order.
  - by rewrite <- le_split_mod.
  - apply Z.mod_mod. apply Z.pow_nonzero; lia.
Qed.

(** An integer read through [beNtoh] with the casts of the source. *)
Lemma load_signed_betoh n bs :
  length bs = n ->
  sext (Z.of_nat n * 8)
    (betoh n (sext (Z.of_nat n * 8) (load_int bs) mod 2 ^ (Z.of_nat n * 8)))
  = sext (Z.of_nat n * 8) (be_value bs).
Proof. intros Hn. by rewrite mod_sext, betoh_mod, betoh_load. Qed.

Lemma signed_be_roundtrip n z :
  sext (Z.of_nat n * 8) (be_value (be_bytes n z)) = sext (Z.of_nat n * 8) z.
Proof. by rewrite be_value_bytes, sext_mod. Qed.

End Endian.

(** The hosts taotu is built for (Linux on x86-64 and AArch64) are
    little-endian; statements are proved for both orders. *)
Definition x86_host : HostOrder := LittleEndian.
