(* ===== verification/IoBuffer.v ===== *)
(** * The I/O buffer

    Model of class [IoBuffer] (src/io_buffer.h, src/io_buffer.cc): the storage
    vector and the two indexes as the class keeps them, every public and
    private member function, and the kernel's answers to [recvmsg], [recv] and
    [send] as arguments. Pointers into the buffer are offsets from its begin. *)

From stdpp Require Import prelude list.
From coqutil Require Import Byte Word.LittleEndianList.
From S2P Require Import Prelude.

(** ** State *)

Record IoBuffer := mkIoBuffer {
  buffer_ : list byte;
  reading_index_ : Z;
  writing_index_ : Z;
}.

Definition kReservedCapacity : Z := 8.
Definition kInitialCapacity : Z := 1024.

Definition IoBuffer_new (initial_capacity : Z) : IoBuffer :=
  mkIoBuffer (replicate (Z.to_nat (kReservedCapacity + initial_capacity)) Byte.x00)
             kReservedCapacity kReservedCapacity.

Definition Swap (a b : IoBuffer) : IoBuffer * IoBuffer :=
  (mkIoBuffer (buffer_ b) (reading_index_ b) (writing_index_ b),
   mkIoBuffer (buffer_ a) (reading_index_ a) (writing_index_ a)).

(** ** Sizes and positions ([size_t] arithmetic) *)

Definition GetReadableBytes (b : IoBuffer) : Z := writing_index_ b -u reading_index_ b.
Definition GetWritableBytes (b : IoBuffer) : Z := zlen (buffer_ b) -u writing_index_ b.
Definition GetReservedBytes (b : IoBuffer) : Z := reading_index_ b.
Definition GetReadablePosition (b : IoBuffer) : Z := reading_index_ b.
Definition GetWritablePosition (b : IoBuffer) : Z := writing_index_ b.

(** ** Searching *)

Definition kCrlf : list byte := [Byte.x0d; Byte.x0a].

(** [memmem]: offset of the first occurrence of the needle. *)
Fixpoint memmem (hay needle : list byte) : option Z :=
  if decide (needle `prefix_of` hay) then Some 0
  else match hay with
       | [] => None
       | _ :: hay' => Z.succ <$> memmem hay' needle
       end.

(** [memchr]: offset of the first occurrence of the byte. *)
Fixpoint memchr (hay : list byte) (c : byte) : option Z :=
  match hay with
  | [] => None
  | x :: hay' => if decide (x = c) then Some 0 else Z.succ <$> memchr hay' c
  end.

Definition FindCrlf_from (start_position : Z) (b : IoBuffer) : result (option Z) :=
  hay ← mem_read (buffer_ b) start_position (GetWritablePosition b -u start_position);
  Ok (Z.add start_position <$> memmem hay kCrlf).
Definition FindCrlf (b : IoBuffer) : result (option Z) :=
  hay ← mem_read (buffer_ b) (GetReadablePosition b) (GetReadableBytes b);
  Ok (Z.add (GetReadablePosition b) <$> memmem hay kCrlf).
Definition FindEof_from (start_position : Z) (b : IoBuffer) : result (option Z) :=
  hay ← mem_read (buffer_ b) start_position (GetWritablePosition b -u start_position);
  Ok (Z.add start_position <$> memchr hay Byte.x0a).
Definition FindEof (b : IoBuffer) : result (option Z) :=
  hay ← mem_read (buffer_ b) (GetReadablePosition b) (GetReadableBytes b);
  Ok (Z.add (GetReadablePosition b) <$> memchr hay Byte.x0a).

(** ** Index updates *)

Definition RefreshRW (b : IoBuffer) : IoBuffer :=
  mkIoBuffer (buffer_ b) kReservedCapacity kReservedCapacity.
Definition RefreshW (len : Z) (b : IoBuffer) : IoBuffer :=
  mkIoBuffer (buffer_ b) (reading_index_ b) (writing_index_ b +u len).
Definition Refresh (len : Z) (b : IoBuffer) : IoBuffer :=
  if len <? GetReadableBytes b
  then mkIoBuffer (buffer_ b) (reading_index_ b +u len) (writing_index_ b)
  else RefreshRW b.

(** ** Reading content *)

Definition RetrieveAString (len : Z) (b : IoBuffer) : result (list byte * IoBuffer) :=
  if GetReadableBytes b <? len then Ok ([], b)
  else ret ← mem_read (buffer_ b) (GetReadablePosition b) len;
       Ok (ret, Refresh len b).
Definition RetrieveAllAsString (b : IoBuffer) : result (list byte * IoBuffer) :=
  RetrieveAString (GetReadableBytes b) b.
Definition RetrieveAByteArray (len : Z) (b : IoBuffer) : result (list byte * IoBuffer) :=
  if GetReadableBytes b <? len then Ok ([], b)
  else ret ← mem_read (buffer_ b) (GetReadablePosition b) len;
       Ok (ret, Refresh len b).

Section HostInts.
Context `{HostOrder}.

Definition GetReadableInt8 (b : IoBuffer) : result Z :=
  if GetReadableBytes b <? 1 then Ok 0
  else bs ← mem_read (buffer_ b) (GetReadablePosition b) 1;
       Ok (s8 (load_int bs)).
Definition GetReadableInt16 (b : IoBuffer) : result Z :=
  if GetReadableBytes b <? 2 then Ok 0
  else bs ← mem_read (buffer_ b) (GetReadablePosition b) 2;
       let result := s16 (load_int bs) in
       Ok (s16 (betoh 2 (u16 result))).
Definition GetReadableInt32 (b : IoBuffer) : result Z :=
  if GetReadableBytes b <? 4 then Ok 0
  else bs ← mem_read (buffer_ b) (GetReadablePosition b) 4;
       let result := s32 (load_int bs) in
       Ok (s32 (betoh 4 (u32 result))).
Definition GetReadableInt64 (b : IoBuffer) : result Z :=
  if GetReadableBytes b <? 8 then Ok 0
  else bs ← mem_read (buffer_ b) (GetReadablePosition b) 8;
       let result := s64 (load_int bs) in
       Ok (s64 (betoh 8 (u64 result))).

Definition RetrieveInt8 (b : IoBuffer) : result (Z * IoBuffer) :=
  result ← GetReadableInt8 b; Ok (result, Refresh 1 b).
Definition RetrieveInt16 (b : IoBuffer) : result (Z * IoBuffer) :=
  result ← GetReadableInt16 b; Ok (result, Refresh 2 b).
Definition RetrieveInt32 (b : IoBuffer) : result (Z * IoBuffer) :=
  result ← GetReadableInt32 b; Ok (result, Refresh 4 b).
Definition RetrieveInt64 (b : IoBuffer) : result (Z * IoBuffer) :=
  result ← GetReadableInt64 b; Ok (result, Refresh 8 b).

End HostInts.

(** ** Writing content *)

(** The memory right before the readable bytes is the optional header. *)
Definition SetHeadContent (str : list byte) (b : IoBuffer) : result IoBuffer :=
  if GetReservedBytes b <? zlen str then Ok b
  else let r := reading_index_ b -u zlen str in
       buf ← mem_write (buffer_ b) r str;
       Ok (mkIoBuffer buf r (writing_index_ b)).

(** The second branch moves the readable bytes to the front, sets the reading
    index, and only then recomputes the writing index from the indexes. *)
Definition ReserveWritableSpace (len : Z) (b : IoBuffer) : result IoBuffer :=
  if (GetWritableBytes b +u GetReservedBytes b) -u kReservedCapacity <? len then
    buf ← vector_resize (buffer_ b) (writing_index_ b +u len);
    Ok (mkIoBuffer buf (reading_index_ b) (writing_index_ b))
  else
    content ← mem_read (buffer_ b) (reading_index_ b) (GetReadableBytes b);
    buf ← mem_write (buffer_ b) kReservedCapacity content;
    let b1 := mkIoBuffer buf kReservedCapacity (writing_index_ b) in
    Ok (mkIoBuffer buf kReservedCapacity (reading_index_ b1 +u GetReadableBytes b1)).

Definition EnsureWritableSpace (len : Z) (b : IoBuffer) : result IoBuffer :=
  if GetWritableBytes b <? len then ReserveWritableSpace len b else Ok b.

Definition Append (str : list byte) (b : IoBuffer) : result IoBuffer :=
  b1 ← EnsureWritableSpace (zlen str) b;
  buf ← mem_write (buffer_ b1) (GetWritablePosition b1) str;
  Ok (RefreshW (zlen str) (mkIoBuffer buf (reading_index_ b1) (writing_index_ b1))).

Section HostAppends.
Context `{HostOrder}.

Definition SetHeadContentInt8 (x : Z) : IoBuffer -> result IoBuffer :=
  SetHeadContent (store_int 1 x).
Definition SetHeadContentInt16 (x : Z) : IoBuffer -> result IoBuffer :=
  SetHeadContent (store_int 2 (s16 (htobe 2 (u16 x)))).
Definition SetHeadContentInt32 (x : Z) : IoBuffer -> result IoBuffer :=
  SetHeadContent (store_int 4 (s32 (htobe 4 (u32 x)))).
Definition SetHeadContentInt64 (x : Z) : IoBuffer -> result IoBuffer :=
  SetHeadContent (store_int 8 (s64 (htobe 8 (u64 x)))).

Definition AppendInt8 (x : Z) : IoBuffer -> result IoBuffer :=
  Append (store_int 1 x).
Definition AppendInt16 (x : Z) : IoBuffer -> result IoBuffer :=
  Append (store_int 2 (s16 (htobe 2 (u16 x)))).
Definition AppendInt32 (x : Z) : IoBuffer -> result IoBuffer :=
  Append (store_int 4 (s32 (htobe 4 (u32 x)))).
Definition AppendInt64 (x : Z) : IoBuffer -> result IoBuffer :=
  Append (store_int 8 (s64 (htobe 8 (u64 x)))).

End HostAppends.

Definition ShrinkWritableSpace (len : Z) (b : IoBuffer) : result IoBuffer :=
  if len <=? 32 then Ok b
  else
    let buffer := IoBuffer_new kInitialCapacity in
    buffer ← EnsureWritableSpace ((kReservedCapacity +u GetReadableBytes b) +u len) buffer;
    content ← mem_read (buffer_ b) (GetReadablePosition b) (GetReadableBytes b);
    buffer ← Append content buffer;
    let '(self, _) := Swap b buffer in Ok self.

(** ** Kernel calls *)

(** What [recvmsg]/[recv] answer: an error number, or the bytes received (none
    at end of stream). *)
Inductive recv_answer := RecvError (errno : Z) | RecvBytes (data : list byte).

Definition kExtraBufferSize : Z := 64 * 1024.

(** Space the kernel sees through the two iovecs of [ReadFromFd]. *)
Definition ReadFromFd_space (b : IoBuffer) : Z :=
  let writable_bytes := s32 (GetWritableBytes b) in
  let iov_len0 := u64 writable_bytes in
  if writable_bytes <? kExtraBufferSize then iov_len0 + kExtraBufferSize else iov_len0.

(** Returns [n], the error number written to [*tmp_errno], and the buffer. *)
Definition ReadFromFd (answer : recv_answer) (b : IoBuffer)
    : result (Z * option Z * IoBuffer) :=
  let writable_bytes := s32 (GetWritableBytes b) in
  let iov_len0 := u64 writable_bytes in
  match answer with
  | RecvError errno => Ok (-1, Some errno, b)
  | RecvBytes data =>
      let n := zlen data in
      (* the kernel fills the first iovec, then the extra buffer *)
      buf ← mem_write (buffer_ b) (GetWritablePosition b) (ztake iov_len0 data);
      let b := mkIoBuffer buf (reading_index_ b) (writing_index_ b) in
      let extra_buffer := zdrop iov_len0 data in
      if n <=? u64 writable_bytes then
        Ok (n, None, RefreshW n b)
      else
        let b := mkIoBuffer (buffer_ b) (reading_index_ b) (zlen (buffer_ b)) in
        extra ← mem_read extra_buffer 0 (n -u writable_bytes);
        b ← Append extra b;
        Ok (n, None, b)
  end.

(** The loop of the second overload. It runs until [read_len] is zero; with a
    finite list of kernel answers it is either still [Reading] when they are
    used up or has [Finished]. *)
Inductive recv_loop :=
| Reading (read_len res : Z) (b : IoBuffer)
| Finished (res : Z) (b : IoBuffer) (unused : list recv_answer).

Fixpoint ReadFromFd_loop (answers : list recv_answer) (read_len res : Z) (b : IoBuffer)
    : result recv_loop :=
  if 0 <? read_len then
    match answers with
    | [] => Ok (Reading read_len res b)
    | answer :: rest =>
        '(bytes_read, b) ← match answer with
          | RecvError _ => Ok (-1, b)
          | RecvBytes data =>
              buf ← mem_write (buffer_ b) (GetWritablePosition b) (ztake read_len data);
              Ok (zlen (ztake read_len data),
                  mkIoBuffer buf (reading_index_ b) (writing_index_ b))
          end;
        ReadFromFd_loop rest (read_len -u bytes_read) (s64 (res + bytes_read))
          (RefreshW bytes_read b)
    end
  else Ok (Finished res b answers).

Definition ReadFromFd_exact (answers : list recv_answer) (read_len : Z) (b : IoBuffer)
    : result recv_loop :=
  b ← EnsureWritableSpace read_len b;
  ReadFromFd_loop answers read_len 0 b.

(** [send]'s result [n] is the kernel's; the bytes offered are the readable
    ones. *)
Definition WriteToFd (n : Z) (b : IoBuffer) : Z * IoBuffer :=
  (n, if 0 <? n then Refresh n b else b).

(** ** Invariant and abstraction *)

(** The indexes are ordered and inside the vector, and the writing index never
    falls below the reserved header space. *)
Record wf (b : IoBuffer) : Prop := mkWf {
  wf_reading : 0 <= reading_index_ b <= writing_index_ b;
  wf_writing : kReservedCapacity <= writing_index_ b <= zlen (buffer_ b);
  wf_size : zlen (buffer_ b) <= vector_max_size;
}.

(** The bytes between the indexes. *)
Definition readable (b : IoBuffer) : list byte :=
  zslice (reading_index_ b) (writing_index_ b - reading_index_ b) (buffer_ b).

(** [ReserveWritableSpace] takes its second branch for a request of [len]. *)
Definition compacts (len : Z) (b : IoBuffer) : bool :=
  (GetWritableBytes b <? len) &&
  (len <=? (GetWritableBytes b +u GetReservedBytes b) -u kReservedCapacity).

Create HintDb io_buffer.

Ltac unfold_sizes :=
  unfold GetReadableBytes, GetWritableBytes, GetReservedBytes, GetReadablePosition,
    GetWritablePosition in *.

(** Brings the inequalities of [wf b] into the context for [lia]. *)
Ltac wf_facts :=
  repeat match goal with
  | H : wf ?b |- _ =>
      let R := fresh "Hr" in let W := fresh "Hw" in let S := fresh "Hs" in
      pose proof (wf_reading _ H) as R; pose proof (wf_writing _ H) as W;
      pose proof (wf_size _ H) as S; revert H
  end; intros; unfold kReservedCapacity, vector_max_size in *; simpl in *.

Lemma GetReadableBytes_eq b : wf b -> GetReadableBytes b = writing_index_ b - reading_index_ b.
Proof. intros. wf_facts. unfold_sizes. apply u64_small. lia. Qed.

Lemma GetWritableBytes_eq b : wf b -> GetWritableBytes b = zlen (buffer_ b) - writing_index_ b.
Proof. intros. wf_facts. unfold_sizes. apply u64_small. lia. Qed.

Lemma zlen_readable b : wf b -> zlen (readable b) = writing_index_ b - reading_index_ b.
Proof. intros. wf_facts. unfold readable. apply zlen_zslice; lia. Qed.

Lemma readable_bytes_zlen b : wf b -> GetReadableBytes b = zlen (readable b).
Proof. intros. by rewrite GetReadableBytes_eq, zlen_readable. Qed.

Lemma readable_read b len :
  wf b -> 0 <= len <= zlen (readable b) ->
  mem_read (buffer_ b) (reading_index_ b) len = Ok (ztake len (readable b)).
Proof.
  intros Hwf Hlen. rewrite zlen_readable in Hlen by done. wf_facts.
  rewrite mem_read_ok by lia. unfold readable. by rewrite ztake_zslice by lia.
Qed.

Lemma readable_read_all b :
  wf b -> mem_read (buffer_ b) (reading_index_ b) (GetReadableBytes b) = Ok (readable b).
Proof.
  intros Hwf. pose proof (zlen_nonneg (readable b)).
  rewrite readable_bytes_zlen, readable_read by (done || lia).
  by rewrite ztake_all by lia.
Qed.

Lemma IoBuffer_new_wf cap :
  0 <= cap <= vector_max_size - kReservedCapacity -> wf (IoBuffer_new cap).
Proof.
  intros. unfold vector_max_size, kReservedCapacity in *.
  split; simpl; unfold kReservedCapacity, vector_max_size; zlist.
Qed.

Lemma IoBuffer_new_readable cap : readable (IoBuffer_new cap) = [].
Proof. done. Qed.

(** [RefreshRW], [RefreshW] and [Refresh] on the abstraction. *)
Lemma RefreshRW_wf b : wf b -> wf (RefreshRW b).
Proof. intros. wf_facts. split; simpl; unfold kReservedCapacity, vector_max_size; lia. Qed.

Lemma RefreshRW_readable b : readable (RefreshRW b) = [].
Proof. done. Qed.

Lemma RefreshW_index b len :
  wf b -> 0 <= len <= GetWritableBytes b ->
  writing_index_ (RefreshW len b) = writing_index_ b + len.
Proof.
  intros Hwf Hlen. rewrite GetWritableBytes_eq in Hlen by done. wf_facts.
  simpl. apply u64_small. lia.
Qed.

Lemma RefreshW_wf b len : wf b -> 0 <= len <= GetWritableBytes b -> wf (RefreshW len b).
Proof.
  intros Hwf Hlen. pose proof (RefreshW_index b len Hwf Hlen) as Hi.
  rewrite GetWritableBytes_eq in Hlen by done. wf_facts.
  split; simpl; unfold kReservedCapacity, vector_max_size; simpl in Hi; lia.
Qed.

(** The bytes that [RefreshW] exposes are those already in the writable
    space. *)
Lemma RefreshW_readable b len :
  wf b -> 0 <= len <= GetWritableBytes b ->
  readable (RefreshW len b) = readable b ++ zslice (writing_index_ b) len (buffer_ b).
Proof.
  intros Hwf Hlen. pose proof (RefreshW_index b len Hwf Hlen) as Hi.
  unfold readable at 1. rewrite Hi. rewrite GetWritableBytes_eq in Hlen by done.
  wf_facts. unfold readable.
  replace (writing_index_ b) with
    (reading_index_ b + (writing_index_ b - reading_index_ b)) at 3 by lia.
  rewrite zslice_app by lia. f_equal; lia.
Qed.

Lemma Refresh_spec b len :
  wf b -> 0 <= len ->
  wf (Refresh len b) /\ readable (Refresh len b) = zdrop len (readable b) /\
  reading_index_ (Refresh len b)
    = (if len <? zlen (readable b) then reading_index_ b + len else kReservedCapacity).
Proof.
  intros Hwf Hlen. unfold Refresh. rewrite readable_bytes_zlen by done.
  pose proof (zlen_readable b Hwf) as Hz. destruct (Z.ltb_spec len (zlen (readable b))).
  - assert (reading_index_ b +u len = reading_index_ b + len) as Hr.
    { wf_facts. apply u64_small. lia. }
    rewrite Hr. split_and!; [| | done].
    + wf_facts. split; simpl; unfold kReservedCapacity, vector_max_size; lia.
    + unfold readable; simpl. wf_facts. rewrite zdrop_zslice by lia. f_equal. lia.
  - split_and!; [by apply RefreshRW_wf | | done].
    by rewrite RefreshRW_readable, zdrop_all by lia.
Qed.

#[export] Hint Resolve IoBuffer_new_wf RefreshRW_wf RefreshW_wf : io_buffer.

(** ** Growing and appending *)

Lemma EnsureWritableSpace_ok b len :
  wf b -> 0 <= len -> compacts len b = false -> writing_index_ b + len <= vector_max_size ->
  exists b', EnsureWritableSpace len b = Ok b' /\ wf b' /\ readable b' = readable b /\
    reading_index_ b' = reading_index_ b /\ writing_index_ b' = writing_index_ b /\
    len <= GetWritableBytes b'.
Proof.
  intros Hwf Hlen Hc Hmax. unfold EnsureWritableSpace, compacts in *.
  destruct (Z.ltb_spec (GetWritableBytes b) len) as [Hlt | Hge]; simpl in Hc; [| by eauto 10].
  unfold ReserveWritableSpace. apply Z.leb_gt in Hc.
  rewrite (proj2 (Z.ltb_lt _ _) Hc).
  rewrite GetWritableBytes_eq in Hlt by done. wf_facts.
  rewrite u64_small by lia. rewrite vector_resize_grow by (unfold vector_max_size; lia).
  simpl. eexists; split; [done |].
  set (b' := mkIoBuffer _ _ _).
  assert (zlen (buffer_ b') = writing_index_ b + len) as Hl by (subst b'; simpl; zlist).
  assert (wf b') as Hwf'.
  { split; subst b'; simpl in *; unfold kReservedCapacity, vector_max_size; lia. }
  split_and!; [done | | done | done | rewrite GetWritableBytes_eq by done; subst b'; simpl in *; lia].
  unfold readable; subst b'; simpl. unfold zslice.
  rewrite zdrop_app_l by lia. rewrite ztake_app_l; [done | zlist].
Qed.

Lemma Append_into b b1 bs :
  EnsureWritableSpace (zlen bs) b = Ok b1 -> wf b1 -> zlen bs <= GetWritableBytes b1 ->
  exists b', Append bs b = Ok b' /\ wf b' /\ readable b' = readable b1 ++ bs /\
    reading_index_ b' = reading_index_ b1 /\
    writing_index_ b' = writing_index_ b1 + zlen bs /\
    zlen (buffer_ b') = zlen (buffer_ b1).
Proof.
  intros He Hwf Hl. pose proof (zlen_nonneg bs).
  unfold Append. rewrite He; simpl.
  pose proof Hl as Hl'. rewrite GetWritableBytes_eq in Hl' by done.
  pose proof Hwf as Hwf1. wf_facts. unfold GetWritablePosition.
  rewrite mem_write_ok by lia. simpl. eexists; split; [done |].
  set (b2 := mkIoBuffer (ztake _ _ ++ _) _ _).
  assert (zlen (buffer_ b2) = zlen (buffer_ b1)) as Hz
    by (subst b2; simpl; apply zlen_written; lia).
  assert (wf b2) as Hwf2.
  { split; [subst b2; simpl; lia | |]; rewrite Hz; subst b2; simpl;
      unfold kReservedCapacity, vector_max_size; lia. }
  assert (0 <= zlen bs <= GetWritableBytes b2) as Hb.
  { rewrite GetWritableBytes_eq by done. rewrite Hz. subst b2; simpl; lia. }
  split_and!; [by apply RefreshW_wf | | done | by rewrite RefreshW_index | done].
  rewrite RefreshW_readable by done. f_equal.
  - unfold readable; subst b2; simpl. apply zslice_before_written; lia.
  - subst b2; simpl. apply zslice_written; lia.
Qed.

Lemma Append_ok b bs :
  wf b -> compacts (zlen bs) b = false -> writing_index_ b + zlen bs <= vector_max_size ->
  exists b', Append bs b = Ok b' /\ wf b' /\ readable b' = readable b ++ bs /\
    reading_index_ b' = reading_index_ b /\
    writing_index_ b' = writing_index_ b + zlen bs.
Proof.
  intros Hwf Hc Hmax. pose proof (zlen_nonneg bs).
  destruct (EnsureWritableSpace_ok b (zlen bs)) as (b1 & He & Hwf1 & Hr1 & Hi1 & Hj1 & Hl1); auto.
  destruct (Append_into b b1 bs) as (b' & HA & Hwf' & Hr' & Hi' & Hj' & _); auto.
  exists b'. rewrite <- Hr1, <- Hi1, <- Hj1. auto.
Qed.

(** The compaction branch leaves the writing index where it was: the space it
    was called for is not there, and bytes of the old content show up behind
    the readable ones. *)
Lemma compaction_step b len :
  wf b -> compacts len b = true ->
  EnsureWritableSpace len b = Fault OutOfBounds \/
  exists b', EnsureWritableSpace len b = Ok b' /\
    reading_index_ b' = kReservedCapacity /\ writing_index_ b' = writing_index_ b /\
    buffer_ b' = ztake kReservedCapacity (buffer_ b) ++ readable b
                 ++ zdrop (kReservedCapacity + zlen (readable b)) (buffer_ b) /\
    zlen (buffer_ b') = zlen (buffer_ b).
Proof.
  intros Hwf Hc. unfold compacts, EnsureWritableSpace, ReserveWritableSpace in *.
  apply andb_true_iff in Hc as [Hc1 Hc2]. rewrite Hc1.
  apply Z.leb_le in Hc2. rewrite (proj2 (Z.ltb_ge _ _) Hc2).
  rewrite readable_read_all by done. simpl.
  destruct (Z.le_gt_cases (kReservedCapacity + zlen (readable b)) (zlen (buffer_ b))) as [Hb | Hb];
    [| left; by rewrite mem_write_oob].
  right. pose proof (zlen_nonneg (readable b)).
  rewrite mem_write_ok by (unfold kReservedCapacity in *; lia). simpl. eexists; split; [done |].
  simpl. wf_facts. split_and!; [done | | done | by apply zlen_written].
  unfold GetReadableBytes; simpl. rewrite (u64_small (_ - _)) by lia. rewrite u64_small; lia.
Qed.

Lemma Append_compacts b bs :
  wf b -> compacts (zlen bs) b = true -> Append bs b = Fault OutOfBounds.
Proof.
  intros Hwf Hc. unfold Append.
  destruct (compaction_step b (zlen bs) Hwf Hc) as [-> | (b' & -> & Hi & Hj & _ & Hz)];
    [done |]. simpl.
  apply andb_true_iff in Hc as [Hc _]. apply Z.ltb_lt in Hc.
  rewrite GetWritableBytes_eq in Hc by done.
  unfold GetWritablePosition. rewrite Hj. by rewrite mem_write_oob by lia.
Qed.

(** With the reading index at or above the header space, compaction happens
    exactly when the request fits only together with the consumed space. *)
Lemma compacts_spec b len :
  wf b -> kReservedCapacity <= reading_index_ b ->
  compacts len b = true <->
    GetWritableBytes b < len <= GetWritableBytes b + (reading_index_ b - kReservedCapacity).
Proof.
  intros Hwf Hr. unfold compacts. rewrite GetWritableBytes_eq by done. unfold GetReservedBytes.
  wf_facts. rewrite (u64_small (_ + _)) by lia. rewrite u64_small by lia.
  rewrite andb_true_iff, Z.ltb_lt, Z.leb_le. lia.
Qed.

(** A buffer with nothing consumed never compacts. *)
Lemma compacts_fresh b len :
  wf b -> reading_index_ b = kReservedCapacity -> compacts len b = false.
Proof.
  intros Hwf Hr. apply not_true_iff_false. rewrite compacts_spec by (done || lia). lia.
Qed.

Lemma Append_fresh b bs :
  wf b -> reading_index_ b = kReservedCapacity ->
  writing_index_ b + zlen bs <= vector_max_size ->
  exists b', Append bs b = Ok b' /\ wf b' /\ readable b' = readable b ++ bs /\
    reading_index_ b' = kReservedCapacity /\
    writing_index_ b' = writing_index_ b + zlen bs.
Proof. intros Hwf Hr Hmax. rewrite <- Hr. apply Append_ok; auto. by apply compacts_fresh. Qed.

(** A new buffer filled with some bytes, for evaluations. *)
Definition holding (bs : list byte) : IoBuffer :=
  match Append bs (IoBuffer_new kInitialCapacity) with Ok b => b | Fault _ => IoBuffer_new 0 end.

Lemma holding_ok bs :
  zlen bs < 2 ^ 62 -> wf (holding bs) /\ readable (holding bs) = bs.
Proof.
  intros Hl. unfold holding.
  destruct (Append_fresh (IoBuffer_new kInitialCapacity) bs) as (b & -> & Hwf & Hr & _).
  - by apply IoBuffer_new_wf.
  - done.
  - unfold vector_max_size. simpl. unfold kReservedCapacity. lia.
  - by rewrite IoBuffer_new_readable in Hr.
Qed.

Lemma Append_length_error b bs :
  wf b -> compacts (zlen bs) b = false -> zlen bs <= vector_max_size ->
  vector_max_size < writing_index_ b + zlen bs -> Append bs b = Fault LengthError.
Proof.
  intros Hwf Hc Hl Hmax. unfold Append, EnsureWritableSpace, compacts in *.
  pose proof (GetWritableBytes_eq b Hwf). wf_facts.
  rewrite (proj2 (Z.ltb_lt _ _)) in Hc |- * by lia. simpl in Hc.
  unfold ReserveWritableSpace, kReservedCapacity. apply Z.leb_gt in Hc.
  rewrite (proj2 (Z.ltb_lt _ _) Hc). rewrite u64_small by lia. unfold vector_resize, vector_max_size.
  by rewrite (proj2 (Z.ltb_lt _ _)) by lia.
Qed.

(** What a successful [Append] means: it was not a compaction and the vector
    stayed within its limit. *)
Lemma Append_inv b bs b' :
  wf b -> zlen bs <= vector_max_size -> Append bs b = Ok b' ->
  compacts (zlen bs) b = false /\ wf b' /\ readable b' = readable b ++ bs /\
  reading_index_ b' = reading_index_ b.
Proof.
  intros Hwf Hl HA. destruct (compacts (zlen bs) b) eqn:Hc.
  { by rewrite Append_compacts in HA. }
  destruct (Z.le_gt_cases (writing_index_ b + zlen bs) vector_max_size).
  - destruct (Append_ok b bs) as (b2 & HA2 & ?); auto. rewrite HA2 in HA.
    injection HA as ->. intuition.
  - by rewrite Append_length_error in HA by (done || lia).
Qed.

(** A request that does not move the content and returns has made the space. *)
Lemma EnsureWritableSpace_inv b len b' :
  wf b -> 0 <= len <= vector_max_size -> compacts len b = false -> EnsureWritableSpace len b = Ok b' ->
  wf b' /\ readable b' = readable b /\ reading_index_ b' = reading_index_ b /\ len <= GetWritableBytes b'.
Proof.
  intros Hwf Hl Hc He. destruct (Z.le_gt_cases (writing_index_ b + len) vector_max_size) as [Hmax | Hmax].
  - destruct (EnsureWritableSpace_ok b len) as (b1 & He1 & ? & ? & ? & _ & ?); auto; [lia |].
    rewrite He in He1. injection He1 as <-. done.
  - exfalso. unfold EnsureWritableSpace, compacts in *. pose proof (GetWritableBytes_eq b Hwf). wf_facts.
    rewrite (proj2 (Z.ltb_lt _ _)) in Hc, He by lia. simpl in Hc. apply Z.leb_gt in Hc.
    unfold ReserveWritableSpace, kReservedCapacity in *. rewrite (proj2 (Z.ltb_lt _ _) Hc) in He.
    rewrite u64_small in He by (unfold vector_max_size in *; lia).
    unfold vector_resize, vector_max_size in He. by rewrite (proj2 (Z.ltb_lt _ _)) in He by lia.
Qed.

(** ** Retrieving and prepending *)

Lemma RetrieveAString_ok b len :
  wf b -> 0 <= len <= zlen (readable b) ->
  RetrieveAString len b = Ok (ztake len (readable b), Refresh len b).
Proof.
  intros Hwf Hlen. unfold RetrieveAString. rewrite readable_bytes_zlen by done.
  rewrite (proj2 (Z.ltb_ge _ _)) by lia. by rewrite readable_read.
Qed.

Lemma RetrieveAllAsString_ok b :
  wf b -> exists b', RetrieveAllAsString b = Ok (readable b, b') /\ wf b' /\ readable b' = [] /\
    reading_index_ b' = kReservedCapacity.
Proof.
  intros Hwf. pose proof (zlen_nonneg (readable b)) as Hnn. unfold RetrieveAllAsString.
  rewrite RetrieveAString_ok by (done || rewrite readable_bytes_zlen by done; lia).
  rewrite readable_bytes_zlen, ztake_all by (done || lia). eexists. split; [done|].
  destruct (Refresh_spec b (zlen (readable b)) Hwf ltac:(lia)) as (Hwf' & Hr & Hi).
  split; [done|]. split; [rewrite Hr; apply zdrop_all; lia|].
  by rewrite Hi, (proj2 (Z.ltb_ge _ _)) by lia.
Qed.

Lemma RetrieveAString_short b len :
  wf b -> zlen (readable b) < len -> RetrieveAString len b = Ok ([], b).
Proof.
  intros Hwf Hlen. unfold RetrieveAString. rewrite readable_bytes_zlen by done.
  by rewrite (proj2 (Z.ltb_lt _ _)) by lia.
Qed.

Lemma RetrieveAByteArray_eq len b : RetrieveAByteArray len b = RetrieveAString len b.
Proof. done. Qed.

Lemma SetHeadContent_ok b bs :
  wf b -> zlen bs <= reading_index_ b ->
  exists b', SetHeadContent bs b = Ok b' /\ wf b' /\ readable b' = bs ++ readable b /\
    reading_index_ b' = reading_index_ b - zlen bs /\ writing_index_ b' = writing_index_ b.
Proof.
  intros Hwf Hl. pose proof (zlen_nonneg bs). unfold SetHeadContent, GetReservedBytes.
  rewrite (proj2 (Z.ltb_ge _ _)) by lia.
  pose proof Hwf as Hwf0. wf_facts. rewrite u64_small by lia.
  rewrite mem_write_ok by lia. simpl. eexists; split; [done |]. simpl.
  assert (zlen (ztake (reading_index_ b - zlen bs) (buffer_ b) ++ bs ++
    zdrop (reading_index_ b - zlen bs + zlen bs) (buffer_ b)) = zlen (buffer_ b)) as Hz
    by (apply zlen_written; lia).
  split_and!; [| | done | done].
  { split; simpl; rewrite ?Hz; unfold kReservedCapacity, vector_max_size; lia. }
  unfold readable; simpl.
  replace (writing_index_ b - (reading_index_ b - zlen bs))
    with (zlen bs + (writing_index_ b - reading_index_ b)) by lia.
  rewrite <- zslice_app by lia. f_equal; [apply zslice_written; lia |].
  replace (reading_index_ b - zlen bs + zlen bs) with (reading_index_ b) by lia.
  unfold zslice. rewrite app_assoc.
  rewrite zdrop_app_r by (rewrite zlen_app, zlen_ztake; lia).
  rewrite zlen_app, zlen_ztake by lia. rewrite zdrop_zdrop by lia. do 2 f_equal. lia.
Qed.

Lemma SetHeadContent_refused b bs :
  reading_index_ b < zlen bs -> SetHeadContent bs b = Ok b.
Proof. intros. unfold SetHeadContent, GetReservedBytes. by rewrite (proj2 (Z.ltb_lt _ _)). Qed.

(** ** Integers *)

Section IntFacts.
Context `{HostOrder}.

Lemma AppendInt_bytes x :
  AppendInt8 x = Append (be_bytes 1 x) /\ AppendInt16 x = Append (be_bytes 2 x) /\
  AppendInt32 x = Append (be_bytes 4 x) /\ AppendInt64 x = Append (be_bytes 8 x).
Proof.
  unfold AppendInt8, AppendInt16, AppendInt32, AppendInt64, u16, u32, u64, s16, s32, s64.
  split_and!; f_equal.
  - unfold store_int, be_bytes. by destruct host_order.
  - apply (store_signed_htobe 2).
  - apply (store_signed_htobe 4).
  - apply (store_signed_htobe 8).
Qed.

Lemma SetHeadContentInt32_bytes x : SetHeadContentInt32 x = SetHeadContent (be_bytes 4 x).
Proof. unfold SetHeadContentInt32. f_equal. apply (store_signed_htobe 4). Qed.

(** Reading an integer with enough bytes. *)
Lemma GetReadableInt32_ok b :
  wf b -> 4 <= zlen (readable b) ->
  GetReadableInt32 b = Ok (s32 (be_value (ztake 4 (readable b)))).
Proof.
  intros Hwf Hl. unfold GetReadableInt32. rewrite readable_bytes_zlen by done.
  rewrite (proj2 (Z.ltb_ge _ _)) by lia.
  unfold GetReadablePosition. rewrite readable_read by (done || lia). simpl. f_equal.
  apply (load_signed_betoh 4). unfold ztake. rewrite length_take. unfold zlen in *. lia.
Qed.

Lemma GetReadableInts_ok b :
  wf b ->
  (1 <= zlen (readable b) ->
     GetReadableInt8 b = Ok (s8 (be_value (ztake 1 (readable b))))) /\
  (2 <= zlen (readable b) ->
     GetReadableInt16 b = Ok (s16 (be_value (ztake 2 (readable b))))) /\
  (8 <= zlen (readable b) ->
     GetReadableInt64 b = Ok (s64 (be_value (ztake 8 (readable b))))).
Proof.
  intros Hwf. unfold GetReadableInt8, GetReadableInt16, GetReadableInt64, GetReadablePosition.
  rewrite readable_bytes_zlen by done.
  split_and!; intros Hl; rewrite (proj2 (Z.ltb_ge _ _)) by lia;
    rewrite readable_read by (done || lia); simpl; f_equal.
  - unfold load_int, be_value. destruct host_order; [| done].
    assert (length (ztake 1 (readable b)) = 1%nat) as Hn
      by (unfold ztake; rewrite length_take; unfold zlen in *; lia).
    destruct (ztake 1 (readable b)) as [| c [|]]; done.
  - apply (load_signed_betoh 2). unfold ztake. rewrite length_take. unfold zlen in *. lia.
  - apply (load_signed_betoh 8). unfold ztake. rewrite length_take. unfold zlen in *. lia.
Qed.

End IntFacts.

(** ** Searching *)

Lemma memmem_first hay needle i :
  memmem hay needle = Some i ->
  exists pre post, hay = pre ++ needle ++ post /\ i = zlen pre /\
    forall pre' post', hay = pre' ++ needle ++ post' -> zlen pre <= zlen pre'.
Proof.
  revert i. induction hay as [| x hay IH]; intros i Hi; simpl in Hi;
    case_decide as Hp; try done.
  - injection Hi as <-. destruct Hp as [post Hp]. exists [], post. split_and!; [done | done |].
    intros. apply zlen_nonneg.
  - injection Hi as <-. destruct Hp as [post Hp]. exists [], post. split_and!; [done | done |].
    intros. apply zlen_nonneg.
  - destruct (memmem hay needle) as [j |] eqn:Hj; [| done]. injection Hi as <-.
    destruct (IH j eq_refl) as (pre & post & -> & -> & Hmin).
    exists (x :: pre), post. split_and!; [done | rewrite zlen_cons; lia |].
    intros [| y pre'] post' Heq; [destruct Hp; by exists post' |].
    injection Heq as -> Heq. rewrite !zlen_cons. apply Hmin in Heq. lia.
Qed.

Lemma memmem_none hay needle :
  memmem hay needle = None -> forall pre post, hay <> pre ++ needle ++ post.
Proof.
  induction hay as [| x hay IH]; simpl; case_decide as Hp; intros Hn pre post Heq; try done.
  - destruct pre; [destruct Hp; by exists post | done].
  - destruct pre as [| y pre]; [destruct Hp; by exists post |].
    injection Heq as -> Heq. destruct (memmem hay needle) eqn:Hj; [done |]. by eapply IH.
Qed.

Lemma memchr_memmem hay c : memchr hay c = memmem hay [c].
Proof.
  induction hay as [| x hay IH]; cbn [memchr memmem].
  - rewrite decide_False; [done |]. by intros [? ?].
  - rewrite IH. destruct (decide (x = c)) as [-> | Hne].
    + rewrite decide_True; [done | by exists hay].
    + rewrite decide_False; [done |]. intros [? [= -> _]]. done.
Qed.

(** ** Kernel calls *)

Lemma s32_writable b :
  GetWritableBytes b < 2 ^ 31 -> s32 (GetWritableBytes b) = GetWritableBytes b.
Proof.
  intros Hs. unfold s32. pose proof (u64_range (zlen (buffer_ b) - writing_index_ b)).
  apply sext_small; [lia |]. unfold GetWritableBytes in *. lia.
Qed.

Lemma fill_writable b data :
  wf b -> zlen data <= GetWritableBytes b ->
  exists b', mem_write (buffer_ b) (writing_index_ b) data = Ok (buffer_ b') /\
    reading_index_ b' = reading_index_ b /\ writing_index_ b' = writing_index_ b /\
    wf b' /\ readable b' = readable b /\ GetWritableBytes b' = GetWritableBytes b /\
    zslice (writing_index_ b) (zlen data) (buffer_ b') = data.
Proof.
  intros Hwf Hl. pose proof (zlen_nonneg data). pose proof Hwf as Hwf0.
  rewrite GetWritableBytes_eq in Hl by done. wf_facts. rewrite mem_write_ok by lia.
  exists (mkIoBuffer (ztake (writing_index_ b) (buffer_ b) ++ data ++
    zdrop (writing_index_ b + zlen data) (buffer_ b)) (reading_index_ b) (writing_index_ b)).
  unfold GetWritableBytes, readable; simpl. rewrite zlen_written by lia.
  split_and!; try done.
  - split; simpl; rewrite ?zlen_written; unfold kReservedCapacity, vector_max_size; lia.
  - apply zslice_before_written; lia.
  - apply zslice_written; lia.
Qed.

(** The buffer [ReadFromFd] is left with before the extra bytes are
    appended: all its writable space is filled. *)
Lemma ReadFromFd_cases b data :
  wf b -> GetWritableBytes b < 2 ^ 31 -> zlen data <= ReadFromFd_space b ->
  (zlen data <= GetWritableBytes b /\
   exists b', ReadFromFd (RecvBytes data) b = Ok (zlen data, None, b') /\ wf b' /\
     readable b' = readable b ++ data /\ reading_index_ b' = reading_index_ b) \/
  (GetWritableBytes b < zlen data /\
   exists full, wf full /\ reading_index_ full = reading_index_ b /\
     writing_index_ full = zlen (buffer_ b) /\ GetWritableBytes full = 0 /\
     readable full = readable b ++ ztake (GetWritableBytes b) data /\
     ReadFromFd (RecvBytes data) b
       = (b' ← Append (zdrop (GetWritableBytes b) data) full; Ok (zlen data, None, b'))).
Proof.
  intros Hwf Hs Hsp. pose proof (zlen_nonneg data).
  pose proof (s32_writable b Hs) as Hs32. unfold ReadFromFd_space in Hsp.
  rewrite Hs32 in Hsp. pose proof (GetWritableBytes_eq b Hwf) as HW.
  assert (0 <= GetWritableBytes b) as H0 by (rewrite HW; wf_facts; lia).
  rewrite (u64_small (GetWritableBytes b)) in Hsp by lia.
  assert (zlen data < 2 ^ 32) as Hd by (unfold kExtraBufferSize in Hsp; cases_cmp).
  unfold ReadFromFd. rewrite Hs32. rewrite (u64_small (GetWritableBytes b)) by lia.
  set (part := ztake (GetWritableBytes b) data).
  destruct (fill_writable b part) as (b1 & Hm & Hi & Hj & Hwf1 & Hr1 & HW1 & Hsl);
    [done | subst part; zlist |].
  unfold GetWritablePosition. rewrite Hm. simpl.
  assert (mkIoBuffer (buffer_ b1) (reading_index_ b) (writing_index_ b) = b1) as Hb1
    by (destruct b1; simpl in *; congruence).
  destruct (Z.leb_spec (zlen data) (GetWritableBytes b)) as [Hle | Hgt]; [left | right];
    (split; [done |]).
  - rewrite Hb1. eexists. split; [done |].
    split; [apply RefreshW_wf; [done | lia] |]. split; [| done].
    rewrite RefreshW_readable by (done || lia). rewrite Hr1, Hj.
    f_equal. subst part. by rewrite ztake_all in Hsl by lia.
  - exists (RefreshW (GetWritableBytes b) b1).
    pose proof (RefreshW_index b1 (GetWritableBytes b) Hwf1 ltac:(lia)) as Hri.
    assert (wf (RefreshW (GetWritableBytes b) b1)) as Hwfr by (apply RefreshW_wf; [done | lia]).
    assert (zlen (buffer_ b1) = zlen (buffer_ b)) as Hzb.
    { rewrite GetWritableBytes_eq in HW1 by done. lia. }
    split_and!; [done | done | rewrite Hri; lia | | |].
    + rewrite GetWritableBytes_eq by done. rewrite Hri. simpl. lia.
    + rewrite RefreshW_readable by (done || lia). rewrite Hr1, Hj. f_equal.
      etransitivity; [| exact Hsl]. f_equal. subst part. rewrite zlen_ztake; lia.
    + rewrite u64_small by lia. rewrite mem_read_ok by zlist. simpl.
      assert (zslice 0 (zlen data - GetWritableBytes b) (zdrop (GetWritableBytes b) data)
              = zdrop (GetWritableBytes b) data) as ->.
      { unfold zslice. rewrite zdrop_0. apply ztake_all. zlist. }
      do 2 f_equal. unfold RefreshW. simpl in Hri. rewrite Hri, Hi. f_equal. lia.
Qed.

(** The exact-length loop, fed with non-empty chunks that add up to the
    request. *)
Lemma ReadFromFd_loop_chunks chunks rest res b :
  wf b -> Forall (fun c => 0 < zlen c) chunks -> 0 <= res ->
  res + zlen (concat chunks) < 2 ^ 63 ->
  zlen (concat chunks) <= GetWritableBytes b ->
  exists b', ReadFromFd_loop (map RecvBytes chunks ++ rest) (zlen (concat chunks)) res b
      = Ok (Finished (res + zlen (concat chunks)) b' rest) /\
    wf b' /\ readable b' = readable b ++ concat chunks.
Proof.
  intros Hwf Hc. revert res b Hwf. induction Hc as [| c chunks Hc0 Hc IH];
    intros res b Hwf Hres Hmax Hl.
  - exists b. simpl. rewrite Z.add_0_r, app_nil_r. split; [by destruct rest | done].
  - simpl in *. rewrite zlen_app in *. pose proof (zlen_nonneg (concat chunks)).
    rewrite (proj2 (Z.ltb_lt _ _)) by lia.
    rewrite ztake_all by lia.
    destruct (fill_writable b c) as (b1 & Hm & Hi & Hj & Hwf1 & Hr1 & HW1 & Hsl);
      [done | lia |].
    unfold GetWritablePosition. rewrite Hm. simpl.
    assert (mkIoBuffer (buffer_ b1) (reading_index_ b) (writing_index_ b) = b1) as ->
      by (destruct b1; simpl in *; congruence).
    replace (zlen c + zlen (concat chunks) - zlen c) with (zlen (concat chunks)) by lia.
    pose proof (u64_range (zlen (buffer_ b) - writing_index_ b)).
    rewrite u64_small by (unfold GetWritableBytes in *; lia).
    unfold s64. rewrite sext_small by lia.
    pose proof (RefreshW_index b1 (zlen c) Hwf1 ltac:(lia)) as Hri.
    assert (wf (RefreshW (zlen c) b1)) as Hwf2 by (apply RefreshW_wf; [done | lia]).
    destruct (IH (res + zlen c) (RefreshW (zlen c) b1)) as (b' & Hb' & Hwf' & Hr');
      [done | lia | lia | |].
    { rewrite GetWritableBytes_eq by done. rewrite Hri. simpl.
      rewrite GetWritableBytes_eq in HW1 by done. lia. }
    exists b'. split_and!; [rewrite Hb'; do 2 f_equal; lia | done |].
    rewrite Hr', RefreshW_readable by (done || lia).
    by rewrite Hr1, Hj, Hsl, app_assoc.
Qed.

(** The same with chunks of any length, empty ones included, when they have
    enough bytes. *)
Lemma ReadFromFd_loop_enough data len res b :
  wf b -> 0 <= len <= GetWritableBytes b -> 0 <= res -> res + len < 2 ^ 63 -> len <= zlen (concat data) ->
  exists b' rest, ReadFromFd_loop (map RecvBytes data) len res b = Ok (Finished (res + len) b' rest) /\
    wf b' /\ readable b' = readable b ++ ztake len (concat data) /\ reading_index_ b' = reading_index_ b.
Proof.
  revert len res b. induction data as [| d data IH]; intros len res b Hwf Hl Hres Hmax Hen; simpl in *.
  - assert (len = 0) as -> by (rewrite zlen_nil in Hen; lia). exists b, []. rewrite Z.add_0_r.
    split; [done |]. split; [done |]. by rewrite ztake_0, app_nil_r.
  - destruct (Z.ltb_spec 0 len) as [Hpos | Hz].
    2: { assert (len = 0) as -> by lia. rewrite Z.add_0_r. eexists b, _. split; [done |]. split; [done |].
         by rewrite ztake_0, app_nil_r. }
    rewrite zlen_app in Hen. set (part := ztake len d).
    assert (zlen part = Z.min len (zlen d)) as Hp by (subst part; unfold ztake, zlen; rewrite length_take; lia).
    pose proof (zlen_nonneg d). pose proof (zlen_nonneg (concat data)).
    destruct (fill_writable b part) as (b1 & Hm & Hi & Hj & Hwf1 & Hr1 & HW1 & Hsl); [done | lia |].
    unfold GetWritablePosition. rewrite Hm. cbn [mbind result_bind].
    assert (mkIoBuffer (buffer_ b1) (reading_index_ b) (writing_index_ b) = b1) as ->
      by (destruct b1; simpl in *; congruence).
    rewrite u64_small by (pose proof (u64_range (zlen (buffer_ b) - writing_index_ b)); unfold GetWritableBytes in *; lia).
    unfold s64. rewrite sext_small by lia.
    pose proof (RefreshW_index b1 (zlen part) Hwf1 ltac:(lia)) as Hri.
    assert (wf (RefreshW (zlen part) b1)) as Hwf2 by (apply RefreshW_wf; [done | lia]).
    destruct (IH (len - zlen part) (res + zlen part) (RefreshW (zlen part) b1)) as (b' & rest & Hb' & Hwf' & Hr' & Hx');
      [done | | lia | lia | lia |].
    { rewrite (GetWritableBytes_eq (RefreshW _ _)), Hri by done. cbn [RefreshW buffer_].
      rewrite GetWritableBytes_eq in HW1 by done. lia. }
    exists b', rest. split; [rewrite Hb'; do 2 f_equal; lia |]. split; [done |].
    split; [| rewrite Hx'; cbn [RefreshW reading_index_]; congruence].
    rewrite Hr', RefreshW_readable, Hr1, Hj, Hsl, <- app_assoc by (done || lia). f_equal.
    subst part. destruct (Z.le_gt_cases len (zlen d)) as [Hd | Hd].
    + rewrite Hp, Z.min_l, Z.sub_diag, ztake_0, app_nil_r by lia. symmetry. apply ztake_app_l. lia.
    + rewrite Hp, Z.min_r, ztake_all by lia. by rewrite ztake_app_r by lia.
Qed.

Lemma ShrinkWritableSpace_ok b len :
  wf b -> 32 < len ->
  kReservedCapacity + (kReservedCapacity + zlen (readable b) + len) <= vector_max_size ->
  exists b', ShrinkWritableSpace len b = Ok b' /\ wf b' /\ readable b' = readable b /\
    reading_index_ b' = kReservedCapacity /\ len <= GetWritableBytes b'.
Proof.
  intros Hwf Hlen Hmax. pose proof (zlen_nonneg (readable b)) as Hn.
  unfold ShrinkWritableSpace. rewrite (proj2 (Z.leb_gt _ _)) by lia.
  rewrite readable_bytes_zlen by done. set (req := kReservedCapacity + _ + len) in Hmax.
  assert ((kReservedCapacity +u zlen (readable b)) +u len = req) as ->.
  { subst req. unfold vector_max_size, kReservedCapacity in *.
    rewrite (u64_small (8 + _)) by lia. by rewrite u64_small by lia. }
  assert (wf (IoBuffer_new kInitialCapacity)) as Hnew.
  { apply IoBuffer_new_wf. unfold kInitialCapacity, vector_max_size, kReservedCapacity. lia. }
  destruct (EnsureWritableSpace_ok (IoBuffer_new kInitialCapacity) req)
    as (b1 & -> & Hwf1 & Hr1 & Hi1 & Hj1 & HW1); auto.
  { subst req. unfold kReservedCapacity. lia. }
  { by apply compacts_fresh. }
  simpl in *. unfold GetReadablePosition.
  rewrite <- readable_bytes_zlen, readable_read_all by done. simpl.
  assert (zlen (readable b) <= GetWritableBytes b1) as HA
    by (subst req; unfold kReservedCapacity in *; lia).
  destruct (Append_into b1 b1 (readable b)) as (b2 & -> & Hwf2 & Hr2 & Hi2 & Hj2 & Hz2); auto.
  { unfold EnsureWritableSpace. by rewrite (proj2 (Z.ltb_ge _ _)) by lia. }
  eexists. simpl. split; [done |].
  assert (mkIoBuffer (buffer_ b2) (reading_index_ b2) (writing_index_ b2) = b2) as ->
    by by destruct b2.
  split_and!; [done | by rewrite Hr2, Hr1 | congruence |].
  rewrite GetWritableBytes_eq in * by done. rewrite Hj2, Hz2.
  unfold kReservedCapacity in *. subst req. lia.
Qed.

(** ** The buffer as a byte queue

    The abstract specification: a FIFO of bytes with some head room in front
    of it, into which a header can be prepended. *)

Record byte_queue := mkQueue { headroom : Z; content : list byte }.

Definition abs (b : IoBuffer) : byte_queue := mkQueue (reading_index_ b) (readable b).

Inductive width := W8 | W16 | W32 | W64.

Definition width_bytes (w : width) : Z := match w with W8 => 1 | W16 => 2 | W32 => 4 | W64 => 8 end.

(** Every operation of the class that changes the buffer. [OpFill] is its user's
    write at [GetWritablePosition] followed by [RefreshW]; the byte vectors of
    [OpReadExact] are what the calls of [recv] deliver. *)
Inductive io_op :=
| OpAppend (bs : list byte)
| OpAppendInt (w : width) (x : Z)
| OpSetHead (bs : list byte)
| OpSetHeadInt (w : width) (x : Z)
| OpRetrieve (len : Z)
| OpRetrieveArray (len : Z)
| OpRetrieveInt (w : width)
| OpRefresh (len : Z)
| OpRefreshRW
| OpFill (bs : list byte)
| OpEnsure (len : Z)
| OpShrink (len : Z)
| OpSwap (other : IoBuffer)
| OpRead (answer : recv_answer)
| OpReadExact (data : list (list byte)) (len : Z)
| OpWrite (sent : Z).

(** What an operation returns; [Blocked]: it has not returned yet. *)
Inductive io_out := NoOut | Bytes (bs : list byte) | Number (x : Z) | Blocked.

Section queue.
Context `{HostOrder}.

Definition AppendInt (w : width) : Z -> IoBuffer -> result IoBuffer :=
  match w with W8 => AppendInt8 | W16 => AppendInt16 | W32 => AppendInt32 | W64 => AppendInt64 end.
Definition SetHeadContentInt (w : width) : Z -> IoBuffer -> result IoBuffer :=
  match w with
  | W8 => SetHeadContentInt8 | W16 => SetHeadContentInt16 | W32 => SetHeadContentInt32 | W64 => SetHeadContentInt64
  end.
Definition RetrieveInt (w : width) : IoBuffer -> result (Z * IoBuffer) :=
  match w with W8 => RetrieveInt8 | W16 => RetrieveInt16 | W32 => RetrieveInt32 | W64 => RetrieveInt64 end.

Definition io_step (op : io_op) (b : IoBuffer) : result (io_out * IoBuffer) :=
  match op with
  | OpAppend bs => b ← Append bs b; Ok (NoOut, b)
  | OpAppendInt w x => b ← AppendInt w x b; Ok (NoOut, b)
  | OpSetHead bs => b ← SetHeadContent bs b; Ok (NoOut, b)
  | OpSetHeadInt w x => b ← SetHeadContentInt w x b; Ok (NoOut, b)
  | OpRetrieve len => '(bs, b) ← RetrieveAString len b; Ok (Bytes bs, b)
  | OpRetrieveArray len => '(bs, b) ← RetrieveAByteArray len b; Ok (Bytes bs, b)
  | OpRetrieveInt w => '(x, b) ← RetrieveInt w b; Ok (Number x, b)
  | OpRefresh len => Ok (NoOut, Refresh len b)
  | OpRefreshRW => Ok (NoOut, RefreshRW b)
  | OpFill bs =>
      buf ← mem_write (buffer_ b) (GetWritablePosition b) bs;
      Ok (NoOut, RefreshW (zlen bs) (mkIoBuffer buf (reading_index_ b) (writing_index_ b)))
  | OpEnsure len => b ← EnsureWritableSpace len b; Ok (NoOut, b)
  | OpShrink len => b ← ShrinkWritableSpace len b; Ok (NoOut, b)
  | OpSwap other => Ok (NoOut, fst (Swap b other))
  | OpRead answer => '(n, _, b) ← ReadFromFd answer b; Ok (Number n, b)
  | OpReadExact data len =>
      r ← ReadFromFd_exact (map RecvBytes data) len b;
      Ok (match r with Finished res b _ => (Number res, b) | Reading _ _ b => (Blocked, b) end)
  | OpWrite sent => let '(n, b) := WriteToFd sent b in Ok (Number n, b)
  end.

Definition queue_consume (len : Z) (q : byte_queue) : byte_queue :=
  if len <? zlen (content q)
  then mkQueue (headroom q + len) (zdrop len (content q))
  else mkQueue kReservedCapacity [].

Definition queue_append (bs : list byte) (q : byte_queue) : byte_queue :=
  mkQueue (headroom q) (content q ++ bs).

Definition queue_prepend (bs : list byte) (q : byte_queue) : byte_queue :=
  if headroom q <? zlen bs then q else mkQueue (headroom q - zlen bs) (bs ++ content q).

Definition queue_retrieve (len : Z) (q : byte_queue) : io_out * byte_queue :=
  if zlen (content q) <? len then (Bytes [], q) else (Bytes (ztake len (content q)), queue_consume len q).

(** The integer in front, 0 when there are too few bytes for it. *)
Definition queue_int (w : width) (q : byte_queue) : Z :=
  if zlen (content q) <? width_bytes w then 0
  else sext (8 * width_bytes w) (be_value (ztake (width_bytes w) (content q))).

Definition queue_step (op : io_op) (q : byte_queue) : io_out * byte_queue :=
  match op with
  | OpAppend bs | OpFill bs => (NoOut, queue_append bs q)
  | OpAppendInt w x => (NoOut, queue_append (be_bytes (Z.to_nat (width_bytes w)) x) q)
  | OpSetHead bs => (NoOut, queue_prepend bs q)
  | OpSetHeadInt w x => (NoOut, queue_prepend (be_bytes (Z.to_nat (width_bytes w)) x) q)
  | OpRetrieve len | OpRetrieveArray len => queue_retrieve len q
  | OpRetrieveInt w => (Number (queue_int w q), queue_consume (width_bytes w) q)
  | OpRefresh len => (NoOut, queue_consume len q)
  | OpRefreshRW => (NoOut, mkQueue kReservedCapacity [])
  | OpEnsure _ => (NoOut, q)
  | OpShrink len => (NoOut, if len <=? 32 then q else mkQueue kReservedCapacity (content q))
  | OpSwap other => (NoOut, abs other)
  | OpRead (RecvError _) => (Number (-1), q)
  | OpRead (RecvBytes bs) => (Number (zlen bs), queue_append bs q)
  | OpReadExact data len => (Number len, queue_append (ztake len (concat data)) q)
  | OpWrite sent => (Number sent, if 0 <? sent then queue_consume sent q else q)
  end.

(** Arguments have their C++ types, and the kernel receives at most the space
    it was offered; the copy made by [OpShrink] fits in a vector. Space is not
    asked for when that would move the content to the front, and [recv] delivers
    what the exact read asks for, without an error. *)
Definition op_valid (op : io_op) (b : IoBuffer) : Prop :=
  match op with
  | OpAppend bs | OpSetHead bs => zlen bs <= vector_max_size
  | OpRetrieve len | OpRetrieveArray len | OpRefresh len => 0 <= len
  | OpEnsure len => 0 <= len <= vector_max_size /\ compacts len b = false
  | OpShrink len =>
      0 <= len /\ kReservedCapacity + (kReservedCapacity + zlen (readable b) + len) <= vector_max_size
  | OpSwap other => wf other
  | OpRead (RecvBytes data) => zlen data <= ReadFromFd_space b /\ GetWritableBytes b < 2 ^ 31
  | OpReadExact data len =>
      0 <= len <= vector_max_size /\ compacts len b = false /\ len <= zlen (concat data)
  | OpRead (RecvError _) | OpAppendInt _ _ | OpSetHeadInt _ _ | OpRetrieveInt _ | OpRefreshRW | OpFill _ | OpWrite _ => True
  end.

(** Runs that return normally, with what they returned. *)
Inductive io_exec : IoBuffer -> list io_op -> list io_out -> IoBuffer -> Prop :=
| io_exec_nil b : io_exec b [] [] b
| io_exec_cons b op out b1 ops outs b2 :
    op_valid op b -> io_step op b = Ok (out, b1) -> io_exec b1 ops outs b2 ->
    io_exec b (op :: ops) (out :: outs) b2.

Fixpoint queue_run (q : byte_queue) (ops : list io_op) : list io_out * byte_queue :=
  match ops with
  | [] => ([], q)
  | op :: ops =>
      let '(out, q) := queue_step op q in
      let '(outs, q) := queue_run q ops in (out :: outs, q)
  end.

Lemma Refresh_abs b len :
  wf b -> 0 <= len -> wf (Refresh len b) /\ abs (Refresh len b) = queue_consume len (abs b).
Proof.
  intros Hwf Hlen. destruct (Refresh_spec b len Hwf Hlen) as (Hwf' & Hr & Hi).
  split; [done |]. unfold abs, queue_consume. rewrite Hi, Hr. simpl.
  destruct (Z.ltb_spec len (zlen (readable b))); [done |].
  by rewrite zdrop_all by lia.
Qed.

Lemma Append_abs b bs b' :
  wf b -> zlen bs <= vector_max_size -> Append bs b = Ok b' -> wf b' /\ abs b' = queue_append bs (abs b).
Proof.
  intros Hwf Hl HA. destruct (Append_inv b bs b') as (_ & Hwf' & Hr & Hi); auto.
  split; [done |]. unfold abs. by rewrite Hr, Hi.
Qed.

Lemma SetHead_abs b bs b' :
  wf b -> SetHeadContent bs b = Ok b' -> wf b' /\ abs b' = queue_prepend bs (abs b).
Proof.
  intros Hwf Hs. unfold queue_prepend. cbn [abs headroom content].
  destruct (Z.ltb_spec (reading_index_ b) (zlen bs)).
  - rewrite SetHeadContent_refused in Hs by done. by injection Hs as <-.
  - destruct (SetHeadContent_ok b bs) as (b1 & Hb1 & Hwf1 & Hr1 & Hi1 & _); [done | lia |].
    rewrite Hb1 in Hs. injection Hs as <-. unfold abs. by rewrite Hr1, Hi1.
Qed.

Lemma Retrieve_abs b len bs b' :
  wf b -> 0 <= len -> RetrieveAString len b = Ok (bs, b') ->
  wf b' /\ queue_retrieve len (abs b) = (Bytes bs, abs b').
Proof.
  intros Hwf Hlen Hs. unfold queue_retrieve. cbn [abs content].
  destruct (Z.ltb_spec (zlen (readable b)) len).
  - rewrite RetrieveAString_short in Hs by done. by injection Hs as <- <-.
  - rewrite RetrieveAString_ok in Hs by (done || lia). injection Hs as <- <-.
    destruct (Refresh_abs b len Hwf Hlen) as [Hwf' Ha]. by rewrite Ha.
Qed.

Lemma AppendInt_abs w x b b' :
  wf b -> AppendInt w x b = Ok b' ->
  wf b' /\ abs b' = queue_append (be_bytes (Z.to_nat (width_bytes w)) x) (abs b).
Proof.
  intros Hwf HA. destruct (AppendInt_bytes x) as (E8 & E16 & E32 & E64).
  apply Append_abs; [done | rewrite zlen_be_bytes; destruct w; unfold vector_max_size; simpl; lia |].
  destruct w; cbn [AppendInt] in HA; rewrite ?E8, ?E16, ?E32, ?E64 in HA; exact HA.
Qed.

Lemma SetHeadInt_abs w x b b' :
  wf b -> SetHeadContentInt w x b = Ok b' ->
  wf b' /\ abs b' = queue_prepend (be_bytes (Z.to_nat (width_bytes w)) x) (abs b).
Proof.
  intros Hwf HA. apply SetHead_abs; [done |]. rewrite <- HA. f_equal. symmetry.
  destruct w; simpl; unfold SetHeadContentInt8, SetHeadContentInt16, SetHeadContentInt32, SetHeadContentInt64; f_equal.
  - unfold store_int, be_bytes. by destruct host_order.
  - apply (store_signed_htobe 2).
  - apply (store_signed_htobe 4).
  - apply (store_signed_htobe 8).
Qed.

Lemma RetrieveInt_abs w b x b' :
  wf b -> RetrieveInt w b = Ok (x, b') ->
  wf b' /\ x = queue_int w (abs b) /\ abs b' = queue_consume (width_bytes w) (abs b).
Proof.
  intros Hwf HR.
  assert (b' = Refresh (width_bytes w) b) as ->.
  { destruct w; cbn [RetrieveInt] in HR;
      unfold RetrieveInt8, RetrieveInt16, RetrieveInt32, RetrieveInt64 in HR; bind_ok; done. }
  destruct (Refresh_abs b (width_bytes w) Hwf) as [Hwf' Ha]; [by destruct w |].
  split; [done |]. split; [| done]. unfold queue_int. cbn [abs content].
  destruct (GetReadableInts_ok b Hwf) as (E8 & E16 & E64). pose proof (GetReadableInt32_ok b Hwf) as E32.
  destruct (Z.ltb_spec (zlen (readable b)) (width_bytes w)) as [Hlt | Hge];
    destruct w; cbn [RetrieveInt width_bytes] in *;
    unfold RetrieveInt8, RetrieveInt16, RetrieveInt32, RetrieveInt64 in HR;
    rewrite ?E8, ?E16, ?E32, ?E64 in HR by lia;
    unfold GetReadableInt8, GetReadableInt16, GetReadableInt32, GetReadableInt64 in HR;
    rewrite ?readable_bytes_zlen in HR by done; rewrite ?(proj2 (Z.ltb_lt _ _)) in HR by lia;
    cbn [mbind result_bind] in HR; by injection HR as <-.
Qed.

Lemma ReadFromFd_inv b data n e b' :
  wf b -> zlen data <= ReadFromFd_space b -> GetWritableBytes b < 2 ^ 31 ->
  ReadFromFd (RecvBytes data) b = Ok (n, e, b') ->
  n = zlen data /\ wf b' /\ readable b' = readable b ++ data /\ reading_index_ b' = reading_index_ b.
Proof.
  intros Hwf Hsp Hs HR.
  destruct (ReadFromFd_cases b data) as [(_ & b1 & Hb1 & Hwf1 & Hr1 & Hi1) |
    (Hgt & full & Hwff & Hif & Hjf & HWf & Hrf & Heq)]; try done.
  - rewrite Hb1 in HR. injection HR as <- <- <-. done.
  - rewrite Heq in HR. bind_ok.
    assert (0 <= GetWritableBytes b) by apply u64_range.
    assert (zlen data < 2 ^ 32).
    { unfold ReadFromFd_space, kExtraBufferSize in Hsp. rewrite s32_writable in Hsp by done.
      rewrite u64_small in Hsp by lia. cases_cmp. }
    destruct (Append_inv full (zdrop (GetWritableBytes b) data) b') as (_ & Hwfa & Hra & Hia);
      [done | unfold vector_max_size; zlist | done |].
    rewrite Hra, Hrf, <- app_assoc, ztake_zdrop. split_and!; congruence || done.
Qed.

Lemma Fill_abs b bs buf :
  wf b -> mem_write (buffer_ b) (GetWritablePosition b) bs = Ok buf ->
  let b' := RefreshW (zlen bs) (mkIoBuffer buf (reading_index_ b) (writing_index_ b)) in
  wf b' /\ abs b' = queue_append bs (abs b).
Proof.
  intros Hwf Hm. unfold GetWritablePosition in Hm. pose proof (zlen_nonneg bs).
  destruct (Z.le_gt_cases (zlen bs) (GetWritableBytes b)) as [Hle | Hgt].
  2: { rewrite GetWritableBytes_eq in Hgt by done. by rewrite mem_write_oob in Hm by lia. }
  destruct (fill_writable b bs) as (b1 & Hm1 & Hi & Hj & Hwf1 & Hr1 & HW1 & Hsl); [done | done |].
  rewrite Hm in Hm1. injection Hm1 as ->.
  assert (mkIoBuffer (buffer_ b1) (reading_index_ b) (writing_index_ b) = b1) as ->
    by (destruct b1; simpl in *; congruence).
  split; [apply RefreshW_wf; [done | lia] |]. unfold abs, queue_append. cbn [headroom content].
  rewrite RefreshW_readable, Hr1, Hj, Hsl by (done || lia). cbn [RefreshW reading_index_]. by rewrite Hi.
Qed.

Lemma ReadExact_abs b data len r :
  wf b -> 0 <= len <= vector_max_size -> compacts len b = false -> len <= zlen (concat data) ->
  ReadFromFd_exact (map RecvBytes data) len b = Ok r ->
  exists b' rest, r = Finished len b' rest /\ wf b' /\ abs b' = queue_append (ztake len (concat data)) (abs b).
Proof.
  intros Hwf Hl Hc Hen HR. unfold ReadFromFd_exact in HR. apply result_bind_ok in HR as (b0 & He & HR).
  destruct (EnsureWritableSpace_inv b len b0 Hwf Hl Hc He) as (Hwf1 & Hr1 & Hi1 & HW1).
  destruct (ReadFromFd_loop_enough data len 0 b0) as (b' & rest & Hb' & Hwf' & Hr' & Hi'); [done | lia | lia | unfold vector_max_size in *; lia | done |].
  rewrite HR in Hb'. injection Hb' as ->. exists b', rest. split; [done |]. split; [done |].
  unfold abs, queue_append. cbn [headroom content]. by rewrite Hr', Hi', Hr1, Hi1.
Qed.

Lemma io_step_refines b op out b' :
  wf b -> op_valid op b -> io_step op b = Ok (out, b') ->
  wf b' /\ queue_step op (abs b) = (out, abs b').
Proof.
  intros Hwf Hv Hs. destruct op; cbn [io_step op_valid] in Hs, Hv; cbn [queue_step].
  - bind_ok. destruct (Append_abs b bs b') as [? ->]; auto.
  - bind_ok. destruct (AppendInt_abs w x b b') as [? ->]; auto.
  - bind_ok. destruct (SetHead_abs b bs b') as [? ->]; auto.
  - bind_ok. destruct (SetHeadInt_abs w x b b') as [? ->]; auto.
  - bind_ok. by apply Retrieve_abs.
  - bind_ok. by apply Retrieve_abs.
  - bind_ok. match goal with H : RetrieveInt w b = Ok _ |- _ => apply RetrieveInt_abs in H as (? & -> & ->) end; auto.
  - bind_ok. destruct (Refresh_abs b len Hwf Hv) as [? ->]; auto.
  - bind_ok. split; [by apply RefreshRW_wf | done].
  - bind_ok. match goal with H : mem_write _ _ _ = Ok ?buf |- _ => destruct (Fill_abs b bs buf Hwf H) as [? ->] end; auto.
  - bind_ok. destruct Hv as [Hl Hc].
    destruct (EnsureWritableSpace_inv b len b') as (? & Hr & Hi & _); auto. unfold abs. by rewrite Hr, Hi.
  - bind_ok. destruct (Z.leb_spec len 32).
    + unfold ShrinkWritableSpace in Hok. rewrite (proj2 (Z.leb_le _ _)) in Hok by done. by injection Hok as <-.
    + destruct (ShrinkWritableSpace_ok b len) as (b1 & Hb1 & Hwf1 & Hr1 & Hi1 & _); [done | lia | tauto |].
      rewrite Hb1 in Hok. injection Hok as <-. unfold abs. by rewrite Hr1, Hi1.
  - injection Hs as <- <-. by destruct other.
  - bind_ok. destruct answer as [errno | data]; [by injection Hok as <- _ <- |]. destruct Hv as [Hv1 Hv2].
    match goal with H : ReadFromFd _ b = Ok (?n', ?e', _) |- _ =>
      destruct (ReadFromFd_inv b data n' e' b') as (-> & Hwf' & Hr & Hi); auto end.
    unfold abs, queue_append. cbn [headroom content]. by rewrite Hr, Hi.
  - bind_ok. destruct Hv as (Hl & Hc & Hen).
    match goal with H : ReadFromFd_exact _ _ _ = Ok ?r |- _ =>
      destruct (ReadExact_abs b data len r Hwf Hl Hc Hen H) as (b1 & rest & -> & Hwf' & Ha) end.
    simplify_eq. by rewrite Ha.
  - unfold WriteToFd in Hs. injection Hs as <- <-. destruct (Z.ltb_spec 0 sent); [| done].
    destruct (Refresh_abs b sent Hwf ltac:(lia)) as [? ->]; auto.
Qed.

(** ** Properties *)

(** C1. The buffer is a byte queue with head room. Take any sequence of the
    operations of [IoBuffer] that change a buffer, each of which returns
    normally, such that space is never asked for (by [EnsureWritableSpace] or the
    exact [ReadFromFd]) where the code would move the content to the front, [recv]
    delivers without an error what an exact read asks for, arguments are within
    their types and vectors below their maximal size. It keeps the index
    invariant, returns exactly the bytes and numbers, and leaves exactly the
    content and head room, of the abstract byte queue. *)
Theorem io_buffer_refines_byte_queue b ops outs b' :
  io_exec b ops outs b' -> wf b -> wf b' /\ queue_run (abs b) ops = (outs, abs b').
Proof.
  induction 1 as [b | b op out b1 ops outs b2 Hv Hs _ IH]; intros Hwf; [done |].
  destruct (io_step_refines b op out b1 Hwf Hv Hs) as [Hwf1 Hq].
  destruct (IH Hwf1) as [Hwf2 Hrun]. split; [done |]. simpl. by rewrite Hq, Hrun.
Qed.
End queue.

Definition session_ops : list io_op :=
  [OpAppend (replicate 9 Byte.x61); OpSetHeadInt W8 9; OpRetrieveInt W8; OpRetrieve 3; OpEnsure 20;
   OpFill [Byte.x62]; OpReadExact [[]; [Byte.x63]; [Byte.x64; Byte.x65]] 2; OpRetrieveArray 99; OpRetrieve 9].

Lemma io_buffer_refines_byte_queue_witness :
  exists b', io_exec (H := x86_host) (IoBuffer_new 4) session_ops
      [NoOut; NoOut; Number 9; Bytes (replicate 3 Byte.x61); NoOut; NoOut; Number 2; Bytes [];
       Bytes (replicate 6 Byte.x61 ++ [Byte.x62; Byte.x63; Byte.x64])] b' /\ wf b'.
Proof.
  assert (exists b', io_exec (H := x86_host) (IoBuffer_new 4) session_ops
    [NoOut; NoOut; Number 9; Bytes (replicate 3 Byte.x61); NoOut; NoOut; Number 2; Bytes [];
     Bytes (replicate 6 Byte.x61 ++ [Byte.x62; Byte.x63; Byte.x64])] b') as [b' Hx].
  { eexists. unfold session_ops.
    repeat (eapply io_exec_cons;
      [repeat split; vm_compute; (exact I || reflexivity || discriminate) | vm_compute; reflexivity |]).
    apply io_exec_nil. }
  exists b'. split; [exact Hx |]. eapply io_buffer_refines_byte_queue; [exact Hx |].
  apply IoBuffer_new_wf. vm_compute. split; discriminate.
Defined.

(** C28. The outcome of [Append] on every well-formed buffer: when the request
    fits only together with the consumed space in front (the branch of
    [ReserveWritableSpace] that moves the content), the copy runs past the end
    of the vector; otherwise it appends the bytes, or throws when the vector
    would exceed its maximal size. *)
Theorem append_outcome b bs :
  wf b -> zlen bs <= vector_max_size ->
  (compacts (zlen bs) b = true -> Append bs b = Fault OutOfBounds) /\
  (compacts (zlen bs) b = false -> writing_index_ b + zlen bs <= vector_max_size ->
     exists b', Append bs b = Ok b' /\ wf b' /\ readable b' = readable b ++ bs) /\
  (compacts (zlen bs) b = false -> vector_max_size < writing_index_ b + zlen bs ->
     Append bs b = Fault LengthError).
Proof.
  intros Hwf Hl. split_and!; intros.
  - by apply Append_compacts.
  - destruct (Append_ok b bs) as (b' & ? & ? & ? & _); eauto.
  - by apply Append_length_error.
Qed.

(** A buffer of 16 + 8 bytes holding 16, of which 12 were consumed; 8 bytes
    are then appended. *)
Definition consumed_buffer : IoBuffer := mkIoBuffer (replicate 24 Byte.x61) 20 24.

Lemma append_outcome_witness :
  wf consumed_buffer /\ Append (replicate 8 Byte.x62) consumed_buffer = Fault OutOfBounds.
Proof.
  assert (wf consumed_buffer) as Hwf
    by (split; vm_compute; try done; split; discriminate).
  split; [exact Hwf |].
  apply (append_outcome consumed_buffer (replicate 8 Byte.x62) Hwf);
    [vm_compute; discriminate | vm_compute; reflexivity].
Defined.

(** [EnsureWritableSpace], when it moves the content of a buffer with
    consumed space to the front, does not provide the space it was asked for
    and exposes stale bytes behind the readable ones. *)
Theorem compaction_breaks_contract b len b' :
  wf b -> kReservedCapacity < reading_index_ b -> compacts len b = true ->
  EnsureWritableSpace len b = Ok b' ->
  GetWritableBytes b' < len /\
  exists stale, readable b' = readable b ++ stale /\
    zlen stale = reading_index_ b - kReservedCapacity.
Proof.
  intros Hwf Hr Hc He.
  destruct (compaction_step b len Hwf Hc) as [Hf | (b1 & He1 & Hi & Hj & Hb & Hz)];
    [congruence |]. rewrite He1 in He. injection He as ->.
  pose proof (zlen_readable b Hwf) as Hzr. pose proof (proj1 (compacts_spec b len Hwf ltac:(lia)) Hc).
  assert (wf b') as Hwf'.
  { wf_facts. split; rewrite ?Hi, ?Hj, ?Hz; unfold kReservedCapacity, vector_max_size; lia. }
  split; [rewrite !GetWritableBytes_eq in * by done; lia |].
  exists (zdrop (zlen (readable b)) (readable b')).
  assert (zlen (readable b') = writing_index_ b - kReservedCapacity) as Hz'
    by (rewrite zlen_readable by done; congruence).
  pose proof (zlen_nonneg (readable b)). split; [| zlist].
  rewrite <- (ztake_zdrop (zlen (readable b)) (readable b')) at 1. f_equal.
  unfold readable at 2. rewrite Hi, Hj, Hb. wf_facts. rewrite ztake_zslice by lia.
  apply (zslice_written (buffer_ b) 8); lia.
Qed.

Lemma compaction_breaks_contract_witness :
  exists b', EnsureWritableSpace 8 consumed_buffer = Ok b' /\ GetWritableBytes b' < 8.
Proof.
  eexists. split; [vm_compute; reflexivity |].
  eapply (compaction_breaks_contract consumed_buffer 8).
  - split; vm_compute; try done; split; discriminate.
  - vm_compute. reflexivity.
  - vm_compute. reflexivity.
  - vm_compute. reflexivity.
Defined.

Section IntProperties.
Context `{HostOrder}.

Lemma retrieve_appended (get : IoBuffer -> result Z) (n : nat) (x : Z) b b1 :
  wf b -> readable b = [] -> reading_index_ b = kReservedCapacity ->
  writing_index_ b + Z.of_nat n <= vector_max_size ->
  (forall b, wf b -> Z.of_nat n <= zlen (readable b) ->
     get b = Ok (sext (Z.of_nat n * 8) (be_value (ztake (Z.of_nat n) (readable b))))) ->
  Append (be_bytes n x) b = Ok b1 ->
  readable b1 = be_bytes n x /\ get b1 = Ok (sext (Z.of_nat n * 8) x) /\
  readable (Refresh (Z.of_nat n) b1) = [].
Proof.
  intros Hwf Hr Hi Hmax Hget HA.
  destruct (Append_fresh b (be_bytes n x)) as (b2 & HA2 & Hwf2 & Hr2 & _);
    [done | done | by rewrite zlen_be_bytes |].
  rewrite HA in HA2. injection HA2 as <-. rewrite Hr in Hr2. simpl in Hr2.
  pose proof (zlen_be_bytes n x). split_and!; [done | |].
  - rewrite Hget by (done || (rewrite Hr2; lia)). rewrite Hr2, ztake_all by lia.
    by rewrite signed_be_roundtrip.
  - destruct (Refresh_spec b1 (Z.of_nat n)) as (_ & Hd & _); [done | lia |].
    rewrite Hd, Hr2. apply zdrop_all. lia.
Qed.

(** The integer accessors round-trip at every width: an integer appended
    to an empty buffer lies there in big-endian order, whatever the byte order
    of the host, and is retrieved unchanged, leaving the buffer empty. *)
Theorem int_roundtrip b :
  wf b -> readable b = [] -> reading_index_ b = kReservedCapacity ->
  writing_index_ b + 8 <= vector_max_size ->
  (forall x b1, - 2 ^ 7 <= x < 2 ^ 7 -> AppendInt8 x b = Ok b1 ->
     readable b1 = be_bytes 1 x /\
     exists b2, RetrieveInt8 b1 = Ok (x, b2) /\ readable b2 = []) /\
  (forall x b1, - 2 ^ 15 <= x < 2 ^ 15 -> AppendInt16 x b = Ok b1 ->
     readable b1 = be_bytes 2 x /\
     exists b2, RetrieveInt16 b1 = Ok (x, b2) /\ readable b2 = []) /\
  (forall x b1, - 2 ^ 31 <= x < 2 ^ 31 -> AppendInt32 x b = Ok b1 ->
     readable b1 = be_bytes 4 x /\
     exists b2, RetrieveInt32 b1 = Ok (x, b2) /\ readable b2 = []) /\
  (forall x b1, - 2 ^ 63 <= x < 2 ^ 63 -> AppendInt64 x b = Ok b1 ->
     readable b1 = be_bytes 8 x /\
     exists b2, RetrieveInt64 b1 = Ok (x, b2) /\ readable b2 = []).
Proof.
  intros Hwf Hr Hi Hmax. split_and!; intros x b1 Hx HA;
    destruct (AppendInt_bytes x) as (H8 & H16 & H32 & H64);
    rewrite ?H8, ?H16, ?H32, ?H64 in HA;
    unfold RetrieveInt8, RetrieveInt16, RetrieveInt32, RetrieveInt64.
  - destruct (retrieve_appended GetReadableInt8 1 x b b1) as (Hb & Hg & Hd);
      [done | done | done | lia | intros; by apply GetReadableInts_ok | done |].
    split; [done |]. rewrite Hg. simpl. rewrite sext_small by lia. eauto.
  - destruct (retrieve_appended GetReadableInt16 2 x b b1) as (Hb & Hg & Hd);
      [done | done | done | lia | intros; by apply GetReadableInts_ok | done |].
    split; [done |]. rewrite Hg. simpl. rewrite sext_small by lia. eauto.
  - destruct (retrieve_appended GetReadableInt32 4 x b b1) as (Hb & Hg & Hd);
      [done | done | done | lia | intros; by apply GetReadableInt32_ok | done |].
    split; [done |]. rewrite Hg. simpl. rewrite sext_small by lia. eauto.
  - destruct (retrieve_appended GetReadableInt64 8 x b b1) as (Hb & Hg & Hd);
      [done | done | done | lia | intros; by apply GetReadableInts_ok | done |].
    split; [done |]. rewrite Hg. simpl. rewrite sext_small by lia. eauto.
Qed.

(** Retrieving an integer from a buffer that holds fewer bytes than its
    width returns 0 and drops the bytes that were there. *)
Theorem short_int_read_discards b :
  wf b ->
  (zlen (readable b) < 2 -> exists b', RetrieveInt16 b = Ok (0, b') /\ readable b' = []) /\
  (zlen (readable b) < 4 -> exists b', RetrieveInt32 b = Ok (0, b') /\ readable b' = []) /\
  (zlen (readable b) < 8 -> exists b', RetrieveInt64 b = Ok (0, b') /\ readable b' = []).
Proof.
  intros Hwf. pose proof (readable_bytes_zlen b Hwf) as Hz.
  unfold RetrieveInt16, RetrieveInt32, RetrieveInt64, GetReadableInt16, GetReadableInt32,
    GetReadableInt64.
  split_and!; intros Hl; rewrite (proj2 (Z.ltb_lt _ _)) by lia; simpl;
    eexists; (split; [done |]).
  - destruct (Refresh_spec b 2) as (_ & -> & _); [done | lia |]. apply zdrop_all. lia.
  - destruct (Refresh_spec b 4) as (_ & -> & _); [done | lia |]. apply zdrop_all. lia.
  - destruct (Refresh_spec b 8) as (_ & -> & _); [done | lia |]. apply zdrop_all. lia.
Qed.

End IntProperties.

Lemma int_roundtrip_witness :
  exists b1, @AppendInt32 x86_host (-2) (IoBuffer_new 64) = Ok b1 /\
    readable b1 = [Byte.xff; Byte.xff; Byte.xff; Byte.xfe] /\
    exists b2, @RetrieveInt32 x86_host b1 = Ok (-2, b2) /\ readable b2 = [].
Proof.
  eexists. split; [vm_compute; reflexivity |].
  refine (proj1 (proj2 (proj2 (@int_roundtrip x86_host (IoBuffer_new 64) _ _ _ _))) (-2) _ _ _).
  - apply IoBuffer_new_wf. vm_compute. split; discriminate.
  - done.
  - done.
  - vm_compute. discriminate.
  - lia.
  - vm_compute. reflexivity.
Defined.

Lemma short_int_read_discards_witness :
  exists b', @RetrieveInt32 x86_host (mkIoBuffer (replicate 24 Byte.x61) 8 11) = Ok (0, b') /\
    readable b' = [].
Proof.
  refine (proj1 (proj2 (@short_int_read_discards x86_host
    (mkIoBuffer (replicate 24 Byte.x61) 8 11) _)) _).
  - split; vm_compute; try done; split; discriminate.
  - vm_compute. reflexivity.
Defined.

(** [FindCrlf] and [FindEof] give the position of the first line end of
    the readable bytes, and nothing exactly when there is none. *)
Theorem find_line_end b :
  wf b ->
  (forall p, FindCrlf b = Ok (Some p) ->
     exists line rest, readable b = line ++ kCrlf ++ rest /\
       p = reading_index_ b + zlen line /\
       forall line' rest', readable b = line' ++ kCrlf ++ rest' -> zlen line <= zlen line') /\
  (FindCrlf b = Ok None -> forall line rest, readable b <> line ++ kCrlf ++ rest) /\
  (forall p, FindEof b = Ok (Some p) ->
     exists line rest, readable b = line ++ [Byte.x0a] ++ rest /\
       p = reading_index_ b + zlen line /\
       forall line' rest', readable b = line' ++ [Byte.x0a] ++ rest' -> zlen line <= zlen line') /\
  (FindEof b = Ok None -> forall line rest, readable b <> line ++ [Byte.x0a] ++ rest).
Proof.
  intros Hwf. unfold FindCrlf, FindEof, GetReadablePosition.
  rewrite readable_read_all by done. simpl. rewrite memchr_memmem.
  split_and!.
  - intros p Hp. destruct (memmem (readable b) kCrlf) eqn:Hm; [| done].
    apply memmem_first in Hm as (pre & post & Heq & -> & Hmin).
    injection Hp as <-. exists pre, post. auto.
  - destruct (memmem (readable b) kCrlf) eqn:Hm; [done |].
    intros _. exact (memmem_none _ _ Hm).
  - intros p Hp. destruct (memmem (readable b) [Byte.x0a]) eqn:Hm; [| done].
    apply memmem_first in Hm as (pre & post & Heq & -> & Hmin).
    injection Hp as <-. exists pre, post. auto.
  - destruct (memmem (readable b) [Byte.x0a]) eqn:Hm; [done |].
    intros _. exact (memmem_none _ _ Hm).
Qed.

Lemma find_line_end_witness :
  exists line rest, [Byte.x61; Byte.x0d; Byte.x0a; Byte.x62] = line ++ kCrlf ++ rest /\
    9 = 8 + zlen line.
Proof.
  destruct (find_line_end (mkIoBuffer
    (replicate 8 Byte.x00 ++ [Byte.x61; Byte.x0d; Byte.x0a; Byte.x62]) 8 12)) as [HF _].
  { split; vm_compute; (done || split; discriminate). }
  destruct (HF 9) as (line & rest & Heq & Hp & _); [vm_compute; reflexivity |].
  exists line, rest. split; [exact Heq | exact Hp].
Defined.

(** [ReadFromFd] with the kernel's answer of [data]: the received bytes
    are appended in order, whether they fit in the writable space or spill
    into the 64 KiB extra buffer, and an error leaves the buffer alone; but
    when the spilled part fits only in the consumed space in front, appending
    it runs past the end of the vector. *)
Theorem read_from_fd_outcome b data errno :
  wf b -> kReservedCapacity <= reading_index_ b -> GetWritableBytes b < 2 ^ 31 ->
  zlen data <= ReadFromFd_space b -> zlen (buffer_ b) + zlen data <= vector_max_size ->
  ReadFromFd (RecvError errno) b = Ok (-1, Some errno, b) /\
  (zlen data <= GetWritableBytes b \/
   reading_index_ b - kReservedCapacity < zlen data - GetWritableBytes b ->
     exists b', ReadFromFd (RecvBytes data) b = Ok (zlen data, None, b') /\ wf b' /\
       readable b' = readable b ++ data) /\
  (0 < zlen data - GetWritableBytes b <= reading_index_ b - kReservedCapacity ->
     ReadFromFd (RecvBytes data) b = Fault OutOfBounds).
Proof.
  intros Hwf Hr Hs Hsp Hmax. assert (0 <= GetWritableBytes b) by apply u64_range.
  split; [done |].
  destruct (ReadFromFd_cases b data) as [(Hle & b1 & Hb1 & Hwf1 & Hr1 & _) |
    (Hgt & full & Hwff & Hif & Hjf & HWf & Hrf & Heq)]; try done.
  { split; [eauto | lia]. }
  assert (zlen (zdrop (GetWritableBytes b) data) = zlen data - GetWritableBytes b) as Hz
    by (rewrite zlen_zdrop; lia).
  split; intros Hc; rewrite Heq.
  - destruct (Append_ok full (zdrop (GetWritableBytes b) data)) as (b' & -> & Hwf' & Hr' & _);
      [done | | lia |].
    + apply not_true_iff_false. rewrite compacts_spec by (done || lia). lia.
    + exists b'. simpl. rewrite Hr', Hrf, <- app_assoc, ztake_zdrop. done.
  - rewrite Append_compacts; [done | done |]. apply compacts_spec; [done | lia |]. lia.
Qed.

(** A full 16-byte buffer whose first 12 bytes were consumed receives 8. *)
Lemma read_from_fd_outcome_witness :
  ReadFromFd (RecvBytes (replicate 8 Byte.x62)) consumed_buffer = Fault OutOfBounds.
Proof.
  refine (proj2 (proj2 (read_from_fd_outcome consumed_buffer (replicate 8 Byte.x62) 0
    _ _ _ _ _)) _).
  - split; vm_compute; (done || split; discriminate).
  - vm_compute. discriminate.
  - vm_compute. reflexivity.
  - vm_compute. discriminate.
  - vm_compute. discriminate.
  - split; vm_compute; (reflexivity || discriminate).
Defined.

(** The exact-length [ReadFromFd], when the peer delivers the requested
    bytes in any non-empty chunks, returns their number with exactly those
    bytes appended, and leaves later data unread. *)
Theorem read_exact_complete b chunks rest :
  wf b -> Forall (fun c => 0 < zlen c) chunks ->
  compacts (zlen (concat chunks)) b = false ->
  writing_index_ b + zlen (concat chunks) <= vector_max_size ->
  exists b', ReadFromFd_exact (map RecvBytes chunks ++ rest) (zlen (concat chunks)) b
      = Ok (Finished (zlen (concat chunks)) b' rest) /\
    wf b' /\ readable b' = readable b ++ concat chunks.
Proof.
  intros Hwf Hc Hcomp Hmax. pose proof (zlen_nonneg (concat chunks)).
  destruct (EnsureWritableSpace_ok b (zlen (concat chunks)))
    as (b1 & He & Hwf1 & Hr1 & _ & _ & HW); auto.
  unfold ReadFromFd_exact. rewrite He. simpl. rewrite <- Hr1.
  apply (ReadFromFd_loop_chunks chunks rest 0 b1); auto; [lia |].
  wf_facts. unfold vector_max_size in *. lia.
Qed.

Lemma read_exact_complete_witness :
  exists b', ReadFromFd_exact
      (map RecvBytes [[Byte.x61; Byte.x62]; [Byte.x63]] ++ [RecvBytes [Byte.x64]]) 3
      (IoBuffer_new 1) = Ok (Finished 3 b' [RecvBytes [Byte.x64]]) /\ wf b' /\
    readable b' = [Byte.x61; Byte.x62; Byte.x63].
Proof.
  apply (read_exact_complete (IoBuffer_new 1) [[Byte.x61; Byte.x62]; [Byte.x63]]
    [RecvBytes [Byte.x64]]).
  - apply IoBuffer_new_wf. vm_compute. split; discriminate.
  - repeat constructor.
  - vm_compute. reflexivity.
  - vm_compute. discriminate.
Defined.

(** The exact-length [ReadFromFd] does not end when the peer has closed:
    any number of end-of-stream answers leaves the loop where it was. A failed
    [recv] is counted as a read of minus one byte: the loop asks for one byte
    more and the writing index moves back. *)
Theorem read_exact_never_gives_up b read_len res :
  0 < read_len < 2 ^ 63 -> 0 < writing_index_ b < 2 ^ 63 ->
  - 2 ^ 63 < res < 2 ^ 63 ->
  (wf b -> forall n, ReadFromFd_loop (replicate n (RecvBytes [])) read_len res b
     = Ok (Reading read_len res b)) /\
  (forall errno, ReadFromFd_loop [RecvError errno] read_len res b
     = Ok (Reading (read_len + 1) (res - 1)
             (mkIoBuffer (buffer_ b) (reading_index_ b) (writing_index_ b - 1)))).
Proof.
  intros Hl Hw Hr. split.
  - intros Hwf n. induction n as [| n IH]; simpl; rewrite (proj2 (Z.ltb_lt _ _)) by lia; [done |].
    unfold ztake; rewrite take_nil.
    assert (mem_write (buffer_ b) (GetWritablePosition b) [] = Ok (buffer_ b)) as ->.
    { wf_facts. unfold GetWritablePosition. rewrite mem_write_ok by (zlist).
      rewrite zlen_nil, Z.add_0_r. simpl. by rewrite ztake_zdrop. }
    simpl. rewrite zlen_nil, Z.sub_0_r, Z.add_0_r. rewrite u64_small by lia.
    unfold s64; rewrite sext_small by lia.
    unfold RefreshW; simpl. rewrite Z.add_0_r, (u64_small (writing_index_ b)) by lia.
    by destruct b.
  - intros errno. simpl. rewrite (proj2 (Z.ltb_lt _ _)) by lia. simpl.
    rewrite u64_small by lia. unfold s64; rewrite sext_small by lia.
    unfold RefreshW. rewrite u64_small by lia.
    rewrite (proj2 (Z.ltb_lt _ _)) by lia. do 2 f_equal; lia.
Qed.

Lemma read_exact_never_gives_up_witness :
  ReadFromFd_loop (replicate 5 (RecvBytes [])) 3 0 (IoBuffer_new 8)
    = Ok (Reading 3 0 (IoBuffer_new 8)).
Proof.
  refine (proj1 (read_exact_never_gives_up (IoBuffer_new 8) 3 0 _ _ _) _ 5%nat);
    [lia | simpl; unfold kReservedCapacity; lia | lia |].
  apply IoBuffer_new_wf. vm_compute. split; discriminate.
Defined.

(** [ShrinkWritableSpace] keeps the readable bytes, gives back the
    consumed space, and leaves at least the requested writable space; requests
    of at most 32 bytes are refused. *)
Theorem shrink_keeps_content b len :
  wf b ->
  (len <= 32 -> ShrinkWritableSpace len b = Ok b) /\
  (32 < len ->
   kReservedCapacity + (kReservedCapacity + zlen (readable b) + len) <= vector_max_size ->
   exists b', ShrinkWritableSpace len b = Ok b' /\ wf b' /\ readable b' = readable b /\
     reading_index_ b' = kReservedCapacity /\ len <= GetWritableBytes b').
Proof.
  intros Hwf. split.
  - intros Hl. unfold ShrinkWritableSpace. by rewrite (proj2 (Z.leb_le _ _)).
  - by apply ShrinkWritableSpace_ok.
Qed.

Lemma shrink_keeps_content_witness :
  exists b', ShrinkWritableSpace 40 consumed_buffer = Ok b' /\ wf b' /\
    readable b' = replicate 4 Byte.x61 /\ reading_index_ b' = kReservedCapacity /\
    40 <= GetWritableBytes b'.
Proof.
  refine (proj2 (shrink_keeps_content consumed_buffer 40 _) _ _).
  - split; vm_compute; (done || split; discriminate).
  - lia.
  - vm_compute. discriminate.
Defined.
