(* ===== verification/Text.v ===== *)
(** * Text

    Strings as lists of bytes, literals, and decimal numbers as [printf] and
    [std::to_string] write them. Shared by the files that build text. *)

From Stdlib Require Import Strings.String.
From stdpp Require Import prelude countable list.
From coqutil Require Import Byte.
From S2P Require Import Prelude.

Abbreviation text := (list byte).

Definition txt (s : string) : text := list_byte_of_string s.

#[export] Program Instance byte_countable : Countable byte :=
  inj_countable Byte.to_N Byte.of_N _.
Next Obligation. intros b. apply Byte.of_to_N. Qed.

(** ** Decimal numbers *)

Definition digit (n : Z) : byte := byte.of_Z (48 + n).

Fixpoint dec_loop (fuel : nat) (n : Z) : text :=
  match fuel with
  | O => []
  | S fuel => if n <? 10 then [digit n] else dec_loop fuel (n / 10) ++ [digit (n mod 10)]
  end.

(** [%u] and [%zd] for the values of a 64-bit type: 20 digits are enough. *)
Definition dec (n : Z) : text := if n <? 0 then txt "-" ++ dec_loop 20 (- n) else dec_loop 20 n.

Definition dec_value (t : text) : Z := foldl (fun acc b => acc * 10 + (byte.unsigned b - 48)) 0 t.
