(* ===== verification/Framing.v ===== *)
(** * Framed messages in a byte stream

    What the codecs of the program have in common: messages are written as
    frames one behind the other, TCP cuts the stream into reads anywhere, and a
    message callback takes the complete frames off the input buffer. A codec
    that does so for one read ([decodes]) does it for every way the stream is
    cut ([framed_outcome]). *)

From stdpp Require Import prelude list.
From S2P Require Import Prelude.
From S2P Require Import IoBuffer.

Abbreviation byte := Byte.byte.

(** ** Reading a stream *)

Section receiving.
Context {E : Type} (on : IoBuffer -> E -> result (IoBuffer * E)).

(** What a connection does with a stream: each read leaves in the input buffer
    what the last callback left and the new piece, in whatever state the rest of
    the buffer is, and calls the message callback [on]. *)
Inductive receives : list (list byte) -> list byte -> E -> list byte -> E -> Prop :=
  | receives_nil left e : receives [] left e left e
  | receives_cons piece pieces left e b b' e1 left' e' :
      IoBuffer.wf b -> readable b = left ++ piece -> on b e = Ok (b', e1) ->
      receives pieces (readable b') e1 left' e' ->
      receives (piece :: pieces) left e left' e'.

(** The stream can be received, and always with this outcome. *)
Definition outcome (pieces : list (list byte)) (left : list byte) (e : E) (left' : list byte) (e' : E)
  : Prop :=
  receives pieces left e left' e' /\
  forall left'' e'', receives pieces left e left'' e'' -> left'' = left' /\ e'' = e'.
End receiving.

(** ** Frames *)

Section framing.
Context {M : Type} (frame : M -> list byte) (fits : M -> Prop).

Definition frames (ms : list M) : list byte := mjoin (frame <$> ms).

(** The stream ends inside a frame. *)
Definition incomplete (rest : list byte) : Prop :=
  exists m more, fits m /\ rest ++ more = frame m /\ more <> [].

Lemma framed_cons m ms : frames (m :: ms) = frame m ++ frames ms.
Proof. done. Qed.

Lemma frames_app ms ms' : frames (ms ++ ms') = frames ms ++ frames ms'.
Proof. unfold frames. by rewrite fmap_app, join_app. Qed.

Lemma incomplete_prefix bs tl : incomplete (bs ++ tl) -> incomplete bs.
Proof.
  intros (m & more & Hm & Heq & Hne). exists m, (tl ++ more). split; [done|].
  rewrite app_assoc. split; [done|]. by intros [_ ?]%app_eq_nil.
Qed.

(** A prefix of a stream of frames is some frames and an incomplete one. *)
Lemma prefix_frames bs tl ms rest :
  Forall fits ms -> incomplete rest -> bs ++ tl = frames ms ++ rest ->
  exists ms1 ms2 r, ms = ms1 ++ ms2 /\ bs = frames ms1 ++ r /\ incomplete r /\
    r ++ tl = frames ms2 ++ rest.
Proof.
  intros Hf Hr. revert bs. induction Hf as [|m ms Hm Hf IH]; intros bs Heq.
  { exists [], [], bs. simpl in Heq. split; [done|]. split; [done|]. split; [|done].
    apply (incomplete_prefix bs tl). by rewrite Heq. }
  rewrite framed_cons, <- app_assoc in Heq.
  destruct (decide (zlen bs < zlen (frame m))) as [Hlt|Hge].
  - exists [], (m :: ms), bs. split; [done|]. split; [done|]. rewrite framed_cons, <- app_assoc.
    split; [|done]. exists m, (zdrop (zlen bs) (frame m)). split; [done|]. split.
    + rewrite <- (ztake_zdrop (zlen bs) (frame m)) at 2. f_equal.
      rewrite <- (ztake_app_l _ _ (frames ms ++ rest)) by lia.
      rewrite <- Heq. symmetry. apply ztake_app_exact.
    + intros Hz. pose proof (zlen_zdrop (zlen bs) (frame m) (zlen_nonneg bs)) as Hl.
      rewrite Hz, zlen_nil in Hl. lia.
  - assert (bs = frame m ++ zdrop (zlen (frame m)) bs) as Hbs.
    { rewrite <- (ztake_zdrop (zlen (frame m)) bs) at 1. f_equal.
      rewrite <- (ztake_app_l _ bs tl) by lia. rewrite Heq. apply ztake_app_exact. }
    rewrite Hbs, <- app_assoc in Heq. apply app_inv_head in Heq.
    destruct (IH _ Heq) as (ms1 & ms2 & r & -> & Hd & Hi & Hrest).
    exists (m :: ms1), ms2, r. split; [done|]. rewrite framed_cons, <- app_assoc, <- Hd. auto.
Qed.

(** ** Codecs *)

Section codec.
Context {E : Type} (cb : M -> E -> result E).

(** The messages are handed to [cb] one after the other. *)
Fixpoint deliver (ms : list M) (e : E) : result E :=
  match ms with [] => Ok e | m :: ms => e ← cb m e; deliver ms e end.

Lemma deliver_app ms ms' e : deliver (ms ++ ms') e = (e ← deliver ms e; deliver ms' e).
Proof.
  revert e. induction ms as [|m ms IH]; intros e; simpl; [done|].
  destruct (cb m e); simpl; [apply IH|done].
Qed.

Context (on : IoBuffer -> E -> result (IoBuffer * E)).

(** One call of [on]: complete frames are delivered, the rest stays. *)
Definition decodes : Prop :=
  forall b e e' ms rest, IoBuffer.wf b -> readable b = frames ms ++ rest -> zlen (readable b) < 2 ^ 31 ->
    Forall fits ms -> incomplete rest -> deliver ms e = Ok e' ->
    exists b', on b e = Ok (b', e') /\ IoBuffer.wf b' /\ readable b' = rest.

(** All calls: the outcome does not depend on how the stream is cut. *)
Lemma framed_outcome pieces ms left rest e e' :
  decodes -> Forall fits ms -> incomplete left -> incomplete rest ->
  left ++ mjoin pieces = frames ms ++ rest -> zlen left + zlen (mjoin pieces) < 2 ^ 31 ->
  deliver ms e = Ok e' -> outcome on pieces left e rest e'.
Proof.
  intros Hdec Hf Hl Hr. revert ms left e Hf Hl.
  induction pieces as [|c pieces IH]; intros ms left e Hf Hl Heq Hmax Hd.
  - simpl in Heq. rewrite app_nil_r in Heq. change (mjoin []) with (@nil byte) in Hmax.
    rewrite zlen_nil, Z.add_0_r in Hmax.
    destruct (holding_ok left) as [Hwf Hb]; [lia|].
    destruct (Hdec (holding left) e e [] left) as (b1 & H1 & _ & Hr1); try done; [by rewrite Hb|].
    destruct (Hdec (holding left) e e' ms rest) as (b2 & H2 & _ & Hr2); try done;
      [by rewrite Hb, Heq | by rewrite Hb|].
    rewrite H1 in H2. injection H2 as <- <-. rewrite Hr1 in Hr2. subst rest.
    split; [constructor|]. intros ?? Hrec. by inversion Hrec.
  - change (mjoin (c :: pieces)) with (c ++ mjoin pieces) in Heq, Hmax. rewrite app_assoc in Heq.
    destruct (prefix_frames _ _ _ _ Hf Hr Heq) as (ms1 & ms2 & r & -> & Hbs & Hi & Hrest).
    apply Forall_app in Hf as [Hf1 Hf2]. rewrite deliver_app in Hd. bind_ok.
    rewrite zlen_app in Hmax. pose proof (zlen_nonneg (mjoin pieces)).
    pose proof (f_equal zlen Hbs) as Hlen. rewrite !zlen_app in Hlen.
    pose proof (zlen_nonneg (frames ms1)).
    destruct (IH ms2 r a Hf2 Hi Hrest ltac:(lia) ltac:(done)) as [Hex Hun].
    assert (forall b, IoBuffer.wf b -> readable b = left ++ c ->
      exists b', on b e = Ok (b', a) /\ readable b' = r) as Hone.
    { intros b Hwf Hb. destruct (Hdec b e a ms1 r) as (b' & Hon & _ & Hr'); try done.
      - by rewrite Hb.
      - rewrite Hb, zlen_app. lia.
      - by exists b'. }
    split.
    + destruct (holding_ok (left ++ c)) as [Hwf Hb]; [rewrite zlen_app; lia|].
      destruct (Hone _ Hwf Hb) as (b' & Hon & Hr'). eapply receives_cons; [done..|]. by rewrite Hr'.
    + intros left'' e'' Hrec. inversion Hrec as [|? ? ? ? b b' e2 ? ? Hwf Hb Hon Hrec']; subst.
      destruct (Hone _ Hwf Hb) as (b2 & Hon2 & Hr2). rewrite Hon in Hon2. injection Hon2 as -> ->.
      apply Hun. by rewrite <- Hr2.
Qed.
End codec.
End framing.
