(* ===== verification/Timer.v ===== *)
(** * Time points and the timer

    Model of class [TimePoint] (src/time_point.h, src/time_point.cc) and class
    [Timer] (src/timer.h, src/timer.cc). The clock is read through
    [gettimeofday], whose answer is an argument of every definition that reads
    it. The [std::multimap] of the timer is the list of its elements in key
    order; [insert] puts a new element behind those with the same key. The
    timer's lock makes each of its three operations one step. *)

From stdpp Require Import prelude list sorting.
From S2P Require Import Prelude.

(** ** TimePoint *)

(** [struct timeval] as [gettimeofday] fills it. *)
Record timeval := mkTimeval { tv_sec : Z; tv_usec : Z }.

Definition FNow (tv : timeval) : Z := s64 (tv_sec tv * 1000 * 1000 + tv_usec tv).

Section TimePoint.
(** The callables that decide whether a periodic task continues. *)
Context {Continue : Type}.

Record TimePoint := mkTimePoint {
  time_point_microseconds_ : Z;
  context_ : Z;
  IsContinue_ : option Continue;
}.

Definition TimePoint_now (tv : timeval) : TimePoint := mkTimePoint (FNow tv) 0 None.

Definition TimePoint_after (tv : timeval) (duration_microseconds : Z) (repeated : bool)
    : TimePoint :=
  mkTimePoint (s64 (FNow tv + duration_microseconds))
    (if repeated then duration_microseconds else 0) None.

Definition GetMicroseconds (tp : TimePoint) : Z := time_point_microseconds_ tp.

Definition TimePoint_from (duration_microseconds : Z) (start_time_point : TimePoint)
    (repeated : bool) : TimePoint :=
  mkTimePoint (s64 (GetMicroseconds start_time_point + duration_microseconds))
    (if repeated then duration_microseconds else 0) None.

Definition GetContext (tp : TimePoint) : Z := context_ tp.

(** Integer division of C++ truncates. *)
Definition GetMillisecond (tp : TimePoint) : Z := Z.quot (time_point_microseconds_ tp) 1000.

Definition tp_lt (a b : TimePoint) : bool :=
  time_point_microseconds_ a <? time_point_microseconds_ b.
Definition tp_le (a b : TimePoint) : bool :=
  time_point_microseconds_ a <=? time_point_microseconds_ b.
Definition tp_eq (a b : TimePoint) : bool :=
  time_point_microseconds_ a =? time_point_microseconds_ b.

Definition SetTaskContinueCallback (IsContinue : option Continue) (tp : TimePoint) : TimePoint :=
  if negb (0 =? context_ tp)
  then mkTimePoint (time_point_microseconds_ tp) (context_ tp) IsContinue
  else tp.

Definition GetTaskContinueCallback (tp : TimePoint) : option Continue :=
  if negb (0 =? context_ tp) then IsContinue_ tp else None.

End TimePoint.
Arguments TimePoint : clear implicits.

(** ** Timer *)

Section Timer.
Context {Continue Task : Type}.
Abbreviation TimePoint := (TimePoint Continue).
Abbreviation TimePoints := (list (TimePoint * Task)).

Record Timer := mkTimer { time_points_ : TimePoints }.

Definition Timer_new : Timer := mkTimer [].

(** [multimap::insert]: behind every element whose key is not greater. *)
Fixpoint multimap_insert (x : TimePoint * Task) (l : TimePoints) : TimePoints :=
  match l with
  | [] => [x]
  | y :: l' => if tp_lt (fst x) (fst y) then x :: y :: l' else y :: multimap_insert x l'
  end.

Definition AddTimeTask (time_point : TimePoint) (TimeTask : Task) (t : Timer) : Timer :=
  mkTimer (multimap_insert (time_point, TimeTask) (time_points_ t)).

Definition GetMinTimeDuration (tv : timeval) (t : Timer) : Z :=
  match time_points_ t with
  | [] => 10000
  | (first, _) :: _ =>
      let duration :=
        s32 (GetMillisecond first - GetMillisecond (TimePoint_now (Continue:=Continue) tv)) in
      if 0 <? duration then duration else 0
  end.

(** The loop that collects the expired tasks and stops at the first one that
    is not due; the collected prefix is erased. *)
Fixpoint split_expired (now : TimePoint) (l : TimePoints) : TimePoints * TimePoints :=
  match l with
  | [] => ([], [])
  | (tp, task) :: l' =>
      if tp_le tp now
      then let '(expired, rest) := split_expired now l' in ((tp, task) :: expired, rest)
      else ([], l)
  end.

Definition GetExpiredTimeTasks (tv : timeval) (t : Timer) : TimePoints * Timer :=
  let '(expired, rest) := split_expired (TimePoint_now tv) (time_points_ t) in
  (expired, mkTimer rest).

(** ** Facts *)

Definition key (x : TimePoint * Task) : Z := time_point_microseconds_ (fst x).
Definition key_le (x y : TimePoint * Task) : Prop := key x <= key y.

#[export] Instance key_le_trans : Transitive key_le.
Proof. intros x y z. unfold key_le. lia. Qed.

(** The invariant of the multimap: elements in key order. *)
Definition timer_sorted (t : Timer) : Prop := StronglySorted key_le (time_points_ t).

Lemma multimap_insert_perm x l : multimap_insert x l ≡ₚ x :: l.
Proof.
  induction l as [| y l IH]; simpl; [done |]. destruct (tp_lt _ _); [done |].
  transitivity (y :: x :: l); [by apply perm_skip | by apply perm_swap].
Qed.

Lemma multimap_insert_sorted x l :
  StronglySorted key_le l -> StronglySorted key_le (multimap_insert x l).
Proof.
  induction 1 as [| y l Hs IH Hy]; simpl; [repeat constructor |].
  unfold tp_lt. destruct (Z.ltb_spec (time_point_microseconds_ x.1) (time_point_microseconds_ y.1)) as [Hlt | Hge].
  - constructor; [by constructor |]. constructor; [unfold key_le, key; lia |].
    eapply Forall_impl; [exact Hy |]. unfold key_le, key. intros; lia.
  - constructor; [done |]. rewrite multimap_insert_perm.
    constructor; [unfold key_le, key; lia | done].
Qed.

(** Elements with the same key keep the order of insertion. *)
Lemma multimap_insert_stable x l k :
  StronglySorted key_le l ->
  filter (fun y => key y = k) (multimap_insert x l)
    = filter (fun y => key y = k) l ++ filter (fun y => key y = k) [x].
Proof.
  induction 1 as [| y l Hs IH Hy]; simpl; [done |].
  unfold tp_lt. destruct (Z.ltb_spec (time_point_microseconds_ x.1) (time_point_microseconds_ y.1)) as [Hlt | Hge].
  - rewrite !(filter_cons _ x), filter_nil. case_decide as Hk; [| by rewrite app_nil_r].
    assert (filter (fun y => key y = k) (y :: l) = []) as ->; [| done].
    rewrite filter_cons, decide_False by (unfold key in *; lia).
    clear -Hy Hk Hlt. induction Hy as [| z l Hz Hl IH]; [done |].
    rewrite filter_cons, decide_False by (unfold key_le, key in *; lia). done.
  - rewrite !(filter_cons _ y). case_decide; by rewrite IH.
Qed.

(** On a sorted list the loop splits at the deadline. *)
Lemma split_expired_filter now l :
  StronglySorted key_le l ->
  split_expired now l
    = (filter (fun y => key y <= time_point_microseconds_ now) l,
       filter (fun y => time_point_microseconds_ now < key y) l).
Proof.
  induction 1 as [| [tp task] l Hs IH Hy]; simpl; [done |].
  unfold tp_le. destruct (Z.leb_spec (time_point_microseconds_ tp) (time_point_microseconds_ now)).
  - rewrite IH, !filter_cons. rewrite decide_True, decide_False by (unfold key; simpl; lia). done.
  - rewrite !filter_cons, decide_False, decide_True by (unfold key; simpl; lia).
    assert (Forall (fun y => time_point_microseconds_ now < key y) l) as Hl.
    { eapply Forall_impl; [exact Hy |]. unfold key_le, key; simpl. intros; lia. }
    f_equal; [symmetry; clear -Hl; induction Hl as [| z l Hz Hl IH]; [done |] |
      f_equal; symmetry; clear -Hl; induction Hl as [| z l Hz Hl IH]; [done |]].
    + rewrite filter_cons, decide_False by lia. done.
    + rewrite filter_cons, decide_True by lia. by rewrite IH.
Qed.

(** A task for the latest time so far goes to the end, and what has expired
    comes off the front. *)
Lemma multimap_insert_last x l :
  Forall (fun y => key y <= key x) l -> multimap_insert x l = l ++ [x].
Proof.
  induction 1 as [| y l Hy Hl IH]; [done |]. simpl. unfold tp_lt, key in *.
  rewrite (proj2 (Z.ltb_ge _ _)) by done. by rewrite IH.
Qed.

Lemma split_expired_app now l : (split_expired now l).1 ++ (split_expired now l).2 = l.
Proof.
  induction l as [| [tp task] l IH]; [done |]. simpl. destruct (tp_le tp now); [| done].
  destruct (split_expired now l) as [expired rest]. simpl in *. by rewrite IH.
Qed.

(** Timers reachable by registering tasks and collecting expired ones, with
    the tasks registered and collected so far. *)
Inductive timer_run : list (TimePoint * Task) -> list (TimePoint * Task) -> Timer -> Prop :=
| timer_start : timer_run [] [] Timer_new
| timer_add added expired t tp task :
    timer_run added expired t ->
    timer_run (added ++ [(tp, task)]) expired (AddTimeTask tp task t)
| timer_expire added expired t tv out t' :
    timer_run added expired t -> GetExpiredTimeTasks tv t = (out, t') ->
    timer_run added (expired ++ out) t'.

Lemma StronglySorted_filter (P : TimePoint * Task -> Prop) `{!forall x, Decision (P x)} l :
  StronglySorted key_le l -> StronglySorted key_le (filter P l).
Proof.
  induction 1 as [| y l Hs IH Hy]; [constructor |]. rewrite filter_cons. case_decide; [| done].
  constructor; [done |]. clear -Hy. induction Hy; [constructor |].
  rewrite filter_cons. case_decide; [by constructor | done].
Qed.

(** What [GetExpiredTimeTasks] returns and keeps. *)
Lemma GetExpiredTimeTasks_spec tv t :
  timer_sorted t ->
  GetExpiredTimeTasks tv t
    = (filter (fun y => key y <= FNow tv) (time_points_ t),
       mkTimer (filter (fun y => FNow tv < key y) (time_points_ t))).
Proof.
  intros Hs. unfold GetExpiredTimeTasks. by rewrite split_expired_filter.
Qed.

Lemma timer_run_sorted added expired t : timer_run added expired t -> timer_sorted t.
Proof.
  induction 1 as [| added expired t tp task _ IH | added expired t tv out t' _ IH Hg];
    unfold timer_sorted; simpl; [constructor | by apply multimap_insert_sorted |].
  rewrite GetExpiredTimeTasks_spec in Hg by done. injection Hg as _ <-.
  by apply StronglySorted_filter.
Qed.

Lemma filter_deadline_split (now k : Z) (l : TimePoints) :
  filter (fun y => key y = k) (filter (fun y => key y <= now) l) ++
  filter (fun y => key y = k) (filter (fun y => now < key y) l)
    = filter (fun y => key y = k) l.
Proof.
  destruct (Z.le_gt_cases k now).
  - assert (filter (fun y => key y = k) (filter (fun y => now < key y) l) = []) as ->.
    + induction l as [| y l IH]; [done |]. rewrite filter_cons. case_decide; [| done].
      rewrite filter_cons, decide_False by lia. done.
    + rewrite app_nil_r. induction l as [| y l IH]; [done |].
      rewrite !filter_cons. case_decide; rewrite ?filter_cons; repeat case_decide; lia || congruence.
  - assert (filter (fun y => key y = k) (filter (fun y => key y <= now) l) = []) as ->.
    + induction l as [| y l IH]; [done |]. rewrite filter_cons. case_decide; [| done].
      rewrite filter_cons, decide_False by lia. done.
    + simpl. induction l as [| y l IH]; [done |].
      rewrite !filter_cons. case_decide; rewrite ?filter_cons; repeat case_decide; lia || congruence.
Qed.

(** C22. No time task is lost, duplicated or overtaken: at every moment, for
    each time point, the tasks collected so far followed by those still
    registered are the tasks registered for it, in the order of registration;
    and the timer keeps its tasks in time order. *)
Theorem timer_tasks_conserved added expired t :
  timer_run added expired t ->
  timer_sorted t /\
  forall k, filter (fun y => key y = k) expired ++ filter (fun y => key y = k) (time_points_ t)
            = filter (fun y => key y = k) added.
Proof.
  intros Hrun. split; [by eapply timer_run_sorted |]. intros k.
  induction Hrun as [| added expired t tp task Hrun IH | added expired t tv out t' Hrun IH Hg];
    [done | |]; pose proof (timer_run_sorted _ _ _ Hrun) as Hs.
  - simpl. rewrite multimap_insert_stable by done. by rewrite !filter_app, <- IH, app_assoc.
  - rewrite GetExpiredTimeTasks_spec in Hg by done. injection Hg as <- <-. simpl.
    by rewrite filter_app, <- app_assoc, filter_deadline_split.
Qed.

(** [GetExpiredTimeTasks] returns exactly the tasks that are due, earliest
    first, and keeps exactly the others. *)
Theorem expired_exactly_due added expired t tv out t' :
  timer_run added expired t -> GetExpiredTimeTasks tv t = (out, t') ->
  out = filter (fun y => key y <= FNow tv) (time_points_ t) /\
  time_points_ t' = filter (fun y => FNow tv < key y) (time_points_ t) /\
  StronglySorted key_le out.
Proof.
  intros Hrun Hg. pose proof (timer_run_sorted _ _ _ Hrun) as Hs.
  rewrite GetExpiredTimeTasks_spec in Hg by done. injection Hg as <- <-.
  split_and!; [done | done |]. by apply StronglySorted_filter.
Qed.

Lemma now_millisecond tv :
  GetMillisecond (TimePoint_now (Continue:=Continue) tv) = Z.quot (FNow tv) 1000.
Proof. done. Qed.

(** The poll timeout derived from the timer: 10 s without tasks; never
    negative; the distance in milliseconds to the earliest task when that fits
    in an [int], and 0 when it is already due. *)
Theorem min_duration_bounds tv t :
  0 <= GetMinTimeDuration tv t < 2 ^ 31 /\
  (time_points_ t = [] -> GetMinTimeDuration tv t = 10000) /\
  (forall tp task rest, time_points_ t = (tp, task) :: rest ->
     - 2 ^ 31 <= GetMillisecond tp - Z.quot (FNow tv) 1000 < 2 ^ 31 ->
     GetMinTimeDuration tv t = Z.max 0 (GetMillisecond tp - Z.quot (FNow tv) 1000)).
Proof.
  unfold GetMinTimeDuration. split; [| split].
  - destruct (time_points_ t) as [| [tp task] rest]; [lia |]. lazy zeta.
    pose proof (sext_range 32 (GetMillisecond tp - GetMillisecond (TimePoint_now (Continue:=Continue) tv))).
    unfold s32. destruct (Z.ltb_spec 0 (sext 32 (GetMillisecond tp - GetMillisecond
      (TimePoint_now (Continue:=Continue) tv)))); lia.
  - by intros ->.
  - intros tp task rest -> Hb. rewrite now_millisecond. lazy zeta.
    unfold s32. rewrite sext_small by lia. case_cmp; lia.
Qed.

(** A task more than 24.8 days (2^31 ms) away makes the poll timeout 0:
    the distance does not fit in an [int] and wraps to a negative number. *)
Theorem far_task_spins tv t tp task rest :
  time_points_ t = (tp, task) :: rest ->
  2 ^ 31 <= GetMillisecond tp - Z.quot (FNow tv) 1000 < 2 ^ 32 ->
  GetMinTimeDuration tv t = 0.
Proof.
  intros Ht Hb. unfold GetMinTimeDuration. rewrite Ht.
  rewrite now_millisecond. lazy zeta.
  set (d := GetMillisecond tp - Z.quot (FNow tv) 1000) in *.
  assert (s32 d = d - 2 ^ 32) as Hs.
  { unfold s32. rewrite <- (sext_mod 32), <- (Z.mod_add d (-1)), sext_mod by lia.
    rewrite sext_small by lia. lia. }
  rewrite Hs. case_cmp; lia.
Qed.

End Timer.

(** ** Witnesses *)

Definition tv0 : timeval := mkTimeval 1000 0.
Definition tp_at (us : Z) : TimePoint unit := mkTimePoint us 0 None.

Lemma two_task_run :
  timer_run (Continue:=unit) [(tp_at 5, 1%nat); (tp_at 3, 2%nat)] []
    (AddTimeTask (tp_at 3) 2%nat (AddTimeTask (tp_at 5) 1%nat Timer_new)).
Proof.
  apply (timer_add [(tp_at 5, 1%nat)] []). apply (timer_add [] []). constructor.
Qed.

Lemma timer_tasks_conserved_witness :
  timer_sorted (mkTimer [(tp_at 3, 2%nat); (tp_at 5, 1%nat)]).
Proof. exact (proj1 (timer_tasks_conserved _ _ _ two_task_run)). Defined.

Lemma expired_exactly_due_witness :
  [(tp_at 3, 2%nat)] = filter (fun y => key y <= 4)
    [(tp_at 3, 2%nat); (tp_at 5, 1%nat)].
Proof.
  exact (proj1 (expired_exactly_due _ _ _ (mkTimeval 0 4) _ _ two_task_run eq_refl)).
Defined.

Lemma min_duration_bounds_witness :
  GetMinTimeDuration tv0 (mkTimer [(tp_at 1000005000, tt)]) = 5.
Proof.
  refine (proj2 (proj2 (min_duration_bounds tv0 (mkTimer [(tp_at 1000005000, tt)])))
    _ _ _ eq_refl _).
  split; [vm_compute; discriminate | vm_compute; reflexivity].
Defined.

(** A task 25 days ahead. *)
Lemma far_task_spins_witness :
  GetMinTimeDuration tv0 (mkTimer [(tp_at (1000 * 1000000 + 25 * 86400 * 1000000), tt)]) = 0.
Proof.
  apply (far_task_spins tv0 _ (tp_at (1000 * 1000000 + 25 * 86400 * 1000000)) tt []);
    [reflexivity | split; [vm_compute; discriminate | vm_compute; reflexivity]].
Defined.
