(* ===== verification/Balancer.v ===== *)
(** * The load balancer

    Model of class [Balancer] (src/balancer.h, src/balancer.cc). The vector of
    event managers is represented by the [GetEventerAmount] of each of them,
    and a returned [EventManager*] by its index in the vector. Index 0 is the
    manager of the main thread, which only accepts. *)

From stdpp Require Import prelude list.
From S2P Require Import Prelude.

Definition kRoundRobin : Z := 0.
Definition kMinEvents : Z := 1.

Record Balancer := mkBalancer { strategy_ : Z; cursor_ : Z }.

Definition Balancer_new (strategy : Z) : Balancer := mkBalancer strategy 0.
Definition SetStrategy (strategy : Z) (b : Balancer) : Balancer := mkBalancer strategy (cursor_ b).

(** Element [i] of the vector [event_managers_]. *)
Definition event_manager_at (ems : list Z) (i : Z) : result Z :=
  match zlookup i ems with Some amount => Ok amount | None => Fault OutOfBounds end.

(** The loop over [i = 2, 3, ...]; [cursor_] is assigned in its body. *)
Fixpoint min_events_loop (ems : list Z) (idxs : list nat) (pos min_evts cursor : Z)
    : result Z :=
  match idxs with
  | [] => Ok cursor
  | i :: idxs =>
      amount ← event_manager_at ems (Z.of_nat i);
      let '(pos, min_evts) :=
        if amount <? min_evts then (Z.of_nat i, u32 (s32 amount)) else (pos, min_evts) in
      min_events_loop ems idxs pos min_evts pos
  end.

Definition PickOneEventManager (ems : list Z) (b : Balancer) : result (Z * Balancer) :=
  let evt_mng_num := zlen ems in
  cursor ←
    (if strategy_ b =? kRoundRobin then
       let c := cursor_ b +u 1 in
       Ok (if evt_mng_num <=? c then 1 else c)
     else if strategy_ b =? kMinEvents then
       min_evts ← event_manager_at ems 1;
       min_events_loop ems (seq 2 (length ems - 2)) 1 min_evts (cursor_ b)
     else Ok (cursor_ b));
  _ ← event_manager_at ems cursor;
  Ok (cursor, mkBalancer (strategy_ b) cursor).

(** ** Round robin *)

Fixpoint picks (n : nat) (ems : list Z) (b : Balancer) : result (list Z * Balancer) :=
  match n with
  | O => Ok ([], b)
  | S n =>
      '(i, b) ← PickOneEventManager ems b;
      '(rest, b) ← picks n ems b; Ok (i :: rest, b)
  end.

Lemma event_manager_at_ok ems i :
  0 <= i < zlen ems -> exists amount, event_manager_at ems i = Ok amount /\ zlookup i ems = Some amount.
Proof.
  intros Hi. unfold event_manager_at, zlookup, zlen in *.
  rewrite (proj2 (Z.ltb_ge _ _)) by lia.
  destruct (lookup_lt_is_Some_2 ems (Z.to_nat i)) as [a ->]; [lia | eauto].
Qed.

(** The manager after [c], among [1 .. n - 1]. *)
Definition next_io (n c : Z) : Z := if n <=? c + 1 then 1 else c + 1.

Lemma pick_round_robin ems c :
  2 <= zlen ems < 2 ^ 64 -> 0 <= c < zlen ems ->
  PickOneEventManager ems (mkBalancer kRoundRobin c)
    = Ok (next_io (zlen ems) c, mkBalancer kRoundRobin (next_io (zlen ems) c)).
Proof.
  intros Hn Hc. unfold PickOneEventManager, next_io; simpl. rewrite u64_small by lia.
  destruct (event_manager_at_ok ems (if zlen ems <=? c + 1 then 1 else c + 1)) as (a & -> & _);
    [cases_cmp | done].
Qed.

Lemma next_io_mod n j :
  2 <= n -> 0 <= j -> next_io n (1 + j mod (n - 1)) = 1 + (j + 1) mod (n - 1).
Proof.
  intros Hn Hj. pose proof (Z.mod_pos_bound j (n - 1)).
  rewrite <- Zplus_mod_idemp_l. set (r := j mod (n - 1)) in *. unfold next_io.
  destruct (Z.leb_spec n (1 + r + 1)).
  - replace (r + 1) with (n - 1) by lia. rewrite Z_mod_same_full. lia.
  - rewrite Z.mod_small; lia.
Qed.

Lemma picks_round_robin ems k j :
  2 <= zlen ems < 2 ^ 64 -> 0 <= j ->
  picks k ems (mkBalancer kRoundRobin (1 + j mod (zlen ems - 1)))
    = Ok (map (fun i => 1 + (j + 1 + Z.of_nat i) mod (zlen ems - 1)) (seq 0 k),
          mkBalancer kRoundRobin (1 + (j + Z.of_nat k) mod (zlen ems - 1))).
Proof.
  intros Hn. revert j. induction k as [| k IH]; intros j Hj; cbn [picks].
  - by rewrite Z.add_0_r.
  - pose proof (Z.mod_pos_bound j (zlen ems - 1)).
    rewrite pick_round_robin by lia. rewrite next_io_mod by lia. simpl.
    rewrite IH by lia. simpl. rewrite Z.add_0_r. do 3 f_equal.
    + rewrite <- seq_shift, map_map. apply map_ext. intros. do 2 f_equal. lia.
    + rewrite Nat2Z.inj_succ. do 2 f_equal. lia.
Qed.

(** With at least one I/O thread, the round-robin balancer never picks the
    main thread's manager and hands out the others in turn: the k-th pick
    after the start is manager [1 + k mod (n - 1)]. *)
Theorem round_robin_in_turn ems k :
  2 <= zlen ems < 2 ^ 64 ->
  exists b, picks k ems (Balancer_new kRoundRobin)
    = Ok (map (fun i => 1 + Z.of_nat i mod (zlen ems - 1)) (seq 0 k), b).
Proof.
  intros Hn. destruct k as [| k]; [by eexists |]. cbn [picks].
  unfold Balancer_new. rewrite pick_round_robin by lia.
  assert (next_io (zlen ems) 0 = 1 + 0 mod (zlen ems - 1)) as Hs
    by (rewrite Z.mod_0_l by lia; unfold next_io; cases_cmp).
  rewrite Hs. cbn [mbind result_bind]. rewrite picks_round_robin by lia.
  eexists. simpl. do 2 f_equal. rewrite <- seq_shift, map_map.
  f_equal. apply map_ext. intros i. do 2 f_equal. lia.
Qed.

Lemma round_robin_in_turn_witness :
  exists b, picks 5 [0; 0; 0] (Balancer_new kRoundRobin) = Ok ([1; 2; 1; 2; 1], b).
Proof. apply (round_robin_in_turn [0; 0; 0] 5). vm_compute. split; [discriminate | done]. Defined.

(** ** Least loaded *)

(** [pos] is the first I/O manager below [upto] with the least amount. *)
Definition first_min (ems : list Z) (upto pos : Z) : Prop :=
  1 <= pos < upto /\
  exists m, zlookup pos ems = Some m /\
    forall i a, 1 <= i < upto -> zlookup i ems = Some a -> m <= a /\ (i < pos -> m < a).

Lemma first_min_extend ems k pos m a :
  first_min ems k pos -> zlookup pos ems = Some m -> zlookup k ems = Some a ->
  first_min ems (k + 1) (if a <? m then k else pos).
Proof.
  intros (Hp & m' & Hm' & Hmin) Hm Ha. rewrite Hm in Hm'. injection Hm' as <-.
  destruct (Z.ltb_spec a m); (split; [lia |]).
  - exists a. split; [done |]. intros i c Hi Hc.
    destruct (decide (i = k)) as [-> | Hne]; [rewrite Ha in Hc; injection Hc as <-; lia |].
    destruct (Hmin i c); [lia | done | lia].
  - exists m. split; [done |]. intros i c Hi Hc.
    destruct (decide (i = k)) as [-> | Hne]; [rewrite Ha in Hc; injection Hc as <-; lia |].
    destruct (Hmin i c); [lia | done | lia].
Qed.

Lemma min_events_loop_ok ems n k pos m cursor :
  Forall (fun a => 0 <= a < 2 ^ 32) ems -> Z.of_nat (k + n) <= zlen ems ->
  first_min ems (Z.of_nat k) pos -> zlookup pos ems = Some m ->
  (n = O -> cursor = pos) ->
  exists c, min_events_loop ems (seq k n) pos m cursor = Ok c /\
    first_min ems (Z.of_nat (k + n)) c.
Proof.
  intros Hu. revert k pos m cursor.
  induction n as [| n IH]; intros k pos m cursor Hn Hf Hm Hc; simpl.
  - rewrite Hc by done. exists pos. split; [done |]. by rewrite Nat.add_0_r.
  - destruct (event_manager_at_ok ems (Z.of_nat k)) as (a & Hat & Ha); [lia |].
    rewrite Hat. simpl.
    assert (0 <= a < 2 ^ 32) as Hr.
    { apply zlookup_Some in Ha as [_ Ha]. by eapply (Forall_lookup_1 _ _ _ _ Hu). }
    assert (u32 (s32 a) = a) as Ha32.
    { unfold u32, s32. rewrite mod_sext. by apply Z.mod_small. }
    pose proof (first_min_extend _ _ _ _ _ Hf Hm Ha) as Hf'.
    replace (k + S n)%nat with (S k + n)%nat by lia.
    destruct (a <? m); rewrite ?Ha32;
      (apply (IH (S k)); [lia | by replace (Z.of_nat (S k)) with (Z.of_nat k + 1) by lia | done | done]).
Qed.

(** With at least two I/O threads, the least-events balancer returns the
    first I/O manager that holds the fewest connections, and remembers it. *)
Theorem min_events_least_loaded ems c :
  3 <= zlen ems -> Forall (fun a => 0 <= a < 2 ^ 32) ems ->
  exists i, PickOneEventManager ems (mkBalancer kMinEvents c) = Ok (i, mkBalancer kMinEvents i) /\
    first_min ems (zlen ems) i.
Proof.
  intros Hn Hu. unfold PickOneEventManager; simpl.
  destruct (event_manager_at_ok ems 1) as (m & -> & Hm); [lia |]. simpl.
  destruct (min_events_loop_ok ems (length ems - 2) 2 1 m c) as (i & -> & Hf);
    [done | unfold zlen in *; lia | | done | unfold zlen in *; lia |].
  - split; [lia |]. exists m. split; [done |]. intros i a Hi Ha.
    assert (i = 1) as -> by lia. rewrite Hm in Ha. injection Ha as <-. lia.
  - replace (Z.of_nat (2 + (length ems - 2))) with (zlen ems) in Hf by (unfold zlen in *; lia).
    destruct (event_manager_at_ok ems i) as (a & Ha & _); [destruct Hf; lia |].
    simpl. rewrite Ha. simpl. eauto.
Qed.

Lemma min_events_least_loaded_witness :
  exists i, PickOneEventManager [9; 4; 2; 2] (mkBalancer kMinEvents 0)
      = Ok (i, mkBalancer kMinEvents i) /\ first_min [9; 4; 2; 2] 4 i.
Proof.
  apply (min_events_least_loaded [9; 4; 2; 2] 0); [vm_compute; discriminate |].
  repeat constructor; lia.
Defined.

(** Pools without a spare I/O thread: with a single event manager both
    strategies read past the vector; with one I/O thread the least-events
    strategy never assigns its choice and keeps returning the manager of the
    main thread. *)
Theorem small_pools_misdirected a0 a1 c :
  0 <= a0 -> 0 <= c < 2 ^ 63 ->
  PickOneEventManager [a0] (mkBalancer kRoundRobin c) = Fault OutOfBounds /\
  PickOneEventManager [a0] (mkBalancer kMinEvents c) = Fault OutOfBounds /\
  PickOneEventManager [a0; a1] (Balancer_new kMinEvents) = Ok (0, Balancer_new kMinEvents).
Proof.
  intros Ha Hc. split_and!; [| done | done].
  unfold PickOneEventManager; simpl. rewrite u64_small by lia. unfold zlen; simpl.
  by rewrite (proj2 (Z.leb_le _ _)) by lia.
Qed.

Lemma small_pools_misdirected_witness :
  PickOneEventManager [3] (mkBalancer kRoundRobin 0) = Fault OutOfBounds.
Proof. apply (small_pools_misdirected 3 0 0); lia. Defined.
