(* ===== verification/Poller.v ===== *)
(** * Eventers and the io_uring poller

    Model of class [Eventer] (src/eventer.h, src/eventer.cc) and class
    [Poller] (src/poller.h, src/poller.cc). liburing is the class [Ring]: the
    calls the source makes, with what they answer. A [Eventer*] is a number;
    the tables of the poller are finite maps. [ops_mutex_] makes each access to
    [ops_] one step. The object behind an op's [context] pointer is a value of
    type [Ctx], and a [completion] pointer one of type [Fn]; contexts handed to
    their deleter are recorded in [freed_]. *)

From stdpp Require Import prelude gmap list.
From S2P Require Import Prelude.

(** ** Poll masks *)

Definition POLLIN : Z := 1.
Definition POLLPRI : Z := 2.
Definition POLLOUT : Z := 4.
Definition POLLERR : Z := 8.
Definition POLLHUP : Z := 16.
Definition POLLNVAL : Z := 32.
Definition POLLRDHUP : Z := 8192.

Definition ETIME : Z := 62.
Definition EAGAIN : Z := 11.
Definition EWOULDBLOCK : Z := 11.
Definition EINTR : Z := 4.
Definition ENOMEM : Z := 12.
Definition EPERM : Z := 1.
Definition EINVAL : Z := 22.

Definition has_bits (x mask : Z) : bool := negb (Z.land x mask =? 0).

(** ** Eventer *)

Module Eventer.

Definition kNoEvent : Z := 0.
Definition kReadEvents : Z := Z.lor POLLIN POLLPRI.
Definition kWriteEvents : Z := POLLOUT.

(** Which of the four callbacks are registered. *)
Record Eventer := mkEventer {
  fd_ : Z;
  in_events_ : Z;
  out_events_ : Z;
  is_handling_ : bool;
  ReadCallback_ : bool;
  WriteCallback_ : bool;
  CloseCallback_ : bool;
  ErrorCallback_ : bool;
}.

Inductive call := CallRead | CallWrite | CallClose | CallError.

Definition Eventer_new (fd : Z) : Eventer := mkEventer fd 0 0 false false false false false.

Definition set_in (v : Z) (e : Eventer) : Eventer :=
  mkEventer (fd_ e) v (out_events_ e) (is_handling_ e) (ReadCallback_ e) (WriteCallback_ e)
    (CloseCallback_ e) (ErrorCallback_ e).
Definition set_out (v : Z) (e : Eventer) : Eventer :=
  mkEventer (fd_ e) (in_events_ e) v (is_handling_ e) (ReadCallback_ e) (WriteCallback_ e)
    (CloseCallback_ e) (ErrorCallback_ e).
Definition set_handling (v : bool) (e : Eventer) : Eventer :=
  mkEventer (fd_ e) (in_events_ e) (out_events_ e) v (ReadCallback_ e) (WriteCallback_ e)
    (CloseCallback_ e) (ErrorCallback_ e).

Definition Events (e : Eventer) : Z := out_events_ e.
Definition ReceiveEvents (in_events : Z) (e : Eventer) : Eventer := set_in in_events e.
Definition HasNoEvent (e : Eventer) : bool := out_events_ e =? kNoEvent.
Definition HasReadEvents (e : Eventer) : bool := has_bits (out_events_ e) kReadEvents.
Definition HasWriteEvents (e : Eventer) : bool := has_bits (out_events_ e) kWriteEvents.

(** The callbacks [Work] runs, in order. *)
Definition Work (e : Eventer) : list call :=
  let on (c : bool) (x : call) := if c then [x] else [] in
  on (has_bits (in_events_ e) POLLHUP && negb (has_bits (in_events_ e) POLLIN)
      && CloseCallback_ e) CallClose ++
  on (has_bits (in_events_ e) (Z.lor POLLNVAL POLLERR) && ErrorCallback_ e) CallError ++
  on (has_bits (in_events_ e) (Z.lor (Z.lor POLLIN POLLPRI) POLLRDHUP) && ReadCallback_ e)
     CallRead ++
  on (has_bits (in_events_ e) POLLOUT && WriteCallback_ e) CallWrite.

Definition transient (err : Z) : bool :=
  (err =? EAGAIN) || (err =? EWOULDBLOCK) || (err =? EINTR).

Definition OnReadDone (bytes err : Z) (e : Eventer) : list call :=
  if 0 <? bytes then (if ReadCallback_ e then [CallRead] else [])
  else if bytes =? 0 then (if CloseCallback_ e then [CallClose] else [])
  else if negb (transient err) && ErrorCallback_ e then [CallError] else [].

Definition OnWriteDone (bytes err : Z) (e : Eventer) : list call :=
  if negb (err =? 0) then
    (if negb (transient err) && ErrorCallback_ e then [CallError] else [])
  else if WriteCallback_ e then [CallWrite] else [].

Definition OnAcceptDone (fd : Z) (e : Eventer) : list call :=
  if (fd <? 0) && ErrorCallback_ e then [CallError]
  else if ReadCallback_ e then [CallRead] else [].

(** New [out_events_] of the interest setters; each then calls
    [Poller::ModifyEventer]. *)
Definition EnableReadEvents (e : Eventer) : Eventer :=
  set_out (Z.lor (out_events_ e) kReadEvents) e.
Definition DisableReadEvents (e : Eventer) : Eventer :=
  set_out (Z.ldiff (out_events_ e) kReadEvents) e.
Definition EnableWriteEvents (e : Eventer) : Eventer :=
  set_out (Z.lor (out_events_ e) kWriteEvents) e.
Definition DisableWriteEvents (e : Eventer) : Eventer :=
  set_out (Z.ldiff (out_events_ e) kWriteEvents) e.
Definition DisableAllEvents (e : Eventer) : Eventer := set_out kNoEvent e.

Definition kRemoved : Z := 4294967290.

(** The eventer afterwards, and whether [Poller::RemoveEventer] was called. *)
Definition RemoveMyself (e : Eventer) : Eventer * bool :=
  if negb (out_events_ e =? kRemoved) then (set_out kRemoved e, true) else (e, false).

End Eventer.

(** ** The ring *)

Inductive request :=
| PollAdd (fd mask : Z)
| PollRemove (poll_key : Z)
| Readv (fd : Z) (iov_lens : list Z)
| RecvMultishot (fd buf_group : Z)
| Writev (fd : Z) (iov_lens : list Z)
| Accept (fd : Z) (multishot : bool)
| Cancel (key : Z)
| ProvideBuffers (bid count : Z)
| RemoveBuffers (count : Z).

Record sqe := mkSqe { sqe_request : request; user_data : Z }.

(** [io_uring_get_sqe] gives a free entry or none; the [io_uring_prep_*] and
    [io_uring_sqe_set_data*] calls fill it; [io_uring_submit] hands the filled
    entries to the kernel. *)
Class Ring (R : Type) := {
  io_uring_get_sqe : R -> option R;
  io_uring_prep : sqe -> R -> R;
  io_uring_submit : R -> Z * R;
}.

(** The entries an area of memory handed to [readv] or [writev] is made of are
    kept as their lengths. *)

Record cqe := mkCqe { cqe_user_data : Z; cqe_res : Z; cqe_flags : Z }.

Definition IORING_CQE_F_BUFFER : Z := 1.
Definition IORING_CQE_F_MORE : Z := 2.
Definition IORING_CQE_BUFFER_SHIFT : Z := 16.

(** Whether the headers define [IORING_OP_RECV_MULTISHOT] and
    [IORING_ACCEPT_MULTISHOT]. *)
Class BuildConfig := {
  recv_multishot_defined : bool;
  accept_multishot_defined : bool;
}.

Inductive OpType := kPoll | kRead | kWrite | kAccept | kTimeout | kNone.

#[export] Instance OpType_eq_dec : EqDecision OpType.
Proof. solve_decision. Defined.

Definition kBufferGroupId : Z := 1.
Definition kBufSize : Z := 64 * 1024.
Definition kBufCount : Z := 64.

(** ** Ring size *)

Module Setup.

Definition kDefaultEntries : Z := 32768.
Definition kMinEntries : Z := 1024.
Definition ULLONG_MAX : Z := 2 ^ 64 - 1.

(** [strtoull(s, &end, 10)]: leading white space, an optional sign, digits,
    clamped to [ULLONG_MAX], a minus sign negating in [uint64_t]. The result is
    [None] when no digit was consumed ([end == s]). Characters are their codes. *)
Definition is_space (c : Z) : bool := (c =? 32) || ((9 <=? c) && (c <=? 13)).
Definition is_digit (c : Z) : bool := (48 <=? c) && (c <=? 57).

Fixpoint skip_space (s : list Z) : list Z :=
  match s with
  | c :: s' => if is_space c then skip_space s' else s
  | [] => []
  end.

Fixpoint digits (acc : Z) (seen : bool) (s : list Z) : option Z :=
  match s with
  | c :: s' => if is_digit c then digits (acc * 10 + (c - 48)) true s'
               else if seen then Some acc else None
  | [] => if seen then Some acc else None
  end.

Definition strtoull (s : list Z) : option Z :=
  let s := skip_space s in
  let '(neg, s) := match s with
                   | 45 :: s' => (true, s')
                   | 43 :: s' => (false, s')
                   | _ => (false, s)
                   end in
  v ← digits 0 false s;
  Some (if ULLONG_MAX <? v then ULLONG_MAX else if (neg : bool) then u64 (- v) else v).

Definition GetIoUringEntries (env : option (list Z)) : Z :=
  match env with
  | None | Some [] => kDefaultEntries
  | Some s =>
      match strtoull s with
      | None => kDefaultEntries
      | Some val =>
          if val =? 0 then kDefaultEntries
          else if kDefaultEntries <? val then kDefaultEntries
          else if val <? kMinEntries then kMinEntries
          else val
      end
  end.

(** The loop of the constructor around [io_uring_queue_init_params]; [init] is
    the answer to a ring of so many entries. The attempts made come out with
    the last answer. *)
Fixpoint init_loop (fuel : nat) (init : Z -> Z) (entries ret : Z) : Z * list Z :=
  match fuel with
  | O => (ret, [])
  | S fuel' =>
      if kMinEntries <=? entries then
        let ret := init entries in
        if (ret =? - ENOMEM) && (kMinEntries <? entries) then
          let '(r, tried) := init_loop fuel' init (entries / 2) ret in (r, entries :: tried)
        else (ret, [entries])
      else (ret, [])
  end.

Definition init_fuel : nat := 8.

(** The constructor up to the ring being usable: whether SQPOLL is on, or
    [exit(EXIT_FAILURE)]. [init sqpoll entries] is liburing's answer. *)
Definition Poller_init (env : option (list Z)) (init : bool -> Z -> Z) : result bool :=
  let '(ret, _) := init_loop init_fuel (init true) (GetIoUringEntries env) (- ENOMEM) in
  let '(ret, sqpoll) :=
    if (ret =? - EPERM) || (ret =? - EINVAL) then
      ((init_loop init_fuel (init false) (GetIoUringEntries env) (- ENOMEM)).1, false)
    else (ret, true) in
  if ret <? 0 then Fault ExitFailure else Ok sqpoll.

End Setup.

(** ** The poller *)

Record IoUringOp (Ctx Fn : Type) := mkOp {
  type : OpType;
  eventer : option Z;
  context : option Ctx;
  op_fd : Z;
  completion : option Fn;
  key : Z;
  context_deleter : bool;
}.
Arguments mkOp {_ _}.
Arguments type {_ _}.
Arguments eventer {_ _}.
Arguments context {_ _}.
Arguments op_fd {_ _}.
Arguments completion {_ _}.
Arguments key {_ _}.
Arguments context_deleter {_ _}.

Record EventerState := mkState { mask : Z; armed : bool; poll_key : Z }.

Record Poller (R Ctx Fn : Type) := mkPoller {
  ring_ : R;
  states_ : gmap Z EventerState;
  ops_ : gmap Z (IoUringOp Ctx Fn);
  next_key_ : Z;
  use_multishot_accept_ : bool;
  buffers_registered_ : bool;
  cqe_batch_limit_ : Z;
  cqe_time_budget_us_ : Z;
  freed_ : list Ctx;
}.
Arguments mkPoller {_ _ _}.
Arguments ring_ {_ _ _}.
Arguments states_ {_ _ _}.
Arguments ops_ {_ _ _}.
Arguments next_key_ {_ _ _}.
Arguments use_multishot_accept_ {_ _ _}.
Arguments buffers_registered_ {_ _ _}.
Arguments cqe_batch_limit_ {_ _ _}.
Arguments cqe_time_budget_us_ {_ _ _}.
Arguments freed_ {_ _ _}.

Section poller.
Context {R Ctx Fn : Type} `{!Ring R, !BuildConfig}.

Abbreviation P := (Poller R Ctx Fn).
Abbreviation Op := (IoUringOp Ctx Fn).

Definition with_ring (r : R) (p : P) : P :=
  mkPoller r (states_ p) (ops_ p) (next_key_ p) (use_multishot_accept_ p)
    (buffers_registered_ p) (cqe_batch_limit_ p) (cqe_time_budget_us_ p) (freed_ p).
Definition with_states (s : gmap Z EventerState) (p : P) : P :=
  mkPoller (ring_ p) s (ops_ p) (next_key_ p) (use_multishot_accept_ p)
    (buffers_registered_ p) (cqe_batch_limit_ p) (cqe_time_budget_us_ p) (freed_ p).
Definition with_ops (o : gmap Z Op) (p : P) : P :=
  mkPoller (ring_ p) (states_ p) o (next_key_ p) (use_multishot_accept_ p)
    (buffers_registered_ p) (cqe_batch_limit_ p) (cqe_time_budget_us_ p) (freed_ p).
Definition with_next (k : Z) (p : P) : P :=
  mkPoller (ring_ p) (states_ p) (ops_ p) k (use_multishot_accept_ p)
    (buffers_registered_ p) (cqe_batch_limit_ p) (cqe_time_budget_us_ p) (freed_ p).
Definition with_freed (f : list Ctx) (p : P) : P :=
  mkPoller (ring_ p) (states_ p) (ops_ p) (next_key_ p) (use_multishot_accept_ p)
    (buffers_registered_ p) (cqe_batch_limit_ p) (cqe_time_budget_us_ p) f.
Definition with_registered (b : bool) (p : P) : P :=
  mkPoller (ring_ p) (states_ p) (ops_ p) (next_key_ p) (use_multishot_accept_ p)
    b (cqe_batch_limit_ p) (cqe_time_budget_us_ p) (freed_ p).

Definition SetCqeBatchLimit (limit : Z) (p : P) : P :=
  mkPoller (ring_ p) (states_ p) (ops_ p) (next_key_ p) (use_multishot_accept_ p)
    (buffers_registered_ p) limit (cqe_time_budget_us_ p) (freed_ p).
Definition SetCqeTimeBudgetUs (budget_us : Z) (p : P) : P :=
  mkPoller (ring_ p) (states_ p) (ops_ p) (next_key_ p) (use_multishot_accept_ p)
    (buffers_registered_ p) (cqe_batch_limit_ p) budget_us (freed_ p).

Definition UseMultishotAccept (p : P) : bool := use_multishot_accept_ p.
Definition BuffersRegistered (p : P) : bool := buffers_registered_ p.

(** [buffers_[id]], named by its index. *)
Definition GetBuffer (id : Z) (p : P) : option Z :=
  if negb (buffers_registered_ p) || (kBufCount <=? id) then None else Some id.

Definition fetch_add_key (p : P) : Z * P := (next_key_ p, with_next (u64 (next_key_ p + 1)) p).

Definition NormalizeKey (k : Z) (p : P) : Z * P :=
  if k =? 0 then
    let '(k, p) := fetch_add_key p in
    if k =? 0 then fetch_add_key p else (k, p)
  else (k, p).

(** The op leaves the table: the caller owns it. *)
Definition LookupOp (k : Z) (p : P) : option Op * P :=
  if k =? 0 then (None, p)
  else match ops_ p !! k with
       | None => (None, p)
       | Some op => (Some op, with_ops (delete k (ops_ p)) p)
       end.

Definition SubmitPending (p : P) : P := with_ring (io_uring_submit (ring_ p)).2 p.

Definition io_uring_prep_with (q : request) (k : Z) (p : P) : P :=
  with_ring (io_uring_prep (mkSqe q k) (ring_ p)) p.

(** The common course of the submitters after [NormalizeKey]: take an entry
    ([None] when the queue is full), store the op, fill the entry. *)
Definition enqueue (op : Op) (q : request) (p : P) : option P :=
  match io_uring_get_sqe (ring_ p) with
  | None => None
  | Some r => Some (io_uring_prep_with q (key op)
                      (with_ops (<[key op := op]> (ops_ p)) (with_ring r p)))
  end.

Definition SubmitPoll (ev : Z) (e : Eventer.Eventer) (p : P) : P :=
  match states_ p !! ev with
  | None => p
  | Some state =>
      if (mask state =? 0) || armed state then p
      else
        let '(k, p) := NormalizeKey 0 p in
        let fd := Eventer.fd_ e in
        match enqueue (mkOp kPoll (Some ev) None fd None k false) (PollAdd fd (mask state)) p with
        | None => p
        | Some p => with_states (<[ev := mkState (mask state) true k]> (states_ p)) p
        end
  end.

Definition CancelPoll (ev : Z) (p : P) : P :=
  match states_ p !! ev with
  | None => p
  | Some state =>
      if negb (armed state) then p
      else match io_uring_get_sqe (ring_ p) with
           | None => p
           | Some r =>
               let p := io_uring_prep_with (PollRemove (poll_key state)) 0 (with_ring r p) in
               with_states (<[ev := mkState (mask state) false 0]> (states_ p)) p
           end
  end.

Definition AddEventer (ev : Z) (e : Eventer.Eventer) (p : P) : P :=
  SubmitPending (SubmitPoll ev e
    (with_states (<[ev := mkState (Eventer.Events e) false 0]> (states_ p)) p)).

Definition ModifyEventer (ev : Z) (e : Eventer.Eventer) (p : P) : P :=
  match states_ p !! ev with
  | None => AddEventer ev e p
  | Some state =>
      let p := with_states
                 (<[ev := mkState (Eventer.Events e) (armed state) (poll_key state)]> (states_ p)) p in
      SubmitPending (if Eventer.Events e =? 0 then CancelPoll ev p else SubmitPoll ev e p)
  end.

Definition RemoveEventer (ev : Z) (p : P) : P :=
  let p := CancelPoll ev p in with_states (delete ev (states_ p)) p.

Definition SubmitRead (ev : Z) (e : Eventer.Eventer) (iov : list Z) (comp : option Fn)
    (ctx : option Ctx) (k : Z) (deleter : bool) (p : P) : Z * P :=
  let '(k, p) := NormalizeKey k p in
  let fd := Eventer.fd_ e in
  match enqueue (mkOp kRead (Some ev) ctx fd comp k deleter) (Readv fd iov) p with
  | None => (0, p)
  | Some p => (k, SubmitPending p)
  end.

Definition SubmitReadMultishot (ev : Z) (e : Eventer.Eventer) (buf_group : Z) (comp : option Fn)
    (ctx : option Ctx) (k : Z) (deleter : bool) (p : P) : Z * P :=
  if recv_multishot_defined then
    let '(k, p) := NormalizeKey k p in
    let fd := Eventer.fd_ e in
    match enqueue (mkOp kRead (Some ev) ctx fd comp k deleter)
            (RecvMultishot fd (u16 buf_group)) p with
    | None => (0, p)
    | Some p => (k, SubmitPending p)
    end
  else (0, p).

Definition SubmitWrite (ev : Z) (e : Eventer.Eventer) (iov : list Z) (comp : option Fn)
    (ctx : option Ctx) (k : Z) (deleter : bool) (p : P) : Z * P :=
  let '(k, p) := NormalizeKey k p in
  let fd := Eventer.fd_ e in
  match enqueue (mkOp kWrite (Some ev) ctx fd comp k deleter) (Writev fd iov) p with
  | None => (0, p)
  | Some p => (k, SubmitPending p)
  end.

Definition SubmitAccept (fd : Z) (ctx : option Ctx) (comp : option Fn) (k : Z)
    (multishot deleter : bool) (p : P) : Z * P :=
  let '(k, p) := NormalizeKey k p in
  let shots := multishot && use_multishot_accept_ p && accept_multishot_defined in
  match enqueue (mkOp kAccept None ctx fd comp k deleter) (Accept fd shots) p with
  | None => (0, p)
  | Some p => (k, SubmitPending p)
  end.

Definition mark_canceled (op : Op) : Op :=
  mkOp (type op) None (context op) (op_fd op) None (key op) (context_deleter op).

Definition CancelOp (k : Z) (p : P) : P :=
  if k =? 0 then p
  else
    let p := match ops_ p !! k with
             | Some op => with_ops (<[k := mark_canceled op]> (ops_ p)) p
             | None => p
             end in
    match io_uring_get_sqe (ring_ p) with
    | None => p
    | Some r => SubmitPending (io_uring_prep_with (Cancel k) 0 (with_ring r p))
    end.

Definition CleanupOpContext (op : Op) (p : P) : Op * P :=
  match context op with
  | Some c =>
      if context_deleter op then
        (mkOp (type op) (eventer op) None (op_fd op) (completion op) (key op) true,
         with_freed (freed_ p ++ [c]) p)
      else (op, p)
  | None => (op, p)
  end.

Definition RegisterBuffers (cqe_answer : Z * Z) (p : P) : P :=
  if recv_multishot_defined then
    match io_uring_get_sqe (ring_ p) with
    | None => p
    | Some r =>
        let p := io_uring_prep_with (ProvideBuffers 0 kBufCount) 0 (with_ring r p) in
        let '(ret, r) := io_uring_submit (ring_ p) in
        let p := with_ring r p in
        if ret <? 0 then p
        else let '(ret, res) := cqe_answer in
             if (ret =? 0) && (0 <=? res) then with_registered true p else p
    end
  else p.

Definition UnregisterBuffers (p : P) : P :=
  if recv_multishot_defined then
    if negb (buffers_registered_ p) then p
    else match io_uring_get_sqe (ring_ p) with
         | None => p
         | Some r => with_registered false
                       (SubmitPending (io_uring_prep_with (RemoveBuffers kBufCount) 0
                                         (with_ring r p)))
         end
  else p.

Definition ReleaseBufferFromCqe (c : cqe) (p : P) : P :=
  if recv_multishot_defined then
    if negb (buffers_registered_ p) then p
    else if negb (has_bits (cqe_flags c) IORING_CQE_F_BUFFER) then p
    else
      let bid := u16 (Z.shiftr (cqe_flags c) IORING_CQE_BUFFER_SHIFT) in
      if kBufCount <=? bid then p
      else match io_uring_get_sqe (ring_ p) with
           | None => p
           | Some r => io_uring_prep_with (ProvideBuffers bid 1) 0 (with_ring r p)
           end
  else p.

(** The state after the constructor's ring set-up; [accept_supported] is the
    probe's answer ([None]: no probe), [cqe_answer] what [io_uring_wait_cqe]
    and its CQE hold in [RegisterBuffers]. *)
Definition Poller_new (r : R) (accept_supported : option bool) (cqe_answer : Z * Z) : P :=
  RegisterBuffers cqe_answer
    (mkPoller r ∅ ∅ 1 (match accept_supported with Some false => false | _ => true end)
       false 1024 1000 []).

(** [~Poller]: the contexts left in the table go to their deleters. *)
Definition Poller_delete (p : P) : P :=
  let p := foldr (fun kop p => (CleanupOpContext kop.2 p).2) p (map_to_list (ops_ p)) in
  UnregisterBuffers (with_ops ∅ p).

End poller.

(** ** Completions

    What completion functions and callbacks of eventers may touch: the poller,
    the live eventers, the list handed to [Poll] and everything else, [E]. *)

Record Sys (R Ctx Fn E : Type) := mkSys {
  s_poller : Poller R Ctx Fn;
  s_eventers : gmap Z Eventer.Eventer;
  active_eventers : list Z;
  s_env : E;
}.
Arguments mkSys {_ _ _ _}.
Arguments s_poller {_ _ _ _}.
Arguments s_eventers {_ _ _ _}.
Arguments active_eventers {_ _ _ _}.
Arguments s_env {_ _ _ _}.

(** The code behind the function pointers. *)
Class Handlers (R Ctx Fn E : Type) := {
  complete : Fn -> cqe -> IoUringOp Ctx Fn -> Sys R Ctx Fn E ->
             result (IoUringOp Ctx Fn * Sys R Ctx Fn E);
  run_call : Z -> Eventer.call -> Sys R Ctx Fn E -> result (Sys R Ctx Fn E);
}.

Section completions.
Context {R Ctx Fn E : Type} `{!Ring R, !BuildConfig, !Handlers R Ctx Fn E}.

Abbreviation P := (Poller R Ctx Fn).
Abbreviation Op := (IoUringOp Ctx Fn).
Abbreviation S := (Sys R Ctx Fn E).

Definition upd_poller (f : P -> P) (s : S) : S :=
  mkSys (f (s_poller s)) (s_eventers s) (active_eventers s) (s_env s).

Fixpoint run_calls (ev : Z) (cs : list Eventer.call) (s : S) : result S :=
  match cs with
  | [] => Ok s
  | c :: cs => s ← run_call ev c s; run_calls ev cs s
  end.

(** [*eventer]; a pointer to no live object is a fault. *)
Definition deref (ev : Z) (s : S) : result Eventer.Eventer :=
  match s_eventers s !! ev with Some e => Ok e | None => Fault NullPointer end.

Definition registered (ev : option Z) (p : P) : bool :=
  match ev with Some ev => bool_decide (is_Some (states_ p !! ev)) | None => false end.

Definition cqe_err (res : Z) : Z := if res <? 0 then - res else 0.

Definition HandlePollCqe (c : cqe) (op : Op) (s : S) : result S :=
  match eventer op with
  | None => Ok s
  | Some ev =>
      match states_ (s_poller s) !! ev with
      | None => Ok s
      | Some state =>
          e ← deref ev s;
          let s := upd_poller (fun p => with_states
                     (<[ev := mkState (mask state) false (poll_key state)]> (states_ p)) p) s in
          let s := if 0 <=? cqe_res c then
                     mkSys (s_poller s)
                       (<[ev := Eventer.ReceiveEvents (u32 (cqe_res c)) e]> (s_eventers s))
                       (active_eventers s ++ [ev]) (s_env s)
                   else s in
          Ok (upd_poller (SubmitPoll ev e) s)
      end
  end.

(** The [switch] on an op that has no completion function. *)
Definition HandleByType (c : cqe) (op : Op) (s : S) : result S :=
  match type op with
  | kPoll => HandlePollCqe c op s
  | kRead =>
      let s' := upd_poller (ReleaseBufferFromCqe c) s in
      match eventer op with
      | Some ev =>
          if registered (Some ev) (s_poller s) then
            e ← deref ev s;
            run_calls ev (Eventer.OnReadDone (cqe_res c) (cqe_err (cqe_res c)) e) s'
          else Ok s'
      | None => Ok s'
      end
  | kWrite =>
      match eventer op with
      | Some ev =>
          if registered (Some ev) (s_poller s) then
            e ← deref ev s;
            run_calls ev (Eventer.OnWriteDone (cqe_res c) (cqe_err (cqe_res c)) e) s
          else Ok s
      | None => Ok s
      end
  | kAccept =>
      match eventer op with
      | Some ev => e ← deref ev s; run_calls ev (Eventer.OnAcceptDone (cqe_res c) e) s
      | None => Ok s
      end
  | kTimeout | kNone => Ok s
  end.

Definition HandleCqe (c : cqe) (s : S) : result S :=
  let k := cqe_user_data c in
  if k =? 0 then Ok (upd_poller (ReleaseBufferFromCqe c) s)
  else
    match LookupOp k (s_poller s) with
    | (None, _) => Ok (upd_poller (ReleaseBufferFromCqe c) s)
    | (Some op, p) =>
        let s := upd_poller (fun _ => p) s in
        let keep_op := has_bits (cqe_flags c) IORING_CQE_F_MORE in
        match completion op with
        | Some fn =>
            if (bool_decide (type op = kRead) || bool_decide (type op = kWrite))
               && negb (registered (eventer op) (s_poller s)) then
              Ok (upd_poller (fun p => ReleaseBufferFromCqe c (CleanupOpContext op p).2) s)
            else
              '(op, s) ← complete fn c op s;
              let s := upd_poller (ReleaseBufferFromCqe c) s in
              if keep_op && bool_decide (is_Some (context op)) then
                Ok (upd_poller (fun p => with_ops (<[k := op]> (ops_ p)) p) s)
              else Ok s
        | None =>
            let '(op, p) := CleanupOpContext op (s_poller s) in
            HandleByType c op (upd_poller (fun _ => p) s)
        end
    end.

(** What [io_uring_wait_cqe_timeout] and [io_uring_peek_cqe] answer: an entry,
    or a negative error number. [peeks] are the answers of the calls of
    [io_uring_peek_cqe] as the loop makes them ([-EAGAIN] when exhausted) and
    [clock] the readings of [TimePoint::FNow()] (the last one repeats). *)
Inductive cq_answer := Got (c : cqe) | NoCqe (err : Z).

Definition read_clock (now : Z) (clock : list Z) : Z * list Z :=
  match clock with t :: clock => (t, clock) | [] => (now, []) end.

Fixpoint drain (limit budget start now : Z) (clock : list Z) (handled : Z)
    (peeks : list cq_answer) (s : S) : result (Z * S) :=
  if (limit =? 0) || (handled <? limit) then
    let '(now, clock) := if 0 <? budget then read_clock now clock else (now, clock) in
    if (0 <? budget) && (budget <=? now - start) then Ok (handled, s)
    else match peeks with
         | Got c :: peeks =>
             s ← HandleCqe c s; drain limit budget start now clock (handled + 1) peeks s
         | NoCqe _ :: _ | [] => Ok (handled, s)
         end
  else Ok (handled, s).

(** The time-out handed to the kernel, in seconds and nanoseconds; [None] waits
    for ever. *)
Definition poll_timespec (timeout : Z) : option (Z * Z) :=
  if 0 <=? timeout then Some (timeout ÷ 1000, Z.rem timeout 1000 * 1000000) else None.

(** [Poll] with the number of CQEs it handled; [wait] answers the waiting call
    for a time-out. *)
Definition Poll (timeout : Z) (wait : option (Z * Z) -> cq_answer) (peeks : list cq_answer) (start : Z) (clock : list Z)
    (s : S) : result (Z * S) :=
  match wait (poll_timespec timeout) with
  | NoCqe _ => Ok (0, upd_poller SubmitPending s)
  | Got c =>
      s ← HandleCqe c s;
      '(n, s) ← drain (cqe_batch_limit_ (s_poller s)) (cqe_time_budget_us_ (s_poller s))
                  start start clock 1 peeks s;
      Ok (n, upd_poller SubmitPending s)
  end.

End completions.
