(* ===== verification/PollerFacts.v ===== *)
(** * The poller's tables

    Theorems about [Poller]: what its two tables hold after any sequence of
    calls and completions, which completion functions run, who frees the
    contexts, how many completions one [Poll] handles, and how large the ring
    is. *)

From stdpp Require Import prelude gmap list.
From S2P Require Import Prelude.
From S2P Require Import Poller.

(** ** Public calls *)

Section facts.
Context {R Ctx Fn : Type} `{!Ring R, !BuildConfig}.

Abbreviation P := (Poller R Ctx Fn).
Abbreviation Op := (IoUringOp Ctx Fn).
Implicit Types p : P.
Implicit Types op : Op.

(** The calls other components make on the poller. Every caller passes the key
    0, which asks for a fresh one. *)
Inductive api :=
| ApiAdd (ev : Z) (e : Eventer.Eventer)
| ApiModify (ev : Z) (e : Eventer.Eventer)
| ApiRemove (ev : Z)
| ApiRead (ev : Z) (e : Eventer.Eventer) (iov : list Z) (fn : Fn) (c : Ctx)
| ApiReadMultishot (ev : Z) (e : Eventer.Eventer) (group : Z) (fn : Fn) (c : Ctx)
| ApiWrite (ev : Z) (e : Eventer.Eventer) (iov : list Z) (fn : Fn) (c : Ctx)
| ApiAccept (fd : Z) (c : Ctx) (fn : Fn) (multishot deleter : bool)
| ApiCancel (k : Z).

Definition run_api (a : api) (p : P) : P :=
  match a with
  | ApiAdd ev e => AddEventer ev e p
  | ApiModify ev e => ModifyEventer ev e p
  | ApiRemove ev => RemoveEventer ev p
  | ApiRead ev e iov fn c => (SubmitRead ev e iov (Some fn) (Some c) 0 true p).2
  | ApiReadMultishot ev e g fn c => (SubmitReadMultishot ev e g (Some fn) (Some c) 0 true p).2
  | ApiWrite ev e iov fn c => (SubmitWrite ev e iov (Some fn) (Some c) 0 true p).2
  | ApiAccept fd c fn m d => (SubmitAccept fd (Some c) (Some fn) 0 m d p).2
  | ApiCancel k => CancelOp k p
  end.

(** Nobody but the poller knows the keys of its polls. *)
Definition api_valid (a : api) (p : P) : Prop :=
  match a with
  | ApiCancel k => forall op, ops_ p !! k = Some op -> type op <> kPoll
  | _ => True
  end.

(** [p'] is [p] after [n] public calls. *)
Inductive calls (p : P) : Z -> P -> Prop :=
| calls_none : calls p 0 p
| calls_more n p' a : calls p n p' -> api_valid a p' -> calls p (n + 1) (run_api a p').

(** ** The invariant *)

Definition op_ok (next k : Z) (op : Op) : Prop :=
  key op = k /\ 0 < k < next /\
  (type op = kPoll -> completion op = None /\ context op = None).

Definition state_ok (ops : gmap Z Op) (ev : Z) (st : EventerState) : Prop :=
  armed st = true ->
  exists op, ops !! poll_key st = Some op /\ type op = kPoll /\ eventer op = Some ev.

Record wf (p : P) : Prop := {
  wf_next : 0 < next_key_ p;
  wf_ops : map_Forall (op_ok (next_key_ p)) (ops_ p);
  wf_states : map_Forall (state_ok (ops_ p)) (states_ p);
}.

Lemma NormalizeKey_fresh p :
  wf p -> next_key_ p < 2 ^ 64 - 1 ->
  NormalizeKey 0 p = (next_key_ p, with_next (next_key_ p + 1) p).
Proof.
  intros [Hp _ _] Hn. unfold NormalizeKey, fetch_add_key. simpl.
  rewrite (proj2 (Z.eqb_neq _ _)) by lia. rewrite u64_small by lia. done.
Qed.

Lemma NormalizeKey_nonzero k p : 0 <= next_key_ p < 2 ^ 64 -> (NormalizeKey k p).1 <> 0.
Proof.
  intros Hn. unfold NormalizeKey, fetch_add_key.
  destruct (Z.eqb_spec k 0); [|done]. simpl.
  destruct (Z.eqb_spec (next_key_ p) 0) as [->|]; simpl; [|done].
  rewrite u64_small; lia.
Qed.

Lemma wf_weaken_next p n : wf p -> next_key_ p <= n -> wf (with_next n p).
Proof.
  intros [Hn Ho Hs] Hle. split; simpl; [lia| |done].
  intros k op Hop. destruct (Ho k op Hop) as (? & ? & ?).
  split; [done|]. split; [lia|done].
Qed.

Lemma wf_with_ring p r : wf p -> wf (with_ring r p).
Proof. intros [? ? ?]; split; done. Qed.

Lemma wf_SubmitPending p : wf p -> wf (SubmitPending p).
Proof. apply wf_with_ring. Qed.

Lemma wf_with_registered p b : wf p -> wf (with_registered b p).
Proof. intros [? ? ?]; split; done. Qed.

Lemma wf_with_freed p f : wf p -> wf (with_freed f p).
Proof. intros [? ? ?]; split; done. Qed.

(** Adding an op under an unused key. *)
Lemma wf_insert_op p op :
  wf p -> op_ok (next_key_ p) (key op) op -> ops_ p !! key op = None ->
  wf (with_ops (<[key op := op]> (ops_ p)) p).
Proof.
  intros [Hn Ho Hs] Hop Hfresh. split; simpl; [done| |].
  - apply map_Forall_insert_2; done.
  - intros ev st Hst Harm. destruct (Hs ev st Hst Harm) as (op' & Hl & ?).
    exists op'. rewrite lookup_insert_ne by congruence. done.
Qed.

(** Replacing an op that is no poll, or dropping it. *)
Lemma wf_replace_op p k op op' :
  wf p -> ops_ p !! k = Some op -> type op <> kPoll -> op_ok (next_key_ p) k op' ->
  type op' = type op -> wf (with_ops (<[k := op']> (ops_ p)) p).
Proof.
  intros [Hn Ho Hs] Hl Ht Hop' Ht'. split; simpl; [done| |].
  - apply map_Forall_insert_2; done.
  - intros ev st Hst Harm. destruct (Hs ev st Hst Harm) as (q & Hq & Hqt & ?).
    exists q. rewrite lookup_insert_ne by congruence. done.
Qed.

Lemma wf_delete_op p k op :
  wf p -> ops_ p !! k = Some op -> type op <> kPoll -> wf (with_ops (delete k (ops_ p)) p).
Proof.
  intros [Hn Ho Hs] Hl Ht. split; simpl; [done| |].
  - intros k' op' [_ Hk']%lookup_delete_Some. by apply Ho.
  - intros ev st Hst Harm. destruct (Hs ev st Hst Harm) as (q & Hq & Hqt & ?).
    exists q. rewrite lookup_delete_ne by congruence. done.
Qed.

(** Setting the state of an eventer. *)
Lemma wf_insert_state p ev st :
  wf p -> state_ok (ops_ p) ev st -> wf (with_states (<[ev := st]> (states_ p)) p).
Proof. intros [Hn Ho Hs] Hst. split; simpl; [done|done|]. apply map_Forall_insert_2; done. Qed.

Lemma wf_disarmed p ev m k : wf p -> wf (with_states (<[ev := mkState m false k]> (states_ p)) p).
Proof. intros Hwf. apply wf_insert_state; done. Qed.

Lemma wf_delete_state p ev : wf p -> wf (with_states (delete ev (states_ p)) p).
Proof. intros [Hn Ho Hs]. split; simpl; [done|done|]. by apply map_Forall_delete. Qed.

Lemma wf_fresh_key p k : wf p -> next_key_ p <= k -> ops_ p !! k = None.
Proof.
  intros [_ Ho _] Hk. destruct (ops_ p !! k) eqn:E; [|done].
  destruct (Ho _ _ E) as (_ & ? & _). lia.
Qed.

(** ** Operations keep the invariant *)

(** What the four submitters have in common, for the op made from the key. *)
Definition submit (op_of : Z -> Op) (q : request) (p : P) : Z * P :=
  let '(k, p) := NormalizeKey 0 p in
  match enqueue (op_of k) q p with
  | None => (0, p)
  | Some p => (k, SubmitPending p)
  end.

(** [p'] is [p] with one more key used, and the op stored when [k] is not 0. *)
Record submitted (op_of : Z -> Op) (p : P) (k : Z) (p' : P) : Prop := {
  sub_wf : wf p';
  sub_next : next_key_ p' = next_key_ p + 1;
  sub_states : states_ p' = states_ p;
  sub_freed : freed_ p' = freed_ p;
  sub_registered : buffers_registered_ p' = buffers_registered_ p;
  sub_ops : k = 0 /\ ops_ p' = ops_ p \/
            k = next_key_ p /\ ops_ p' = <[k := op_of k]> (ops_ p);
}.

Lemma submit_ok op_of q p :
  wf p -> next_key_ p < 2 ^ 64 - 1 ->
  (forall k, key (op_of k) = k) -> (forall k, type (op_of k) <> kPoll) ->
  submitted op_of p (submit op_of q p).1 (submit op_of q p).2.
Proof.
  intros Hwf Hn Hkey Ht. unfold submit. rewrite NormalizeKey_fresh by done.
  pose proof (wf_weaken_next _ (next_key_ p + 1) Hwf ltac:(lia)) as Hwf1.
  unfold enqueue. simpl. destruct (io_uring_get_sqe (ring_ p)) as [r|]; simpl.
  - split; simpl; try done.
    + apply wf_SubmitPending, wf_with_ring.
      apply (wf_insert_op (with_ring r (with_next (next_key_ p + 1) p))).
      * by apply wf_with_ring.
      * simpl. rewrite Hkey. pose proof (wf_next _ Hwf).
        split; [apply Hkey|]. split; [lia|]. by intros ?%Ht.
      * simpl. rewrite Hkey. by apply wf_fresh_key.
    + right. by rewrite Hkey.
  - split; simpl; try done. by left.
Qed.

(** Every eventer that wants events has its poll armed. *)
Definition tended (p : P) : Prop :=
  forall ev st, states_ p !! ev = Some st -> mask st <> 0 -> armed st = true.

(** The submission queue never runs full. *)
Definition roomy : Prop := forall r : R, is_Some (io_uring_get_sqe r).

(** [p'] comes from [p] by steps that use at most [n] keys and keep the
    invariant; keys that were out of use stay out of use. *)
Record kept (n : Z) (p p' : P) : Prop := {
  kept_wf : wf p';
  kept_next : next_key_ p <= next_key_ p' <= next_key_ p + n;
  kept_gone : forall k, k < next_key_ p -> ops_ p !! k = None -> ops_ p' !! k = None;
  kept_tended : roomy -> tended p -> tended p';
}.

Lemma kept_trans n m p q r : kept n p q -> kept m q r -> kept (n + m) p r.
Proof.
  intros [? ? Hg1 Ht1] [? ? Hg2 Ht2]. split; [done|lia| |by auto].
  intros k Hk Hnone. apply Hg2; [lia|by apply Hg1].
Qed.

(** Steps that touch neither table nor the key counter. *)
Lemma kept_frame n p q :
  wf q -> 0 <= n -> next_key_ q = next_key_ p -> ops_ q = ops_ p -> states_ q = states_ p ->
  kept n p q.
Proof.
  intros Hwf Hn Hnext Ho Hs. split; [done|lia|by rewrite Ho|].
  unfold tended. by rewrite Hs.
Qed.

Lemma kept_weaken n m p q : kept n p q -> n <= m -> kept m p q.
Proof. intros [? ? ? ?] ?. split; try done. lia. Qed.

Lemma kept_SubmitPending n p q : kept n p q -> kept n p (SubmitPending q).
Proof. intros [? ? ? ?]. split; try done. by apply wf_SubmitPending. Qed.

Definition tended_but (ev : Z) (p : P) : Prop :=
  forall ev' st, ev' <> ev -> states_ p !! ev' = Some st -> mask st <> 0 -> armed st = true.

Lemma SubmitPoll_tends ev e p : roomy -> tended_but ev p -> tended (SubmitPoll ev e p).
Proof.
  intros Hr Ho ev' st' Hst' Hm.
  destruct (decide (ev' = ev)) as [->|Hne].
  - unfold SubmitPoll in Hst'. destruct (states_ p !! ev) as [st|] eqn:Est; [|congruence].
    destruct ((mask st =? 0) || armed st) eqn:Eskip.
    + simplify_eq. apply orb_true_iff in Eskip as [?%Z.eqb_eq|]; done.
    + destruct (NormalizeKey 0 p) as [k q] eqn:Eq. unfold enqueue in Hst'.
      destruct (Hr (ring_ q)) as [r Er]. rewrite Er in Hst'. simpl in Hst'.
      rewrite lookup_insert_eq in Hst'. by simplify_eq.
  - apply (Ho ev' st'); [done| |done]. unfold SubmitPoll in Hst'.
    destruct (states_ p !! ev) as [st|]; [|done].
    destruct ((mask st =? 0) || armed st); [done|].
    destruct (NormalizeKey 0 p) as [k q] eqn:Eq.
    assert (states_ q = states_ p) as Hq
      by (unfold NormalizeKey, fetch_add_key in Eq; repeat case_match; by simplify_eq).
    unfold enqueue in Hst'. destruct (io_uring_get_sqe (ring_ q)); simpl in Hst'; rewrite Hq in Hst'.
    + by rewrite lookup_insert_ne in Hst' by done.
    + done.
Qed.

Lemma SubmitPoll_kept ev e p :
  wf p -> next_key_ p < 2 ^ 64 - 1 -> kept 1 p (SubmitPoll ev e p).
Proof.
  intros Hwf Hn. assert (roomy -> tended p -> tended (SubmitPoll ev e p)) as Htend.
  { intros Hr Ht. apply SubmitPoll_tends; [done|]. intros ?? _. apply Ht. }
  revert Htend. unfold SubmitPoll. destruct (states_ p !! ev) as [st|].
  2: { intros ?. by split; [|lia| |]. }
  destruct ((mask st =? 0) || armed st); [intros ?; by split; [|lia| |]|].
  rewrite NormalizeKey_fresh by done. intros Htend.
  pose proof (wf_weaken_next _ (next_key_ p + 1) Hwf ltac:(lia)) as Hwf1.
  unfold enqueue in *. simpl in *. destruct (io_uring_get_sqe (ring_ p)) as [r|]; simpl in *.
  2: { split; [done|simpl; lia|done|done]. }
  set (op := mkOp kPoll (Some ev) None (Eventer.fd_ e) None (next_key_ p) false) in *.
  split; [|simpl; lia| |done].
  - apply (wf_insert_state (io_uring_prep_with (PollAdd (Eventer.fd_ e) (mask st)) (next_key_ p)
           (with_ops (<[next_key_ p := op]> (ops_ p))
              (with_ring r (with_next (next_key_ p + 1) p))))).
    + apply wf_with_ring, (wf_insert_op (with_ring r (with_next (next_key_ p + 1) p)) op).
      * by apply wf_with_ring.
      * pose proof (wf_next _ Hwf). split; [done|]. simpl. split; [lia|done].
      * simpl. by apply wf_fresh_key.
    + intros _. exists op. simpl. by rewrite lookup_insert_eq.
  - intros k Hk Hnone. simpl. by rewrite lookup_insert_ne by lia.
Qed.

(** Giving an eventer a new state, then arming it. *)
Lemma kept_set_and_poll ev e st p :
  wf (with_states (<[ev := st]> (states_ p)) p) -> next_key_ p < 2 ^ 64 - 1 ->
  kept 1 p (SubmitPoll ev e (with_states (<[ev := st]> (states_ p)) p)).
Proof.
  intros Hwf1 Hn.
  destruct (SubmitPoll_kept ev e _ Hwf1 Hn) as [Hw Hnx Hg _]. split; [done|done|done|].
  intros Hr Ht. apply SubmitPoll_tends; [done|]. intros ev' st' Hne Hl. simpl in Hl.
  rewrite lookup_insert_ne in Hl by done. by apply (Ht ev').
Qed.

(** Disarming an eventer that wants no events, or that is about to go. *)
Lemma CancelPoll_kept ev p :
  wf p ->
  wf (CancelPoll ev p) /\ next_key_ (CancelPoll ev p) = next_key_ p /\
  ops_ (CancelPoll ev p) = ops_ p /\
  delete ev (states_ (CancelPoll ev p)) = delete ev (states_ p) /\
  (forall st', states_ (CancelPoll ev p) !! ev = Some st' ->
   exists st, states_ p !! ev = Some st /\ mask st' = mask st).
Proof.
  intros Hwf. unfold CancelPoll. destruct (states_ p !! ev) as [st|] eqn:Est; [|naive_solver].
  destruct (negb (armed st)); [naive_solver|].
  destruct (io_uring_get_sqe (ring_ p)) as [r|]; [|naive_solver].
  split_and!; [|done|done| |].
  - apply (wf_disarmed (io_uring_prep_with (PollRemove (poll_key st)) 0 (with_ring r p))).
    by do 2 apply wf_with_ring.
  - simpl. by rewrite delete_insert_eq.
  - simpl. intros st'. rewrite lookup_insert_eq. intros ?. simplify_eq. by exists st.
Qed.

Lemma kept_RemoveEventer ev p : wf p -> kept 0 p (RemoveEventer ev p).
Proof.
  intros Hwf. destruct (CancelPoll_kept ev p Hwf) as (Hw & Hn & Ho & Hd & _).
  unfold RemoveEventer. split; simpl.
  - by apply wf_delete_state.
  - lia.
  - by rewrite Ho.
  - intros _ Ht ev' st' Hl. simpl in Hl. rewrite Hd in Hl.
    apply lookup_delete_Some in Hl as [_ Hl]. by apply (Ht ev').
Qed.

Lemma kept_ModifyEventer ev e p :
  wf p -> next_key_ p < 2 ^ 64 - 1 -> kept 1 p (ModifyEventer ev e p).
Proof.
  intros Hwf Hn. unfold ModifyEventer.
  destruct (states_ p !! ev) as [st|] eqn:Est.
  2: { by apply kept_SubmitPending, kept_set_and_poll; [apply wf_insert_state|]. }
  pose proof (wf_states _ Hwf _ _ Est) as Hst.
  destruct (Z.eqb_spec (Eventer.Events e) 0) as [E0|].
  2: { by apply kept_SubmitPending, kept_set_and_poll; [apply wf_insert_state|]. }
  set (p1 := with_states _ p).
  assert (wf p1) as Hp1 by by apply wf_insert_state.
  destruct (CancelPoll_kept ev p1 Hp1) as (Hw & Hnx & Ho & Hd & Hm).
  apply kept_SubmitPending. split; [done|rewrite Hnx; simpl; lia|by rewrite Ho|].
  intros _ Ht ev' st' Hl Hmask. destruct (decide (ev' = ev)) as [->|Hne].
  - apply Hm in Hl as (st1 & Hl1 & Hm1). simpl in Hl1. rewrite lookup_insert_eq in Hl1.
    simplify_eq. simpl in Hm1. congruence.
  - apply (Ht ev'); [|done]. rewrite <-(lookup_delete_ne _ ev ev') in Hl by done.
    rewrite Hd in Hl. simpl in Hl. rewrite delete_insert_eq, lookup_delete_ne in Hl by done. done.
Qed.

Lemma kept_submit op_of q p :
  wf p -> next_key_ p < 2 ^ 64 - 1 ->
  (forall k, key (op_of k) = k) -> (forall k, type (op_of k) <> kPoll) ->
  kept 1 p (submit op_of q p).2.
Proof.
  intros Hwf Hn Hk Ht.
  destruct (submit_ok op_of q p Hwf Hn Hk Ht) as [? Hnext Hst _ _ Hops].
  split; [done|lia| |unfold tended; by rewrite Hst].
  intros k Hlt Hnone. destruct Hops as [[_ ->]|[-> ->]]; [done|].
  by rewrite lookup_insert_ne by lia.
Qed.

Lemma SubmitAccept_submit fd c fn m d p :
  wf p -> next_key_ p < 2 ^ 64 - 1 ->
  SubmitAccept fd c fn 0 m d p =
  submit (fun k => mkOp kAccept None c fd fn k d)
    (Accept fd (m && use_multishot_accept_ p && accept_multishot_defined)) p.
Proof.
  intros Hwf Hn. unfold SubmitAccept, submit. by rewrite NormalizeKey_fresh by done.
Qed.

Lemma kept_CancelOp k p : wf p -> api_valid (ApiCancel k) p -> kept 0 p (CancelOp k p).
Proof.
  intros Hwf Hv. unfold CancelOp. destruct (k =? 0); [by apply kept_frame|].
  set (p1 := match ops_ p !! k with Some op => _ | None => _ end).
  assert (kept 0 p p1) as Hp1.
  { subst p1. destruct (ops_ p !! k) as [op|] eqn:E; [|by apply kept_frame].
    destruct (wf_ops _ Hwf _ _ E) as (? & ? & Ht).
    split; [|simpl; lia| |done].
    - apply (wf_replace_op _ _ op); try done; [by apply Hv|].
      split; [done|]. split; [done|]. simpl. intros [_ ?]%Ht. done.
    - intros k' Hk' Hnone. simpl. by rewrite lookup_insert_ne by congruence. }
  destruct (io_uring_get_sqe _); [|done]. apply kept_SubmitPending.
  destruct Hp1. split; try done. by apply wf_with_ring, wf_with_ring.
Qed.

Lemma kept_run_api a p :
  wf p -> next_key_ p < 2 ^ 64 - 1 -> api_valid a p -> kept 1 p (run_api a p).
Proof.
  intros Hwf Hn Hv. destruct a; simpl.
  - by apply kept_SubmitPending, kept_set_and_poll; [apply wf_insert_state|].
  - by apply kept_ModifyEventer.
  - apply (kept_weaken 0); [by apply kept_RemoveEventer|lia].
  - by apply (kept_submit (fun k => mkOp kRead (Some ev) (Some c) _ (Some fn) k true)).
  - unfold SubmitReadMultishot. destruct recv_multishot_defined; [|by apply kept_frame].
    by apply (kept_submit (fun k => mkOp kRead (Some ev) (Some c) _ (Some fn) k true)).
  - by apply (kept_submit (fun k => mkOp kWrite (Some ev) (Some c) _ (Some fn) k true)).
  - rewrite SubmitAccept_submit by done. by apply kept_submit.
  - apply (kept_weaken 0); [by apply kept_CancelOp|lia].
Qed.

Lemma calls_nonneg p n p' : calls p n p' -> 0 <= n.
Proof. induction 1; lia. Qed.

Lemma calls_kept p n p' :
  wf p -> calls p n p' -> next_key_ p + n <= 2 ^ 64 - 1 -> kept n p p'.
Proof.
  intros Hwf Hc. induction Hc as [|n p' a Hc IH Hv]; intros Hn; [by apply kept_frame|].
  pose proof (calls_nonneg _ _ _ Hc).
  assert (kept n p p') as Hk by (apply IH; lia).
  apply (kept_trans _ _ _ _ _ Hk). destruct Hk. apply kept_run_api; [done|lia|done].
Qed.

End facts.

Create HintDb poller.
#[export] Hint Resolve wf_with_ring wf_SubmitPending wf_with_registered wf_with_freed
  wf_disarmed wf_delete_state : poller.

(** ** Completions keep the invariant *)

(** Completion functions and callbacks reach the poller through its public
    calls only, at most [B] of them each, and leave the identity of the op
    alone. *)
Class LawfulHandlers (R Ctx Fn E : Type) `{!Ring R, !BuildConfig, !Handlers R Ctx Fn E} (B : Z) := {
  lawful_bound : 0 <= B;
  complete_lawful : forall fn c op (s : Sys R Ctx Fn E) op' s',
    complete fn c op s = Ok (op', s') ->
    key op' = key op /\ type op' = type op /\
    exists n, n <= B /\ calls (s_poller s) n (s_poller s');
  run_call_lawful : forall ev c (s s' : Sys R Ctx Fn E),
    run_call ev c s = Ok s' -> exists n, n <= B /\ calls (s_poller s) n (s_poller s');
}.

Section completions.
Context {R Ctx Fn E : Type} `{!Ring R, !BuildConfig, !Handlers R Ctx Fn E}.
Context (B : Z) `{!LawfulHandlers R Ctx Fn E B}.

Abbreviation P := (Poller R Ctx Fn).
Abbreviation Op := (IoUringOp Ctx Fn).
Abbreviation S := (Sys R Ctx Fn E).
Implicit Types p : P.
Implicit Types op : Op.
Implicit Types s : S.

Lemma kept_Release c p : wf p -> kept 0 p (ReleaseBufferFromCqe c p).
Proof.
  intros Hwf. unfold ReleaseBufferFromCqe. repeat case_match; apply kept_frame; try done.
  by do 2 apply wf_with_ring.
Qed.

Lemma kept_Cleanup op p : wf p -> kept 0 p (CleanupOpContext op p).2.
Proof.
  intros Hwf. unfold CleanupOpContext. repeat case_match; apply kept_frame; try done.
  by apply wf_with_freed.
Qed.

Lemma calls_upto p n p' :
  wf p -> n <= B -> next_key_ p + B <= 2 ^ 64 - 1 -> calls p n p' -> kept B p p'.
Proof.
  intros Hwf Hn Hroom Hc. apply (kept_weaken n); [|done]. apply (calls_kept _ _ _ Hwf Hc). lia.
Qed.

(** The callbacks of one completion are at most one. *)
Lemma run_calls_kept ev cs s s' :
  (length cs <= 1)%nat -> wf (s_poller s) -> next_key_ (s_poller s) + B <= 2 ^ 64 - 1 ->
  run_calls ev cs s = Ok s' -> kept B (s_poller s) (s_poller s').
Proof.
  intros Hlen Hwf Hroom Hrun. pose proof lawful_bound.
  destruct cs as [|c [|? ?]]; simpl in *; [| |lia]; bind_ok.
  - by apply kept_frame.
  - destruct (run_call_lawful _ _ _ _ Hok) as (n & ? & Hc). by eapply calls_upto.
Qed.

Lemma on_done_one (e : Eventer.Eventer) b err :
  (length (Eventer.OnReadDone b err e) <= 1)%nat /\
  (length (Eventer.OnWriteDone b err e) <= 1)%nat /\
  (length (Eventer.OnAcceptDone b e) <= 1)%nat.
Proof.
  unfold Eventer.OnReadDone, Eventer.OnWriteDone, Eventer.OnAcceptDone.
  split_and!; repeat case_match; simpl; lia.
Qed.

Lemma kept_from_deleted n k p q : kept n (with_ops (delete k (ops_ p)) p) q -> kept n p q.
Proof.
  intros [? ? Hg ?]. split; try done. intros k' Hk' Hnone. apply Hg; [done|].
  simpl. rewrite lookup_delete_None. by right.
Qed.

(** A poll leaves the table: nothing is armed with it any more once its eventer
    is disarmed or unknown. *)
Lemma wf_delete_poll p k op ev m pk :
  wf p -> ops_ p !! k = Some op -> eventer op = Some ev ->
  wf (with_states (<[ev := mkState m false pk]> (states_ p)) (with_ops (delete k (ops_ p)) p)).
Proof.
  intros [Hn Ho Hs] Hl Hev. split; simpl; [done| |].
  - by apply map_Forall_delete.
  - intros ev' st Hst Harm. simpl in *. destruct (decide (ev' = ev)) as [->|Hne].
    { rewrite lookup_insert_eq in Hst. by simplify_eq. }
    rewrite lookup_insert_ne in Hst by done.
    destruct (Hs ev' st Hst Harm) as (q & Hq & ? & ?). exists q.
    rewrite lookup_delete_ne by congruence. done.
Qed.

Lemma wf_delete_orphan p k op :
  wf p -> ops_ p !! k = Some op ->
  (forall ev, eventer op = Some ev -> states_ p !! ev = None) ->
  wf (with_ops (delete k (ops_ p)) p).
Proof.
  intros [Hn Ho Hs] Hl Hev. split; simpl; [done|by apply map_Forall_delete|].
  intros ev' st Hst Harm. destruct (Hs ev' st Hst Harm) as (q & Hq & ? & Hqe).
  exists q. rewrite lookup_delete_ne; [done|]. intros ->. rewrite Hq in Hl. simplify_eq.
  specialize (Hev ev' Hqe). congruence.
Qed.

Lemma HandlePollCqe_kept c op k s s' :
  wf (s_poller s) -> next_key_ (s_poller s) < 2 ^ 64 - 1 ->
  ops_ (s_poller s) !! k = Some op ->
  HandlePollCqe c op (upd_poller (fun p => with_ops (delete k (ops_ p)) p) s) = Ok s' ->
  kept 1 (s_poller s) (s_poller s').
Proof.
  intros Hwf Hroom Hl Hh. unfold HandlePollCqe in Hh. apply (kept_from_deleted _ k).
  destruct (eventer op) as [ev|] eqn:Eev.
  2: { simplify_eq. apply kept_frame; try done. apply (wf_delete_orphan _ _ op); naive_solver. }
  simpl in Hh. destruct (states_ (s_poller s) !! ev) as [st|] eqn:Est.
  2: { simplify_eq. apply kept_frame; try done. apply (wf_delete_orphan _ _ op); naive_solver. }
  bind_ok. pose proof (wf_delete_poll _ _ _ _ (mask st) (poll_key st) Hwf Hl Eev).
  destruct (0 <=? cqe_res c); simpl;
    by apply (kept_set_and_poll ev a _ (with_ops (delete k (ops_ (s_poller s))) (s_poller s))).
Qed.

Lemma HandleByType_kept c op s s' :
  type op <> kPoll -> wf (s_poller s) -> next_key_ (s_poller s) + B <= 2 ^ 64 - 1 ->
  HandleByType c op s = Ok s' -> kept B (s_poller s) (s_poller s').
Proof.
  intros Ht Hwf Hroom Hh. pose proof lawful_bound. unfold HandleByType in Hh.
  assert (kept B (s_poller s) (s_poller s)) as Hid by (apply kept_frame; done || lia).
  pose proof (kept_Release c _ Hwf) as Hrel.
  destruct (type op); [done| | | |by simplify_eq|by simplify_eq].
  - assert (forall cs, (length cs <= 1)%nat -> forall ev,
      run_calls ev cs (upd_poller (ReleaseBufferFromCqe c) s) = Ok s' ->
      kept (0 + B) (s_poller s) (s_poller s')) as Hrun.
    { intros cs Hcs ev Hr. apply (kept_trans _ _ _ _ _ Hrel).
      apply (run_calls_kept ev cs (upd_poller (ReleaseBufferFromCqe c) s)); [done| | |done].
      - apply Hrel.
      - destruct (kept_next _ _ _ Hrel). simpl. lia. }
    destruct (eventer op) as [ev|]; [|apply (Hrun [] ltac:(simpl; lia) 0); by simplify_eq].
    destruct (registered _ _); [|apply (Hrun [] ltac:(simpl; lia) 0); by simplify_eq].
    bind_ok. by eapply (Hrun _ (proj1 (on_done_one a _ _))).
  - destruct (eventer op) as [ev|]; [|by simplify_eq].
    destruct (registered _ _); [|by simplify_eq]. bind_ok.
    apply (run_calls_kept _ _ _ _ (proj1 (proj2 (on_done_one a (cqe_res c) _))) Hwf Hroom Hok0).
  - destruct (eventer op) as [ev|]; [|by simplify_eq]. bind_ok.
    apply (run_calls_kept _ _ _ _ (proj2 (proj2 (on_done_one a (cqe_res c) 0))) Hwf Hroom Hok0).
Qed.

Lemma CleanupOpContext_op op p :
  key (CleanupOpContext op p).1 = key op /\ type (CleanupOpContext op p).1 = type op /\
  eventer (CleanupOpContext op p).1 = eventer op.
Proof. unfold CleanupOpContext. repeat case_match; done. Qed.

(** One completion keeps the invariant; it uses no more keys than the calls its
    handler makes, and one for a poll armed again. *)
Lemma HandleCqe_kept c s s' :
  wf (s_poller s) -> next_key_ (s_poller s) + (B + 1) <= 2 ^ 64 - 1 ->
  HandleCqe c s = Ok s' -> kept (B + 1) (s_poller s) (s_poller s').
Proof.
  intros Hwf Hroom Hh. pose proof lawful_bound.
  assert (kept (B + 1) (s_poller s) (ReleaseBufferFromCqe c (s_poller s))) as Hrel
    by (apply (kept_weaken 0); [by apply kept_Release|lia]).
  unfold HandleCqe, LookupOp in Hh. destruct (cqe_user_data c =? 0); [by simplify_eq|].
  destruct (ops_ (s_poller s) !! cqe_user_data c) as [op|] eqn:El; [|by simplify_eq].
  destruct (wf_ops _ Hwf _ _ El) as (Hkey & Hk & Hpoll).
  destruct (decide (type op = kPoll)) as [Ht|Ht].
  { destruct (Hpoll Ht) as [Hc0 Hx0]. rewrite Hc0 in Hh.
    unfold CleanupOpContext in Hh. rewrite Hx0 in Hh. unfold HandleByType in Hh.
    rewrite Ht in Hh. apply (kept_weaken 1); [|lia].
    by apply (HandlePollCqe_kept c op (cqe_user_data c)); [|lia| |]. }
  set (p1 := with_ops (delete (cqe_user_data c) (ops_ (s_poller s))) (s_poller s)) in *.
  assert (wf p1) as Hp1 by by apply (wf_delete_op _ _ op).
  destruct (completion op) as [fn|].
  - destruct (_ && _).
    + simplify_eq. apply (kept_from_deleted _ (cqe_user_data c)). simpl. apply (kept_weaken (0 + 0)); [|lia].
      eapply kept_trans; [by apply (kept_Cleanup op)|]. apply kept_Release.
      by apply (kept_Cleanup op p1 Hp1).
    + bind_ok. destruct (complete_lawful _ _ _ _ _ _ Hok) as (Hk' & Ht' & n & Hn & Hcalls).
      pose proof (calls_upto p1 n _ Hp1 Hn ltac:(simpl; lia) Hcalls) as HkB.
      pose proof (kept_Release c _ (kept_wf _ _ _ HkB)) as HkR.
      pose proof (kept_trans _ _ _ _ _ HkB HkR) as HkBR.
      apply (kept_weaken (B + 0)); [|lia].
      destruct (_ && _); simplify_eq; [|by apply (kept_from_deleted _ (cqe_user_data c))].
      destruct HkBR as [Hw Hnx Hg Htend].
      assert (ops_ (ReleaseBufferFromCqe c (s_poller s0)) !! cqe_user_data c = None) as Hnone.
      { apply Hg; [simpl; lia|]. simpl. by rewrite lookup_delete_eq. }
      assert (cqe_user_data c = key i) as Hki by congruence.
      assert (0 < key i < next_key_ (ReleaseBufferFromCqe c (s_poller s0))) as Hrange
        by (rewrite <-Hki; subst p1; simpl in *; lia).
      rewrite Hki in *.
      split; [|done| |done].
      * apply wf_insert_op; [done| |done]. split; [done|]. split; [done|]. by rewrite Ht'.
      * intros k2 Hk2 Hn2. simpl. simpl in Hk2.
        rewrite lookup_insert_ne by congruence. apply Hg; [done|].
        simpl. rewrite lookup_delete_None. by right.
  - destruct (CleanupOpContext_op op p1) as (_ & Ht2 & _).
    pose proof (kept_Cleanup op p1 Hp1) as HkC.
    destruct (CleanupOpContext op (s_poller _)) as [op2 p2] eqn:Ec.
    change (CleanupOpContext op p1 = (op2, p2)) in Ec. rewrite Ec in Ht2, HkC. simpl in *.
    apply (kept_from_deleted _ (cqe_user_data c)).
    apply (kept_weaken (0 + B)); [|lia]. apply (kept_trans _ _ _ _ _ HkC).
    apply (HandleByType_kept c op2 (upd_poller (fun _ => p2) (upd_poller (fun _ => p1) s)));
      [congruence|apply HkC| |done].
    destruct (kept_next _ _ _ HkC) as [_ ?]. simpl in *. lia.
Qed.

End completions.

(** ** Runs of a poller *)

Section runs.
Context {R Ctx Fn E : Type} `{!Ring R, !BuildConfig, !Handlers R Ctx Fn E}.
Context (B : Z) `{!LawfulHandlers R Ctx Fn E B}.

Abbreviation P := (Poller R Ctx Fn).
Abbreviation S := (Sys R Ctx Fn E).
Implicit Types p : P.
Implicit Types s : S.

(** What a poller can go through: calls of its owners, in between which the
    eventers and the rest of the program change, and completions. The number
    bounds the keys used so far. *)
Inductive reached (s0 : S) : Z -> S -> Prop :=
| reached_start : reached s0 0 s0
| reached_calls n m s p evs act env :
    reached s0 n s -> calls (s_poller s) m p -> reached s0 (n + m) (mkSys p evs act env)
| reached_cqe n c s s' :
    reached s0 n s -> HandleCqe c s = Ok s' -> reached s0 (n + (B + 1)) s'.

Lemma reached_nonneg s0 n s : reached s0 n s -> 0 <= n.
Proof.
  pose proof lawful_bound. induction 1 as [|n m ???? ?? IH Hc|]; [lia| |lia].
  apply calls_nonneg in Hc. lia.
Qed.

Lemma reached_kept s0 n s :
  wf (s_poller s0) -> reached s0 n s -> next_key_ (s_poller s0) + n <= 2 ^ 64 - 1 ->
  kept n (s_poller s0) (s_poller s).
Proof.
  intros Hwf Hr. induction Hr as [|n m s p evs act env Hr IH Hc|n c s s' Hr IH Hh]; intros Hn.
  - by apply kept_frame.
  - pose proof (calls_nonneg _ _ _ Hc). assert (kept n (s_poller s0) (s_poller s)) as Hk.
    { apply IH. lia. }
    apply (kept_trans _ _ _ _ _ Hk), (calls_kept _ _ _ (kept_wf _ _ _ Hk) Hc).
    destruct (kept_next _ _ _ Hk). lia.
  - pose proof lawful_bound. assert (kept n (s_poller s0) (s_poller s)) as Hk.
    { apply IH. lia. }
    apply (kept_trans _ _ _ _ _ Hk), (HandleCqe_kept B c); [apply Hk| |done].
    destruct (kept_next _ _ _ Hk). lia.
Qed.

Lemma wf_new r a q : wf (Poller_new r a q : P) /\ next_key_ (Poller_new r a q : P) = 1 /\
  states_ (Poller_new r a q : P) = ∅.
Proof.
  unfold Poller_new, RegisterBuffers.
  set (p0 := mkPoller _ _ _ _ _ _ _ _ _).
  assert (wf p0) as Hwf. { split; [done| |]; by apply map_Forall_empty. }
  repeat case_match; split_and!; try done; by repeat apply wf_with_registered || apply wf_with_ring.
Qed.

(** ** The batch of one [Poll] *)

Fixpoint handle_all (cs : list cqe) (s : S) : result S :=
  match cs with
  | [] => Ok s
  | c :: cs => s ← HandleCqe c s; handle_all cs s
  end.

(** The completions found before the queue is empty or fails. *)
Fixpoint gots (peeks : list cq_answer) : list cqe :=
  match peeks with
  | Got c :: peeks => c :: gots peeks
  | _ => []
  end.

(** How many completions the limit lets through; 0 is no limit. *)
Definition batch (limit avail : Z) : Z := if limit =? 0 then avail else Z.min limit avail.

Lemma drain_batch limit budget start peeks : forall now clock h s,
  0 <= limit -> 0 < h ->
  exists n, 0 <= n <= Z.max 0 (batch limit (h + zlen (gots peeks)) - h) /\
    (budget <= 0 -> n = Z.max 0 (batch limit (h + zlen (gots peeks)) - h)) /\
    drain limit budget start now clock h peeks s =
    s ← handle_all (ztake n (gots peeks)) s; Ok (h + n, s).
Proof.
  induction peeks as [|a peeks IH]; intros now clock h s Hl Hh; simpl.
  - exists 0. unfold batch, zlen. simpl. rewrite Z.add_0_r.
    split; [lia|]. split; [intros _; cases_cmp|]. unfold ztake. simpl.
    destruct (0 <? budget); [destruct (read_clock now clock)|]; repeat case_match; by rewrite Z.add_0_r.
  - destruct ((limit =? 0) || (h <? limit)) eqn:Ego.
    2: { exists 0. apply orb_false_iff in Ego as [?%Z.eqb_neq ?%Z.ltb_ge].
         split; [lia|]. split; [intros _; unfold batch; pose proof (Zle_0_nat (length (match a with Got c => c :: gots peeks | NoCqe _ => [] end))); unfold zlen; cases_cmp|].
         by rewrite Z.add_0_r. }
    destruct (if 0 <? budget then read_clock now clock else (now, clock)) as [now' clock'] eqn:Ec.
    destruct ((0 <? budget) && (budget <=? now' - start)) eqn:Eb.
    { exists 0. apply andb_true_iff in Eb as [?%Z.ltb_lt _].
      split; [lia|]. split; [lia|]. by rewrite Z.add_0_r. }
    destruct a as [c|err].
    + destruct (HandleCqe c s) as [s1|f] eqn:Eh; simpl.
      * destruct (IH now' clock' (h + 1) s1 Hl ltac:(lia)) as (n & Hn & Hmax & Heq).
        assert (batch limit (h + zlen (c :: gots peeks)) = batch limit (h + 1 + zlen (gots peeks))) as Hb.
        { f_equal. zlist. }
        assert (h < batch limit (h + 1 + zlen (gots peeks))) as Hlt.
        { unfold batch, zlen. apply orb_true_iff in Ego as [?%Z.eqb_eq|?%Z.ltb_lt]; cases_cmp. }
        rewrite Hb. exists (n + 1). split; [lia|]. split; [intros; rewrite Hmax by done; lia|].
        rewrite Heq. unfold ztake. replace (Z.to_nat (n + 1)) with (Datatypes.S (Z.to_nat n)) by lia.
        simpl. rewrite Eh. simpl. by replace (h + 1 + n) with (h + (n + 1)) by lia.
      * exists (Z.max 0 (batch limit (h + zlen (c :: gots peeks)) - h)).
        split; [lia|]. split; [done|].
        assert (0 < batch limit (h + zlen (c :: gots peeks)) - h) as Hlt.
        { zlist. unfold batch, zlen. apply orb_true_iff in Ego as [?%Z.eqb_eq|?%Z.ltb_lt]; cases_cmp. }
        unfold ztake. replace (Z.to_nat _) with (Datatypes.S (Z.to_nat (batch limit (h + zlen (c :: gots peeks)) - h - 1))) by lia.
        simpl. by rewrite Eh.
    + exists 0. unfold batch, zlen. simpl. rewrite Z.add_0_r.
      split; [lia|]. split; [intros _; cases_cmp|]. unfold ztake. simpl. by rewrite Z.add_0_r.
Qed.

End runs.

(** ** Settings *)

Section config.
Context {R Ctx Fn : Type} `{!Ring R, !BuildConfig}.
Implicit Types p : Poller R Ctx Fn.

(** The batch limit and the time budget, which no call of [api] changes. *)
Definition config (p : Poller R Ctx Fn) : Z * Z := (cqe_batch_limit_ p, cqe_time_budget_us_ p).

Lemma config_NormalizeKey k p : config (NormalizeKey k p).2 = config p.
Proof. unfold NormalizeKey, fetch_add_key. repeat case_match; by simplify_eq/=. Qed.

Lemma config_enqueue op q p p' : enqueue op q p = Some p' -> config p' = config p.
Proof. unfold enqueue. intros. by repeat case_match; simplify_eq/=. Qed.

Lemma config_SubmitPoll ev e p : config (SubmitPoll ev e p) = config p.
Proof.
  unfold SubmitPoll. destruct (states_ p !! ev); [|done]. destruct (_ || _); [done|].
  pose proof (config_NormalizeKey 0 p) as Hk. destruct (NormalizeKey 0 p) as [k p1]. simpl in Hk.
  destruct (enqueue _ _ p1) as [p2|] eqn:E; [|done].
  apply config_enqueue in E. rewrite <-Hk, <-E. done.
Qed.

Lemma config_CancelPoll ev p : config (CancelPoll ev p) = config p.
Proof. unfold CancelPoll. by repeat case_match. Qed.

Lemma config_submitter op_of q p :
  config (let '(k, p) := NormalizeKey 0 p in
          match enqueue (op_of k) (q p) p with
          | None => (0, p) | Some p => (k, SubmitPending p) end).2 = config p.
Proof.
  pose proof (config_NormalizeKey 0 p) as Hk. destruct (NormalizeKey 0 p) as [k p1]. simpl in Hk.
  destruct (enqueue _ _ p1) as [p2|] eqn:E; [|done].
  apply config_enqueue in E. rewrite <-Hk, <-E. done.
Qed.

Lemma config_run_api a p : config (run_api a p) = config p.
Proof.
  destruct a; simpl.
  - apply (config_SubmitPoll ev e (with_states _ p)).
  - unfold ModifyEventer. destruct (states_ p !! ev).
    + destruct (_ =? _); [apply (config_CancelPoll ev (with_states _ p))|].
      apply (config_SubmitPoll ev e (with_states _ p)).
    + apply (config_SubmitPoll ev e (with_states _ p)).
  - unfold RemoveEventer. apply config_CancelPoll.
  - apply (config_submitter (fun k => mkOp kRead (Some ev) (Some c) _ (Some fn) k true)
             (fun _ => Readv _ iov)).
  - unfold SubmitReadMultishot. destruct recv_multishot_defined; [|done].
    apply (config_submitter (fun k => mkOp kRead (Some ev) (Some c) _ (Some fn) k true)
             (fun _ => RecvMultishot _ _)).
  - apply (config_submitter (fun k => mkOp kWrite (Some ev) (Some c) _ (Some fn) k true)
             (fun _ => Writev _ iov)).
  - apply (config_submitter (fun k => mkOp kAccept None (Some c) fd (Some fn) k deleter)
             (fun p => Accept fd (multishot && use_multishot_accept_ p && accept_multishot_defined))).
  - unfold CancelOp. destruct (k =? 0); [done|].
    destruct (ops_ p !! k); simpl; by destruct (io_uring_get_sqe _).
Qed.

Lemma config_calls p n p' : calls p n p' -> config p' = config p.
Proof. induction 1; [done|]. by rewrite config_run_api. Qed.

End config.

Section poll.
Context {R Ctx Fn E : Type} `{!Ring R, !BuildConfig, !Handlers R Ctx Fn E}.
Context (B : Z) `{!LawfulHandlers R Ctx Fn E B}.

Abbreviation S := (Sys R Ctx Fn E).
Implicit Types s : S.
Implicit Types p : Poller R Ctx Fn.

Lemma config_Release c p : config (ReleaseBufferFromCqe c p) = config p.
Proof. unfold ReleaseBufferFromCqe. by repeat case_match. Qed.

Lemma config_Cleanup op p : config (CleanupOpContext op p).2 = config p.
Proof. unfold CleanupOpContext. by repeat case_match. Qed.

Lemma config_run_calls ev cs s s' :
  run_calls ev cs s = Ok s' -> config (s_poller s') = config (s_poller s).
Proof.
  revert s. induction cs as [|c cs IH]; intros s Hr; simpl in Hr; bind_ok; [done|].
  rewrite (IH _ Hok0). destruct (run_call_lawful _ _ _ _ Hok) as (n & _ & Hc).
  by apply config_calls in Hc.
Qed.

Lemma config_HandleByType c op s s' :
  HandleByType c op s = Ok s' -> config (s_poller s') = config (s_poller s).
Proof.
  unfold HandleByType, HandlePollCqe. intros Hh.
  pose proof (config_Release c (s_poller s)) as Hrel.
  destruct (type op); destruct (eventer op) as [ev|];
    try (injection Hh as <-; done || exact Hrel).
  - destruct (states_ (s_poller s) !! ev); [|by simplify_eq]. bind_ok.
    destruct (0 <=? cqe_res c); apply (config_SubmitPoll ev a (with_states _ (s_poller s))).
  - destruct (registered _ _); [|injection Hh as <-; exact Hrel]. bind_ok.
    apply config_run_calls in Hok0 as ->. apply config_Release.
  - destruct (registered _ _); [|by simplify_eq]. bind_ok. by apply config_run_calls in Hok0 as ->.
  - bind_ok. by apply config_run_calls in Hok0 as ->.
Qed.

Lemma config_HandleCqe c s s' :
  HandleCqe c s = Ok s' -> config (s_poller s') = config (s_poller s).
Proof.
  unfold HandleCqe, LookupOp. intros Hh. pose proof (config_Release c (s_poller s)) as Hrel.
  destruct (_ =? 0); [injection Hh as <-; exact Hrel|].
  destruct (ops_ _ !! _) as [op|]; [|injection Hh as <-; exact Hrel].
  destruct (completion op) as [fn|].
  - destruct (_ && _).
    + simplify_eq. simpl. by rewrite config_Release, config_Cleanup.
    + bind_ok. destruct (complete_lawful _ _ _ _ _ _ Hok) as (_ & _ & n & _ & Hc).
      apply config_calls in Hc. simpl in Hc.
      destruct (_ && _); injection Hok0 as <-;
        change (config (ReleaseBufferFromCqe c (s_poller s0)) = config (s_poller s));
        by rewrite config_Release, Hc.
  - pose proof (config_Cleanup op (with_ops (delete (cqe_user_data c) (ops_ (s_poller s))) (s_poller s))) as Hc.
    simpl in Hh. destruct (CleanupOpContext op _) as [op2 p2].
    apply config_HandleByType in Hh. rewrite Hh. exact Hc.
Qed.

(** C29. One [Poll] that got a completion handles, in their order, a prefix of
    the completions that are there: at most [cqe_batch_limit_] of them (0: all),
    and exactly so many when there is no time budget; then it submits what the
    handlers queued. *)
Theorem poll_batch timeout wait peeks start clock s c :
  wait (poll_timespec timeout) = Got c -> 0 <= cqe_batch_limit_ (s_poller s) ->
  exists n, 1 <= n <= batch (cqe_batch_limit_ (s_poller s)) (1 + zlen (gots peeks)) /\
    (cqe_time_budget_us_ (s_poller s) <= 0 ->
     n = batch (cqe_batch_limit_ (s_poller s)) (1 + zlen (gots peeks))) /\
    Poll timeout wait peeks start clock s =
    s' ← handle_all (ztake n (c :: gots peeks)) s; Ok (n, upd_poller SubmitPending s').
Proof using B LawfulHandlers0.
  intros Hwait Hlim. unfold Poll. rewrite Hwait.
  set (limit := cqe_batch_limit_ (s_poller s)) in *.
  assert (0 <= zlen (gots peeks)) by (unfold zlen; lia).
  assert (1 <= batch limit (1 + zlen (gots peeks))) as Hb by (unfold batch; cases_cmp).
  destruct (HandleCqe c s) as [s1|f] eqn:Eh; simpl.
  - pose proof (config_HandleCqe c s s1 Eh) as Hc. injection Hc as Hl Ht. rewrite Hl, Ht.
    fold limit.
    destruct (drain_batch limit (cqe_time_budget_us_ (s_poller s)) start peeks start clock 1 s1)
      as (n & Hn & Hmax & ->); [done|lia|].
    exists (n + 1). split; [lia|]. split; [intros; rewrite Hmax by done; lia|].
    unfold ztake. replace (Z.to_nat (n + 1)) with (Datatypes.S (Z.to_nat n)) by lia. simpl.
    rewrite Eh. simpl. rewrite Z.add_comm. by destruct (handle_all _ s1).
  - exists (batch limit (1 + zlen (gots peeks))). split; [lia|]. split; [done|].
    unfold ztake. replace (Z.to_nat _) with (Datatypes.S (Z.to_nat (batch limit (1 + zlen (gots peeks)) - 1))) by lia.
    simpl. by rewrite Eh.
Qed.

(** C11. From a new poller on, through any calls and completions: as long as the
    submission queue does not run full and the 64-bit keys are not used up, an
    eventer whose mask is not empty has a poll request outstanding under the
    key its state names. *)
Theorem interest_is_polled r a q evs act env n s :
  roomy (R := R) ->
  reached B (mkSys (Poller_new r a q) evs act env) n s -> n <= 2 ^ 64 - 2 ->
  forall ev st, states_ (s_poller s) !! ev = Some st -> mask st <> 0 ->
  exists op, ops_ (s_poller s) !! poll_key st = Some op /\
    type op = kPoll /\ eventer op = Some ev /\ key op = poll_key st.
Proof.
  intros Hr Hreach Hn ev st Hst Hm.
  destruct (wf_new (Ctx := Ctx) (Fn := Fn) r a q) as (Hwf & Hnext & Hempty).
  destruct (reached_kept B (mkSys (Poller_new r a q) evs act env) n s Hwf Hreach) as [Hw _ _ Ht]; [simpl; lia|].
  assert (armed st = true) as Harm.
  { apply (Ht Hr) with ev; [|done|done]. intros ??. simpl. by rewrite Hempty. }
  destruct (wf_states _ Hw _ _ Hst Harm) as (op & Hop & ? & ?).
  exists op. split_and!; try done. by destruct (wf_ops _ Hw _ _ Hop).
Qed.

Lemma Release_ring c p : exists r, ReleaseBufferFromCqe c p = with_ring r p.
Proof.
  unfold ReleaseBufferFromCqe.
  repeat case_match; eexists; try done; instantiate (1 := ring_ p); by destruct p.
Qed.

(** C16. A cancelled request stays in the table with its context until its
    completion arrives; the completion then hands the context to its deleter,
    once, calls nobody and forgets the key, and a second completion with the
    same key does nothing to contexts or tables. *)
Theorem cancelled_context_freed_once s k op ctx c c' :
  k <> 0 -> ops_ (s_poller s) !! k = Some op -> type op <> kPoll ->
  context op = Some ctx -> context_deleter op = true ->
  cqe_user_data c = k -> cqe_user_data c' = k ->
  exists op1 s2 s3,
    ops_ (CancelOp k (s_poller s)) !! k = Some op1 /\ context op1 = Some ctx /\
    freed_ (CancelOp k (s_poller s)) = freed_ (s_poller s) /\
    HandleCqe c (upd_poller (CancelOp k) s) = Ok s2 /\ HandleCqe c' s2 = Ok s3 /\
    freed_ (s_poller s2) = freed_ (s_poller s) ++ [ctx] /\
    ops_ (s_poller s2) = delete k (ops_ (s_poller s)) /\
    states_ (s_poller s2) = states_ (s_poller s) /\
    active_eventers s2 = active_eventers s /\ s_env s2 = s_env s /\
    freed_ (s_poller s3) = freed_ (s_poller s2) /\ ops_ (s_poller s3) = ops_ (s_poller s2) /\
    active_eventers s3 = active_eventers s /\ s_env s3 = s_env s.
Proof using Handlers0 Ring0.
  intros Hk Hop Ht Hctx Hdel Hc Hc'.
  assert (exists r, CancelOp k (s_poller s) =
    with_ring r (with_ops (<[k := mark_canceled op]> (ops_ (s_poller s))) (s_poller s))) as [r Hr].
  { unfold CancelOp. rewrite (proj2 (Z.eqb_neq _ _)), Hop by done.
    destruct (io_uring_get_sqe _); by eexists. }
  exists (mark_canceled op).
  assert (exists s2, HandleCqe c (upd_poller (CancelOp k) s) = Ok s2 /\
    freed_ (s_poller s2) = freed_ (s_poller s) ++ [ctx] /\
    ops_ (s_poller s2) = delete k (ops_ (s_poller s)) /\
    states_ (s_poller s2) = states_ (s_poller s) /\
    active_eventers s2 = active_eventers s /\ s_env s2 = s_env s) as (s2 & H2 & Hf & Ho & Hs & Ha & He).
  { unfold HandleCqe. rewrite Hc, (proj2 (Z.eqb_neq _ _)) by done. simpl. rewrite Hr.
    unfold LookupOp. rewrite (proj2 (Z.eqb_neq _ _)) by done. simpl. rewrite lookup_insert_eq. simpl.
    unfold CleanupOpContext. simpl. rewrite Hctx, Hdel. simpl. unfold HandleByType. simpl.
    rewrite delete_insert_eq.
    destruct (type op); [done|..]; eexists; (split; [done|]); try done.
    simpl. destruct (Release_ring c (with_freed (freed_ (s_poller s) ++ [ctx])
      (with_ops (delete k (ops_ (s_poller s))) (with_ring r (with_ops (<[k := mark_canceled op]> (ops_ (s_poller s))) (s_poller s)))))) as [r' Hr'].
    simpl in Hr'. rewrite Hr'. done. }
  exists s2. destruct (Release_ring c' (s_poller s2)) as [r' Hr'].
  eexists. split; [rewrite Hr; simpl; by rewrite lookup_insert_eq|]. split; [done|].
  split; [by rewrite Hr|]. split; [done|].
  split.
  { unfold HandleCqe. rewrite Hc', (proj2 (Z.eqb_neq _ _)) by done.
    unfold LookupOp. rewrite (proj2 (Z.eqb_neq _ _)) by done. by rewrite Ho, lookup_delete_eq. }
  simpl. rewrite Hr'. done.
Qed.

End poll.

(** ** Ring size *)

Lemma GetIoUringEntries_range env :
  Setup.kMinEntries <= Setup.GetIoUringEntries env <= Setup.kDefaultEntries.
Proof.
  unfold Setup.GetIoUringEntries, Setup.kMinEntries, Setup.kDefaultEntries.
  destruct env as [[|c s]|]; try lia. destruct (Setup.strtoull (c :: s)); [cases_cmp|lia].
Qed.

(** With the fuel [init_fuel] the loop ends by itself: eight halvings take any
    size in range below the minimum. *)
Lemma init_loop_ends init : forall fuel entries ret,
  entries < Setup.kMinEntries * 2 ^ Z.of_nat fuel ->
  Setup.init_loop (S fuel) init entries ret = Setup.init_loop (S (S fuel)) init entries ret.
Proof.
  induction fuel as [|fuel IH]; intros entries ret He.
  - cbn [Setup.init_loop]. rewrite (proj2 (Z.leb_gt _ _)); [done|].
    change (2 ^ Z.of_nat 0) with 1 in He. lia.
  - assert (entries / 2 < Setup.kMinEntries * 2 ^ Z.of_nat fuel) as Hhalf.
    { apply Z.div_lt_upper_bound; [lia|].
      replace (Z.of_nat (S fuel)) with (Z.of_nat fuel + 1) in He by lia.
      rewrite Z.pow_add_r in He by lia. lia. }
    cbn [Setup.init_loop]. destruct (Setup.kMinEntries <=? entries); [|done].
    destruct ((init entries =? - ENOMEM) && _); [|done].
    specialize (IH (entries / 2) (init entries) Hhalf). cbn [Setup.init_loop] in IH.
    by rewrite IH.
Qed.

Lemma init_loop_fuel init entries ret k :
  entries <= Setup.kDefaultEntries ->
  Setup.init_loop (Setup.init_fuel + k) init entries ret =
  Setup.init_loop Setup.init_fuel init entries ret.
Proof.
  intros He. induction k as [|k IH]; [by rewrite Nat.add_0_r|].
  rewrite <-IH. unfold Setup.init_fuel. change (8 + S k)%nat with (S (S (7 + k))).
  change (8 + k)%nat with (S (7 + k)). symmetry. apply init_loop_ends.
  unfold Setup.kDefaultEntries, Setup.kMinEntries in *.
  assert (2 ^ 7 <= 2 ^ Z.of_nat (7 + k)) by (apply Z.pow_le_mono_r; lia). lia.
Qed.

(** The loop under a kernel that has memory for [limit] entries. *)
Definition memory_for (limit : Z) (entries : Z) : Z := if limit <? entries then - ENOMEM else 0.

Lemma halving_reaches_min limit :
  Setup.kMinEntries <= limit -> forall fuel k ret,
  (k < fuel)%nat ->
  (Setup.init_loop fuel (memory_for limit) (Setup.kMinEntries * 2 ^ Z.of_nat k) ret).1 = 0.
Proof.
  intros Hl. induction fuel as [|fuel IH]; intros k ret Hk; [lia|]. cbn [Setup.init_loop].
  assert (0 < 2 ^ Z.of_nat k) by (apply Z.pow_pos_nonneg; lia).
  rewrite (proj2 (Z.leb_le _ _)) by (unfold Setup.kMinEntries; lia).
  destruct (Z.leb_spec (Setup.kMinEntries * 2 ^ Z.of_nat k) limit) as [Hfit|Hlt].
  { assert (memory_for limit (Setup.kMinEntries * 2 ^ Z.of_nat k) = 0) as ->; [|done].
    unfold memory_for. by rewrite (proj2 (Z.ltb_ge _ _)) by lia. }
  assert (memory_for limit (Setup.kMinEntries * 2 ^ Z.of_nat k) = - ENOMEM) as ->.
  { unfold memory_for. by rewrite (proj2 (Z.ltb_lt _ _)) by lia. }
  unfold Setup.kMinEntries in *. rewrite (proj2 (Z.ltb_lt 1024 _)) by lia. simpl andb. cbv iota.
  destruct k as [|k]; [simpl in Hlt; lia|].
  replace (1024 * 2 ^ Z.of_nat (S k) / 2) with (1024 * 2 ^ Z.of_nat k).
  - specialize (IH k (- ENOMEM) ltac:(lia)).
    destruct (Setup.init_loop fuel (memory_for limit) _ _). exact IH.
  - replace (Z.of_nat (S k)) with (Z.of_nat k + 1) by lia. rewrite Z.pow_add_r by lia.
    apply Z.div_unique_exact; lia.
Qed.

(** Ring set-up. Whatever the environment says, between 1024 and 32768
    entries are asked for first. With the default size, a kernel that has
    memory for at least 1024 entries gets a ring: the size is halved until it
    fits. A size from the environment that is not 1024 times a power of two
    does not have that guarantee: with 1500 and memory for 1499 the process
    exits without trying 1024. *)
Theorem ring_setup env limit :
  Setup.kMinEntries <= limit ->
  1024 <= Setup.GetIoUringEntries env <= 32768 /\
  Setup.Poller_init None (fun _ => memory_for limit) = Ok true /\
  Setup.GetIoUringEntries (Some [49; 53; 48; 48]) = 1500 /\
  Setup.Poller_init (Some [49; 53; 48; 48]) (fun _ => memory_for 1499) = Fault ExitFailure.
Proof.
  intros Hl. split; [apply GetIoUringEntries_range|].
  split; [|split; reflexivity].
  unfold Setup.Poller_init.
  pose proof (halving_reaches_min limit Hl Setup.init_fuel 5 (- ENOMEM) ltac:(unfold Setup.init_fuel; lia)) as Hh.
  change (Setup.kMinEntries * 2 ^ Z.of_nat 5) with (Setup.GetIoUringEntries None) in Hh.
  destruct (Setup.init_loop _ _ _ _) as [ret tried]. simpl in Hh. by rewrite Hh.
Qed.

(** ** A ring and handlers to evaluate with *)

Module Concrete.

(** A submission queue of [cap] entries, emptied by [io_uring_submit]. *)
Definition queue_ring (cap : nat) : Ring (list sqe) := {|
  io_uring_get_sqe r := if (length r <? cap)%nat then Some r else None;
  io_uring_prep q r := r ++ [q];
  io_uring_submit r := (zlen r, []);
|}.

(** A ring that always has an entry. *)
Definition endless_ring : Ring (list sqe) := {|
  io_uring_get_sqe r := Some r;
  io_uring_prep q r := r ++ [q];
  io_uring_submit r := (zlen r, []);
|}.

Definition old_headers : BuildConfig :=
  {| recv_multishot_defined := false; accept_multishot_defined := false |}.

(** Completion functions that note the results they were given. *)
Definition noting (rg : Ring (list sqe)) : Handlers (list sqe) Z unit (list Z) := {|
  complete _ c op s := Ok (mkOp (type op) (eventer op) None (op_fd op) (completion op) (key op)
                             (context_deleter op),
                           mkSys (s_poller s) (s_eventers s) (active_eventers s)
                             (s_env s ++ [cqe_res c]));
  run_call _ _ s := Ok s;
|}.

Lemma noting_lawful rg :
  @LawfulHandlers (list sqe) Z unit (list Z) rg old_headers (noting rg) 0.
Proof.
  split; [done| |].
  - intros fn c op s op' s' Hc. simpl in Hc. simplify_eq. split; [done|]. split; [done|].
    exists 0. split; [done|]. constructor.
  - intros ev c s s' Hc. simpl in Hc. simplify_eq. exists 0. split; [done|]. constructor.
Qed.

#[local] Existing Instance endless_ring.
#[local] Existing Instance old_headers.
#[local] Existing Instance noting.
#[local] Existing Instance noting_lawful.

Definition ev5 : Eventer.Eventer := Eventer.EnableReadEvents (Eventer.Eventer_new 5).

Definition start_sys : Sys (list sqe) Z unit (list Z) := mkSys (Poller_new [] None (0, 0)) ∅ [] [].

(** Two reads in flight. *)
Definition busy_sys : Sys (list sqe) Z unit (list Z) :=
  upd_poller (fun p =>
    (SubmitRead 5 ev5 [16] (Some tt) (Some 102) 0 true
       (SubmitRead 5 ev5 [16] (Some tt) (Some 101) 0 true (AddEventer 5 ev5 p)).2).2) start_sys.

Lemma poll_batch_witness :
  exists n s', n = 2 /\ s_env s' = [7; 9] /\
    Poll 5 (fun _ => Got (mkCqe 2 7 0)) [Got (mkCqe 3 9 0)] 0 [] busy_sys = Ok (n, s').
Proof.
  destruct (poll_batch 0 5 (fun _ => Got (mkCqe 2 7 0)) [Got (mkCqe 3 9 0)] 0 [] busy_sys
              (mkCqe 2 7 0) eq_refl ltac:(vm_compute; discriminate)) as (n & Hn & _ & Heq).
  eexists 2, _. split; [reflexivity|].
  split; [|vm_compute; reflexivity]. vm_compute. reflexivity.
Defined.

Lemma interest_is_polled_witness :
  exists st op, states_ (s_poller busy_sys) !! 5 = Some st /\ mask st <> 0 /\
    ops_ (s_poller busy_sys) !! poll_key st = Some op /\ type op = kPoll /\ eventer op = Some 5.
Proof.
  assert (exists st, states_ (s_poller busy_sys) !! 5 = Some st /\ mask st <> 0) as (st & Hst & Hmask)
    by (eexists; split; [reflexivity|discriminate]).
  destruct (interest_is_polled 0 [] None (0, 0) ∅ [] [] 3 busy_sys) with (ev := 5) (st := st)
    as (op & Hop & Ht & He & _).
  - intros r. vm_compute. eauto.
  - apply (reached_calls 0 start_sys 0 3 start_sys); [apply reached_start|].
    apply (calls_more _ 2 _ (ApiRead 5 ev5 [16] tt 102)); [|exact I].
    apply (calls_more _ 1 _ (ApiRead 5 ev5 [16] tt 101)); [|exact I].
    apply (calls_more _ 0 _ (ApiAdd 5 ev5)); [|exact I]. apply calls_none.
  - vm_compute. discriminate.
  - exact Hst.
  - exact Hmask.
  - exists st, op. repeat split; assumption.
Defined.

Lemma cancelled_context_freed_once_witness :
  exists s2, HandleCqe (mkCqe 2 (-125) 0) (upd_poller (CancelOp 2) busy_sys) = Ok s2 /\
    freed_ (s_poller s2) = [101] /\ s_env s2 = [].
Proof.
  edestruct (cancelled_context_freed_once busy_sys 2
    (mkOp kRead (Some 5) (Some 101) 5 (Some tt) 2 true) 101 (mkCqe 2 (-125) 0) (mkCqe 2 0 0))
    as (op1 & s2 & s3 & _ & _ & _ & H2 & _ & Hf & _ & _ & _ & He & _);
    try discriminate; try reflexivity.
  exists s2. split; [exact H2|]. split; [exact Hf|exact He].
Defined.

End Concrete.

Lemma ring_setup_witness :
  Setup.Poller_init None (fun _ => memory_for 5000) = Ok true.
Proof.
  destruct (ring_setup None 5000 ltac:(vm_compute; discriminate)) as (_ & Hok & _). exact Hok.
Defined.
