(* ===== verification/Connecting.v ===== *)
(** * TCP connections

    Model of class [Connecting] (src/connecting.h, src/connecting.cc): one
    connection, the poller it submits to, and what it does to the outside. The
    poller is reached through the interface [PollerApi], whose promises are the
    class [PollerSpec]; [Poller] is the instance at the end of the file. User
    callbacks are arbitrary functions on the whole state, so they may call back
    into the connection. *)

From stdpp Require Import prelude gmap list.
From S2P Require Import Prelude.
From S2P Require Import IoBuffer.
From S2P Require Import Poller.
From S2P Require Import PollerFacts.

Definition ECONNRESET : Z := 104.
Definition ECONNABORTED : Z := 103.
Definition EPIPE : Z := 32.

(** ** Request contexts *)

(** [iov_base] is the offset of the first area in the input buffer. The field
    [key] of both contexts is written and never read; it is left out. *)
Record ReadContext := mkReadContext {
  rc_self : Z;
  rc_iov_base : Z;
  writable : Z;
  multishot : bool;
  buf_id : Z;
}.

Record WriteContext := mkWriteContext {
  wc_self : Z;
  wc_iov_base : Z;
  to_send : Z;
}.

Inductive IoContext := ReadCtx (c : ReadContext) | WriteCtx (c : WriteContext).

Definition ctx_self (c : IoContext) : Z :=
  match c with ReadCtx c => rc_self c | WriteCtx c => wc_self c end.

(** ** The poller as a connection sees it *)

(** Submissions answer the key of the request, 0 when it was not taken. The
    first two arguments are the identity of the connection's eventer and its
    descriptor. *)
Class PollerApi (P : Type) := {
  pa_BuffersRegistered : P -> bool;
  pa_GetBuffer : Z -> P -> option Z;
  pa_SubmitRead : Z -> Z -> list Z -> IoContext -> P -> Z * P;
  pa_SubmitReadMultishot : Z -> Z -> Z -> IoContext -> P -> Z * P;
  pa_SubmitWrite : Z -> Z -> list Z -> IoContext -> P -> Z * P;
  pa_CancelOp : Z -> P -> P;
}.

(** [in_flight p] are the requests whose completion function will run, by key;
    [p_ok n p]: the poller is in order and has [n] keys left. A submission is
    refused or stored under an unused key; a cancelled request completes no
    more. *)
Definition stored {P} (in_flight : P -> gmap Z IoContext) (c : IoContext) (p : P) (k : Z) (p' : P) :=
  k = 0 /\ in_flight p' = in_flight p \/
  k <> 0 /\ in_flight p !! k = None /\ in_flight p' = <[k := c]> (in_flight p).

Class PollerSpec (P : Type) `{!PollerApi P} := {
  in_flight : P -> gmap Z IoContext;
  p_ok : Z -> P -> Prop;
  p_ok_le : forall n m p, p_ok n p -> m <= n -> p_ok m p;
  read_spec : forall n self fd iov c p, 0 <= n -> p_ok (n + 1) p ->
    p_ok n (pa_SubmitRead self fd iov c p).2 /\
    stored in_flight c p (pa_SubmitRead self fd iov c p).1 (pa_SubmitRead self fd iov c p).2;
  read_multishot_spec : forall n self fd g c p, 0 <= n -> p_ok (n + 1) p ->
    p_ok n (pa_SubmitReadMultishot self fd g c p).2 /\
    stored in_flight c p (pa_SubmitReadMultishot self fd g c p).1
      (pa_SubmitReadMultishot self fd g c p).2;
  write_spec : forall n self fd iov c p, 0 <= n -> p_ok (n + 1) p ->
    p_ok n (pa_SubmitWrite self fd iov c p).2 /\
    stored in_flight c p (pa_SubmitWrite self fd iov c p).1 (pa_SubmitWrite self fd iov c p).2;
  cancel_spec : forall n k p, p_ok n p -> is_Some (in_flight p !! k) ->
    p_ok n (pa_CancelOp k p) /\ in_flight (pa_CancelOp k p) = delete k (in_flight p);
}.

(** ** The connection *)

Inductive ConnectionState := kDisconnected | kConnecting | kConnected | kDisconnecting.

#[export] Instance ConnectionState_eq_dec : EqDecision ConnectionState.
Proof. solve_decision. Defined.

Record Connecting := mkConnecting {
  self_ : Z;
  fd_ : Z;
  eventer_ : Eventer.Eventer;
  high_water_mark_ : Z;
  input_buffer_ : IoBuffer;
  output_buffer_ : IoBuffer;
  pending_output_buffer_ : IoBuffer;
  state_ : ConnectionState;
  read_in_flight_ : bool;
  write_in_flight_ : bool;
  read_cancel_key_ : Z;
  write_cancel_key_ : Z;
  pending_io_wait_ms_ : Z;
  pending_io_retries_ : Z;
}.

(** The state a connection acts on. [shut_wr] counts the calls of
    [socketer_.ShutdownWrite()], [closed_fds_] and [run_after] are what it
    asked of its event manager, [reported] are the error numbers it logged,
    [so_error] is what [getsockopt] answers. [accepted] is a history variable:
    the bytes [Send] took over. *)
Record World (P E : Type) := mkWorld {
  conn : Connecting;
  poller : P;
  shut_wr : nat;
  closed_fds_ : list Z;
  run_after : list Z;
  reported : list Z;
  so_error : Z;
  accepted : list Byte.byte;
  env : E;
}.
Arguments mkWorld {_ _}.
Arguments conn {_ _}.
Arguments poller {_ _}.
Arguments shut_wr {_ _}.
Arguments closed_fds_ {_ _}.
Arguments run_after {_ _}.
Arguments reported {_ _}.
Arguments so_error {_ _}.
Arguments accepted {_ _}.
Arguments env {_ _}.

Class ConnCallbacks (W : Type) := {
  OnConnectionCallback_ : option (W -> result W);
  OnMessageCallback_ : option (W -> result W);
  WriteCompleteCallback_ : option (W -> result W);
  HighWaterMarkCallback_ : option (Z -> W -> result W);
  CloseCallback_ : option (W -> result W);
}.

Section setters.

Definition set_state (v : ConnectionState) (c : Connecting) : Connecting :=
  mkConnecting (self_ c) (fd_ c) (eventer_ c) (high_water_mark_ c) (input_buffer_ c)
    (output_buffer_ c) (pending_output_buffer_ c) v (read_in_flight_ c) (write_in_flight_ c)
    (read_cancel_key_ c) (write_cancel_key_ c) (pending_io_wait_ms_ c) (pending_io_retries_ c).
Definition set_input (v : IoBuffer) (c : Connecting) : Connecting :=
  mkConnecting (self_ c) (fd_ c) (eventer_ c) (high_water_mark_ c) v
    (output_buffer_ c) (pending_output_buffer_ c) (state_ c) (read_in_flight_ c)
    (write_in_flight_ c) (read_cancel_key_ c) (write_cancel_key_ c) (pending_io_wait_ms_ c)
    (pending_io_retries_ c).
Definition set_outputs (o q : IoBuffer) (c : Connecting) : Connecting :=
  mkConnecting (self_ c) (fd_ c) (eventer_ c) (high_water_mark_ c) (input_buffer_ c)
    o q (state_ c) (read_in_flight_ c) (write_in_flight_ c) (read_cancel_key_ c)
    (write_cancel_key_ c) (pending_io_wait_ms_ c) (pending_io_retries_ c).
Definition set_reading (flag : bool) (k : Z) (c : Connecting) : Connecting :=
  mkConnecting (self_ c) (fd_ c) (eventer_ c) (high_water_mark_ c) (input_buffer_ c)
    (output_buffer_ c) (pending_output_buffer_ c) (state_ c) flag (write_in_flight_ c)
    k (write_cancel_key_ c) (pending_io_wait_ms_ c) (pending_io_retries_ c).
Definition set_writing (flag : bool) (k : Z) (c : Connecting) : Connecting :=
  mkConnecting (self_ c) (fd_ c) (eventer_ c) (high_water_mark_ c) (input_buffer_ c)
    (output_buffer_ c) (pending_output_buffer_ c) (state_ c) (read_in_flight_ c) flag
    (read_cancel_key_ c) k (pending_io_wait_ms_ c) (pending_io_retries_ c).

Context {P E : Type}.
Abbreviation W := (World P E).

Definition upd_conn (f : Connecting -> Connecting) (w : W) : W :=
  mkWorld (f (conn w)) (poller w) (shut_wr w) (closed_fds_ w) (run_after w) (reported w)
    (so_error w) (accepted w) (env w).
Definition set_poller (p : P) (w : W) : W :=
  mkWorld (conn w) p (shut_wr w) (closed_fds_ w) (run_after w) (reported w) (so_error w) (accepted w) (env w).
Definition ShutdownWrite (w : W) : W :=
  mkWorld (conn w) (poller w) (S (shut_wr w)) (closed_fds_ w) (run_after w) (reported w)
    (so_error w) (accepted w) (env w).
Definition DeleteConnection (fd : Z) (w : W) : W :=
  mkWorld (conn w) (poller w) (shut_wr w) (closed_fds_ w ++ [fd]) (run_after w) (reported w)
    (so_error w) (accepted w) (env w).
Definition RunAfter (delay : Z) (w : W) : W :=
  mkWorld (conn w) (poller w) (shut_wr w) (closed_fds_ w) (run_after w ++ [delay]) (reported w)
    (so_error w) (accepted w) (env w).
Definition accept (message : list Byte.byte) (w : W) : W :=
  mkWorld (conn w) (poller w) (shut_wr w) (closed_fds_ w) (run_after w) (reported w)
    (so_error w) (accepted w ++ message) (env w).
Definition report (err : Z) (w : W) : W :=
  mkWorld (conn w) (poller w) (shut_wr w) (closed_fds_ w) (run_after w) (reported w ++ [err])
    (so_error w) (accepted w) (env w).

End setters.

Definition Connecting_new (self socket_fd : Z) : Connecting :=
  mkConnecting self socket_fd
    (Eventer.mkEventer socket_fd 0 0 false true true true true) 0
    (IoBuffer_new kInitialCapacity) (IoBuffer_new kInitialCapacity) (IoBuffer_new kInitialCapacity)
    kConnecting false false 0 0 0 0.

Section connecting.
Context {P E : Type} `{!PollerApi P, !BuildConfig, !ConnCallbacks (World P E)}.
Abbreviation W := (World P E).

Definition IsConnected (c : Connecting) : bool := bool_decide (state_ c = kConnected).
Definition IsDisconnected (c : Connecting) : bool := bool_decide (state_ c = kDisconnected).
Definition HasPendingIo (c : Connecting) : bool := read_in_flight_ c || write_in_flight_ c.
Definition BumpPendingIoWait (delta_ms : Z) (c : Connecting) : Connecting :=
  mkConnecting (self_ c) (fd_ c) (eventer_ c) (high_water_mark_ c) (input_buffer_ c)
    (output_buffer_ c) (pending_output_buffer_ c) (state_ c) (read_in_flight_ c)
    (write_in_flight_ c) (read_cancel_key_ c) (write_cancel_key_ c)
    (s32 (pending_io_wait_ms_ c + delta_ms)) (s32 (pending_io_retries_ c + 1)).

(** An [if (callback) callback(...)]. *)
Definition call_if (cb : option (W -> result W)) (w : W) : result W :=
  match cb with Some f => f w | None => Ok w end.

(** The error number [DoWithError] logs; 0 logs a warning only. *)
Definition DoWithError (err : Z) (w : W) : W :=
  let saved_errno := if negb (err =? 0) then err else so_error w in
  if saved_errno =? 0 then w else report saved_errno w.

(** *** Submitting *)

Definition extra_buffer_size : Z := 64 * 1024.

Definition read_iov (writable : Z) : list Z :=
  if writable =? 0 then [extra_buffer_size]
  else if writable <? extra_buffer_size then [writable; extra_buffer_size] else [writable].

Definition SubmitReadOnce (w : W) : W :=
  let c := conn w in
  if read_in_flight_ c then w
  else
    let writable := GetWritableBytes (input_buffer_ c) in
    let iov := read_iov writable in
    let ctx multi := ReadCtx (mkReadContext (self_ c)
                       (GetWritablePosition (input_buffer_ c)) writable multi 0) in
    let '(k, p) :=
      if recv_multishot_defined && pa_BuffersRegistered (poller w) then
        pa_SubmitReadMultishot (self_ c) (fd_ c) kBufferGroupId (ctx true) (poller w)
      else pa_SubmitRead (self_ c) (fd_ c) iov (ctx false) (poller w) in
    let w := set_poller p w in
    if k =? 0 then upd_conn (set_reading false 0) w else upd_conn (set_reading true k) w.

Definition SubmitWriteOnce (w : W) : W :=
  let c := conn w in
  if write_in_flight_ c || (GetReadableBytes (output_buffer_ c) =? 0) then w
  else
    let n := GetReadableBytes (output_buffer_ c) in
    let ctx := WriteCtx (mkWriteContext (self_ c) (GetReadablePosition (output_buffer_ c)) n) in
    let '(k, p) := pa_SubmitWrite (self_ c) (fd_ c) [n] ctx (poller w) in
    let w := set_poller p w in
    if k =? 0 then upd_conn (set_writing false 0) w else upd_conn (set_writing true k) w.

Definition CancelPendingIo (w : W) : W :=
  let w := if read_in_flight_ (conn w) then
             let k := read_cancel_key_ (conn w) in
             let w := if negb (k =? 0) then set_poller (pa_CancelOp k (poller w)) w else w in
             upd_conn (set_reading false 0) w
           else w in
  if write_in_flight_ (conn w) then
    let k := write_cancel_key_ (conn w) in
    let w := if negb (k =? 0) then set_poller (pa_CancelOp k (poller w)) w else w in
    upd_conn (set_writing false 0) w
  else w.

Definition StartReading : W -> W := SubmitReadOnce.
Definition StopReading : W -> W := CancelPendingIo.
Definition StartWriting : W -> W := SubmitWriteOnce.
Definition StopWriting : W -> W := CancelPendingIo.
Definition StopReadingWriting : W -> W := CancelPendingIo.

Definition DoReading (w : W) : W := if negb (read_in_flight_ (conn w)) then SubmitReadOnce w else w.
Definition DoWriting (w : W) : W :=
  if negb (write_in_flight_ (conn w)) && (0 <? GetReadableBytes (output_buffer_ (conn w)))
  then SubmitWriteOnce w else w.

(** *** Closing *)

Definition DoClosing (w : W) : result W :=
  if bool_decide (state_ (conn w) <> kDisconnected) then
    let w := upd_conn (set_state kDisconnected) w in
    let w := StopReadingWriting w in
    let w := CancelPendingIo w in
    w ← call_if OnConnectionCallback_ w;
    w ← call_if CloseCallback_ w;
    Ok (DeleteConnection (fd_ (conn w)) w)
  else Ok w.

Definition ForceClose (w : W) : result W :=
  if bool_decide (state_ (conn w) <> kDisconnected) then
    DoClosing (upd_conn (set_state kDisconnecting) w)
  else Ok w.

Definition ForceCloseAfter (delay_microseconds : Z) (w : W) : W :=
  if bool_decide (state_ (conn w) <> kDisconnected) then RunAfter delay_microseconds w else w.

Definition ShutDownWrite (w : W) : W :=
  if bool_decide (state_ (conn w) = kConnected) then
    let w := upd_conn (set_state kDisconnecting) w in
    if negb (Eventer.HasWriteEvents (eventer_ (conn w))) then ShutdownWrite w else w
  else w.

(** Calling an empty [std::function] throws. *)
Definition OnEstablishing (w : W) : result W :=
  if bool_decide (state_ (conn w) = kConnecting) then
    let w := upd_conn (set_state kConnected) w in
    w ← match OnConnectionCallback_ with Some f => f w | None => Fault NullPointer end;
    Ok (SubmitReadOnce w)
  else Ok w.

(** *** Sending *)

Definition Send (message : list Byte.byte) (w : W) : result W :=
  let msg_len := zlen message in
  if bool_decide (state_ (conn w) = kDisconnected) then Ok w
  else if bool_decide (state_ (conn w) = kConnected) then
    let queued_len := (GetReadableBytes (output_buffer_ (conn w))
                       +u GetReadableBytes (pending_output_buffer_ (conn w))) in
    w ← match HighWaterMarkCallback_ with
        | Some f =>
            if (high_water_mark_ (conn w) <=? (queued_len +u msg_len))
               && (queued_len <? high_water_mark_ (conn w))
            then f (queued_len +u msg_len) w else Ok w
        | None => Ok w
        end;
    let c := conn w in
    if write_in_flight_ c then
      b ← Append message (pending_output_buffer_ c);
      Ok (accept message (upd_conn (set_outputs (output_buffer_ c) b) w))
    else
      b ← Append message (output_buffer_ c);
      Ok (SubmitWriteOnce
            (accept message (upd_conn (set_outputs b (pending_output_buffer_ c)) w)))
  else Ok w.

(** [Send] of an [IoBuffer]: the buffer comes out emptied. *)
Definition SendBuffer (io_buffer : IoBuffer) (w : W) : result (IoBuffer * W) :=
  message ← mem_read (buffer_ io_buffer) (GetReadablePosition io_buffer) (GetReadableBytes io_buffer);
  w ← Send message w;
  Ok (RefreshRW io_buffer, w).

(** *** Completions

    [data] are the bytes the kernel delivered with the completion: into the
    areas of [iov], or into the provided buffer for a multishot read. *)

(** [readv]: the first area lies in the input buffer. The kernel writes it at
    some time between the submission and the completion; here the bytes appear
    at the completion, in the buffer as it is then. The two are the same as long
    as the input buffer is left alone while a read is in flight, which is what
    [reads_into] (ConnectingFacts) says of the completed request: the area it
    names is the writable space of the buffer at its completion. The class
    itself touches its input buffer only in the completion. *)
Definition kernel_fill (ctx : ReadContext) (data : list Byte.byte) (b : IoBuffer) : result IoBuffer :=
  buf ← mem_write (buffer_ b) (rc_iov_base ctx) (ztake (writable ctx) data);
  Ok (mkIoBuffer buf (reading_index_ b) (writing_index_ b)).

Definition take_input (c : cqe) (data : list Byte.byte) (ctx : ReadContext) (has_buffer : bool)
    (id : Z) (w : W) : result W :=
  let b := input_buffer_ (conn w) in
  let res := cqe_res c in
  b ← (if multishot ctx && has_buffer then
         match pa_GetBuffer id (poller w) with
         | Some _ => Append (ztake res data) b
         | None => Ok b
         end
       else
         b ← kernel_fill ctx data b;
         if u64 res <=? writable ctx then Ok (RefreshW (u64 res) b)
         else Append (ztake (u64 res -u writable ctx) (zdrop (writable ctx) data))
                (RefreshW (writable ctx) b));
  Ok (upd_conn (set_input b) w).

(** The state afterwards, and whether [op->context] was deleted and cleared. *)
Definition OnReadComplete (c : cqe) (data : list Byte.byte) (ctx : ReadContext) (w : W)
  : result (bool * W) :=
  let res := cqe_res c in
  let err := if res <? 0 then - res else 0 in
  let more := has_bits (cqe_flags c) IORING_CQE_F_MORE in
  let has_buffer := has_bits (cqe_flags c) IORING_CQE_F_BUFFER in
  let id := if multishot ctx && has_buffer
            then u16 (Z.shiftr (cqe_flags c) IORING_CQE_BUFFER_SHIFT) else buf_id ctx in
  let done_reading w := upd_conn (set_reading false (read_cancel_key_ (conn w))) w in
  if multishot ctx && negb more && negb has_buffer then Ok (true, done_reading w)
  else
    let w := if negb more then done_reading w else w in
    w ← (if 0 <? res then
           w ← take_input c data ctx has_buffer id w;
           w ← call_if OnMessageCallback_ w;
           Ok (if negb more then SubmitReadOnce w else w)
         else if res =? 0 then DoClosing w
         else if Eventer.transient err then Ok (if negb more then SubmitReadOnce w else w)
         else if (err =? ECONNRESET) || (err =? ECONNABORTED) || (err =? EPIPE) then DoClosing w
         else Ok (DoWithError err w));
    Ok (negb more, w).

(** The result tells whether [op->context] was cleared: the branch that swaps
    the buffers returns before. *)
Definition OnWriteComplete (c : cqe) (ctx : WriteContext) (w : W) : result (bool * W) :=
  let w := upd_conn (set_writing false (write_cancel_key_ (conn w))) w in
  let res := cqe_res c in
  let err := if res <? 0 then - res else 0 in
  if 0 <? res then
    let w := upd_conn (set_outputs (Refresh (u64 res) (output_buffer_ (conn w)))
                         (pending_output_buffer_ (conn w))) w in
    if 0 <? GetReadableBytes (output_buffer_ (conn w)) then Ok (true, SubmitWriteOnce w)
    else if 0 <? GetReadableBytes (pending_output_buffer_ (conn w)) then
      let '(o, q) := Swap (output_buffer_ (conn w)) (pending_output_buffer_ (conn w)) in
      Ok (false, SubmitWriteOnce (upd_conn (set_outputs o q) w))
    else
      w ← call_if WriteCompleteCallback_ w;
      Ok (true,
        if bool_decide (state_ (conn w) = kDisconnecting)
           && (GetReadableBytes (output_buffer_ (conn w)) =? 0)
           && (GetReadableBytes (pending_output_buffer_ (conn w)) =? 0)
        then ShutdownWrite w else w)
  else if Eventer.transient err then Ok (true, SubmitWriteOnce w)
  else Ok (true, DoWithError err w).

End connecting.
