(* ===== verification/ConnectingFacts.v ===== *)
(** * What connections guarantee

    Theorems about [Connecting]: at most one read and one write request are in
    flight; the bytes handed to [Send] reach the socket once and in their order
    as long as writes are neither refused nor cancelled; what a read completion
    delivers is what the message callback sees; a connection closes once; and
    the calls that break these. The poller is any implementation of
    [PollerSpec]; [poller_spec] is the proof that [Poller] is one. *)

From stdpp Require Import prelude gmap list.
From S2P Require Import Prelude.
From S2P Require Import IoBuffer.
From S2P Require Import Poller.
From S2P Require Import PollerFacts.
From S2P Require Import Connecting.

(** ** [Poller] implements the interface *)

Inductive ConnFn := FnOnReadComplete | FnOnWriteComplete.

Section instance.
Context {R A F : Type} `{!Ring R, !BuildConfig}.

(** A poller is shared with other users, whose contexts and completion
    functions are of types [A] and [F]. *)
Abbreviation P := (Poller R (IoContext + A) (ConnFn + F)).

#[export] Instance poller_api : PollerApi P := {|
  pa_BuffersRegistered p := BuffersRegistered p;
  pa_GetBuffer id p := GetBuffer id p;
  pa_SubmitRead self fd iov c p :=
    SubmitRead self (Eventer.Eventer_new fd) iov (Some (inl FnOnReadComplete)) (Some (inl c)) 0 true p;
  pa_SubmitReadMultishot self fd g c p :=
    SubmitReadMultishot self (Eventer.Eventer_new fd) g (Some (inl FnOnReadComplete))
      (Some (inl c)) 0 true p;
  pa_SubmitWrite self fd iov c p :=
    SubmitWrite self (Eventer.Eventer_new fd) iov (Some (inl FnOnWriteComplete)) (Some (inl c)) 0 true p;
  pa_CancelOp k p := CancelOp k p;
|}.

(** The context of a request whose completion function is one of a
    connection's. *)
Definition conn_request (op : IoUringOp (IoContext + A) (ConnFn + F)) : option IoContext :=
  match completion op, context op with
  | Some (inl _), Some (inl c) => Some c
  | _, _ => None
  end.

Definition requests (p : P) : gmap Z IoContext := omap conn_request (ops_ p).

Definition has_keys (n : Z) (p : P) : Prop := wf p /\ next_key_ p + n <= 2 ^ 64 - 1.

Lemma submit_stored op_of q c n p :
  0 <= n -> has_keys (n + 1) p -> (forall k, key (op_of k) = k) ->
  (forall k, type (op_of k) <> kPoll) -> (forall k, conn_request (op_of k) = Some c) ->
  has_keys n (submit op_of q p).2 /\
  stored requests c p (submit op_of q p).1 (submit op_of q p).2.
Proof.
  intros Hn [Hwf Hroom] Hk Ht Hc.
  destruct (submit_ok op_of q p Hwf ltac:(lia) Hk Ht) as [Hw Hnext _ _ _ Hops].
  pose proof (wf_next _ Hwf). split; [split; [done|lia]|].
  destruct Hops as [[-> Ho]|[-> Ho]]; [left|right]; unfold requests; rewrite Ho; [done|].
  split; [lia|]. split.
  - rewrite lookup_omap, (wf_fresh_key p (next_key_ p)) by (done || lia). done.
  - by apply omap_insert_Some.
Qed.

#[export] Instance poller_spec : PollerSpec P.
Proof.
  refine {| in_flight := requests; p_ok := has_keys |}.
  - intros n m p [? ?] ?. split; [done|lia].
  - intros n self fd iov c p Hn Hp.
    by apply (submit_stored (fun k => mkOp kRead (Some self) (Some (inl c)) fd
                               (Some (inl FnOnReadComplete)) k true)).
  - intros n self fd g c p Hn Hp. simpl. unfold SubmitReadMultishot.
    destruct recv_multishot_defined.
    + by apply (submit_stored (fun k => mkOp kRead (Some self) (Some (inl c)) fd
                                 (Some (inl FnOnReadComplete)) k true)).
    + destruct Hp. split; [split; [done|simpl; lia]|]. by left.
  - intros n self fd iov c p Hn Hp.
    by apply (submit_stored (fun k => mkOp kWrite (Some self) (Some (inl c)) fd
                               (Some (inl FnOnWriteComplete)) k true)).
  - intros n k p [Hwf Hroom] [c Hc]. unfold requests in *. rewrite lookup_omap in Hc. simpl.
    destruct (ops_ p !! k) as [op|] eqn:Eop; [|done]. simpl in Hc.
    destruct (wf_ops _ Hwf _ _ Eop) as (_ & Hk & Hpoll).
    assert (type op <> kPoll) as Ht.
    { intros Ht. destruct (Hpoll Ht) as [Hcomp _]. unfold conn_request in Hc. by rewrite Hcomp in Hc. }
    destruct (kept_CancelOp k p Hwf) as [Hw Hnx _ _]; [intros ??; congruence|].
    split; [split; [done|lia]|]. unfold CancelOp. rewrite (proj2 (Z.eqb_neq _ _)), Eop by lia.
    destruct (io_uring_get_sqe _); simpl; by apply omap_insert_None.
Defined.

End instance.

(** ** One request per direction *)

Section facts.
Context {P E : Type} `{!PollerApi P, !PollerSpec P, !BuildConfig, !ConnCallbacks (World P E)}.
Abbreviation W := (World P E).
Implicit Types w : W.

Record io_inv (n : Z) (w : W) : Prop := {
  ii_ok : p_ok n (poller w);
  ii_read : read_in_flight_ (conn w) = true ->
    read_cancel_key_ (conn w) <> 0 /\
    exists ctx, in_flight (poller w) !! read_cancel_key_ (conn w) = Some (ReadCtx ctx) /\
      rc_self ctx = self_ (conn w);
  ii_write : write_in_flight_ (conn w) = true ->
    write_cancel_key_ (conn w) <> 0 /\
    exists ctx, in_flight (poller w) !! write_cancel_key_ (conn w) = Some (WriteCtx ctx) /\
      wc_self ctx = self_ (conn w);
  ii_only_read : forall k ctx, in_flight (poller w) !! k = Some (ReadCtx ctx) ->
    rc_self ctx = self_ (conn w) ->
    read_in_flight_ (conn w) = true /\ k = read_cancel_key_ (conn w);
  ii_only_write : forall k ctx, in_flight (poller w) !! k = Some (WriteCtx ctx) ->
    wc_self ctx = self_ (conn w) ->
    write_in_flight_ (conn w) = true /\ k = write_cancel_key_ (conn w);
}.

Lemma io_inv_le n m w : io_inv n w -> m <= n -> io_inv m w.
Proof. intros [? ? ? ? ?] ?. split; try done. by eapply p_ok_le. Qed.

(** Changes that leave the requests alone. *)
Definition same_io (w w' : W) : Prop :=
  poller w' = poller w /\ self_ (conn w') = self_ (conn w) /\
  read_in_flight_ (conn w') = read_in_flight_ (conn w) /\
  write_in_flight_ (conn w') = write_in_flight_ (conn w) /\
  read_cancel_key_ (conn w') = read_cancel_key_ (conn w) /\
  write_cancel_key_ (conn w') = write_cancel_key_ (conn w).

Lemma same_io_inv n w w' : same_io w w' -> io_inv n w -> io_inv n w'.
Proof.
  intros (Hp & Hs & Hr & Hw & Hk & Hk') [? ? ? ? ?].
  split; rewrite ?Hp, ?Hs, ?Hr, ?Hw, ?Hk, ?Hk'; done.
Qed.

Lemma SubmitReadOnce_inv n w : 0 <= n -> io_inv (n + 1) w -> io_inv n (SubmitReadOnce w).
Proof.
  intros Hn Hinv. unfold SubmitReadOnce.
  destruct (read_in_flight_ (conn w)) eqn:Efl; [apply (io_inv_le (n + 1)); [done|lia]|].
  destruct Hinv as [Hok _ Hw Hor How].
  assert (forall kp ctx, rc_self ctx = self_ (conn w) ->
    p_ok n kp.2 /\ stored in_flight (ReadCtx ctx) (poller w) kp.1 kp.2 ->
    io_inv n (let '(k, p) := kp in
      if k =? 0 then upd_conn (set_reading false 0) (set_poller p w)
      else upd_conn (set_reading true k) (set_poller p w))) as Hgo.
  { intros [k p] ctx Hself [Hp Hst]. simpl in *. destruct Hst as [[-> Hsame]|(Hk & Hfresh & Hins)].
    - simpl. split; simpl; rewrite ?Hsame; try done.
      intros k' ctx' Hl Hs. destruct (Hor k' ctx' Hl Hs). congruence.
    - rewrite (proj2 (Z.eqb_neq _ _)) by done. split; simpl; try done.
      + intros _. split; [done|]. rewrite Hins, lookup_insert_eq. by eexists.
      + intros Hwf. destruct (Hw Hwf) as (? & ctx' & Hl & ?). split; [done|]. exists ctx'.
        rewrite Hins, lookup_insert_ne by congruence. done.
      + intros k' ctx'. rewrite Hins. intros [[<- _]|[_ Hl]]%lookup_insert_Some Hs; [done|].
        destruct (Hor k' ctx' Hl Hs). congruence.
      + intros k' ctx'. rewrite Hins. intros [[_ ?]|[_ Hl]]%lookup_insert_Some Hs; [done|].
        by apply (How k' ctx'). }
  destruct (recv_multishot_defined && pa_BuffersRegistered (poller w)).
  - eapply Hgo; [|by apply read_multishot_spec]. done.
  - eapply Hgo; [|by apply read_spec]. done.
Qed.

Lemma SubmitWriteOnce_inv n w : 0 <= n -> io_inv (n + 1) w -> io_inv n (SubmitWriteOnce w).
Proof.
  intros Hn Hinv. unfold SubmitWriteOnce.
  destruct (write_in_flight_ (conn w)) eqn:Efl; [apply (io_inv_le (n + 1)); [done|lia]|].
  destruct (GetReadableBytes _ =? 0); [apply (io_inv_le (n + 1)); [done|lia]|]. simpl.
  destruct Hinv as [Hok Hr _ Hor How]. set (c := WriteCtx _).
  destruct (write_spec n (self_ (conn w)) (fd_ (conn w)) [GetReadableBytes (output_buffer_ (conn w))]
              c (poller w) Hn Hok) as [Hp Hst].
  destruct (pa_SubmitWrite _ _ _ _ _) as [k p]. simpl in *.
  destruct Hst as [[-> Hsame]|(Hk & Hfresh & Hins)].
  - simpl. split; simpl; rewrite ?Hsame; try done.
    intros k' ctx' Hl Hs. destruct (How k' ctx' Hl Hs). congruence.
  - rewrite (proj2 (Z.eqb_neq _ _)) by done. split; simpl; try done.
    + intros Hrf. destruct (Hr Hrf) as (? & ctx & Hl & ?). split; [done|]. exists ctx.
      rewrite Hins, lookup_insert_ne by congruence. done.
    + intros _. split; [done|]. rewrite Hins, lookup_insert_eq. by eexists.
    + intros k' ctx'. rewrite Hins. intros [[_ ?]|[_ Hl]]%lookup_insert_Some Hs; [done|].
      by apply (Hor k' ctx').
    + intros k' ctx'. rewrite Hins. intros [[<- _]|[_ Hl]]%lookup_insert_Some Hs; [done|].
      destruct (How k' ctx' Hl Hs). congruence.
Qed.

(** Neither direction has a request of this connection in flight. *)
Definition idle (w : W) : Prop :=
  read_in_flight_ (conn w) = false /\ write_in_flight_ (conn w) = false /\
  forall k x, in_flight (poller w) !! k = Some x -> ctx_self x <> self_ (conn w).

Lemma io_inv_idle n w :
  io_inv n w -> read_in_flight_ (conn w) = false -> write_in_flight_ (conn w) = false -> idle w.
Proof.
  intros [_ _ _ Hor How] Hr Hw. split; [done|]. split; [done|].
  intros k [ctx|ctx] Hl Hs; [destruct (Hor k ctx Hl Hs)|destruct (How k ctx Hl Hs)]; congruence.
Qed.

(** The two halves of [CancelPendingIo]. *)
Lemma cancel_read_inv n w :
  io_inv n w -> read_in_flight_ (conn w) = true ->
  io_inv n (upd_conn (set_reading false 0)
              (set_poller (pa_CancelOp (read_cancel_key_ (conn w)) (poller w)) w)).
Proof.
  intros [Hok Hr Hw Hor How] Hf. destruct (Hr Hf) as (Hk & ctx & Hl & Hs).
  destruct (cancel_spec n (read_cancel_key_ (conn w)) (poller w) Hok) as [Hok' Hdel]; [by eexists|].
  split; simpl; rewrite ?Hdel; try done.
  - intros Hwf. destruct (Hw Hwf) as (? & ctx' & Hl' & ?). split; [done|]. exists ctx'.
    rewrite lookup_delete_ne by congruence. done.
  - intros k' ctx' [Hne Hl']%lookup_delete_Some Hs'. destruct (Hor _ _ Hl' Hs'). congruence.
  - intros k' ctx' [_ Hl']%lookup_delete_Some. by apply How.
Qed.

Lemma cancel_write_inv n w :
  io_inv n w -> write_in_flight_ (conn w) = true ->
  io_inv n (upd_conn (set_writing false 0)
              (set_poller (pa_CancelOp (write_cancel_key_ (conn w)) (poller w)) w)).
Proof.
  intros [Hok Hr Hw Hor How] Hf. destruct (Hw Hf) as (Hk & ctx & Hl & Hs).
  destruct (cancel_spec n (write_cancel_key_ (conn w)) (poller w) Hok) as [Hok' Hdel]; [by eexists|].
  split; simpl; rewrite ?Hdel; try done.
  - intros Hrf. destruct (Hr Hrf) as (? & ctx' & Hl' & ?). split; [done|]. exists ctx'.
    rewrite lookup_delete_ne by congruence. done.
  - intros k' ctx' [_ Hl']%lookup_delete_Some. by apply Hor.
  - intros k' ctx' [Hne Hl']%lookup_delete_Some Hs'. destruct (How _ _ Hl' Hs'). congruence.
Qed.

Lemma CancelPendingIo_inv n w : io_inv n w -> io_inv n (CancelPendingIo w) /\ idle (CancelPendingIo w).
Proof.
  intros Hinv. unfold CancelPendingIo.
  set (w1 := if read_in_flight_ (conn w) then _ else w).
  assert (io_inv n w1 /\ read_in_flight_ (conn w1) = false) as [Hinv1 Hf1].
  { subst w1. destruct (read_in_flight_ (conn w)) eqn:Ef; [|done].
    destruct (ii_read _ _ Hinv Ef) as [Hk _]. rewrite (proj2 (Z.eqb_neq _ _)) by done.
    split; [by apply cancel_read_inv|done]. }
  clearbody w1. destruct (write_in_flight_ (conn w1)) eqn:Ef.
  - destruct (ii_write _ _ Hinv1 Ef) as [Hk _]. rewrite (proj2 (Z.eqb_neq _ _)) by done. cbn [negb].
    pose proof (cancel_write_inv _ _ Hinv1 Ef) as Hinv2.
    split; [done|]. by apply (io_inv_idle n).
  - split; [done|]. by apply (io_inv_idle n).
Qed.

(** ** Methods and completions *)

Inductive method :=
| MStartReading | MStopReading | MStartWriting | MStopWriting
| MDoReading | MDoWriting | MDoClosing | MForceClose
| MForceCloseAfter (delay : Z) | MShutDownWrite | MOnEstablishing
| MSend (message : list Byte.byte) | MSendBuffer (b : IoBuffer).

Definition run_method (m : method) (w : W) : result W :=
  match m with
  | MStartReading => Ok (StartReading w)
  | MStopReading => Ok (StopReading w)
  | MStartWriting => Ok (StartWriting w)
  | MStopWriting => Ok (StopWriting w)
  | MDoReading => Ok (DoReading w)
  | MDoWriting => Ok (DoWriting w)
  | MDoClosing => DoClosing w
  | MForceClose => ForceClose w
  | MForceCloseAfter d => Ok (ForceCloseAfter d w)
  | MShutDownWrite => Ok (ShutDownWrite w)
  | MOnEstablishing => OnEstablishing w
  | MSend bs => Send bs w
  | MSendBuffer b => '(_, w) ← SendBuffer b w; Ok w
  end.

Definition one_shot (c : cqe) : Prop := has_bits (cqe_flags c) IORING_CQE_F_MORE = false.

(** The completion of a request takes it out of the poller before the
    completion function runs. *)
Definition taken_out (k : Z) (w w' : W) : Prop :=
  conn w' = conn w /\ in_flight (poller w') = delete k (in_flight (poller w)) /\
  forall n, p_ok n (poller w) -> p_ok n (poller w').

(** The requests of one connection are not the only thing that depends on its
    steps. An invariant [I n] of the whole state, [n] keys being left, that the
    three operations on requests keep, one key each at most, and that changes
    beside them do not touch, is kept by every method. *)
Class RequestInv (I : Z -> W -> Prop) : Prop := {
  ri_le : forall n m w, I n w -> m <= n -> I m w;
  ri_same : forall n w w', same_io w w' -> env w' = env w -> I n w -> I n w';
  ri_read : forall n w, 0 <= n -> I (n + 1) w -> I n (SubmitReadOnce w);
  ri_write : forall n w, 0 <= n -> I (n + 1) w -> I n (SubmitWriteOnce w);
  ri_cancel : forall n w, I n w -> I n (CancelPendingIo w);
}.

#[export] Instance io_request_inv : RequestInv io_inv.
Proof.
  split.
  - apply io_inv_le.
  - intros n w w' Hs _. by apply same_io_inv.
  - apply SubmitReadOnce_inv.
  - apply SubmitWriteOnce_inv.
  - intros n w Hi. by apply CancelPendingIo_inv.
Qed.

(** A callback that uses at most [b] keys and keeps the invariant. *)
Definition keeps (I : Z -> W -> Prop) (b : Z) (f : W -> result W) : Prop :=
  forall n w w', 0 <= n -> I (n + b) w -> f w = Ok w' -> I n w'.

Class LawfulCallbacks (I : Z -> W -> Prop) (b : Z) : Prop := {
  cb_bound : 0 <= b;
  cb_connection : forall f, OnConnectionCallback_ = Some f -> keeps I b f;
  cb_message : forall f, OnMessageCallback_ = Some f -> keeps I b f;
  cb_write : forall f, WriteCompleteCallback_ = Some f -> keeps I b f;
  cb_high : forall f m, HighWaterMarkCallback_ = Some f -> keeps I b (f m);
  cb_close : forall f, CloseCallback_ = Some f -> keeps I b f;
}.

Section lawful.
Context (I : Z -> W -> Prop) `{!RequestInv I} (b : Z) `{!LawfulCallbacks I b}.

Lemma call_if_inv n cb w w' :
  (forall f, cb = Some f -> keeps I b f) ->
  0 <= n -> I (n + b) w -> call_if cb w = Ok w' -> I n w'.
Proof using All.
  intros Hcb Hn Hinv Hcall. destruct cb as [f|]; simpl in Hcall.
  - by eapply (Hcb f eq_refl).
  - simplify_eq. pose proof cb_bound. by apply (ri_le (n + b)); [|lia].
Qed.

Lemma upd_state_inv n st w : I n w -> I n (upd_conn (set_state st) w).
Proof using RequestInv0. by apply ri_same. Qed.

Lemma DoClosing_inv n w w' :
  0 <= n -> I (n + (2 * b + 1)) w -> DoClosing w = Ok w' -> I n w'.
Proof using All.
  intros Hn Hinv Hd. pose proof cb_bound. unfold DoClosing in Hd.
  destruct (bool_decide _); [|simplify_eq; by apply (ri_le (n + (2 * b + 1))); [|lia]].
  bind_ok.
  pose proof (ri_cancel _ _ (ri_cancel _ _ (upd_state_inv _ kDisconnected _ Hinv))) as H2.
  assert (I (n + b) a) as Ha.
  { apply (call_if_inv (n + b) _ _ _ cb_connection ltac:(lia)) in Hok; [done|].
    apply (ri_le (n + (2 * b + 1))); [done|lia]. }
  apply (call_if_inv n _ _ _ cb_close Hn Ha) in Hok1. by apply (ri_same _ a0).
Qed.

Lemma Send_inv n bs w w' :
  0 <= n -> I (n + (2 * b + 1)) w -> Send bs w = Ok w' -> I n w'.
Proof using All.
  intros Hn Hinv Hs. pose proof cb_bound. unfold Send in Hs.
  assert (I n w) by (apply (ri_le (n + (2 * b + 1))); [done|lia]).
  destruct (bool_decide _); [by simplify_eq|]. destruct (bool_decide _); [|by simplify_eq].
  bind_ok. assert (I (n + 1) a) as Ha.
  { destruct HighWaterMarkCallback_ as [f|] eqn:Ef.
    - destruct (_ && _).
      + apply (cb_high f _ Ef (n + 1)) in Hok; [done|lia|].
        apply (ri_le (n + (2 * b + 1))); [done|lia].
      + simplify_eq. apply (ri_le (n + (2 * b + 1))); [done|lia].
    - simplify_eq. apply (ri_le (n + (2 * b + 1))); [done|lia]. }
  destruct (write_in_flight_ (conn a)); bind_ok.
  - apply (ri_le (n + 1)); [|lia]. by apply (ri_same _ a).
  - apply ri_write; [done|]. by apply (ri_same _ a).
Qed.

Lemma run_method_inv n m w w' :
  0 <= n -> I (n + (2 * b + 1)) w -> run_method m w = Ok w' -> I n w'.
Proof using All.
  intros Hn Hinv Hrun. pose proof cb_bound.
  assert (I (n + 1) w) as Hone by (apply (ri_le (n + (2 * b + 1))); [done|lia]).
  assert (I n w) as Hz by (apply (ri_le (n + 1)); [done|lia]).
  destruct m; simpl in Hrun.
  - simplify_eq. by apply ri_read.
  - simplify_eq. by apply ri_cancel.
  - simplify_eq. by apply ri_write.
  - simplify_eq. by apply ri_cancel.
  - simplify_eq. unfold DoReading. destruct (negb _); [by apply ri_read|done].
  - simplify_eq. unfold DoWriting. destruct (_ && _); [by apply ri_write|done].
  - by eapply DoClosing_inv.
  - unfold ForceClose in Hrun. destruct (bool_decide _); [|by simplify_eq].
    eapply DoClosing_inv; [done| |done]. by apply upd_state_inv.
  - simplify_eq. unfold ForceCloseAfter. destruct (bool_decide _); [by apply (ri_same _ w)|done].
  - simplify_eq. unfold ShutDownWrite. destruct (bool_decide _); [|done].
    destruct (negb _); by apply (ri_same _ w).
  - unfold OnEstablishing in Hrun. destruct (bool_decide _); [|by simplify_eq].
    bind_ok. apply ri_read; [done|].
    destruct OnConnectionCallback_ as [f|] eqn:Ef; [|done].
    eapply (cb_connection f Ef (n + 1)); [lia| |done].
    apply upd_state_inv, (ri_le (n + (2 * b + 1))); [done|lia].
  - by eapply Send_inv.
  - unfold SendBuffer in Hrun. bind_ok. by eapply Send_inv.
Qed.

Lemma DoWithError_inv n err w : I n w -> I n (DoWithError err w).
Proof using RequestInv0. intros ?. unfold DoWithError. destruct (_ =? 0); [done|]. by apply (ri_same _ w). Qed.

(** The completion functions, from the state in which the flag is cleared. *)
Lemma OnReadComplete_inv n c data ctx w flag w' :
  0 <= n -> I (n + (2 * b + 1)) (upd_conn (set_reading false (read_cancel_key_ (conn w))) w) ->
  one_shot c -> OnReadComplete c data ctx w = Ok (flag, w') -> I n w'.
Proof using All.
  intros Hn H1 Hone Hrun. pose proof cb_bound. unfold OnReadComplete in Hrun.
  unfold one_shot in Hone. rewrite Hone in Hrun. cbn [negb] in Hrun.
  set (w1 := upd_conn _ w) in *. clearbody w1.
  assert (I (n + 1) w1) as H1' by (apply (ri_le (n + (2 * b + 1))); [done|lia]).
  destruct (_ && true && _); [simplify_eq; by apply (ri_le (n + 1)); [|lia]|].
  bind_ok. destruct (0 <? cqe_res c).
  - bind_ok. apply ri_read; [done|].
    apply (call_if_inv (n + 1) _ _ _ cb_message ltac:(lia)) in Hok; [done|].
    unfold take_input in Hok0. bind_ok. apply (ri_same _ w1); [done|done|].
    apply (ri_le (n + (2 * b + 1))); [done|lia].
  - destruct (_ =? 0); [by eapply DoClosing_inv|].
    destruct (Eventer.transient _); [simplify_eq; by apply ri_read|].
    destruct (_ || _); [by eapply DoClosing_inv|]. simplify_eq.
    apply DoWithError_inv, (ri_le (n + 1)); [done|lia].
Qed.

Lemma OnWriteComplete_inv n c ctx w flag w' :
  0 <= n -> I (n + (2 * b + 1)) (upd_conn (set_writing false (write_cancel_key_ (conn w))) w) ->
  OnWriteComplete c ctx w = Ok (flag, w') -> I n w'.
Proof using All.
  intros Hn H1 Hrun. pose proof cb_bound. unfold OnWriteComplete in Hrun.
  set (w1 := upd_conn (set_writing _ _) w) in *. clearbody w1.
  assert (I (n + 1) w1) as H1' by (apply (ri_le (n + (2 * b + 1))); [done|lia]).
  destruct (0 <? cqe_res c).
  - destruct (0 <? _); [simplify_eq; by apply ri_write, (ri_same _ w1)|].
    destruct (0 <? _); [unfold Swap in Hrun; simplify_eq; by apply ri_write, (ri_same _ w1)|].
    bind_ok. assert (I n a) as Ha.
    { apply (call_if_inv n _ _ _ cb_write Hn) in Hok; [done|]. apply (ri_same _ w1); [done|done|].
      apply (ri_le (n + (2 * b + 1))); [done|lia]. }
    destruct (_ && _); [by apply (ri_same _ a)|done].
  - destruct (Eventer.transient _); simplify_eq; [by apply ri_write|].
    apply DoWithError_inv, (ri_le (n + 1)); [done|lia].
Qed.
End lawful.

(** Taking the request of a completion out of the poller and clearing its flag. *)
Lemma read_taken_inv n w w' :
  io_inv n w -> taken_out (read_cancel_key_ (conn w)) w w' -> read_in_flight_ (conn w) = true ->
  io_inv n (upd_conn (set_reading false (read_cancel_key_ (conn w'))) w').
Proof.
  intros [Hok Hr Hw Hor How] (Hc & Hd & Hp) Hf. destruct (Hr Hf) as (Hk & ctx & Hl & _).
  split; simpl; rewrite ?Hc, ?Hd; try done; [by apply Hp|..].
  - intros Hwf. destruct (Hw Hwf) as (? & ctx' & ? & ?). split; [done|]. exists ctx'.
    rewrite lookup_delete_ne by congruence. done.
  - intros k' ctx' [Hne Hl']%lookup_delete_Some Hs'. destruct (Hor _ _ Hl' Hs'). congruence.
  - intros k' ctx' [_ Hl']%lookup_delete_Some. by apply How.
Qed.

Lemma write_taken_inv n w w' :
  io_inv n w -> taken_out (write_cancel_key_ (conn w)) w w' -> write_in_flight_ (conn w) = true ->
  io_inv n (upd_conn (set_writing false (write_cancel_key_ (conn w'))) w').
Proof.
  intros [Hok Hr Hw Hor How] (Hc & Hd & Hp) Hf. destruct (Hw Hf) as (Hk & ctx & Hl & _).
  split; simpl; rewrite ?Hc, ?Hd; try done; [by apply Hp|..].
  - intros Hwf. destruct (Hr Hwf) as (? & ctx' & ? & ?). split; [done|]. exists ctx'.
    rewrite lookup_delete_ne by congruence. done.
  - intros k' ctx' [_ Hl']%lookup_delete_Some. by apply Hor.
  - intros k' ctx' [Hne Hl']%lookup_delete_Some Hs'. destruct (How _ _ Hl' Hs'). congruence.
Qed.

Section runs.
Context (b : Z) `{!LawfulCallbacks io_inv b}.

(** Other users of the poller come and go between the steps of a connection;
    they use [m] keys and leave its requests alone. *)
Definition others (m : Z) (w w' : W) : Prop :=
  conn w' = conn w /\ 0 <= m /\
  (forall n, 0 <= n -> p_ok (n + m) (poller w) -> p_ok n (poller w')) /\
  forall k x, ctx_self x = self_ (conn w) ->
    in_flight (poller w') !! k = Some x <-> in_flight (poller w) !! k = Some x.

(** Runs of a connection: its public methods, the completions of its one-shot
    requests, and other users. The number bounds the keys used. *)
Inductive conn_run (w0 : W) : Z -> W -> Prop :=
| run_start : conn_run w0 0 w0
| run_call n w m w' : conn_run w0 n w -> run_method m w = Ok w' -> conn_run w0 (n + (2 * b + 1)) w'
| run_read n w w1 c data ctx flag w' :
    conn_run w0 n w -> read_in_flight_ (conn w) = true ->
    in_flight (poller w) !! read_cancel_key_ (conn w) = Some (ReadCtx ctx) ->
    taken_out (read_cancel_key_ (conn w)) w w1 -> one_shot c ->
    OnReadComplete c data ctx w1 = Ok (flag, w') -> conn_run w0 (n + (2 * b + 1)) w'
| run_write n w w1 c ctx flag w' :
    conn_run w0 n w -> write_in_flight_ (conn w) = true ->
    in_flight (poller w) !! write_cancel_key_ (conn w) = Some (WriteCtx ctx) ->
    taken_out (write_cancel_key_ (conn w)) w w1 ->
    OnWriteComplete c ctx w1 = Ok (flag, w') -> conn_run w0 (n + (2 * b + 1)) w'
| run_others n w m w' : conn_run w0 n w -> others m w w' -> conn_run w0 (n + m) w'.

Lemma others_inv n m w w' : 0 <= n -> others m w w' -> io_inv (n + m) w -> io_inv n w'.
Proof.
  intros Hn (Hc & _ & Hok & Hio) [Hp Hr Hw Hor How].
  split; rewrite ?Hc; [by apply Hok|..].
  - intros Hf. destruct (Hr Hf) as (? & ctx & Hl & ?). split; [done|]. exists ctx.
    by rewrite (Hio _ (ReadCtx ctx)).
  - intros Hf. destruct (Hw Hf) as (? & ctx & Hl & ?). split; [done|]. exists ctx.
    by rewrite (Hio _ (WriteCtx ctx)).
  - intros k ctx Hl Hs. apply (Hor k ctx); [|done]. by rewrite <-(Hio _ (ReadCtx ctx)).
  - intros k ctx Hl Hs. apply (How k ctx); [|done]. by rewrite <-(Hio _ (WriteCtx ctx)).
Qed.

(** C13. As long as the keys of requests last, through all its methods, the
    completions of its one-shot requests (without [IORING_CQE_F_MORE]), user
    callbacks and the doings of other users of the poller, a connection has at most one read and
    at most one write request in flight: exactly those whose flags are set,
    under the keys it would cancel. *)
Theorem one_request_per_direction w0 n N w :
  0 <= n -> io_inv (n + N) w0 -> conn_run w0 N w -> io_inv n w.
Proof.
  intros Hn Hinv Hrun. pose proof cb_bound as Hb. revert n Hn Hinv.
  induction Hrun as [|N w m w' _ IH Hm|N w w1 c data ctx flag w' _ IH Hf Hl Ht Ho Hc
                    |N w w1 c ctx flag w' _ IH Hf Hl Ht Hc|N w m w' _ IH Ho]; intros n Hn Hinv.
  - by rewrite Z.add_0_r in Hinv.
  - eapply (run_method_inv io_inv b); [done| |done]. apply IH; [lia|]. by rewrite <-Z.add_assoc, (Z.add_comm _ N).
  - eapply (OnReadComplete_inv io_inv b n c data ctx w1); try done. eapply read_taken_inv; [|done|done].
    apply IH; [lia|]. by rewrite <-Z.add_assoc, (Z.add_comm _ N).
  - eapply (OnWriteComplete_inv io_inv b n c ctx w1); try done. eapply write_taken_inv; [|done|done].
    apply IH; [lia|]. by rewrite <-Z.add_assoc, (Z.add_comm _ N).
  - eapply others_inv; [done|done|]. destruct Ho as (_ & ? & _).
    apply IH; [lia|]. by rewrite <-Z.add_assoc, (Z.add_comm _ N).
Qed.

(** C31. Closing. [ForceClose] and [DoClosing] on an open connection end in the
    disconnected state with nothing in flight at the moment the user is told,
    tell the user and ask the event manager for the deletion; on a closed
    connection both do nothing, and neither does [Send]. *)
Theorem closing_once n w :
  io_inv n w ->
  (state_ (conn w) = kDisconnected ->
   DoClosing w = Ok w /\ ForceClose w = Ok w /\ forall bs, Send bs w = Ok w) /\
  (state_ (conn w) <> kDisconnected ->
   exists w1, state_ (conn w1) = kDisconnected /\ idle w1 /\ io_inv n w1 /\
     fd_ (conn w1) = fd_ (conn w) /\ closed_fds_ w1 = closed_fds_ w /\
     (DoClosing w = (w2 ← call_if OnConnectionCallback_ w1;
                     w3 ← call_if CloseCallback_ w2;
                     Ok (DeleteConnection (fd_ (conn w3)) w3)) /\
      ForceClose w = DoClosing w)).
Proof using PollerSpec0.
  intros Hinv. split.
  - intros Hd. unfold DoClosing, ForceClose, Send. rewrite Hd. by rewrite !bool_decide_eq_false_2 by naive_solver.
  - intros Hd. exists (CancelPendingIo (CancelPendingIo (upd_conn (set_state kDisconnected) w))).
    destruct (CancelPendingIo_inv _ _ (same_io_inv _ w (upd_conn (set_state kDisconnected) w) ltac:(done) Hinv))
      as [H1 [Hr1 [Hw1 _]]].
    destruct (CancelPendingIo_inv _ _ H1) as [H2 Hidle].
    assert (forall w, state_ (conn (CancelPendingIo w)) = state_ (conn w) /\
              fd_ (conn (CancelPendingIo w)) = fd_ (conn w) /\
              closed_fds_ (CancelPendingIo w) = closed_fds_ w) as Hsame.
    { intros v. unfold CancelPendingIo. repeat case_match; done. }
    split; [by rewrite (proj1 (Hsame _)), (proj1 (Hsame _))|]. split; [done|]. split; [done|].
    split; [by rewrite (proj1 (proj2 (Hsame _))), (proj1 (proj2 (Hsame _)))|].
    split; [by rewrite (proj2 (proj2 (Hsame _))), (proj2 (proj2 (Hsame _)))|].
    unfold ForceClose, DoClosing, StopReadingWriting. rewrite !bool_decide_eq_true_2 by (done || naive_solver).
    done.
Qed.

End runs.

(** ** The output stream *)

(** Bytes accepted and not yet written. *)
Definition backlog (w : W) : list Byte.byte :=
  readable (output_buffer_ (conn w)) ++ readable (pending_output_buffer_ (conn w)).

(** The request in flight covers the whole output buffer, and bytes wait in the
    second buffer only behind it. *)
Record out_inv (n : Z) (w : W) : Prop := {
  oi_io : io_inv n w;
  oi_out : IoBuffer.wf (output_buffer_ (conn w));
  oi_pending : IoBuffer.wf (pending_output_buffer_ (conn w));
  oi_behind : readable (pending_output_buffer_ (conn w)) <> [] -> write_in_flight_ (conn w) = true;
  oi_flight : write_in_flight_ (conn w) = true ->
    readable (output_buffer_ (conn w)) <> [] /\
    exists ctx, in_flight (poller w) !! write_cancel_key_ (conn w) = Some (WriteCtx ctx) /\
      wc_iov_base ctx = reading_index_ (output_buffer_ (conn w)) /\
      to_send ctx = zlen (readable (output_buffer_ (conn w)));
}.

(** What is accepted on the way is appended to what is left to write. *)
Definition grows (n : Z) (w w' : W) : Prop :=
  out_inv n w' /\
  exists bs, accepted w' = accepted w ++ bs /\ backlog w' = backlog w ++ bs.

Definition keeps_out (b : Z) (f : W -> result W) : Prop :=
  forall n w w', 0 <= n -> out_inv (n + b) w -> f w = Ok w' -> grows n w w'.

Class StreamCallbacks (b : Z) : Prop := {
  sc_bound : 0 <= b;
  sc_connection : forall f, OnConnectionCallback_ = Some f -> keeps_out b f;
  sc_message : forall f, OnMessageCallback_ = Some f -> keeps_out b f;
  sc_write : forall f, WriteCompleteCallback_ = Some f -> keeps_out b f;
  sc_high : forall f m, HighWaterMarkCallback_ = Some f -> keeps_out b (f m);
}.

(** The submission queue has room for every write. *)
Definition writes_taken : Prop :=
  forall self fd iov c (p : P), (pa_SubmitWrite self fd iov c p).1 <> 0.

Lemma grows_here n w : out_inv n w -> grows n w w.
Proof. intros ?. split; [done|]. exists []. by rewrite !app_nil_r. Qed.

Lemma grows_trans n m w1 w2 w3 : grows n w1 w2 -> grows m w2 w3 -> grows m w1 w3.
Proof.
  intros [_ (bs & Ha & Hb)] [Hi (cs & Ha' & Hb')]. split; [done|].
  exists (bs ++ cs). by rewrite Ha', Ha, Hb', Hb, !app_assoc.
Qed.

Lemma out_inv_le n m w : out_inv n w -> m <= n -> out_inv m w.
Proof. intros [? ? ? ? ?] ?. split; try done. by eapply io_inv_le. Qed.

(** Changes elsewhere. *)
Definition same_out (w w' : W) : Prop :=
  output_buffer_ (conn w') = output_buffer_ (conn w) /\
  pending_output_buffer_ (conn w') = pending_output_buffer_ (conn w) /\
  accepted w' = accepted w.

Lemma same_out_inv n w w' : same_io w w' -> same_out w w' -> out_inv n w -> grows n w w'.
Proof.
  intros Hio (Ho & Hq & Ha) [Hinv ? ? ? ?].
  pose proof (same_io_inv n w w' Hio Hinv). destruct Hio as (Hp & Hs & Hr & Hw & Hk & Hk').
  split; [split; rewrite ?Ho, ?Hq, ?Hp, ?Hk', ?Hw; done|].
  exists []. unfold backlog. by rewrite Ha, Ho, Hq, !app_nil_r.
Qed.

(** A write is submitted when there is something to write. *)
Lemma SubmitWriteOnce_grows n w :
  writes_taken -> 0 <= n -> io_inv (n + 1) w ->
  IoBuffer.wf (output_buffer_ (conn w)) -> IoBuffer.wf (pending_output_buffer_ (conn w)) ->
  write_in_flight_ (conn w) = false ->
  (readable (output_buffer_ (conn w)) = [] -> readable (pending_output_buffer_ (conn w)) = []) ->
  grows n w (SubmitWriteOnce w).
Proof.
  intros Htake Hn Hinv Ho Hq Hf Hsome.
  pose proof (SubmitWriteOnce_inv n w Hn Hinv) as Hinv'. unfold SubmitWriteOnce in *.
  rewrite Hf in *. simpl in *. rewrite (readable_bytes_zlen _ Ho) in *.
  destruct (Z.eqb_spec (zlen (readable (output_buffer_ (conn w)))) 0) as [E0|E0].
  - apply grows_here. assert (readable (output_buffer_ (conn w)) = []) as Hnil
      by (apply zlen_nonpos; lia).
    split; try done; [|congruence]. rewrite (Hsome Hnil). done.
  - set (c := WriteCtx _) in *.
    destruct (write_spec n (self_ (conn w)) (fd_ (conn w)) [zlen (readable (output_buffer_ (conn w)))]
                c (poller w) Hn (ii_ok _ _ Hinv)) as [_ Hst].
    specialize (Htake (self_ (conn w)) (fd_ (conn w)) [zlen (readable (output_buffer_ (conn w)))]
                  c (poller w)).
    destruct (pa_SubmitWrite _ _ _ _ _) as [k p]. simpl in *.
    rewrite (proj2 (Z.eqb_neq _ _)) in * by done.
    destruct Hst as [[? _]|(_ & _ & Hins)]; [done|].
    split; [|exists []; unfold backlog; by rewrite !app_nil_r].
    split; simpl; try done. intros _. split.
    + intros Hnil. rewrite Hnil in E0. done.
    + exists (mkWriteContext (self_ (conn w)) (GetReadablePosition (output_buffer_ (conn w)))
                (zlen (readable (output_buffer_ (conn w))))).
      rewrite Hins, lookup_insert_eq. done.
Qed.

Section stream.
Context (b : Z) `{!StreamCallbacks b} (Htake : writes_taken).

Lemma call_if_grows n cb w w' :
  (forall f, cb = Some f -> keeps_out b f) ->
  0 <= n -> out_inv (n + b) w -> call_if cb w = Ok w' -> grows n w w'.
Proof.
  intros Hcb Hn Hinv Hcall. destruct cb as [f|]; simpl in Hcall.
  - by eapply (Hcb f eq_refl).
  - simplify_eq. pose proof sc_bound. apply grows_here, (out_inv_le (n + b)); [done|lia].
Qed.

Lemma Send_grows n bs w w' :
  0 <= n -> zlen bs <= vector_max_size -> out_inv (n + (b + 1)) w -> Send bs w = Ok w' -> grows n w w'.
Proof using Htake StreamCallbacks0.
  intros Hn Hlen Hinv Hs. pose proof sc_bound. unfold Send in Hs.
  assert (grows n w w) by (apply grows_here, (out_inv_le (n + (b + 1))); [done|lia]).
  destruct (bool_decide _); [by simplify_eq|]. destruct (bool_decide _); [|by simplify_eq].
  bind_ok. assert (grows (n + 1) w a) as Ha.
  { assert (grows (n + 1) w w) by (apply grows_here, (out_inv_le (n + (b + 1))); [done|lia]).
    destruct HighWaterMarkCallback_ as [f|] eqn:Ef; [|by simplify_eq].
    destruct (_ && _); [|by simplify_eq].
    apply (sc_high f _ Ef (n + 1)) in Hok; [done|lia|].
    by replace (n + 1 + b) with (n + (b + 1)) by lia. }
  apply (grows_trans (n + 1) _ _ a); [done|]. destruct Ha as [[Hio Ho Hq Hb Hfl] _].
  destruct (write_in_flight_ (conn a)) eqn:Ef; bind_ok.
  - apply Append_inv in Hok1 as (_ & Hq' & Hr' & _); [|done|done].
    split; [|exists bs; unfold backlog; simpl; by rewrite Hr', app_assoc].
    split; simpl; try done; [|by intros _; apply Hfl]. apply (io_inv_le (n + 1)); [|lia].
    by apply (same_io_inv _ a).
  - apply Append_inv in Hok1 as (_ & Ho' & Hr' & _); [|done|done].
    assert (readable (pending_output_buffer_ (conn a)) = []) as Hnil.
    { destruct (readable (pending_output_buffer_ (conn a))); [done|]. by discriminate Hb. }
    match goal with |- grows n a (SubmitWriteOnce ?v) => set (w1 := v) end.
    destruct (SubmitWriteOnce_grows n w1 Htake Hn) as [Hi (cs & Hacc & Hbk)]; try done.
    { by apply (same_io_inv _ a). }
    split; [done|]. exists (bs ++ cs). rewrite Hacc, Hbk. subst w1. unfold backlog. simpl.
    rewrite Hr', Hnil, !app_nil_r, !app_assoc. done.
Qed.

Lemma Swap_eq x y : Swap x y = (y, x).
Proof. by destruct x, y. Qed.

(** The next write after a completion: whatever is left of the output buffer,
    else the second buffer. *)
Lemma OnWriteComplete_grows n c ctx w0 w flag w' :
  0 <= n -> out_inv (n + (b + 1)) w0 ->
  taken_out (write_cancel_key_ (conn w0)) w0 w -> write_in_flight_ (conn w0) = true ->
  0 < cqe_res c <= zlen (readable (output_buffer_ (conn w0))) ->
  OnWriteComplete c ctx w = Ok (flag, w') ->
  out_inv n w' /\ exists bs, accepted w' = accepted w ++ bs /\
    backlog w' = zdrop (cqe_res c) (backlog w0) ++ bs.
Proof using Htake StreamCallbacks0.
  intros Hn [Hio Ho Hq Hb Hfl] Hout Hf Hres Hrun. pose proof sc_bound.
  pose proof (write_taken_inv _ _ _ Hio Hout Hf) as H1. destruct Hout as (Hc & _ & _).
  unfold OnWriteComplete in Hrun. rewrite (proj2 (Z.ltb_lt _ _)) in Hrun by lia.
  assert (u64 (cqe_res c) = cqe_res c) as Hu.
  { apply u64_small. rewrite zlen_readable in Hres by done. destruct Ho.
    unfold vector_max_size in *. lia. }
  rewrite Hu in Hrun.
  destruct (Refresh_spec (output_buffer_ (conn w0)) (cqe_res c) Ho ltac:(lia)) as (Ho' & Hr' & _).
  set (w1 := upd_conn (set_outputs _ _) _) in *.
  assert (io_inv (n + (b + 1)) w1) as Hi1
    by by apply (same_io_inv _ (upd_conn (set_writing false (write_cancel_key_ (conn w))) w)).
  assert (output_buffer_ (conn w1) = Refresh (cqe_res c) (output_buffer_ (conn w0))) as Ho1
    by (subst w1; simpl; by rewrite Hc).
  assert (pending_output_buffer_ (conn w1) = pending_output_buffer_ (conn w0)) as Hq1
    by (subst w1; simpl; by rewrite Hc).
  assert (write_in_flight_ (conn w1) = false) as Hf1 by done.
  assert (accepted w1 = accepted w) as Ha1 by done.
  assert (backlog w1 = zdrop (cqe_res c) (backlog w0)) as Hb1.
  { unfold backlog. rewrite Ho1, Hq1, Hr'. unfold zdrop. rewrite drop_app_le; [done|].
    unfold zlen in Hres. lia. }
  clearbody w1. rewrite <-Ho1 in Ho', Hr'. rewrite <-Hq1 in Hq.
  assert (forall v, grows n w1 v -> out_inv n v /\ exists bs, accepted v = accepted w ++ bs /\
    backlog v = zdrop (cqe_res c) (backlog w0) ++ bs) as Hdone.
  { intros v [? (bs & ? & ?)]. split; [done|]. exists bs. by rewrite <-Ha1, <-Hb1. }
  rewrite (readable_bytes_zlen _ Ho'), (readable_bytes_zlen _ Hq) in Hrun.
  assert (io_inv (n + 1) w1) by (apply (io_inv_le (n + (b + 1))); [done|lia]).
  destruct (Z.ltb_spec 0 (zlen (readable (output_buffer_ (conn w1))))) as [Hsome|Hnone].
  { simplify_eq. apply Hdone, SubmitWriteOnce_grows; try done.
    intros Hnil. rewrite Hnil in Hsome. done. }
  assert (readable (output_buffer_ (conn w1)) = []) as Hnil1 by by apply zlen_nonpos.
  destruct (Z.ltb_spec 0 (zlen (readable (pending_output_buffer_ (conn w1))))) as [Hsome2|Hnone2].
  { rewrite Swap_eq in Hrun. simplify_eq.
    match goal with |- context [SubmitWriteOnce ?v] => set (w2 := v) end.
    assert (grows n w2 (SubmitWriteOnce w2)) as [Hi (bs & Hac & Hbk)].
    { apply SubmitWriteOnce_grows; try done. by apply (same_io_inv _ w1). }
    apply Hdone. split; [done|]. exists bs. rewrite Hac, Hbk. split; [done|].
    unfold backlog. subst w2. simpl. by rewrite Hnil1, app_nil_r. }
  bind_ok. assert (readable (pending_output_buffer_ (conn w1)) = []) as Hnil2 by by apply zlen_nonpos.
  assert (grows n w1 a) as Hg.
  { eapply call_if_grows; [apply sc_write|done| |done].
    split; try done; [apply (io_inv_le (n + (b + 1))); [done|lia]|congruence]. }
  apply Hdone. destruct (_ && _); [|done].
  eapply grows_trans; [exact Hg|]. apply same_out_inv; [done|done|apply Hg].
Qed.

(** Methods that do not close and do not give up a request of the direction
    that is looked at: [StopReading] and [StopWriting] both cancel the requests
    of both directions; [busy] tells whether there is one. *)
Definition open_method (busy : bool) (m : method) : bool :=
  match m with
  | MStopReading | MStopWriting => negb busy
  | MDoClosing | MForceClose => false
  | _ => true
  end.

(** Messages fit a vector; buffers are in order. *)
Definition method_fits (m : method) : Prop :=
  match m with
  | MSend bs => zlen bs <= vector_max_size
  | MSendBuffer io => IoBuffer.wf io
  | _ => True
  end.

Lemma SubmitReadOnce_grows n w : 0 <= n -> out_inv (n + 1) w -> grows n w (SubmitReadOnce w).
Proof.
  intros Hn [Hio Ho Hq Hb Hfl]. pose proof (SubmitReadOnce_inv n w Hn Hio) as Hio'.
  revert Hio'. unfold SubmitReadOnce. destruct (read_in_flight_ (conn w)).
  { intros. by apply grows_here. }
  set (mk := fun multi => ReadCtx (mkReadContext (self_ (conn w))
    (GetWritablePosition (input_buffer_ (conn w))) (GetWritableBytes (input_buffer_ (conn w)))
    multi 0)).
  set (kp := if _ && _ then _ else _).
  assert (stored in_flight (mk (recv_multishot_defined && pa_BuffersRegistered (poller w)))
            (poller w) kp.1 kp.2) as Hst.
  { subst kp. destruct (_ && _); [by apply (read_multishot_spec n), Hio|by apply (read_spec n), Hio]. }
  destruct kp as [k p]. simpl in Hst.
  assert (write_in_flight_ (conn w) = true -> readable (output_buffer_ (conn w)) <> [] /\
    exists ctx, in_flight p !! write_cancel_key_ (conn w) = Some (WriteCtx ctx) /\
      wc_iov_base ctx = reading_index_ (output_buffer_ (conn w)) /\
      to_send ctx = zlen (readable (output_buffer_ (conn w)))) as Hfl'.
  { intros Hw. destruct (Hfl Hw) as (Hne & ctx & Hl & Hrest). split; [done|]. exists ctx.
    destruct Hst as [[_ ->]|(_ & Hfr & ->)]; [done|]. by rewrite lookup_insert_ne by congruence. }
  destruct (k =? 0); intros Hio'; (split; [by split|]);
    exists []; unfold backlog; by rewrite !app_nil_r.
Qed.

(** With no write in flight only the read is given up. *)
Lemma CancelPendingIo_grows n w :
  write_in_flight_ (conn w) = false -> out_inv n w -> grows n w (CancelPendingIo w).
Proof using Type.
  intros Hw [Hio Ho Hq Hb Hfl]. destruct (CancelPendingIo_inv n w Hio) as [Hio' (_ & Hw' & _)].
  assert (output_buffer_ (conn (CancelPendingIo w)) = output_buffer_ (conn w) /\
    pending_output_buffer_ (conn (CancelPendingIo w)) = pending_output_buffer_ (conn w) /\
    accepted (CancelPendingIo w) = accepted w) as (Ho' & Hq' & Ha').
  { unfold CancelPendingIo. repeat case_match; done. }
  split.
  - split; rewrite ?Ho', ?Hq', ?Hw'; try done. intros Hne. by rewrite <-Hw, (Hb Hne).
  - exists []. unfold backlog. by rewrite Ho', Hq', Ha', !app_nil_r.
Qed.

Lemma others_grows n m w w' :
  0 <= n -> others m w w' -> accepted w' = accepted w -> out_inv (n + m) w -> grows n w w'.
Proof using Type.
  intros Hn Hoth Ha [Hio Ho Hq Hb Hfl]. pose proof (others_inv n m w w' Hn Hoth Hio) as Hio'.
  destruct Hoth as (Hc & _ & _ & Hsame). split.
  - split; rewrite ?Hc; try done. intros Hf. destruct (Hfl Hf) as (Hne & ctx & Hl & Hrest).
    destruct (ii_write _ _ Hio Hf) as (_ & ctx' & Hl' & Hs). rewrite Hl in Hl'. simplify_eq.
    split; [done|]. exists ctx'. by rewrite (Hsame _ (WriteCtx ctx')).
  - exists []. unfold backlog. by rewrite Hc, Ha, !app_nil_r.
Qed.

(** Results of a read on which the connection is not closed: bytes, an error
    to try again after, another error that is only logged. *)
Definition read_goes_on (res : Z) : bool :=
  (0 <? res) || (res <? 0) &&
  (Eventer.transient (- res)
   || negb ((- res =? ECONNRESET) || (- res =? ECONNABORTED) || (- res =? EPIPE))).

(** A completed read: the message callback may send. *)
Lemma OnReadComplete_grows n c data ctx w0 w flag w' :
  0 <= n -> out_inv (n + (b + 1)) w0 ->
  taken_out (read_cancel_key_ (conn w0)) w0 w -> read_in_flight_ (conn w0) = true ->
  one_shot c -> read_goes_on (cqe_res c) = true ->
  OnReadComplete c data ctx w = Ok (flag, w') ->
  out_inv n w' /\ exists bs, accepted w' = accepted w ++ bs /\ backlog w' = backlog w0 ++ bs.
Proof using StreamCallbacks0.
  intros Hn [Hio Ho Hq Hb Hfl] Hout Hf Hone Hres Hrun. pose proof sc_bound.
  pose proof (read_taken_inv _ _ _ Hio Hout Hf) as H1. destruct Hout as (Hc & Hd & _).
  unfold OnReadComplete in Hrun. unfold one_shot in Hone. rewrite Hone in Hrun. cbn [negb] in Hrun.
  set (w1 := upd_conn _ w) in *.
  assert (out_inv (n + (b + 1)) w1) as Hi1.
  { unfold w1 in *. split; simpl; rewrite ?Hc; try done.
    - by rewrite Hc in H1.
    - intros Hw. destruct (Hfl Hw) as (Hne & ctx' & Hl & Hrest). split; [done|]. exists ctx'.
      split; [|done]. rewrite Hd, lookup_delete_ne; [done|]. intros Heq.
      destruct (ii_read _ _ Hio Hf) as (_ & ctx2 & Hl2 & _). congruence. }
  assert (backlog w1 = backlog w0) as <- by (unfold backlog, w1; simpl; by rewrite Hc).
  change (accepted w) with (accepted w1). change (grows n w1 w'). clearbody w1. clear Hc Hd H1.
  assert (out_inv (n + 1) w1) as Hs by (apply (out_inv_le (n + (b + 1))); [done|lia]).
  assert (grows n w1 w1) as Hh by (apply grows_here, (out_inv_le (n + 1)); [done|lia]).
  destruct (_ && true && _); [by simplify_eq|]. unfold read_goes_on in Hres.
  destruct (Z.ltb_spec 0 (cqe_res c)) as [Hpos|Hneg].
  - apply result_bind_ok in Hrun as (v & Hrun & [= <- <-]).
    apply result_bind_ok in Hrun as (w2 & Htk & Hrun).
    apply result_bind_ok in Hrun as (w3 & Hcb & [= <-]).
    assert (grows (n + (b + 1)) w1 w2) as H2.
    { unfold take_input in Htk. apply result_bind_ok in Htk as (io & _ & [= <-]). by apply same_out_inv. }
    assert (grows (n + 1) w2 w3) as H3.
    { eapply call_if_grows; [apply sc_message|lia| |exact Hcb].
      replace (n + 1 + b) with (n + (b + 1)) by lia. apply H2. }
    eapply grows_trans; [exact H2|]. eapply grows_trans; [exact H3|].
    apply SubmitReadOnce_grows; [done|apply H3].
  - destruct (Z.ltb_spec (cqe_res c) 0) as [Hlt|Hge]; [|done]. cbn [orb andb] in Hres.
    rewrite (proj2 (Z.eqb_neq _ _)) in Hrun by lia.
    destruct (Eventer.transient _); cbn [mbind result_bind] in Hrun; [simplify_eq; by apply SubmitReadOnce_grows|].
    cbn [orb] in Hres. apply negb_true_iff in Hres. rewrite Hres in Hrun.
    cbn [mbind result_bind] in Hrun. injection Hrun as <- <-. unfold DoWithError.
    case_match; [done|]. apply same_out_inv; [done|done|apply Hh].
Qed.

Lemma run_method_grows n m w w' :
  0 <= n -> open_method (write_in_flight_ (conn w)) m = true -> method_fits m -> out_inv (n + (b + 1)) w ->
  run_method m w = Ok w' -> grows n w w'.
Proof using Htake StreamCallbacks0.
  intros Hn Hm Hfits Hinv Hrun. pose proof sc_bound.
  assert (out_inv (n + 1) w) as Hone by (apply (out_inv_le (n + (b + 1))); [done|lia]).
  assert (out_inv n w) as Hz by (apply (out_inv_le (n + 1)); [done|lia]).
  assert (grows n w (SubmitWriteOnce w)) as Hsub.
  { destruct (write_in_flight_ (conn w)) eqn:Ef.
    - unfold SubmitWriteOnce. rewrite Ef. by apply grows_here.
    - apply SubmitWriteOnce_grows; try done; try apply Hone.
      intros _. destruct (readable (pending_output_buffer_ (conn w))) eqn:Ep; [done|].
      exfalso. rewrite (oi_behind _ _ Hone) in Ef; congruence. }
  destruct m; simpl in Hm, Hfits, Hrun; try done;
    try (apply negb_true_iff in Hm; simplify_eq; by apply CancelPendingIo_grows).
  - simplify_eq. by apply SubmitReadOnce_grows.
  - by simplify_eq.
  - simplify_eq. unfold DoReading. destruct (negb _); [by apply SubmitReadOnce_grows|by apply grows_here].
  - simplify_eq. unfold DoWriting. destruct (_ && _); [done|by apply grows_here].
  - simplify_eq. unfold ForceCloseAfter.
    destruct (bool_decide _); [by apply same_out_inv|by apply grows_here].
  - simplify_eq. unfold ShutDownWrite. destruct (bool_decide _); [|by apply grows_here].
    destruct (negb _); by apply same_out_inv.
  - unfold OnEstablishing in Hrun. destruct (bool_decide _); [|simplify_eq; by apply grows_here].
    bind_ok. destruct OnConnectionCallback_ as [f|] eqn:Ef; [|done].
    destruct (same_out_inv _ w (upd_conn (set_state kConnected) w) ltac:(done) ltac:(done) Hinv)
      as [Hi1 Hx1].
    assert (grows (n + 1) (upd_conn (set_state kConnected) w) a) as Hg.
    { eapply (sc_connection f Ef (n + 1)); [lia| |done].
      by replace (n + 1 + b) with (n + (b + 1)) by lia. }
    apply (grows_trans (n + 1) _ _ a); [|apply SubmitReadOnce_grows; [done|apply Hg]].
    eapply grows_trans; [split; [exact Hi1|exact Hx1]|exact Hg].
  - by eapply Send_grows.
  - unfold SendBuffer in Hrun. bind_ok. eapply Send_grows; [done| |done|done].
    unfold GetReadablePosition in Hok1. rewrite readable_read_all in Hok1 by done. simplify_eq.
    rewrite zlen_readable by done. destruct Hfits. unfold vector_max_size in *. lia.
Qed.

(** Runs of an open connection: its methods, the completions of its one-shot
    requests and the doings of other users of the poller. A method that would
    give up a write under way is no step of them, nor are the ends of a
    connection: a method that closes it, a read that finds it closed, a write
    that fails for good. [wire] is what the kernel took from the memory the
    write requests name. *)
Inductive out_run (w0 : W) : Z -> list Byte.byte -> W -> Prop :=
| out_start : out_run w0 0 [] w0
| out_call n wire w m w' :
    out_run w0 n wire w -> open_method (write_in_flight_ (conn w)) m = true -> method_fits m ->
    run_method m w = Ok w' -> out_run w0 (n + (b + 1)) wire w'
| out_read n wire w w1 c data ctx flag w' :
    out_run w0 n wire w -> read_in_flight_ (conn w) = true ->
    in_flight (poller w) !! read_cancel_key_ (conn w) = Some (ReadCtx ctx) ->
    taken_out (read_cancel_key_ (conn w)) w w1 -> accepted w1 = accepted w ->
    one_shot c -> read_goes_on (cqe_res c) = true ->
    OnReadComplete c data ctx w1 = Ok (flag, w') -> out_run w0 (n + (b + 1)) wire w'
| out_others n wire w m w' :
    out_run w0 n wire w -> others m w w' -> accepted w' = accepted w -> out_run w0 (n + m) wire w'
| out_written n wire w w1 c ctx flag w' :
    out_run w0 n wire w -> write_in_flight_ (conn w) = true ->
    in_flight (poller w) !! write_cancel_key_ (conn w) = Some (WriteCtx ctx) ->
    taken_out (write_cancel_key_ (conn w)) w w1 -> accepted w1 = accepted w ->
    0 < cqe_res c <= to_send ctx ->
    OnWriteComplete c ctx w1 = Ok (flag, w') ->
    out_run w0 (n + (b + 1))
      (wire ++ zslice (wc_iov_base ctx) (cqe_res c) (buffer_ (output_buffer_ (conn w)))) w'
| out_again n wire w w1 c ctx flag w' :
    out_run w0 n wire w -> write_in_flight_ (conn w) = true ->
    in_flight (poller w) !! write_cancel_key_ (conn w) = Some (WriteCtx ctx) ->
    taken_out (write_cancel_key_ (conn w)) w w1 -> accepted w1 = accepted w ->
    cqe_res c < 0 -> Eventer.transient (- cqe_res c) = true ->
    OnWriteComplete c ctx w1 = Ok (flag, w') -> out_run w0 (n + (b + 1)) wire w'.

Lemma write_again_grows n c ctx w0 w flag w' :
  0 <= n -> out_inv (n + (b + 1)) w0 ->
  taken_out (write_cancel_key_ (conn w0)) w0 w -> write_in_flight_ (conn w0) = true ->
  cqe_res c < 0 -> Eventer.transient (- cqe_res c) = true ->
  OnWriteComplete c ctx w = Ok (flag, w') ->
  out_inv n w' /\ exists bs, accepted w' = accepted w ++ bs /\ backlog w' = backlog w0 ++ bs.
Proof using Htake StreamCallbacks0.
  intros Hn [Hio Ho Hq Hb Hfl] Hout Hf Hres Htr Hrun. pose proof sc_bound.
  pose proof (write_taken_inv _ _ _ Hio Hout Hf) as H1. destruct Hout as (Hc & _ & _).
  unfold OnWriteComplete in Hrun.
  rewrite (proj2 (Z.ltb_ge _ _)), (proj2 (Z.ltb_lt _ _)), Htr in Hrun by lia. simplify_eq.
  match goal with |- context [SubmitWriteOnce ?v] => set (w1 := v) in * end.
  destruct (Hfl Hf) as [Hne _].
  assert (backlog w1 = backlog w0) as <- by (unfold backlog, w1; simpl; by rewrite Hc).
  change (accepted w) with (accepted w1).
  apply SubmitWriteOnce_grows; try done; unfold w1; simpl; rewrite ?Hc; try done.
  apply (io_inv_le (n + (b + 1))); [|lia]. unfold w1 in H1. rewrite Hc in H1. exact H1.
Qed.

(** From any state on: what is written comes off the front of the backlog, what
    [Send] takes over is appended to it. *)
Lemma out_run_grows w0 n N wire w :
  0 <= n -> out_inv (n + N) w0 -> out_run w0 N wire w ->
  out_inv n w /\ exists bs, accepted w = accepted w0 ++ bs /\ wire ++ backlog w = backlog w0 ++ bs.
Proof using Htake StreamCallbacks0.
  intros Hn Hinv Hrun. pose proof sc_bound as Hb. revert n Hn Hinv.
  assert (forall n N, n + (N + (b + 1)) = n + (b + 1) + N) as Hre by (intros; lia).
  assert (forall bs0 bs wire w w', accepted w = accepted w0 ++ bs0 ->
    wire ++ backlog w = backlog w0 ++ bs0 -> forall wire', accepted w' = accepted w ++ bs ->
    wire' ++ backlog w' = backlog w ++ bs ->
    accepted w' = accepted w0 ++ bs0 ++ bs /\ (wire ++ wire') ++ backlog w' = backlog w0 ++ bs0 ++ bs) as Hjoin.
  { intros bs0 bs wr v v' Ha0 Hb0 wr' Ha Hbk. rewrite Ha, Ha0, <- !app_assoc, Hbk.
    by rewrite (app_assoc wr), Hb0, <- app_assoc. }
  assert (forall N wire w w' m n, (forall n, 0 <= n -> out_inv (n + N) w0 -> out_inv n w /\
      exists bs, accepted w = accepted w0 ++ bs /\ wire ++ backlog w = backlog w0 ++ bs) ->
    0 <= n -> 0 <= m -> out_inv (n + (N + m)) w0 -> (out_inv (n + m) w -> grows n w w') ->
    out_inv n w' /\ exists bs, accepted w' = accepted w0 ++ bs /\ wire ++ backlog w' = backlog w0 ++ bs) as Hstep.
  { intros N' wr v v' m n IH Hn Hm0 Hi0 Hg. replace (n + (N' + m)) with (n + m + N') in Hi0 by lia.
    destruct (IH (n + m) ltac:(lia) Hi0) as [Hi (bs0 & Ha0 & Hb0)].
    destruct (Hg Hi) as [Hi' (bs & Hac & Hbk)]. split; [done|]. exists (bs0 ++ bs).
    destruct (Hjoin _ bs _ _ v' Ha0 Hb0 [] Hac Hbk) as [? Hw]. by rewrite app_nil_r in Hw. }
  induction Hrun as [|N wire w m w' _ IH Ho Hfit Hm|N wire w w1 c data ctx flag w' _ IH Hf Hl Ht Ha H1 Hres Hc
                    |N wire w m w' _ IH Ho Ha|N wire w w1 c ctx flag w' _ IH Hf Hl Ht Ha Hres Hc
                    |N wire w w1 c ctx flag w' _ IH Hf Hl Ht Ha Hneg Htr Hc]; intros n Hn Hinv.
  - rewrite Z.add_0_r in Hinv. split; [done|]. exists []. by rewrite !app_nil_r.
  - apply (Hstep N wire w w' (b + 1)); [done|done|lia|done|]. intros Hi. by eapply run_method_grows.
  - apply (Hstep N wire w w' (b + 1)); [done|done|lia|done|]. intros Hi.
    unfold grows. rewrite <-Ha. by eapply OnReadComplete_grows.
  - destruct (Ho) as (_ & ? & _). apply (Hstep N wire w w' m); [done..|]. intros Hi. by eapply others_grows.
  - rewrite Hre in Hinv. destruct (IH (n + (b + 1)) ltac:(lia) Hinv) as [Hi (bs0 & Ha0 & Hb0)].
    destruct (oi_flight _ _ Hi Hf) as (_ & ctx' & Hl' & Hbase & Hsend).
    rewrite Hl in Hl'. simplify_eq. rewrite Hsend in Hres.
    destruct (OnWriteComplete_grows n c ctx' w w1 flag w' Hn Hi Ht Hf Hres Hc) as [Hi' (bs & Hac & Hbk)].
    split; [done|]. exists (bs0 ++ bs). apply (Hjoin _ bs _ _ w' Ha0 Hb0); [congruence|].
    rewrite Hbk, Hbase, app_assoc. f_equal. pose proof (oi_out _ _ Hi) as Hwf.
    assert (zslice (reading_index_ (output_buffer_ (conn w))) (cqe_res c)
              (buffer_ (output_buffer_ (conn w)))
            = ztake (cqe_res c) (readable (output_buffer_ (conn w)))) as ->.
    { unfold readable. rewrite ztake_zslice; [done|]. rewrite zlen_readable in Hres by done. lia. }
    unfold backlog, zdrop, ztake. rewrite drop_app_le by (unfold zlen in Hres; lia).
    by rewrite app_assoc, take_drop.
  - apply (Hstep N wire w w' (b + 1)); [done|done|lia|done|]. intros Hi.
    unfold grows. rewrite <-Ha. by eapply write_again_grows.
Qed.

(** C2. The output stream. As long as a connection is open, the bytes the kernel
    has written followed by the two output buffers are exactly the bytes [Send]
    accepted, in order: none lost, none doubled, none reordered. This holds
    through every method, through completed reads whose message callback sends,
    through writes of any length and writes to try again, and beside other users
    of the poller -- on these conditions: neither the program nor a callback
    closes the connection, or calls [StopReading] or [StopWriting] while a write
    is under way (they cancel it: [stop_reading_reorders]); no write fails for
    good; reads complete without [IORING_CQE_F_MORE]; the ring takes every write
    request; and the keys of requests last. *)
Theorem output_stream_in_order w0 n N wire w :
  0 <= n -> out_inv (n + N) w0 -> accepted w0 = backlog w0 -> out_run w0 N wire w ->
  accepted w = wire ++ backlog w /\ out_inv n w.
Proof using Htake StreamCallbacks0.
  intros Hn Hinv Hacc Hrun.
  destruct (out_run_grows w0 n N wire w Hn Hinv Hrun) as [Hi (bs & Ha & Hb)].
  split; [|done]. by rewrite Hb, Ha, Hacc.
Qed.

End stream.

(** ** The input stream *)

(** The context of a read submitted with the input buffer as it is now. *)
Definition reads_into (ctx : ReadContext) (io : IoBuffer) : Prop :=
  rc_iov_base ctx = GetWritablePosition io /\ writable ctx = GetWritableBytes io /\
  multishot ctx = false.

(** What [readv] leaves: the writable space filled as far as the data go. *)
Lemma take_input_outcome c data ctx has_buffer id w :
  IoBuffer.wf (input_buffer_ (conn w)) -> reads_into ctx (input_buffer_ (conn w)) ->
  cqe_res c = zlen data -> zlen data < 2 ^ 31 ->
  kReservedCapacity <= reading_index_ (input_buffer_ (conn w)) ->
  zlen (buffer_ (input_buffer_ (conn w))) + zlen data <= vector_max_size ->
  let overflow := zlen data - writable ctx in
  (overflow <= 0 \/ reading_index_ (input_buffer_ (conn w)) - kReservedCapacity < overflow ->
   exists io, take_input c data ctx has_buffer id w = Ok (upd_conn (set_input io) w) /\
     IoBuffer.wf io /\ readable io = readable (input_buffer_ (conn w)) ++ data) /\
  (0 < overflow <= reading_index_ (input_buffer_ (conn w)) - kReservedCapacity ->
   take_input c data ctx has_buffer id w = Fault OutOfBounds).
Proof.
  set (io := input_buffer_ (conn w)). intros Hwf (Hbase & Hwr & Hm) Hres H31 Hrd Hmax overflow.
  pose proof (zlen_nonneg data). unfold take_input. rewrite Hm. cbn [andb]. fold io.
  unfold kernel_fill. rewrite Hbase, Hwr. unfold GetWritablePosition.
  assert (0 <= GetWritableBytes io) as Hw0 by (rewrite GetWritableBytes_eq by done; destruct Hwf; lia).
  destruct (fill_writable io (ztake (GetWritableBytes io) data))
    as (b1 & Hmem & Hi & Hj & Hwf1 & Hr1 & HW1 & Hsl); [done|zlist|].
  rewrite Hmem. cbn [mbind result_bind].
  assert (mkIoBuffer (buffer_ b1) (reading_index_ io) (writing_index_ io) = b1) as ->
    by (destruct b1; simpl in *; congruence).
  rewrite Hres, u64_small by lia.
  destruct (Z.leb_spec (zlen data) (GetWritableBytes io)) as [Hle|Hgt].
  - split; [intros _|lia]. eexists. split; [done|].
    split; [apply RefreshW_wf; [done|lia]|].
    rewrite RefreshW_readable by (done || lia). rewrite Hr1, Hj. f_equal.
    by rewrite ztake_all in Hsl by lia.
  - set (full := RefreshW (GetWritableBytes io) b1).
    assert (IoBuffer.wf full) as Hwff by (apply RefreshW_wf; [done|lia]).
    pose proof (RefreshW_index b1 (GetWritableBytes io) Hwf1 ltac:(lia)) as Hri. fold full in Hri.
    assert (zlen (buffer_ b1) = zlen (buffer_ io)) as Hzb.
    { rewrite !GetWritableBytes_eq in HW1 by done. lia. }
    assert (GetWritableBytes full = 0) as Hfull.
    { rewrite GetWritableBytes_eq by done. rewrite Hri. simpl.
      rewrite GetWritableBytes_eq by done. lia. }
    assert (readable full = readable io ++ ztake (GetWritableBytes io) data) as Hrf.
    { unfold full. rewrite RefreshW_readable by (done || lia). rewrite Hr1, Hj. f_equal.
      etransitivity; [|exact Hsl]. f_equal. rewrite zlen_ztake; lia. }
    assert (ztake (zlen data -u GetWritableBytes io) (zdrop (GetWritableBytes io) data)
            = zdrop (GetWritableBytes io) data) as ->.
    { apply ztake_all. rewrite u64_small by lia. zlist. }
    assert (zlen (zdrop (GetWritableBytes io) data) = overflow) as Hov
      by (unfold overflow; rewrite Hwr; zlist).
    assert (reading_index_ full = reading_index_ io) as Hrfull by (unfold full; simpl; done).
    split.
    + intros [?|Hbig]; [lia|].
      destruct (Append_ok full (zdrop (GetWritableBytes io) data)) as (b' & Hap & Hwf' & Hr' & _).
      * done.
      * apply not_true_iff_false. rewrite compacts_spec by (done || (rewrite Hrfull; lia)).
        rewrite Hov, Hfull, Hrfull. lia.
      * rewrite Hov, Hri. rewrite GetWritableBytes_eq by done. rewrite Hj.
        unfold overflow. rewrite Hwr, GetWritableBytes_eq by done. destruct Hwf. lia.
      * rewrite Hap. eexists. split; [done|]. split; [done|].
        rewrite Hr', Hrf, <-app_assoc. f_equal. apply ztake_zdrop.
    + intros Hsmall. rewrite Append_compacts; [done|done|].
      rewrite compacts_spec by (done || (rewrite Hrfull; lia)). rewrite Hov, Hfull, Hrfull. lia.
Qed.

(** C30. Delivery. A completed one-shot read, into a well-formed input buffer that is
    as it was when the read was submitted, holds nothing prepended and stays below
    the maximal size of a vector, appends exactly the bytes the kernel delivered,
    in both areas of the request, and calls the message callback, if there is
    one, on that buffer before reading on -- unless more bytes than
    the buffer had room for arrived and they fit the consumed space in front:
    then the read ends in a write behind the end of the buffer. *)
Theorem read_delivers c data ctx w :
  one_shot c -> IoBuffer.wf (input_buffer_ (conn w)) -> reads_into ctx (input_buffer_ (conn w)) ->
  cqe_res c = zlen data -> 0 < zlen data < 2 ^ 31 ->
  kReservedCapacity <= reading_index_ (input_buffer_ (conn w)) ->
  zlen (buffer_ (input_buffer_ (conn w))) + zlen data <= vector_max_size ->
  let overflow := zlen data - GetWritableBytes (input_buffer_ (conn w)) in
  let consumed := reading_index_ (input_buffer_ (conn w)) - kReservedCapacity in
  (overflow <= 0 \/ consumed < overflow ->
   exists w1, IoBuffer.wf (input_buffer_ (conn w1)) /\
     readable (input_buffer_ (conn w1)) = readable (input_buffer_ (conn w)) ++ data /\
     read_in_flight_ (conn w1) = false /\ poller w1 = poller w /\ backlog w1 = backlog w /\
     OnReadComplete c data ctx w =
     (w2 ← call_if OnMessageCallback_ w1; Ok (true, SubmitReadOnce w2))) /\
  (0 < overflow <= consumed -> OnReadComplete c data ctx w = Fault OutOfBounds).
Proof using Type.
  intros Hone Hwf Hinto Hres Hlen Hrd Hmax overflow consumed. unfold one_shot in Hone.
  destruct Hinto as (Hbase & Hwr & Hm). unfold OnReadComplete.
  rewrite Hone, Hm. cbn [negb andb]. rewrite (proj2 (Z.ltb_lt _ _)) by lia.
  set (w0 := upd_conn _ w).
  destruct (take_input_outcome c data ctx (has_bits (cqe_flags c) IORING_CQE_F_BUFFER) (buf_id ctx) w0)
    as [Hgood Hbad]; try done; [lia|].
  split.
  - intros Hfit. destruct Hgood as (io & Htake & Hwf' & Hr'); [unfold overflow in Hfit; rewrite <-Hwr in Hfit; exact Hfit|].
    exists (upd_conn (set_input io) w0). split_and!; try done.
    rewrite Htake. simpl. by destruct (call_if _ _).
  - intros Hov. rewrite Hbad; [done|]. unfold overflow in Hov. rewrite <-Hwr in Hov. exact Hov.
Qed.

(** ** Calls that break the streams *)

(** [StopReading] also gives up the write in flight. The next message then
    goes to the output buffer, in front of the bytes that were waiting in the
    second one: the stream is reordered, and what the abandoned write has
    written is written again. *)
Theorem stop_reading_reorders n w message w' :
  out_inv n w -> 0 < n -> writes_taken -> state_ (conn w) = kConnected ->
  HighWaterMarkCallback_ = None -> zlen message <= vector_max_size ->
  Send message (StopReading w) = Ok w' ->
  accepted w' = accepted w ++ message /\
  backlog w' = readable (output_buffer_ (conn w)) ++ message
               ++ readable (pending_output_buffer_ (conn w)).
Proof.
  intros [Hio Ho Hq Hb Hfl] Hn Htake Hst Hhigh Hlen Hs. unfold StopReading in Hs.
  assert (output_buffer_ (conn (CancelPendingIo w)) = output_buffer_ (conn w) /\
          pending_output_buffer_ (conn (CancelPendingIo w)) = pending_output_buffer_ (conn w) /\
          state_ (conn (CancelPendingIo w)) = state_ (conn w) /\
          accepted (CancelPendingIo w) = accepted w) as (Ho1 & Hq1 & Hs1 & Ha1).
  { unfold CancelPendingIo. repeat case_match; done. }
  destruct (CancelPendingIo_inv n w Hio) as [_ (_ & Hf1 & _)].
  set (w1 := CancelPendingIo w) in *. clearbody w1. unfold Send in Hs.
  rewrite Hs1, Hst, Hhigh in Hs. simpl in Hs. rewrite Hf1 in Hs. bind_ok.
  rewrite Ho1 in Hok. apply Append_inv in Hok as (_ & _ & Hr' & _); [|done|done].
  assert (forall v : W, output_buffer_ (conn (SubmitWriteOnce v)) = output_buffer_ (conn v) /\
    pending_output_buffer_ (conn (SubmitWriteOnce v)) = pending_output_buffer_ (conn v) /\
    accepted (SubmitWriteOnce v) = accepted v) as Hsub.
  { intros v. unfold SubmitWriteOnce. repeat case_match; done. }
  match goal with |- context [SubmitWriteOnce ?v] => destruct (Hsub v) as (Hx & Hy & Hz) end.
  unfold backlog. rewrite Hx, Hy, Hz. simpl. by rewrite Ha1, Hq1, Hr', <-app_assoc.
Qed.

(** [ShutDownWrite] does not wait for the output: it asks whether the
    connection polls for writability, which no connection ever does, and so it
    shuts the socket down at once with the backlog unsent. Whatever the user
    sends afterwards is dropped. *)
Theorem shutdown_before_drained w :
  state_ (conn w) = kConnected -> Eventer.HasWriteEvents (eventer_ (conn w)) = false ->
  shut_wr (ShutDownWrite w) = S (shut_wr w) /\ backlog (ShutDownWrite w) = backlog w /\
  forall message, Send message (ShutDownWrite w) = Ok (ShutDownWrite w).
Proof using Type.
  intros Hst Hev. unfold ShutDownWrite. rewrite bool_decide_eq_true_2 by done. simpl.
  rewrite Hev. split_and!; done.
Qed.

(** A message callback that closes the connection does not end its reading:
    the completion function submits the next read on the closed connection. *)
Theorem closed_connection_reads_on n c data ctx w f w1 w2 :
  0 <= n -> io_inv (n + 1) w2 ->
  one_shot c -> 0 < cqe_res c -> multishot ctx = false -> OnMessageCallback_ = Some f ->
  (forall has_buffer id,
     take_input c data ctx has_buffer id
       (upd_conn (set_reading false (read_cancel_key_ (conn w))) w) = Ok w1) ->
  f w1 = Ok w2 -> state_ (conn w2) = kDisconnected -> read_in_flight_ (conn w2) = false ->
  (forall self fd iov x (p : P), (pa_SubmitRead self fd iov x p).1 <> 0) ->
  pa_BuffersRegistered (poller w2) = false ->
  exists w', OnReadComplete c data ctx w = Ok (true, w') /\
    state_ (conn w') = kDisconnected /\ HasPendingIo (conn w') = true /\ ~ idle w'.
Proof.
  intros Hn Hinv Hone Hres Hm Hf Htake Hrun Hst Hfl Hroom Hreg. unfold one_shot in Hone.
  unfold OnReadComplete. rewrite Hone, Hm. cbn [negb andb].
  rewrite (proj2 (Z.ltb_lt _ _)) by lia. rewrite Htake. simpl. rewrite Hf. simpl. rewrite Hrun. simpl.
  exists (SubmitReadOnce w2). split; [done|].
  pose proof (SubmitReadOnce_inv n w2 Hn Hinv) as Hinv'.
  assert (state_ (conn (SubmitReadOnce w2)) = kDisconnected /\
          read_in_flight_ (conn (SubmitReadOnce w2)) = true) as [Hs' Hr'].
  { unfold SubmitReadOnce. rewrite Hfl, Hreg, andb_false_r.
    specialize (Hroom (self_ (conn w2)) (fd_ (conn w2))
      (read_iov (GetWritableBytes (input_buffer_ (conn w2))))
      (ReadCtx (mkReadContext (self_ (conn w2)) (GetWritablePosition (input_buffer_ (conn w2)))
         (GetWritableBytes (input_buffer_ (conn w2))) false 0)) (poller w2)).
    destruct (pa_SubmitRead _ _ _ _ _) as [k p]. simpl in Hroom.
    by rewrite (proj2 (Z.eqb_neq _ _)) by done. }
  split; [done|]. split; [unfold HasPendingIo; by rewrite Hr'|].
  intros (Hr'' & _). congruence.
Qed.

End facts.

(** ** Evaluations *)

Module Concrete.

#[local] Existing Instance PollerFacts.Concrete.endless_ring.
#[local] Existing Instance PollerFacts.Concrete.old_headers.

Abbreviation P := (Poller (list sqe) (IoContext + unit) (ConnFn + unit)).
Abbreviation W := (World P unit).

(** A user who does nothing when told of the connection. *)
Definition quiet : ConnCallbacks W := {|
  OnConnectionCallback_ := Some Ok;
  OnMessageCallback_ := None;
  WriteCompleteCallback_ := None;
  HighWaterMarkCallback_ := None;
  CloseCallback_ := None;
|}.

(** A user who closes the connection at the first message. *)
Definition closing : ConnCallbacks W := {|
  OnConnectionCallback_ := Some Ok;
  OnMessageCallback_ := Some (ForceClose (ConnCallbacks0 := quiet));
  WriteCompleteCallback_ := None;
  HighWaterMarkCallback_ := None;
  CloseCallback_ := None;
|}.

Definition new_world : W :=
  mkWorld (Connecting_new 7 5) (Poller_new [] None (0, 0)) 0 [] [] [] 0 [] tt.

Definition or_new (r : result W) : W := match r with Ok w => w | Fault _ => new_world end.

(** Established, reading. *)
Definition open_world : W := or_new (OnEstablishing (ConnCallbacks0 := quiet) new_world).

(** With [ab] being written and [cd] waiting. *)
Definition sending_world : W :=
  or_new (w ← Send (ConnCallbacks0 := quiet) [Byte.x61; Byte.x62] open_world;
          Send (ConnCallbacks0 := quiet) [Byte.x63; Byte.x64] w).

Lemma new_world_inv n : n <= 2 ^ 64 - 2 -> io_inv n new_world.
Proof.
  intros Hn.
  destruct (wf_new (R := list sqe) (Ctx := IoContext + unit) (Fn := ConnFn + unit) [] None (0, 0))
    as (Hwf & Hnext & _).
  split; try done. split; [exact Hwf|]. simpl. lia.
Qed.

Lemma new_world_out n : n <= 2 ^ 64 - 2 -> out_inv n new_world.
Proof.
  intros Hn. split; [by apply new_world_inv|..]; done.
Qed.

#[local] Existing Instance quiet.

#[local] Instance quiet_lawful : LawfulCallbacks (P := P) (E := unit) io_inv 0.
Proof.
  split; try done. intros f Hf n w w' Hn Hinv Hcall. simpl in Hf. simplify_eq.
  by rewrite Z.add_0_r in Hinv.
Qed.

#[export] Instance quiet_stream : StreamCallbacks (P := P) (E := unit) 0.
Proof.
  split; try done. intros f Hf n w w' Hn Hinv Hcall. simpl in Hf. simplify_eq.
  rewrite Z.add_0_r in Hinv. by apply grows_here.
Qed.

Lemma endless_writes : writes_taken (P := P).
Proof.
  intros self fd iov c p. simpl. unfold SubmitWrite, NormalizeKey, fetch_add_key. simpl.
  destruct (Z.eqb_spec (next_key_ p) 0) as [->|Hne]; done.
Qed.

Lemma endless_reads self fd iov x (p : P) : (pa_SubmitRead self fd iov x p).1 <> 0.
Proof.
  simpl. unfold SubmitRead, NormalizeKey, fetch_add_key. simpl.
  destruct (Z.eqb_spec (next_key_ p) 0) as [->|Hne]; done.
Qed.

Lemma one_request_per_direction_witness :
  conn_run 0 new_world 3 sending_world /\ io_inv 5 sending_world.
Proof.
  assert (conn_run 0 new_world 3 sending_world) as Hrun.
  { apply (run_call 0 new_world 2 (or_new (Send [Byte.x61; Byte.x62] open_world))
             (MSend [Byte.x63; Byte.x64])); [|vm_compute; reflexivity].
    apply (run_call 0 new_world 1 open_world (MSend [Byte.x61; Byte.x62]));
      [|vm_compute; reflexivity].
    apply (run_call 0 new_world 0 new_world MOnEstablishing); [|vm_compute; reflexivity].
    apply run_start. }
  split; [exact Hrun|].
  apply (one_request_per_direction 0 new_world 5 3); [lia| |exact Hrun]. apply new_world_inv. lia.
Defined.

(** The write of [ab] completes with one byte, then with the other. *)
Definition half_written : cqe := mkCqe 2 1 0.

Definition take_out (k : Z) (w : W) : W :=
  set_poller (with_ops (delete k (ops_ (poller w))) (poller w)) w.

Definition after_write (w : W) : W :=
  or_new ('(_, w) ← OnWriteComplete half_written (mkWriteContext 7 8 2) w; Ok w).

Lemma taken_out_open k (w : W) op :
  ops_ (poller w) !! k = Some op -> type op <> kPoll -> taken_out k w (take_out k w).
Proof.
  intros Hop Ht. split; [done|]. split.
  - simpl. unfold requests. simpl. by rewrite omap_delete.
  - intros n [Hwf Hn]. split; [|done]. by apply (wf_delete_op _ _ op).
Qed.

Lemma half_written_run :
  out_run 0 new_world 4 [Byte.x61] (after_write (take_out 2 sending_world)).
Proof.
  apply (out_written 0 new_world 3 [] sending_world (take_out 2 sending_world) half_written
           (mkWriteContext 7 8 2) true).
  - apply (out_call 0 new_world 2 [] (or_new (Send [Byte.x61; Byte.x62] open_world))
             (MSend [Byte.x63; Byte.x64])); [|reflexivity|vm_compute; discriminate|vm_compute; reflexivity].
    apply (out_call 0 new_world 1 [] open_world (MSend [Byte.x61; Byte.x62]));
      [|reflexivity|vm_compute; discriminate|vm_compute; reflexivity].
    apply (out_call 0 new_world 0 [] new_world MOnEstablishing);
      [apply out_start|reflexivity|exact I|vm_compute; reflexivity].
  - vm_compute. reflexivity.
  - vm_compute. reflexivity.
  - eapply taken_out_open; [vm_compute; reflexivity|discriminate].
  - vm_compute. reflexivity.
  - vm_compute. split; [reflexivity|discriminate].
  - vm_compute. reflexivity.
Qed.

Lemma output_stream_in_order_witness :
  accepted (after_write (take_out 2 sending_world)) = [Byte.x61; Byte.x62; Byte.x63; Byte.x64] /\
  accepted (after_write (take_out 2 sending_world))
    = [Byte.x61] ++ backlog (after_write (take_out 2 sending_world)).
Proof.
  split; [vm_compute; reflexivity|].
  apply (output_stream_in_order 0 endless_writes new_world 0 4 [Byte.x61]).
  - lia.
  - apply new_world_out. lia.
  - vm_compute. reflexivity.
  - exact half_written_run.
Defined.

Lemma closing_once_witness :
  exists w1, DoClosing open_world = Ok (DeleteConnection 5 w1) /\ idle w1.
Proof.
  assert (io_inv 1 open_world) as Hinv.
  { apply (run_method_inv io_inv 0 1 MOnEstablishing new_world); [lia|apply new_world_inv; lia|].
    vm_compute. reflexivity. }
  destruct (closing_once 1 open_world Hinv) as [_ Hopen].
  destruct Hopen as (w1 & _ & Hidle & _ & Hfd & _ & Hd & _); [vm_compute; discriminate|].
  exists w1. rewrite Hd. simpl. rewrite Hfd. split; [reflexivity|exact Hidle].
Defined.

Lemma read_delivers_witness :
  exists w1, readable (input_buffer_ (conn w1)) = [Byte.x68; Byte.x69] /\
    OnReadComplete (mkCqe 1 2 0) [Byte.x68; Byte.x69] (mkReadContext 7 8 1024 false 0) open_world
    = Ok (true, SubmitReadOnce w1).
Proof.
  destruct (read_delivers (mkCqe 1 2 0) [Byte.x68; Byte.x69] (mkReadContext 7 8 1024 false 0)
    open_world) as [Hgood _].
  - reflexivity.
  - apply IoBuffer_new_wf. vm_compute. split; discriminate.
  - split_and!; vm_compute; reflexivity.
  - reflexivity.
  - vm_compute. split; reflexivity.
  - vm_compute. discriminate.
  - vm_compute. discriminate.
  - destruct Hgood as (w1 & _ & Hr & _ & _ & _ & Heq); [left; vm_compute; discriminate|].
    exists w1. split; [|exact Heq]. rewrite Hr. vm_compute. reflexivity.
Defined.

Lemma sending_world_out : out_inv 2 sending_world.
Proof.
  apply (run_method_grows 0 endless_writes 2 (MSend [Byte.x63; Byte.x64])
           (or_new (Send [Byte.x61; Byte.x62] open_world)));
    [lia|done|vm_compute; discriminate| |vm_compute; reflexivity].
  apply (run_method_grows 0 endless_writes 3 (MSend [Byte.x61; Byte.x62]) open_world);
    [lia|done|vm_compute; discriminate| |vm_compute; reflexivity].
  apply (run_method_grows 0 endless_writes 4 MOnEstablishing new_world);
    [lia|done|done| |vm_compute; reflexivity].
  apply new_world_out. lia.
Qed.

Lemma stop_reading_reorders_witness :
  exists w', Send [Byte.x65] (StopReading sending_world) = Ok w' /\
    accepted w' = [Byte.x61; Byte.x62; Byte.x63; Byte.x64; Byte.x65] /\
    backlog w' = [Byte.x61; Byte.x62; Byte.x65; Byte.x63; Byte.x64].
Proof.
  assert (exists w', Send [Byte.x65] (StopReading sending_world) = Ok w') as [w' Hs]
    by (eexists; vm_compute; reflexivity).
  exists w'. split; [exact Hs|].
  destruct (stop_reading_reorders 2 sending_world [Byte.x65] w') as [Ha Hb].
  - exact sending_world_out.
  - lia.
  - exact endless_writes.
  - vm_compute. reflexivity.
  - reflexivity.
  - vm_compute. discriminate.
  - exact Hs.
  - rewrite Ha, Hb. split; vm_compute; reflexivity.
Defined.

Lemma shutdown_before_drained_witness :
  shut_wr (ShutDownWrite sending_world) = 1%nat /\
  backlog (ShutDownWrite sending_world) = [Byte.x61; Byte.x62; Byte.x63; Byte.x64].
Proof.
  destruct (shutdown_before_drained sending_world) as (Hs & Hb & _);
    [vm_compute; reflexivity|vm_compute; reflexivity|].
  rewrite Hs, Hb. split; vm_compute; reflexivity.
Defined.

(** After the message callback closed the connection. *)
Definition read_world : W :=
  or_new (take_input (mkCqe 1 2 0) [Byte.x68; Byte.x69] (mkReadContext 7 8 1024 false 0) false 0
            (upd_conn (set_reading false 1) (take_out 1 open_world))).

Definition closed_world : W := or_new (ForceClose read_world).

Lemma closed_world_inv : io_inv 1 closed_world.
Proof.
  assert (io_inv 2 open_world) as Hinv.
  { apply (run_method_inv io_inv 0 2 MOnEstablishing new_world); [lia|apply new_world_inv; lia|].
    vm_compute. reflexivity. }
  apply (run_method_inv io_inv 0 1 MForceClose read_world); [lia| |vm_compute; reflexivity].
  apply (same_io_inv _ (upd_conn (set_reading false (read_cancel_key_ (conn open_world)))
                          (take_out 1 open_world))); [vm_compute; done|].
  change (io_inv 2 (upd_conn (set_reading false (read_cancel_key_ (conn (take_out 1 open_world))))
                      (take_out 1 open_world))).
  apply (read_taken_inv 2 open_world); [done| |vm_compute; reflexivity].
  eapply (taken_out_open 1); [vm_compute; reflexivity|discriminate].
Qed.

Lemma closed_connection_reads_on_witness :
  exists w', OnReadComplete (ConnCallbacks0 := closing) (mkCqe 1 2 0) [Byte.x68; Byte.x69]
      (mkReadContext 7 8 1024 false 0) (take_out 1 open_world) = Ok (true, w') /\
    state_ (conn w') = kDisconnected /\ HasPendingIo (conn w') = true.
Proof.
  destruct (closed_connection_reads_on (ConnCallbacks0 := closing) 0 (mkCqe 1 2 0)
    [Byte.x68; Byte.x69] (mkReadContext 7 8 1024 false 0) (take_out 1 open_world)
    (ForceClose (ConnCallbacks0 := quiet)) read_world closed_world) as (w' & Heq & Hs & Hp & _).
  - lia.
  - exact closed_world_inv.
  - reflexivity.
  - reflexivity.
  - reflexivity.
  - reflexivity.
  - intros hb id. vm_compute. reflexivity.
  - vm_compute. reflexivity.
  - vm_compute. reflexivity.
  - vm_compute. reflexivity.
  - exact endless_reads.
  - vm_compute. reflexivity.
  - exists w'. split; [exact Heq|]. split; [exact Hs|exact Hp].
Defined.

End Concrete.
