(* ===== verification/Transport.v ===== *)
(** * From one connection to another

    The input side of [Connecting], dual to the output stream of
    ConnectingFacts, and the composition of both: two connections joined by a
    TCP stream, the sender writing at its pace, the receiver reading at its own
    and its message callback consuming as much as it likes. TCP is taken as
    documented: what is read is what was written, in order. *)

From stdpp Require Import prelude gmap list.
From S2P Require Import Prelude.
From S2P Require Import IoBuffer.
From S2P Require Import Poller.
From S2P Require Import PollerFacts.
From S2P Require Import Connecting.
From S2P Require Import ConnectingFacts.

(** ** The input stream *)

Section input.
Context {P E : Type} `{!PollerApi P, !PollerSpec P, !BuildConfig, !ConnCallbacks (World P E)}.
Abbreviation W := (World P E).
Implicit Types w : W.

(** The user's state records the bytes its callbacks took off the input
    buffer. *)
Context (taken : E -> list Byte.byte).

(** What has arrived: taken by the user, or still in the input buffer. *)
Definition arrived (w : W) : list Byte.byte := taken (env w) ++ readable (input_buffer_ (conn w)).

(** A read in flight points behind the contents of the input buffer as it is. *)
Record in_inv (n : Z) (w : W) : Prop := {
  ni_io : io_inv n w;
  ni_in : IoBuffer.wf (input_buffer_ (conn w));
  ni_flight : read_in_flight_ (conn w) = true ->
    exists ctx, in_flight (poller w) !! read_cancel_key_ (conn w) = Some (ReadCtx ctx) /\
      reads_into ctx (input_buffer_ (conn w));
}.

Definition holds (n : Z) (w w' : W) : Prop := in_inv n w' /\ arrived w' = arrived w.

Definition keeps_in (b : Z) (f : W -> result W) : Prop :=
  forall n w w', 0 <= n -> in_inv (n + b) w -> f w = Ok w' -> holds n w w'.

(** Callbacks take bytes off the front of the input buffer, into their state, and
    leave the buffer alone while a read is in flight; the message callback is
    called when none is. *)
Class ReaderCallbacks (b : Z) : Prop := {
  rd_bound : 0 <= b;
  rd_connection : forall f, OnConnectionCallback_ = Some f -> keeps_in b f;
  rd_message : forall f, OnMessageCallback_ = Some f -> forall n w w',
    0 <= n -> in_inv (n + b) w -> read_in_flight_ (conn w) = false -> f w = Ok w' -> holds n w w';
  rd_write : forall f, WriteCompleteCallback_ = Some f -> keeps_in b f;
  rd_high : forall f m, HighWaterMarkCallback_ = Some f -> keeps_in b (f m);
}.

Lemma in_inv_le n m w : in_inv n w -> m <= n -> in_inv m w.
Proof. intros [? ? ?] ?. split; try done. by eapply io_inv_le. Qed.

Lemma holds_here n w : in_inv n w -> holds n w w.
Proof. done. Qed.

Lemma holds_le n m w : in_inv n w -> m <= n -> holds m w w.
Proof. intros ? ?. split; [by eapply in_inv_le|done]. Qed.

Lemma holds_trans n m w1 w2 w3 : holds n w1 w2 -> holds m w2 w3 -> holds m w1 w3.
Proof. intros [_ H1] [Hi H2]. split; [done|congruence]. Qed.

Lemma same_in n w w' :
  same_io w w' -> input_buffer_ (conn w') = input_buffer_ (conn w) -> env w' = env w ->
  in_inv n w -> holds n w w'.
Proof.
  intros Hio Hin He [Hinv Hwf Hfl]. pose proof (same_io_inv n w w' Hio Hinv) as Hinv'.
  destruct Hio as (Hp & Hs & Hr & Hw & Hk & Hk').
  split; [split; rewrite ?Hin, ?Hr, ?Hp, ?Hk; done|]. unfold arrived. by rewrite He, Hin.
Qed.

(** A new request of the other direction leaves the read alone. *)
Lemma SubmitWriteOnce_holds n w : 0 <= n -> in_inv (n + 1) w -> holds n w (SubmitWriteOnce w).
Proof.
  intros Hn Hinv. pose proof Hinv as [Hio Hwf Hfl]. pose proof (SubmitWriteOnce_inv n w Hn Hio) as Hio'.
  revert Hio'. unfold SubmitWriteOnce.
  destruct (_ || _); [intros; by apply (holds_le (n + 1)); [|lia]|]. set (c := WriteCtx _).
  destruct (write_spec n (self_ (conn w)) (fd_ (conn w)) [GetReadableBytes (output_buffer_ (conn w))]
              c (poller w) Hn (ii_ok _ _ Hio)) as [_ Hst].
  destruct (pa_SubmitWrite _ _ _ _ _) as [k p]. simpl in *.
  assert (read_in_flight_ (conn w) = true ->
    exists ctx, in_flight p !! read_cancel_key_ (conn w) = Some (ReadCtx ctx) /\
      reads_into ctx (input_buffer_ (conn w))) as Hfl'.
  { intros Hr. destruct (Hfl Hr) as (ctx & Hl & Hinto). exists ctx. split; [|done].
    destruct Hst as [[_ ->]|(_ & Hfr & ->)]; [done|]. by rewrite lookup_insert_ne by congruence. }
  destruct (k =? 0); intros Hio'; (split; [by split|done]).
Qed.

Section reader.
Context (no_multishot : recv_multishot_defined = false).

Lemma SubmitReadOnce_holds n w : 0 <= n -> in_inv (n + 1) w -> holds n w (SubmitReadOnce w).
Proof using no_multishot.
  intros Hn Hinv. pose proof Hinv as [Hio Hwf Hfl]. pose proof (SubmitReadOnce_inv n w Hn Hio) as Hio'.
  revert Hio'. unfold SubmitReadOnce. destruct (read_in_flight_ (conn w)).
  { intros. by apply (holds_le (n + 1)); [|lia]. }
  rewrite no_multishot. cbn [andb]. set (ctx := mkReadContext _ _ _ _ _).
  destruct (read_spec n (self_ (conn w)) (fd_ (conn w))
              (read_iov (GetWritableBytes (input_buffer_ (conn w)))) (ReadCtx ctx) (poller w) Hn (ii_ok _ _ Hio))
    as [_ Hst].
  destruct (pa_SubmitRead _ _ _ _ _) as [k p]. simpl in Hst.
  destruct (Z.eqb_spec k 0) as [->|Hk]; intros Hio'; (split; [|done]); split; simpl; try done.
  intros _. exists ctx. destruct Hst as [[? _]|(_ & _ & ->)]; [done|]. by rewrite lookup_insert_eq.
Qed.

Section callbacks.
Context (b : Z) `{!ReaderCallbacks b}.

Lemma call_if_holds n cb w w' :
  (forall f, cb = Some f -> keeps_in b f) ->
  0 <= n -> in_inv (n + b) w -> call_if cb w = Ok w' -> holds n w w'.
Proof using ReaderCallbacks0.
  intros Hcb Hn Hinv Hcall. destruct cb as [f|]; simpl in Hcall.
  - by eapply (Hcb f eq_refl).
  - simplify_eq. pose proof rd_bound. apply (holds_le (n + b)); [done|lia].
Qed.

Lemma Send_holds n bs w w' :
  0 <= n -> in_inv (n + (b + 1)) w -> Send bs w = Ok w' -> holds n w w'.
Proof using ReaderCallbacks0.
  intros Hn Hinv Hs. pose proof rd_bound. unfold Send in Hs.
  assert (holds n w w) by (apply (holds_le (n + (b + 1))); [done|lia]).
  destruct (bool_decide _); [by simplify_eq|]. destruct (bool_decide _); [|by simplify_eq].
  bind_ok. assert (holds (n + 1) w a) as Ha.
  { assert (holds (n + 1) w w) by (apply (holds_le (n + (b + 1))); [done|lia]).
    destruct HighWaterMarkCallback_ as [f|] eqn:Ef; [|by simplify_eq].
    destruct (_ && _); [|by simplify_eq].
    apply (rd_high f _ Ef (n + 1)) in Hok; [done|lia|].
    by replace (n + 1 + b) with (n + (b + 1)) by lia. }
  apply (holds_trans (n + 1) _ _ a); [done|]. destruct Ha as [Ha _].
  destruct (write_in_flight_ (conn a)); bind_ok.
  - apply same_in; [done..|]. apply (in_inv_le (n + 1)); [done|lia].
  - match goal with |- context [SubmitWriteOnce ?v] => set (w1 := v) end.
    assert (holds (n + 1) a w1) as Hw1 by by apply same_in.
    eapply holds_trans; [exact Hw1|]. apply SubmitWriteOnce_holds; [done|apply Hw1].
Qed.

Lemma OnWriteComplete_holds n c ctx w0 w flag w' :
  0 <= n -> in_inv (n + (b + 1)) w0 ->
  taken_out (write_cancel_key_ (conn w0)) w0 w -> env w = env w0 -> write_in_flight_ (conn w0) = true ->
  OnWriteComplete c ctx w = Ok (flag, w') -> holds n w0 w'.
Proof using ReaderCallbacks0.
  intros Hn [Hio Hwf Hfl] Hout He Hf Hrun. pose proof rd_bound. unfold OnWriteComplete in Hrun.
  pose proof (write_taken_inv _ _ _ Hio Hout Hf) as H1. destruct Hout as (Hc & Hd & _).
  set (w1 := upd_conn (set_writing _ _) w) in *.
  assert (holds (n + (b + 1)) w0 w1) as Hw1.
  { split; [split; [done| |]|]; unfold arrived, w1; simpl; rewrite ?Hc, ?He; try done.
    intros Hr. destruct (Hfl Hr) as (ctx' & Hl & Hinto). exists ctx'. split; [|done].
    rewrite Hd, lookup_delete_ne; [done|]. intros Heq.
    destruct (ii_write _ _ Hio Hf) as (_ & ctx2 & Hl2 & _). congruence. }
  clearbody w1. apply (holds_trans _ _ _ w1 w' Hw1). destruct Hw1 as [Hi1 _].
  assert (forall v, same_io w1 v -> input_buffer_ (conn v) = input_buffer_ (conn w1) ->
    env v = env w1 -> holds n w1 (SubmitWriteOnce v)) as Hsub.
  { intros v ? ? ?. assert (holds (n + 1) w1 v) as Hv
      by (apply same_in; [done..|]; apply (in_inv_le (n + (b + 1))); [done|lia]).
    eapply holds_trans; [exact Hv|]. apply SubmitWriteOnce_holds; [done|apply Hv]. }
  destruct (0 <? cqe_res c).
  - destruct (0 <? _); [simplify_eq; by apply Hsub|].
    destruct (0 <? _); [unfold Swap in Hrun; simplify_eq; by apply Hsub|].
    bind_ok. match goal with Hcall : call_if _ ?v = Ok a |- _ => assert (holds n v a) as Hcb; [
      eapply call_if_holds; [apply rd_write|done| |exact Hcall]|] end.
    { apply (same_in _ w1); [done..|]. apply (in_inv_le (n + (b + 1))); [done|lia]. }
    assert (holds n w1 a) as Ha by done.
    destruct (_ && _); [|done]. eapply holds_trans; [exact Ha|]. apply same_in; [done..|apply Ha].
  - destruct (Eventer.transient _); simplify_eq; [by apply Hsub|].
    unfold DoWithError. assert (in_inv n w1) by (apply (in_inv_le (n + (b + 1))); [done|lia]).
    destruct (_ =? 0); [by apply holds_here|by apply same_in].
Qed.

(** With no read in flight only the write is given up. *)
Lemma CancelPendingIo_holds n w :
  read_in_flight_ (conn w) = false -> in_inv n w -> holds n w (CancelPendingIo w).
Proof using Type.
  intros Hr [Hio Hwf _]. destruct (CancelPendingIo_inv n w Hio) as [Hio' (Hr' & _)].
  assert (input_buffer_ (conn (CancelPendingIo w)) = input_buffer_ (conn w) /\
    env (CancelPendingIo w) = env w) as (Hi & He).
  { unfold CancelPendingIo. repeat case_match; done. }
  split; [split; rewrite ?Hi, ?Hr'; done|]. unfold arrived. by rewrite Hi, He.
Qed.

Lemma others_holds n m w w' :
  0 <= n -> others m w w' -> env w' = env w -> in_inv (n + m) w -> holds n w w'.
Proof using Type.
  intros Hn Hoth He [Hio Hwf Hfl]. pose proof (others_inv n m w w' Hn Hoth Hio) as Hio'.
  destruct Hoth as (Hc & _ & _ & Hsame). split; [split; rewrite ?Hc; try done|].
  - intros Hf. destruct (Hfl Hf) as (ctx & Hl & Hinto).
    destruct (ii_read _ _ Hio Hf) as (_ & ctx' & Hl' & Hs). rewrite Hl in Hl'. simplify_eq.
    exists ctx'. by rewrite (Hsame _ (ReadCtx ctx')).
  - unfold arrived. by rewrite Hc, He.
Qed.

Lemma run_method_holds n m w w' :
  0 <= n -> open_method (read_in_flight_ (conn w)) m = true -> in_inv (n + (b + 1)) w -> run_method m w = Ok w' -> holds n w w'.
Proof using no_multishot ReaderCallbacks0.
  intros Hn Hm Hinv Hrun. pose proof rd_bound.
  assert (in_inv (n + 1) w) as Hone by (apply (in_inv_le (n + (b + 1))); [done|lia]).
  assert (holds n w w) as Hz by (apply (holds_le (n + 1)); [done|lia]).
  assert (forall v, same_io w v -> input_buffer_ (conn v) = input_buffer_ (conn w) -> env v = env w ->
    holds n w v) as Hsame by (intros; apply same_in; [done..|apply Hz]).
  destruct m; simpl in Hm, Hrun; try done; try (by eapply Send_holds);
    try (apply negb_true_iff in Hm; injection Hrun as <-; apply CancelPendingIo_holds; [done|apply Hz]);
    simplify_eq.
  - by apply SubmitReadOnce_holds.
  - by apply SubmitWriteOnce_holds.
  - unfold DoReading. destruct (negb _); [by apply SubmitReadOnce_holds|done].
  - unfold DoWriting. destruct (_ && _); [by apply SubmitWriteOnce_holds|done].
  - unfold ForceCloseAfter. destruct (bool_decide _); [by apply Hsame|done].
  - unfold ShutDownWrite. destruct (bool_decide _); [|done]. destruct (negb _); by apply Hsame.
  - unfold OnEstablishing in Hrun. destruct (bool_decide _); [|by simplify_eq].
    bind_ok. destruct OnConnectionCallback_ as [f|] eqn:Ef; [|done].
    assert (holds (n + (b + 1)) w (upd_conn (set_state kConnected) w)) as H1 by by apply same_in.
    assert (holds (n + 1) (upd_conn (set_state kConnected) w) a) as Ha.
    { eapply (rd_connection f Ef (n + 1)); [lia| |done].
      replace (n + 1 + b) with (n + (b + 1)) by lia. apply H1. }
    eapply holds_trans; [exact H1|]. eapply holds_trans; [exact Ha|].
    apply SubmitReadOnce_holds; [done|apply Ha].
  - unfold SendBuffer in Hrun. bind_ok. by eapply Send_holds.
Qed.

(** What one completed read puts behind the contents of the input buffer. *)
Lemma take_input_arrives c data ctx has_buffer id w w' :
  IoBuffer.wf (input_buffer_ (conn w)) -> reads_into ctx (input_buffer_ (conn w)) ->
  cqe_res c = zlen data -> zlen data < 2 ^ 31 ->
  take_input c data ctx has_buffer id w = Ok w' ->
  exists io, w' = upd_conn (set_input io) w /\ IoBuffer.wf io /\
    readable io = readable (input_buffer_ (conn w)) ++ data.
Proof using Type.
  set (io := input_buffer_ (conn w)). intros Hwf (Hbase & Hwr & Hm) Hres H31 Hrun.
  pose proof (zlen_nonneg data). unfold take_input in Hrun. rewrite Hm in Hrun. cbn [andb] in Hrun.
  fold io in Hrun. unfold kernel_fill in Hrun. rewrite Hbase, Hwr in Hrun. unfold GetWritablePosition in Hrun.
  assert (0 <= GetWritableBytes io) as Hw0 by (rewrite GetWritableBytes_eq by done; destruct Hwf; lia).
  destruct (fill_writable io (ztake (GetWritableBytes io) data))
    as (b1 & Hmem & Hi & Hj & Hwf1 & Hr1 & HW1 & Hsl); [done|zlist|].
  rewrite Hmem in Hrun. cbn [mbind result_bind] in Hrun.
  assert (mkIoBuffer (buffer_ b1) (reading_index_ io) (writing_index_ io) = b1) as Hb1
    by (destruct b1; simpl in *; congruence).
  rewrite Hb1, Hres, u64_small in Hrun by lia. bind_ok.
  exists a. split; [done|].
  assert (forall k, k = zlen (ztake (GetWritableBytes io) data) -> 0 <= k <= GetWritableBytes io ->
    IoBuffer.wf (RefreshW k b1) /\
    readable (RefreshW k b1) = readable io ++ ztake (GetWritableBytes io) data) as Hfull.
  { intros k -> Hk. split; [apply RefreshW_wf; [done|lia]|].
    rewrite RefreshW_readable by (done || lia). by rewrite Hr1, Hj, Hsl. }
  destruct (Z.leb_spec (zlen data) (GetWritableBytes io)) as [Hle|Hgt]; bind_ok.
  - destruct (Hfull (zlen data)) as [? ->]; [by rewrite ztake_all by lia|lia|].
    by rewrite ztake_all by lia.
  - destruct (Hfull (GetWritableBytes io)) as [Hwff Hrf]; [rewrite zlen_ztake; lia|lia|].
    assert (ztake (zlen data -u GetWritableBytes io) (zdrop (GetWritableBytes io) data)
            = zdrop (GetWritableBytes io) data) as Hrest.
    { apply ztake_all. rewrite u64_small by lia. zlist. }
    rewrite Hrest in Hok. apply Append_inv in Hok as (_ & ? & -> & _); [|done|].
    + split; [done|]. rewrite Hrf, <- app_assoc. by rewrite ztake_zdrop.
    + rewrite zlen_zdrop by lia. unfold vector_max_size. lia.
Qed.

(** The completion of the read in flight. *)
Lemma OnReadComplete_arrives n c data ctx w0 w flag w' :
  0 <= n -> in_inv (n + (b + 1)) w0 -> read_in_flight_ (conn w0) = true ->
  in_flight (poller w0) !! read_cancel_key_ (conn w0) = Some (ReadCtx ctx) ->
  taken_out (read_cancel_key_ (conn w0)) w0 w -> env w = env w0 -> one_shot c ->
  cqe_res c = zlen data -> 0 < zlen data < 2 ^ 31 ->
  OnReadComplete c data ctx w = Ok (flag, w') ->
  in_inv n w' /\ arrived w' = arrived w0 ++ data.
Proof using no_multishot ReaderCallbacks0.
  intros Hn [Hio Hwf Hfl] Hf Hl Hout He Hone Hres Hlen Hrun. pose proof rd_bound.
  destruct (Hfl Hf) as (ctx' & Hl' & Hinto). rewrite Hl in Hl'. injection Hl' as <-.
  pose proof (read_taken_inv _ _ _ Hio Hout Hf) as H1. destruct Hout as (Hc & _ & _).
  unfold OnReadComplete in Hrun. unfold one_shot in Hone. rewrite Hone in Hrun. cbn [negb] in Hrun.
  pose proof Hinto as (_ & _ & Hm). rewrite Hm in Hrun. cbn [andb] in Hrun.
  rewrite (proj2 (Z.ltb_lt _ _)) in Hrun by lia.
  set (w1 := upd_conn _ w) in *.
  assert (input_buffer_ (conn w1) = input_buffer_ (conn w0)) as Hin by (unfold w1; simpl; by rewrite Hc).
  assert (read_in_flight_ (conn w1) = false) as Hf1 by done.
  assert (env w1 = env w0) as He1 by done. clearbody w1.
  bind_ok. rewrite <- Hin in Hwf, Hinto.
  match goal with Ht : take_input _ _ _ _ _ _ = Ok _ |- _ =>
    apply take_input_arrives in Ht as (io & -> & Hwf' & Hr'); [|done..|lia] end.
  assert (in_inv (n + (b + 1)) (upd_conn (set_input io) w1)) as H2.
  { split; [by apply (same_io_inv _ w1)|done|]. simpl. by rewrite Hf1. }
  match goal with Hcall : call_if _ _ = Ok ?v |- _ =>
    assert (holds (n + 1) (upd_conn (set_input io) w1) v) as Hcb; [rename Hcall into Hcalled|] end.
  { destruct OnMessageCallback_ as [f|] eqn:Ef; simpl in Hcalled.
    - apply (rd_message f Ef (n + 1)) in Hcalled; [done|lia| |done].
      by replace (n + 1 + b) with (n + (b + 1)) by lia.
    - simplify_eq. apply (holds_le (n + (b + 1))); [done|lia]. }
  pose proof (SubmitReadOnce_holds n _ Hn (proj1 Hcb)) as Hs.
  destruct (holds_trans _ _ _ _ _ Hcb Hs) as [Hi Ha]. split; [done|].
  rewrite Ha. unfold arrived. simpl. by rewrite Hr', He1, Hin, app_assoc.
Qed.

(** A read that has to be tried again, or fails without closing. *)
Lemma OnReadComplete_again n c data ctx w0 w flag w' :
  0 <= n -> in_inv (n + (b + 1)) w0 -> read_in_flight_ (conn w0) = true ->
  in_flight (poller w0) !! read_cancel_key_ (conn w0) = Some (ReadCtx ctx) ->
  taken_out (read_cancel_key_ (conn w0)) w0 w -> env w = env w0 -> one_shot c ->
  cqe_res c < 0 -> read_goes_on (cqe_res c) = true ->
  OnReadComplete c data ctx w = Ok (flag, w') -> holds n w0 w'.
Proof using no_multishot ReaderCallbacks0.
  intros Hn [Hio Hwf Hfl] Hf Hl Hout He Hone Hres Htr Hrun. pose proof rd_bound.
  destruct (Hfl Hf) as (ctx' & Hl' & Hinto). rewrite Hl in Hl'. injection Hl' as <-.
  pose proof (read_taken_inv _ _ _ Hio Hout Hf) as H1. destruct Hout as (Hc & _ & _).
  unfold OnReadComplete in Hrun. unfold one_shot in Hone. rewrite Hone in Hrun. cbn [negb] in Hrun.
  pose proof Hinto as (_ & _ & Hm). rewrite Hm in Hrun. cbn [andb] in Hrun.
  unfold read_goes_on in Htr. rewrite (proj2 (Z.ltb_ge _ _)), (proj2 (Z.ltb_lt _ _)) in Htr by lia.
  rewrite (proj2 (Z.ltb_ge _ _)), (proj2 (Z.eqb_neq _ _)), (proj2 (Z.ltb_lt _ _)) in Hrun by lia.
  cbn [orb andb] in Htr. set (w1 := upd_conn _ w) in *.
  assert (holds (n + 1) w0 w1) as Hw1.
  { split; [split|]; [apply (io_inv_le (n + (b + 1))); [done|lia]|unfold w1; simpl; by rewrite Hc|done|].
    unfold arrived, w1. simpl. by rewrite Hc, He. }
  eapply holds_trans; [exact Hw1|]. destruct (Eventer.transient _).
  - cbn [mbind result_bind] in Hrun. injection Hrun as <- <-.
    apply SubmitReadOnce_holds; [done|apply Hw1].
  - cbn [orb] in Htr. apply negb_true_iff in Htr. rewrite Htr in Hrun.
    cbn [mbind result_bind] in Hrun. injection Hrun as <- <-.
    assert (in_inv n w1) by (apply (in_inv_le (n + 1)); [apply Hw1|lia]).
    unfold DoWithError. case_match; [by apply holds_here|by apply same_in].
Qed.

(** Runs of a connection that gives up no read under way and is not closed;
    [got] is what the kernel delivered with the completed reads. Completions of
    its own writes and the doings of other users of the poller are steps of
    it, too. *)
Inductive in_run (w0 : W) : Z -> list Byte.byte -> W -> Prop :=
| in_start : in_run w0 0 [] w0
| in_call n got w m w' :
    in_run w0 n got w -> open_method (read_in_flight_ (conn w)) m = true -> run_method m w = Ok w' ->
    in_run w0 (n + (b + 1)) got w'
| in_read n got w w1 c data ctx flag w' :
    in_run w0 n got w -> read_in_flight_ (conn w) = true ->
    in_flight (poller w) !! read_cancel_key_ (conn w) = Some (ReadCtx ctx) ->
    taken_out (read_cancel_key_ (conn w)) w w1 -> env w1 = env w -> one_shot c ->
    cqe_res c = zlen data -> 0 < zlen data < 2 ^ 31 ->
    OnReadComplete c data ctx w1 = Ok (flag, w') ->
    in_run w0 (n + (b + 1)) (got ++ data) w'
| in_again n got w w1 c data ctx flag w' :
    in_run w0 n got w -> read_in_flight_ (conn w) = true ->
    in_flight (poller w) !! read_cancel_key_ (conn w) = Some (ReadCtx ctx) ->
    taken_out (read_cancel_key_ (conn w)) w w1 -> env w1 = env w -> one_shot c ->
    cqe_res c < 0 -> read_goes_on (cqe_res c) = true ->
    OnReadComplete c data ctx w1 = Ok (flag, w') -> in_run w0 (n + (b + 1)) got w'
| in_written n got w w1 c ctx flag w' :
    in_run w0 n got w -> write_in_flight_ (conn w) = true ->
    taken_out (write_cancel_key_ (conn w)) w w1 -> env w1 = env w ->
    OnWriteComplete c ctx w1 = Ok (flag, w') -> in_run w0 (n + (b + 1)) got w'
| in_others n got w m w' :
    in_run w0 n got w -> others m w w' -> env w' = env w -> in_run w0 (n + m) got w'.

Lemma in_run_arrives w0 n N got w :
  0 <= n -> in_inv (n + N) w0 -> in_run w0 N got w -> in_inv n w /\ arrived w = arrived w0 ++ got.
Proof using no_multishot ReaderCallbacks0.
  intros Hn Hinv Hrun. pose proof rd_bound as Hb. revert n Hn Hinv.
  assert (forall n N, n + (N + (b + 1)) = n + (b + 1) + N) as Hre by (intros; lia).
  induction Hrun as [|N got w m w' _ IH Ho Hm|N got w w1 c data ctx flag w' _ IH Hf Hl Ht He H1 Hres Hlen Hc
                    |N got w w1 c data ctx flag w' _ IH Hf Hl Ht He H1 Hneg Htr Hc
                    |N got w w1 c ctx flag w' _ IH Hf Ht He Hc|N got w m w' _ IH Ho He]; intros n Hn Hinv.
  { rewrite Z.add_0_r in Hinv. by rewrite app_nil_r. }
  5: { pose proof Ho as (_ & ? & _). replace (n + (N + m)) with (n + m + N) in Hinv by lia.
       destruct (IH (n + m) ltac:(lia) Hinv) as [Hi Ha].
       destruct (others_holds n m w w' Hn Ho He Hi) as [? Ha']. split; [done|congruence]. }
  all: rewrite Hre in Hinv; destruct (IH (n + (b + 1)) ltac:(lia) Hinv) as [Hi Ha].
  - destruct (run_method_holds n m w w' Hn Ho Hi Hm) as [? Ha']. split; [done|congruence].
  - destruct (OnReadComplete_arrives n c data ctx w w1 flag w') as [? Ha']; try done.
    split; [done|]. by rewrite Ha', Ha, app_assoc.
  - destruct (OnReadComplete_again n c data ctx w w1 flag w') as [? Ha']; try done.
    split; [done|congruence].
  - destruct (OnWriteComplete_holds n c ctx w w1 flag w') as [? Ha']; try done.
    split; [done|congruence].
Qed.
End callbacks.
End reader.
End input.

(** ** Two connections *)

Section link.
Context {P E P' E' : Type} `{!BuildConfig}.
Context `{!PollerApi P, !PollerSpec P, !ConnCallbacks (World P E)}.
Context `{!PollerApi P', !PollerSpec P', !ConnCallbacks (World P' E')}.
Context (sb rb : Z) `{!StreamCallbacks (P := P) (E := E) sb}.
Context (taken : E' -> list Byte.byte) `{!ReaderCallbacks (P := P') (E := E') taken rb}.

(** The two ends work in turn, each for as many steps as it likes; [transit] is
    what was written by the one and not yet read by the other. *)
Inductive link (a0 : World P E) (b0 : World P' E')
  : Z -> Z -> list Byte.byte -> World P E -> World P' E' -> Prop :=
| link_start : link a0 b0 0 0 [] a0 b0
| link_send N M transit a b K wire a' :
    link a0 b0 N M transit a b -> out_run sb a K wire a' ->
    link a0 b0 (K + N) M (transit ++ wire) a' b
| link_receive N M data transit a b K b' :
    link a0 b0 N M (data ++ transit) a b -> in_run rb b K data b' ->
    link a0 b0 N (K + M) transit a b'.

(** C3. From one connection to another. Between an open connection that sends
    and an open one that receives, the bytes [Send] took over on the one side
    are at any time exactly, in order and each once: what the callbacks of the
    other side have taken, then what waits in its input buffer, then what is
    under way in the network, then the two output buffers of the sender. This
    holds for any sizes and interleaving of writes and reads, for requests tried
    again, for traffic in the other direction (the sender reads and answers, the
    receiver writes), beside other users of both pollers, and whatever both
    users send in their callbacks -- on the conditions of the output stream for
    the sender; for the receiver: the program is built without multishot
    receives, nobody closes it or stops it while a read is under way, its reads
    do not end in the closing of the connection, and its callbacks do no more
    to the input buffer than take bytes off its front, and that only while no
    read is under way; the keys of requests last. *)
Theorem link_in_order a0 b0 n m N M transit a b :
  writes_taken (P := P) -> recv_multishot_defined = false -> 0 <= n -> 0 <= m ->
  out_inv (n + N) a0 -> in_inv (m + M) b0 -> accepted a0 = backlog a0 -> arrived taken b0 = [] ->
  link a0 b0 N M transit a b ->
  accepted a = (taken (env b) ++ readable (input_buffer_ (conn b))) ++ transit ++ backlog a /\
  out_inv n a /\ in_inv m b.
Proof using StreamCallbacks0 ReaderCallbacks0.
  intros Htake Hno Hn Hm Ho Hi Hacc Harr Hlink. change (taken (env b) ++ _) with (arrived taken b).
  revert n m Hn Hm Ho Hi.
  induction Hlink as [|N M transit a b K wire a' _ IH Hrun|N M data transit a b K b' _ IH Hrun];
    intros n m Hn Hm Ho Hi.
  - rewrite Z.add_0_r in Ho, Hi. by rewrite Harr, Hacc.
  - rewrite Z.add_assoc in Ho. assert (0 <= K) as HK.
    { clear -Hrun StreamCallbacks0. pose proof (sc_bound (b := sb)).
      induction Hrun as [| | |? ? ? ? ? ? ? (_ & ? & _)| |]; lia. }
    destruct (IH (n + K) m) as (Heq & Hoa & Hib); [lia|done..|].
    destruct (out_run_grows sb Htake a n K wire a' Hn Hoa Hrun) as [Ho' (bs & Ha & Hb)].
    split; [|done]. rewrite Ha, Heq, <- !app_assoc. do 2 f_equal. by rewrite Hb.
  - rewrite Z.add_assoc in Hi. assert (0 <= K) as HK.
    { clear -Hrun ReaderCallbacks0. pose proof (rd_bound taken (b := rb)).
      induction Hrun as [| | | | |? ? ? ? ? ? ? (_ & ? & _)]; lia. }
    destruct (IH n (m + K)) as (Heq & Hoa & Hib); [done|lia|done..|].
    destruct (in_run_arrives taken Hno rb b m K data b' Hm Hib Hrun) as [Hi' Ha].
    split; [|done]. by rewrite Heq, Ha, <- !app_assoc.
Qed.
End link.

(** ** An evaluation *)

Module Concrete.
Import ConnectingFacts.Concrete.
#[local] Existing Instance PollerFacts.Concrete.endless_ring.
#[local] Existing Instance PollerFacts.Concrete.old_headers.
#[local] Existing Instance quiet.

Abbreviation R := (World P (list Byte.byte)).

(** A user who takes all that has arrived. *)
Definition consume (w : R) : result R :=
  '(message, io) ← RetrieveAllAsString (input_buffer_ (conn w));
  let w := upd_conn (set_input io) w in
  Ok (mkWorld (conn w) (poller w) (shut_wr w) (closed_fds_ w) (run_after w) (reported w) (so_error w)
        (accepted w) (env w ++ message)).

#[local] Instance reader : ConnCallbacks R := {|
  OnConnectionCallback_ := Some Ok;
  OnMessageCallback_ := Some consume;
  WriteCompleteCallback_ := None;
  HighWaterMarkCallback_ := None;
  CloseCallback_ := None;
|}.

#[local] Instance reader_callbacks : ReaderCallbacks (P := P) (E := list Byte.byte) id 0.
Proof.
  split; try done.
  - intros f Hf n w w' Hn Hinv Hcall. simpl in Hf. simplify_eq. by rewrite Z.add_0_r in Hinv.
  - intros f Hf n w w' Hn [Hio Hwf Hfl] Hidle Hcall. simpl in Hf. simplify_eq.
    rewrite Z.add_0_r in Hio. unfold consume in Hcall.
    destruct (RetrieveAllAsString_ok _ Hwf) as (io & Hr & Hwf' & Hnil & _). rewrite Hr in Hcall.
    cbn [mbind result_bind] in Hcall. simplify_eq. split; [split|].
    + by apply (same_io_inv _ w).
    + done.
    + simpl. by rewrite Hidle.
    + unfold arrived. simpl. by rewrite Hnil, app_nil_r.
Qed.

Definition new_reader : R := mkWorld (Connecting_new 9 6) (Poller_new [] None (0, 0)) 0 [] [] [] 0 [] [].
Definition or_reader (r : result R) : R := match r with Ok w => w | Fault _ => new_reader end.
Definition open_reader : R := or_reader (OnEstablishing new_reader).
Definition read_out : R := set_poller (with_ops (delete 1 (ops_ (poller open_reader))) (poller open_reader)) open_reader.
Definition has_read : R :=
  or_reader ('(_, w) ← OnReadComplete (mkCqe 1 1 0) [Byte.x61] (mkReadContext 9 8 1024 false 0) read_out; Ok w).

Lemma new_reader_in n : n <= 2 ^ 64 - 2 -> in_inv n new_reader.
Proof.
  intros Hn.
  destruct (wf_new (R := list sqe) (Ctx := IoContext + unit) (Fn := ConnFn + unit) [] None (0, 0))
    as (Hwf & Hnext & _).
  split; try done. split; try done. split; [exact Hwf|]. simpl. lia.
Qed.

Lemma reader_run : in_run 0 new_reader 2 [Byte.x61] has_read.
Proof.
  apply (in_read 0 new_reader 1 [] open_reader read_out (mkCqe 1 1 0) [Byte.x61]
           (mkReadContext 9 8 1024 false 0) true).
  - apply (in_call 0 new_reader 0 [] new_reader MOnEstablishing);
      [apply in_start|reflexivity|vm_compute; reflexivity].
  - vm_compute. reflexivity.
  - vm_compute. reflexivity.
  - split; [done|]. split; [|intros n [Hwf Hn]; split; [|done]].
    + change (requests (poller read_out) = delete 1 (requests (poller open_reader))).
      unfold requests, read_out. simpl. by rewrite omap_delete.
    + eapply wf_delete_op; [exact Hwf|vm_compute; reflexivity|discriminate].
  - reflexivity.
  - reflexivity.
  - reflexivity.
  - vm_compute. split; reflexivity.
  - vm_compute. reflexivity.
Qed.

(** [ab] and [cd] are sent, [a] is written and read. *)
Lemma link_in_order_witness :
  accepted (after_write (take_out 2 sending_world))
  = ([Byte.x61] ++ []) ++ [] ++ backlog (after_write (take_out 2 sending_world)).
Proof.
  apply (link_in_order 0 0 id new_world new_reader 0 0 4 2 []
           (after_write (take_out 2 sending_world)) has_read).
  - exact endless_writes.
  - reflexivity.
  - lia.
  - lia.
  - apply new_world_out. lia.
  - apply new_reader_in. lia.
  - vm_compute. reflexivity.
  - vm_compute. reflexivity.
  - apply (link_receive 0 0 new_world new_reader 4 0 [Byte.x61] [] _ new_reader 2); [|exact reader_run].
    apply (link_send 0 0 new_world new_reader 0 0 [] new_world new_reader 4 [Byte.x61]);
      [apply link_start|exact half_written_run].
Defined.
End Concrete.
