(* ===== verification/Reactor.v ===== *)
(** * One loop, its poller and its connections

    The composition of Poller and Connecting as an event loop has them: all
    connections of the loop share its poller, completions find their connection
    through the pointer in their context, connections are made and destroyed
    while requests of others are in flight, and user callbacks may use any
    connection of the loop (src/poller.cc: [HandleCqe]; src/connecting.cc: the
    constructor, the destructor and the completion functions; src/eventer.cc:
    constructor and destructor). Connections are known by their addresses. *)

From stdpp Require Import prelude gmap list.
From S2P Require Import Prelude.
From S2P Require Import IoBuffer.
From S2P Require Import Poller.
From S2P Require Import PollerFacts.
From S2P Require Import Connecting.
From S2P Require Import ConnectingFacts.

(** What [World] keeps of a connection besides its members. *)
Record Ledger := mkLedger {
  shut : nat;
  after : list Z;
  errors : list Z;
  sock_error : Z;
  taken_over : list Byte.byte;
}.
Abbreviation Member := (Connecting * Ledger)%type.

(** What a step of one connection can reach besides it and the poller: the other
    connections of the loop and the user's state. *)
Record Peers (X : Type) := mkPeers { peers : gmap Z Member; user : X }.
Arguments mkPeers {_}.
Arguments peers {_}.
Arguments user {_}.

(** A loop besides its poller: the live connections by address, the descriptors
    handed to [EventManager::DeleteConnection], the user's state. *)
Record LoopState (X : Type) := mkLoopState { members : gmap Z Member; deletions : list Z; loop_user : X }.
Arguments mkLoopState {_}.
Arguments members {_}.
Arguments deletions {_}.
Arguments loop_user {_}.

Section reactor.
Context {R A F X : Type} `{!Ring R, !BuildConfig}.
Abbreviation Ctx := (IoContext + A)%type.
Abbreviation Fn := (ConnFn + F)%type.
Abbreviation P := (Poller R Ctx Fn).
Abbreviation Op := (IoUringOp Ctx Fn).
Abbreviation W := (World P (Peers X)).
Abbreviation S := (Sys R Ctx Fn (LoopState X)).

Definition member_of (w : W) : Member :=
  (conn w, mkLedger (shut_wr w) (run_after w) (reported w) (so_error w) (accepted w)).

(** All connections of the loop, the one whose step it is among them. *)
Definition all_members (w : W) : gmap Z Member := <[self_ (conn w) := member_of w]> (peers (env w)).

Definition world (m : Member) (p : P) (closed : list Z) (others : gmap Z Member) (x : X) : W :=
  mkWorld m.1 p (shut m.2) closed (after m.2) (errors m.2) (sock_error m.2) (taken_over m.2) (mkPeers others x).

(** The step of connection [i] begins and ends. *)
Definition enter (i : Z) (m : Member) (s : S) : W :=
  world m (s_poller s) (deletions (s_env s)) (delete i (members (s_env s))) (loop_user (s_env s)).
Definition leave (w : W) (s : S) : S :=
  mkSys (poller w) (s_eventers s) (active_eventers s)
    (mkLoopState (all_members w) (closed_fds_ w) (user (env w))).

(** A callback of one connection uses another one of the loop. *)
Definition focus (j : Z) (w : W) : option W :=
  m ← peers (env w) !! j;
  Some (world m (poller w) (closed_fds_ w) (delete j (all_members w)) (user (env w))).
Definition at_peer (j : Z) (f : W -> result W) (w : W) : result W :=
  if j =? self_ (conn w) then f w
  else match focus j w with
       | None => Fault OutOfBounds
       | Some w1 =>
           w2 ← f w1;
           match focus (self_ (conn w)) w2 with None => Fault OutOfBounds | Some w3 => Ok w3 end
       end.

(** [Connecting::Connecting], whose eventer registers itself. *)
Definition new_connection (i fd so_error : Z) (s : S) : S :=
  let c := Connecting_new i fd in
  mkSys (AddEventer i (eventer_ c) (s_poller s)) (s_eventers s) (active_eventers s)
    (mkLoopState (<[i := (c, mkLedger 0 [] [] so_error [])]> (members (s_env s))) (deletions (s_env s))
       (loop_user (s_env s))).

(** [Connecting::~Connecting], then [Eventer::~Eventer] of its eventer. *)
Definition delete_connection (i : Z) (m : Member) (s : S) : S :=
  let w := CancelPendingIo (enter i m s) in
  let p := if (Eventer.RemoveMyself (eventer_ (conn w))).2 then RemoveEventer i (poller w) else poller w in
  mkSys p (s_eventers s) (active_eventers s)
    (mkLoopState (delete i (members (s_env s))) (deletions (s_env s)) (loop_user (s_env s))).

(** [delete ctx; op->context = nullptr]. *)
Definition clear_context (op : Op) : Op :=
  mkOp (type op) (eventer op) None (op_fd op) (completion op) (key op) (context_deleter op).

Context `{!ConnCallbacks W}.
(** The bytes the kernel delivered with a completion. *)
Context (kernel_data : cqe -> list Byte.byte).
(** The completion functions and callbacks of the poller's other users. *)
Context (other_complete : F -> cqe -> Op -> S -> result (Op * S)) (other_call : Z -> Eventer.call -> S -> result S).

(** The completion functions of connections: the context leads to the connection,
    and using one that is gone is a fault. *)
Definition run_completion (fn : ConnFn) (c : cqe) (x : IoContext) (w : W) : result (bool * W) :=
  match fn, x with
  | FnOnReadComplete, ReadCtx ctx => OnReadComplete c (kernel_data c) ctx w
  | FnOnWriteComplete, WriteCtx ctx => OnWriteComplete c ctx w
  | _, _ => Fault OutOfBounds
  end.

Definition conn_complete (fn : ConnFn) (c : cqe) (op : Op) (s : S) : result (Op * S) :=
  match context op with
  | Some (inl x) =>
      match members (s_env s) !! ctx_self x with
      | None => Fault OutOfBounds
      | Some m =>
          '(cleared, w) ← run_completion fn c x (enter (ctx_self x) m s);
          Ok (if cleared : bool then clear_context op else op, leave w s)
      end
  | _ => Fault NullPointer
  end.

#[export] Instance loop_handlers : Handlers R Ctx Fn (LoopState X) := {|
  Poller.complete fn c op s :=
    match fn with inl fn => conn_complete fn c op s | inr f => other_complete f c op s end;
  Poller.run_call := other_call;
|}.

(** ** The invariant *)

Definition fn_of (x : IoContext) : ConnFn :=
  match x with ReadCtx _ => FnOnReadComplete | WriteCtx _ => FnOnWriteComplete end.
Definition type_of (x : IoContext) : OpType :=
  match x with ReadCtx _ => kRead | WriteCtx _ => kWrite end.

(** The request a connection makes with context [x]. *)
Definition request_of (x : IoContext) (op : Op) : Prop :=
  context op = Some (inl x) /\ completion op = Some (inl (fn_of x)) /\
  eventer op = Some (ctx_self x) /\ type op = type_of x.

Definition directed (p : P) : Prop :=
  forall k op fn, ops_ p !! k = Some op -> completion op = Some (inl fn) -> exists x, request_of x op.

(** The flags and requests of connection [c] agree ([io_inv]). *)
Definition io_at (n : Z) (c : Connecting) (p : P) : Prop :=
  io_inv n (mkWorld c p 0 [] [] [] 0 [] ()).

(** The loop in order, with [n] keys left: every live connection is registered
    and has exactly the requests its flags say, and every request whose
    completion function would run is one of a live connection. [held] is the key
    of a request whose completion is being handled, which nobody uses. *)
Record loop_ok (held : option Z) (n : Z) (ms : gmap Z Member) (p : P) : Prop := {
  lo_keys : has_keys n p;
  lo_directed : directed p;
  lo_members : forall j m, ms !! j = Some m ->
    self_ m.1 = j /\ is_Some (states_ p !! j) /\ io_at n m.1 p;
  lo_owned : forall k x, requests p !! k = Some x -> is_Some (ms !! ctx_self x);
  lo_held : forall k, held = Some k -> k < next_key_ p /\ ops_ p !! k = None;
}.

(** The same, seen from the connection whose step it is. *)
Definition loop_inv (held : option Z) (n : Z) (w : W) : Prop :=
  peers (env w) !! self_ (conn w) = None /\ loop_ok held n (all_members w) (poller w).

Lemma io_at_inv n (w : W) : io_inv n w <-> io_at n (conn w) (poller w).
Proof. split; intros [? ? ? ? ?]; by split. Qed.

(** The requests of one connection as the poller goes on, others using it. *)
Lemma io_at_frame n m c (p p' : P) :
  io_at (n + m) c p -> has_keys n p' ->
  (forall k x, ctx_self x = self_ c -> requests p' !! k = Some x <-> requests p !! k = Some x) ->
  io_at n c p'.
Proof.
  intros [Hp Hr Hw Hor How] Hk Hio. split; simpl in *; [done|..].
  - intros Hf. destruct (Hr Hf) as (? & ctx & Hl & ?). split; [done|]. exists ctx.
    by rewrite (Hio _ (ReadCtx ctx)).
  - intros Hf. destruct (Hw Hf) as (? & ctx & Hl & ?). split; [done|]. exists ctx.
    by rewrite (Hio _ (WriteCtx ctx)).
  - intros k ctx Hl Hs. apply (Hor k ctx); [|done]. by rewrite <-(Hio _ (ReadCtx ctx)).
  - intros k ctx Hl Hs. apply (How k ctx); [|done]. by rewrite <-(Hio _ (WriteCtx ctx)).
Qed.

Lemma has_keys_kept n m (p p' : P) : has_keys (n + m) p -> kept m p p' -> has_keys n p'.
Proof. intros [_ ?] [? ? _ _]. split; [done|lia]. Qed.

Lemma held_kept (held : option Z) m (p p' : P) :
  kept m p p' -> (forall k, held = Some k -> k < next_key_ p /\ ops_ p !! k = None) ->
  forall k, held = Some k -> k < next_key_ p' /\ ops_ p' !! k = None.
Proof. intros [_ ? Hg _] Hh k Hk. destruct (Hh k Hk). split; [lia|by apply Hg]. Qed.

(** Steps of others that leave the requests of connections alone. *)
Lemma loop_ok_frame held n m ms (p p' : P) :
  loop_ok held (n + m) ms p -> kept m p p' -> directed p' -> requests p' = requests p ->
  (forall j, is_Some (ms !! j) -> is_Some (states_ p !! j) -> is_Some (states_ p' !! j)) ->
  loop_ok held n ms p'.
Proof.
  intros [Hk Hd Hm Ho Hh] Hkept Hd' Hr Hs. pose proof (has_keys_kept _ _ _ _ Hk Hkept).
  split; [done|done| | |by eapply held_kept].
  - intros j mj Hj. destruct (Hm j mj Hj) as (? & ? & Hio). split; [done|].
    split; [by apply Hs; [eexists|]|]. eapply io_at_frame; [exact Hio|done|]. by rewrite Hr.
  - by rewrite Hr.
Qed.

(** Steps of one connection that leave the requests of others alone. *)
Record own_step (m : Z) (w w' : W) : Prop := {
  os_kept : kept m (poller w) (poller w');
  os_directed : directed (poller w) -> directed (poller w');
  os_states : states_ (poller w') = states_ (poller w);
  os_requests : forall k x, ctx_self x <> self_ (conn w) ->
    requests (poller w') !! k = Some x <-> requests (poller w) !! k = Some x;
  os_self : self_ (conn w') = self_ (conn w);
  os_env : env w' = env w;
}.

Lemma loop_own held n m w w' :
  loop_inv held (n + m) w -> own_step m w w' -> io_inv n w' -> loop_inv held n w'.
Proof.
  intros [Hself [Hk Hd Hm Ho Hh]] [Hkept Hd' Hst Hreq Hs He] Hio. unfold loop_inv, all_members in *.
  rewrite Hs, He in *. split; [done|].
  pose proof (has_keys_kept _ _ _ _ Hk Hkept) as Hkeys.
  split; [done|by apply Hd'| | |by eapply held_kept]; rewrite ?Hst.
  - intros j mj [[<- <-]|[Hne Hj]]%lookup_insert_Some.
    + split; [done|]. split; [|by apply io_at_inv].
      destruct (Hm (self_ (conn w)) (member_of w)) as (_ & ? & _); [by rewrite lookup_insert_eq|done].
    + destruct (Hm j mj) as (Hsj & ? & Hioj); [by rewrite lookup_insert_ne|].
      split; [done|]. split; [done|]. eapply io_at_frame; [exact Hioj|done|].
      intros k x Hx. apply Hreq. congruence.
  - intros k x Hx. destruct (decide (ctx_self x = self_ (conn w))) as [->|Hne].
    + rewrite lookup_insert_eq. by eexists.
    + rewrite lookup_insert_ne by done. apply Hreq in Hx; [|done]. apply Ho in Hx.
      by rewrite lookup_insert_ne in Hx.
Qed.

(** ** The requests of a step *)

Lemma directed_insert (p p' : P) k op :
  directed p -> ops_ p' = <[k := op]> (ops_ p) ->
  (forall fn, completion op = Some (inl fn) -> exists x, request_of x op) -> directed p'.
Proof.
  intros Hd Ho Hop k' op' fn. rewrite Ho. intros [[_ <-]|[_ Hl]]%lookup_insert_Some; [apply Hop|by eapply Hd].
Qed.

Lemma directed_delete (p p' : P) k : directed p -> ops_ p' = delete k (ops_ p) -> directed p'.
Proof. intros Hd Ho k' op' fn. rewrite Ho. intros [_ Hl]%lookup_delete_Some. by eapply Hd. Qed.

Lemma own_same m w w' : 0 <= m -> wf (poller w) -> same_io w w' -> env w' = env w -> own_step m w w'.
Proof.
  intros Hm Hwf (Hp & Hs & _) He. split; rewrite ?Hp; try done. by apply kept_frame.
Qed.

Lemma own_trans m m' w1 w2 w3 : own_step m w1 w2 -> own_step m' w2 w3 -> own_step (m + m') w1 w3.
Proof.
  intros [K1 D1 S1 R1 I1 E1] [K2 D2 S2 R2 I2 E2]. split; [by eapply kept_trans|by auto|congruence| |congruence|congruence].
  intros k x Hx. rewrite R2, R1; [done|done|congruence].
Qed.

(** A request of this connection is submitted. *)
Lemma own_submit op_of q x w w' :
  has_keys 1 (poller w) -> ctx_self x = self_ (conn w) ->
  (forall k, key (op_of k) = k) -> (forall k, request_of x (op_of k)) ->
  poller w' = (submit op_of q (poller w)).2 -> self_ (conn w') = self_ (conn w) -> env w' = env w ->
  own_step 1 w w'.
Proof.
  intros [Hwf Hroom] Hx Hkey Hreq Hp Hs He.
  assert (forall k, type (op_of k) <> kPoll) as Ht.
  { intros k. destruct (Hreq k) as (_ & _ & _ & ->). by destruct x. }
  pose proof (kept_submit op_of q (poller w) Hwf ltac:(lia) Hkey Ht) as Hkept. rewrite <-Hp in Hkept.
  destruct (submit_ok op_of q (poller w) Hwf ltac:(lia) Hkey Ht) as [_ _ Hst _ _ Hops].
  rewrite <-Hp in Hst, Hops. split; [done| |done| |done|done].
  - intros Hd. destruct Hops as [[_ Ho]|[_ Ho]]; [intros k op fn; rewrite Ho; apply Hd|].
    eapply directed_insert; [done|exact Ho|]. intros fn _. exists x. apply Hreq.
  - intros k y Hy. unfold requests. destruct Hops as [[_ ->]|[Hk ->]]; [done|].
    rewrite !lookup_omap. destruct (decide (k = (submit op_of q (poller w)).1)) as [->|Hne].
    2: { by rewrite lookup_insert_ne. }
    rewrite lookup_insert_eq, Hk, (wf_fresh_key (poller w)) by (done || lia). simpl.
    destruct (Hreq (next_key_ (poller w))) as (Hc & Hf & _). unfold conn_request. rewrite Hc, Hf.
    split; [|done]. intros ?. simplify_eq.
Qed.

Lemma own_SubmitReadOnce w : has_keys 1 (poller w) -> own_step 1 w (SubmitReadOnce w).
Proof.
  intros Hk. unfold SubmitReadOnce. assert (own_step 1 w w) as Hid by (apply own_same; [lia|apply Hk|done|done]).
  destruct (read_in_flight_ (conn w)); [done|].
  set (ctx := fun multi : bool => ReadCtx (mkReadContext (self_ (conn w)) (GetWritablePosition (input_buffer_ (conn w)))
    (GetWritableBytes (input_buffer_ (conn w))) multi 0)).
  destruct (_ && _) eqn:Em.
  - apply andb_true_iff in Em as [Em _]. simpl. unfold SubmitReadMultishot. rewrite Em.
    match goal with |- context [enqueue _ ?q _] =>
      pose proof (own_submit (fun k => mkOp kRead (Some (self_ (conn w))) (Some (inl (ctx true)))
        (fd_ (conn w)) (Some (inl FnOnReadComplete)) k true) q (ctx true) w) as Hs end.
    unfold submit in Hs. destruct (NormalizeKey 0 (poller w)) as [k p].
    simpl in Hs |- *. destruct (enqueue _ _ _); (destruct (_ =? 0); by apply Hs).
  - simpl. unfold SubmitRead.
    match goal with |- context [enqueue _ ?q _] =>
      pose proof (own_submit (fun k => mkOp kRead (Some (self_ (conn w))) (Some (inl (ctx false)))
        (fd_ (conn w)) (Some (inl FnOnReadComplete)) k true) q (ctx false) w) as Hs end.
    unfold submit in Hs. destruct (NormalizeKey 0 (poller w)) as [k p].
    simpl in Hs |- *. destruct (enqueue _ _ _); (destruct (_ =? 0); by apply Hs).
Qed.

Lemma own_SubmitWriteOnce w : has_keys 1 (poller w) -> own_step 1 w (SubmitWriteOnce w).
Proof.
  intros Hk. unfold SubmitWriteOnce. assert (own_step 1 w w) as Hid by (apply own_same; [lia|apply Hk|done|done]).
  destruct (_ || _); [done|]. set (ctx := WriteCtx _). simpl. unfold SubmitWrite.
  match goal with |- context [enqueue _ ?q _] =>
    pose proof (own_submit (fun k => mkOp kWrite (Some (self_ (conn w))) (Some (inl ctx))
      (fd_ (conn w)) (Some (inl FnOnWriteComplete)) k true) q ctx w) as Hs end.
  unfold submit in Hs. destruct (NormalizeKey 0 (poller w)) as [k p].
  simpl in Hs |- *. destruct (enqueue _ _ _); (destruct (_ =? 0); by apply Hs).
Qed.

(** A request of this connection is cancelled. *)
Lemma own_cancel k x w w' :
  wf (poller w) -> requests (poller w) !! k = Some x -> ctx_self x = self_ (conn w) ->
  poller w' = CancelOp k (poller w) -> self_ (conn w') = self_ (conn w) -> env w' = env w ->
  own_step 0 w w'.
Proof.
  intros Hwf Hx Hs Hp Hs' He. pose proof Hx as Hx'. unfold requests in Hx'. rewrite lookup_omap in Hx'.
  destruct (ops_ (poller w) !! k) as [op|] eqn:Eop; [|done]. simpl in Hx'.
  destruct (wf_ops _ Hwf _ _ Eop) as (_ & Hk & Hpoll).
  assert (api_valid (ApiCancel k) (poller w)) as Hv.
  { intros op' Hop' Ht. simplify_eq. destruct (Hpoll Ht) as [Hc _]. unfold conn_request in Hx'. by rewrite Hc in Hx'. }
  pose proof (kept_CancelOp k _ Hwf Hv) as Hkept. rewrite <-Hp in Hkept.
  assert (ops_ (poller w') = <[k := mark_canceled op]> (ops_ (poller w)) /\
          states_ (poller w') = states_ (poller w)) as [Ho Hst].
  { rewrite Hp. unfold CancelOp. rewrite (proj2 (Z.eqb_neq _ _)), Eop by lia.
    by destruct (io_uring_get_sqe _). }
  split; [done| |done| |done|done].
  - intros Hd. by eapply directed_insert; [done|exact Ho|].
  - intros k' y Hy. unfold requests. rewrite Ho, !lookup_omap.
    destruct (decide (k' = k)) as [->|Hne]; [|by rewrite lookup_insert_ne].
    rewrite lookup_insert_eq, Eop. simpl. rewrite Hx'. split; [done|]. intros ?. by simplify_eq.
Qed.

Lemma loop_self_io held n w : loop_inv held n w -> io_inv n w.
Proof.
  intros [_ Hl]. apply io_at_inv, (lo_members _ _ _ _ Hl (self_ (conn w)) (member_of w)).
  unfold all_members. by rewrite lookup_insert_eq.
Qed.

Lemma own_CancelPendingIo n w : io_inv n w -> own_step 0 w (CancelPendingIo w).
Proof.
  intros Hinv. unfold CancelPendingIo.
  set (w1 := if read_in_flight_ (conn w) then _ else w).
  assert (own_step 0 w w1 /\ io_inv n w1) as [H1 Hinv1].
  { subst w1. destruct (read_in_flight_ (conn w)) eqn:Ef.
    2: { split; [|done]. apply own_same; [lia|apply Hinv|done|done]. }
    destruct (ii_read _ _ Hinv Ef) as (Hk & ctx & Hl & Hs). rewrite (proj2 (Z.eqb_neq _ _)) by done.
    split; [|by apply cancel_read_inv].
    eapply (own_cancel _ (ReadCtx ctx)); [apply Hinv|exact Hl|done..]. }
  clearbody w1. change 0 with (0 + 0). eapply own_trans; [exact H1|].
  destruct (write_in_flight_ (conn w1)) eqn:Ef; [|apply own_same; [lia|apply Hinv1|done|done]].
  destruct (ii_write _ _ Hinv1 Ef) as (Hk & ctx & Hl & Hs). rewrite (proj2 (Z.eqb_neq _ _)) by done.
  eapply (own_cancel _ (WriteCtx ctx)); [apply Hinv1|exact Hl|done..].
Qed.

Lemma loop_ok_le held n m ms p : loop_ok held n ms p -> m <= n -> loop_ok held m ms p.
Proof.
  intros Hl Hle. replace n with (m + (n - m)) in Hl by lia.
  pose proof (lo_keys _ _ _ _ Hl) as [Hwf _]. apply (loop_ok_frame _ _ _ _ _ _ Hl); try done.
  - apply kept_frame; done || lia.
  - apply Hl.
Qed.

#[export] Instance loop_request_inv held : RequestInv (loop_inv held).
Proof.
  split.
  - intros n m w [? Hl] Hle. split; [done|]. by eapply loop_ok_le.
  - intros n w w' Hs He Hl. pose proof (loop_self_io _ _ _ Hl) as Hio.
    eapply (loop_own _ _ 0); [by rewrite Z.add_0_r|apply own_same; try done; apply Hio|].
    by eapply same_io_inv.
  - intros n w Hn Hl. pose proof (loop_self_io _ _ _ Hl) as Hio.
    eapply loop_own; [exact Hl| |by apply SubmitReadOnce_inv].
    apply own_SubmitReadOnce. destruct (ii_ok _ _ Hio). split; [done|lia].
  - intros n w Hn Hl. pose proof (loop_self_io _ _ _ Hl) as Hio.
    eapply loop_own; [exact Hl| |by apply SubmitWriteOnce_inv].
    apply own_SubmitWriteOnce. destruct (ii_ok _ _ Hio). split; [done|lia].
  - intros n w Hl. pose proof (loop_self_io _ _ _ Hl) as Hio.
    eapply (loop_own _ _ 0); [by rewrite Z.add_0_r|by eapply own_CancelPendingIo|by apply CancelPendingIo_inv].
Qed.

(** *** Going from one connection to another *)

Lemma member_of_world m p cl others x : member_of (world m p cl others x) = m.
Proof. by destruct m as [c []]. Qed.

Lemma world_inv held n ms p j m cl x :
  loop_ok held n ms p -> ms !! j = Some m -> loop_inv held n (world m p cl (delete j ms) x).
Proof.
  intros Hl Hj. destruct (lo_members _ _ _ _ Hl j m Hj) as (Hs & _).
  split; unfold all_members; rewrite ?member_of_world; simpl; rewrite Hs.
  - by rewrite lookup_delete_eq.
  - by rewrite insert_delete_id.
Qed.

Lemma focus_inv held n j w w' : loop_inv held n w -> j <> self_ (conn w) -> focus j w = Some w' -> loop_inv held n w'.
Proof.
  intros [_ Hl] Hj Hf. unfold focus in Hf. destruct (peers (env w) !! j) as [m|] eqn:Em; simplify_eq/=.
  eapply world_inv; [done|]. unfold all_members. by rewrite lookup_insert_ne.
Qed.

(** Callbacks may use any connection of the loop. *)
Lemma at_peer_keeps held b j f : keeps (loop_inv held) b f -> keeps (loop_inv held) b (at_peer j f).
Proof.
  intros Hf n w w' Hn Hl Hrun. unfold at_peer in Hrun.
  destruct (Z.eqb_spec j (self_ (conn w))) as [->|Hj]; [by eapply Hf|].
  destruct (focus j w) as [w1|] eqn:E1; [|done]. bind_ok.
  destruct (focus (self_ (conn w)) a) as [w3|] eqn:E3; simplify_eq.
  pose proof (Hf n w1 a Hn (focus_inv _ _ _ _ _ Hl Hj E1) Hok) as Ha.
  eapply focus_inv; [exact Ha| |exact E3]. destruct Ha as [Hnone _].
  intros Heq. unfold focus in E3. rewrite Heq, Hnone in E3. done.
Qed.

Lemma enter_inv held n i m s :
  loop_ok held n (members (s_env s)) (s_poller s) -> members (s_env s) !! i = Some m ->
  loop_inv held n (enter i m s).
Proof. apply world_inv. Qed.

Definition sys_ok (held : option Z) (n : Z) (s : S) : Prop := loop_ok held n (members (s_env s)) (s_poller s).

Lemma leave_ok held n w s : loop_inv held n w -> sys_ok held n (leave w s).
Proof. by intros [_ ?]. Qed.

(** A method of any connection keeps the loop in order. *)
Lemma method_ok b held n i m me s w :
  LawfulCallbacks (loop_inv held) b -> 0 <= n -> sys_ok held (n + (2 * b + 1)) s ->
  members (s_env s) !! i = Some m -> run_method me (enter i m s) = Ok w -> sys_ok held n (leave w s).
Proof.
  intros Hb Hn Hs Hi Hrun. apply leave_ok. eapply (run_method_inv (loop_inv held) b); [done| |done]. by apply enter_inv.
Qed.

(** *** Making and destroying connections *)

(** The poll of an eventer is no request of a connection. *)
Definition quiet (p p' : P) : Prop :=
  (directed p -> directed p') /\ requests p' = requests p /\
  forall j, is_Some (states_ p !! j) -> is_Some (states_ p' !! j).

Lemma quiet_trans p q r : quiet p q -> quiet q r -> quiet p r.
Proof. intros (? & ? & ?) (? & ? & ?). split_and!; [by auto|congruence|by auto]. Qed.

Lemma quiet_same p p' :
  ops_ p' = ops_ p -> (forall j, is_Some (states_ p !! j) -> is_Some (states_ p' !! j)) -> quiet p p'.
Proof.
  intros Ho Hs. split_and!; [|unfold requests; by rewrite Ho|done].
  intros Hd k op fn. rewrite Ho. apply Hd.
Qed.

Lemma quiet_insert p p' k op :
  ops_ p !! k = None -> (forall fn, completion op <> Some (inl fn)) -> ops_ p' = <[k := op]> (ops_ p) ->
  (forall j, is_Some (states_ p !! j) -> is_Some (states_ p' !! j)) -> quiet p p'.
Proof.
  intros Hk Hc Ho Hs. split_and!; [| |done].
  - intros Hd. eapply directed_insert; [done|exact Ho|]. intros fn Hfn. by destruct (Hc fn).
  - unfold requests. rewrite Ho. apply map_eq. intros k'. rewrite !lookup_omap.
    destruct (decide (k' = k)) as [->|Hne]; [|by rewrite lookup_insert_ne].
    rewrite lookup_insert_eq, Hk. simpl. unfold conn_request. repeat case_match; naive_solver.
Qed.

Lemma lookup_insert_mono {V} (m : gmap Z V) i v j : is_Some (m !! j) -> is_Some (<[i := v]> m !! j).
Proof. destruct (decide (j = i)) as [->|]; [by rewrite lookup_insert_eq|by rewrite lookup_insert_ne]. Qed.

Lemma quiet_states ev st p : quiet p (with_states (<[ev := st]> (states_ p)) p).
Proof. apply quiet_same; [done|]. intros j. apply lookup_insert_mono. Qed.

Lemma quiet_SubmitPending p p' : quiet p p' -> quiet p (SubmitPending p').
Proof. done. Qed.

Lemma quiet_SubmitPoll ev e p : wf p -> next_key_ p < 2 ^ 64 - 1 -> quiet p (SubmitPoll ev e p).
Proof.
  intros Hwf Hn. unfold SubmitPoll. destruct (states_ p !! ev) as [st|] eqn:Est; [|by apply quiet_same].
  destruct (_ || _); [by apply quiet_same|]. rewrite NormalizeKey_fresh by done.
  unfold enqueue. simpl. destruct (io_uring_get_sqe _); [|by apply quiet_same].
  eapply quiet_insert; [by apply (wf_fresh_key p (next_key_ p))| |done|]; [done|].
  simpl. intros j. apply lookup_insert_mono.
Qed.

Lemma quiet_CancelPoll ev p : quiet p (CancelPoll ev p).
Proof.
  unfold CancelPoll. repeat case_match; apply quiet_same; try done. intros j. apply lookup_insert_mono.
Qed.

Lemma quiet_AddEventer ev e p : wf p -> next_key_ p < 2 ^ 64 - 1 -> quiet p (AddEventer ev e p).
Proof.
  intros Hwf Hn. eapply quiet_trans; [apply (quiet_states ev (mkState (Eventer.Events e) false 0))|].
  apply quiet_SubmitPending, quiet_SubmitPoll; [by apply wf_disarmed|done].
Qed.

Lemma quiet_ModifyEventer ev e p : wf p -> next_key_ p < 2 ^ 64 - 1 -> quiet p (ModifyEventer ev e p).
Proof.
  intros Hwf Hn. unfold ModifyEventer. destruct (states_ p !! ev) as [st|] eqn:Est; [|by apply quiet_AddEventer].
  eapply quiet_trans; [apply (quiet_states ev)|]. apply quiet_SubmitPending.
  destruct (_ =? 0); [apply quiet_CancelPoll|]. apply quiet_SubmitPoll; [|done].
  pose proof (wf_states _ Hwf _ _ Est) as Hst. by apply wf_insert_state.
Qed.

Lemma RemoveEventer_frame ev (p : P) :
  ops_ (RemoveEventer ev p) = ops_ p /\
  forall j, j <> ev -> is_Some (states_ p !! j) -> is_Some (states_ (RemoveEventer ev p) !! j).
Proof.
  unfold RemoveEventer. destruct (quiet_CancelPoll ev p) as (_ & _ & Hs). split.
  - unfold CancelPoll. by repeat case_match.
  - intros j Hj Hsome. simpl. rewrite lookup_delete_ne by done. by apply Hs.
Qed.

Lemma new_connection_ok held n i fd e s :
  sys_ok held (n + 1) s -> 0 <= n -> members (s_env s) !! i = None ->
  sys_ok held n (new_connection i fd e s).
Proof.
  intros Hs Hn Hi. pose proof (lo_keys _ _ _ _ Hs) as [Hwf Hroom].
  set (c := Connecting_new i fd). set (p' := AddEventer i (eventer_ c) (s_poller s)).
  destruct (quiet_AddEventer i (eventer_ c) (s_poller s) Hwf ltac:(lia)) as (Hd & Hr & Hst).
  pose proof (kept_run_api (ApiAdd i (eventer_ c)) _ Hwf ltac:(lia) ltac:(done)) as Hkept.
  assert (loop_ok held n (members (s_env s)) p') as [K D M O Hh].
  { eapply loop_ok_frame; [exact Hs|exact Hkept|by apply Hd, Hs|exact Hr|]. intros j _. apply Hst. }
  split; simpl; [done|done| | |done].
  - intros j m [[<- <-]|[_ Hj]]%lookup_insert_Some; [|by apply M]. split; [done|]. split.
    + unfold p', AddEventer, SubmitPending. simpl.
      unfold SubmitPoll. simpl. rewrite lookup_insert_eq. simpl. by rewrite lookup_insert_eq.
    + split; simpl; try done; intros k ctx Hl Hself;
        [destruct (O k (ReadCtx ctx) Hl)|destruct (O k (WriteCtx ctx) Hl)]; simpl in *; congruence.
  - intros k x Hx. apply lookup_insert_mono. by apply (O k).
Qed.

Lemma delete_connection_ok held n i m s :
  sys_ok held n s -> members (s_env s) !! i = Some m -> sys_ok held n (delete_connection i m s).
Proof.
  intros Hs Hi. pose proof (enter_inv _ _ _ _ _ Hs Hi) as Hl.
  pose proof (loop_self_io _ _ _ Hl) as Hio.
  assert (self_ (conn (enter i m s)) = i) as Hself by apply (lo_members _ _ _ _ Hs i m Hi).
  destruct (CancelPendingIo_inv _ _ Hio) as [_ (_ & _ & Hidle)].
  pose proof (own_CancelPendingIo _ _ Hio) as Hown. pose proof (ri_cancel _ _ Hl) as [_ [K D M O Hh]].
  unfold delete_connection. set (w := CancelPendingIo (enter i m s)) in *.
  assert (self_ (conn w) = i) as Hw by (rewrite (os_self _ _ _ Hown); done).
  assert (all_members w = <[i := member_of w]> (delete i (members (s_env s)))) as Hall.
  { unfold all_members. by rewrite Hw, (os_env _ _ _ Hown). }
  rewrite Hw in Hidle. rewrite Hall in M, O.
  assert (loop_ok held n (delete i (members (s_env s))) (poller w)) as Hdel.
  { split; [done|done| | |done].
    - intros j mj Hj. apply M. rewrite lookup_insert_ne; [done|]. intros ->. by rewrite lookup_delete_eq in Hj.
    - intros k x Hx. pose proof (Hidle k x Hx). specialize (O k x Hx).
      by rewrite lookup_insert_ne in O. }
  unfold sys_ok. simpl. destruct (Eventer.RemoveMyself _) as [? []]; simpl; [|done].
  destruct (RemoveEventer_frame i (poller w)) as [Ho Hst].
  apply (loop_ok_frame _ _ 0 _ (poller w)); [by rewrite Z.add_0_r|by apply kept_RemoveEventer, K|..].
  - intros k op fn. rewrite Ho. apply D.
  - unfold requests. by rewrite Ho.
  - intros j Hj. apply Hst. intros ->. rewrite lookup_delete_eq in Hj. by destruct Hj.
Qed.

(** *** Everyone else *)

(** The calls of the poller's other users: they cancel no request of a
    connection, know no key of a poll, and do not remove the eventer of a live
    connection. *)
Definition foreign (a : api (Ctx := Ctx) (Fn := Fn)) (s : S) : Prop :=
  match a with
  | ApiAdd _ _ | ApiModify _ _ => True
  | ApiRemove ev => members (s_env s) !! ev = None
  | ApiRead _ _ _ fn _ | ApiReadMultishot _ _ _ fn _ | ApiWrite _ _ _ fn _ | ApiAccept _ _ fn _ _ =>
      exists f, fn = inr f
  | ApiCancel k => forall op, ops_ (s_poller s) !! k = Some op ->
      type op <> kPoll /\ forall fn, completion op <> Some (inl fn)
  end.

Lemma quiet_submit (op_of : Z -> Op) q p :
  wf p -> next_key_ p < 2 ^ 64 - 1 -> (forall k, key (op_of k) = k) -> (forall k, type (op_of k) <> kPoll) ->
  (forall k fn, completion (op_of k) <> Some (inl fn)) -> quiet p (submit op_of q p).2.
Proof.
  intros Hwf Hn Hk Ht Hc. destruct (submit_ok op_of q p Hwf Hn Hk Ht) as [_ _ Hst _ _ Hops].
  destruct Hops as [[_ Ho]|[Hkey Ho]]; [apply quiet_same; [done|by rewrite Hst]|].
  eapply quiet_insert; [|apply Hc|exact Ho|by rewrite Hst]. rewrite Hkey. by apply wf_fresh_key.
Qed.

Lemma quiet_CancelOp k p :
  (forall op, ops_ p !! k = Some op -> forall fn, completion op <> Some (inl fn)) -> quiet p (CancelOp k p).
Proof.
  intros Hc. unfold CancelOp. destruct (k =? 0); [by apply quiet_same|].
  set (p1 := match ops_ p !! k with Some op => _ | None => _ end).
  assert (quiet p p1) as Hp1; [|by destruct (io_uring_get_sqe _)].
  subst p1. destruct (ops_ p !! k) as [op|] eqn:E; [|by apply quiet_same]. split_and!; [|simpl|done].
  - intros Hd. by eapply directed_insert; [done|done|].
  - unfold requests. apply map_eq. intros k'. simpl. rewrite !lookup_omap.
    destruct (decide (k' = k)) as [->|Hne]; [|by rewrite lookup_insert_ne].
    rewrite lookup_insert_eq, E. simpl. unfold conn_request. repeat case_match; naive_solver.
Qed.

Lemma foreign_ok held n a s :
  0 <= n -> sys_ok held (n + 1) s -> foreign a s -> sys_ok held n (upd_poller (run_api a) s).
Proof.
  intros Hn Hs Ha. pose proof (lo_keys _ _ _ _ Hs) as [Hwf Hroom].
  assert (next_key_ (s_poller s) < 2 ^ 64 - 1) as Hn1 by lia.
  assert (api_valid a (s_poller s)) as Hv by (destruct a; simpl in *; naive_solver).
  pose proof (kept_run_api a _ Hwf Hn1 Hv) as Hkept.
  assert (quiet (s_poller s) (run_api a (s_poller s)) -> sys_ok held n (upd_poller (run_api a) s)) as Hq.
  { intros (Hd & Hr & Hst). eapply loop_ok_frame; [exact Hs|done|by apply Hd, Hs|done|]. intros j _. apply Hst. }
  destruct a; simpl in Ha, Hq, Hkept |- *;
    try match type of Ha with exists _, _ => destruct Ha as [f ->] end; [apply Hq|apply Hq| |apply Hq..].
  - by apply quiet_AddEventer.
  - by apply quiet_ModifyEventer.
  - clear Hq. destruct (RemoveEventer_frame ev (s_poller s)) as [Ho Hst].
    eapply loop_ok_frame; [exact Hs|done|..]; simpl.
    + intros k op fn. rewrite Ho. apply Hs.
    + unfold requests. by rewrite Ho.
    + intros j Hj. apply Hst. intros ->. rewrite Ha in Hj. by destruct Hj.
  - by apply (quiet_submit (fun k => mkOp kRead (Some ev) (Some c) _ (Some (inr f)) k true)).
  - unfold SubmitReadMultishot. destruct recv_multishot_defined; [|by apply quiet_same].
    by apply (quiet_submit (fun k => mkOp kRead (Some ev) (Some c) _ (Some (inr f)) k true)).
  - by apply (quiet_submit (fun k => mkOp kWrite (Some ev) (Some c) _ (Some (inr f)) k true)).
  - rewrite SubmitAccept_submit by done. by apply quiet_submit.
  - apply quiet_CancelOp. naive_solver.
Qed.

Section others.
Context (b : Z) `{!forall held, LawfulCallbacks (loop_inv held) b}.

(** What code outside the connections does with the loop: calls of the poller,
    new connections, methods of live ones, and anything that is not the
    poller's. The number bounds the keys used. *)
Inductive uses (s0 : S) : Z -> S -> Prop :=
| uses_nothing : uses s0 0 s0
| uses_api m s a : uses s0 m s -> foreign a s -> uses s0 (m + 1) (upd_poller (run_api a) s)
| uses_new m s i fd e :
    uses s0 m s -> members (s_env s) !! i = None -> uses s0 (m + 1) (new_connection i fd e s)
| uses_method m s i mem me w :
    uses s0 m s -> members (s_env s) !! i = Some mem -> run_method me (enter i mem s) = Ok w ->
    uses s0 (m + (2 * b + 1)) (leave w s)
| uses_rest m s evs act dels x :
    uses s0 m s -> uses s0 m (mkSys (s_poller s) evs act (mkLoopState (members (s_env s)) dels x)).

Lemma uses_ok held m s s' : uses s m s' -> forall n, 0 <= n -> sys_ok held (n + m) s -> sys_ok held n s'.
Proof.
  pose proof (cb_bound (I := loop_inv held)) as Hb.
  induction 1 as [|m s' a _ IH Ha|m s' i fd e _ IH Hi|m s' i mem me w _ IH Hi Hrun|m s' evs act dels x _ IH];
    intros n Hn Hs.
  - by rewrite Z.add_0_r in Hs.
  - apply foreign_ok; [done| |done]. apply IH; [lia|]. by replace (n + 1 + m) with (n + (m + 1)) by lia.
  - apply new_connection_ok; [|done|done]. apply IH; [lia|]. by replace (n + 1 + m) with (n + (m + 1)) by lia.
  - eapply method_ok; [done|done| |exact Hi|exact Hrun]. apply IH; [lia|].
    by replace (n + (2 * b + 1) + m) with (n + (m + (2 * b + 1))) by lia.
  - by apply IH.
Qed.

Class LawfulOthers (B : Z) : Prop := {
  ot_bound : 0 <= B;
  ot_complete : forall f c op s op' s', other_complete f c op s = Ok (op', s') ->
    key op' = key op /\ type op' = type op /\ completion op' = completion op /\
    exists m, m <= B /\ uses s m s';
  ot_call : forall ev c s s', other_call ev c s = Ok s' -> exists m, m <= B /\ uses s m s';
}.
End others.

(** *** Completions *)

Lemma loop_release held n ms c p : loop_ok held n ms p -> loop_ok held n ms (ReleaseBufferFromCqe c p).
Proof.
  intros Hl. destruct (Release_ring c p) as [r ->].
  apply (loop_ok_frame _ _ 0 _ p); [by rewrite Z.add_0_r| |apply Hl|done|done].
  apply kept_frame; try done. apply wf_with_ring, Hl.
Qed.

Lemma loop_freed held n ms f p : loop_ok held n ms p -> loop_ok held n ms (with_freed f p).
Proof.
  intros Hl. apply (loop_ok_frame _ _ 0 _ p); [by rewrite Z.add_0_r| |apply Hl|done|done].
  apply kept_frame; try done. apply wf_with_freed, Hl.
Qed.

Lemma loop_cleanup held n ms op p : loop_ok held n ms p -> loop_ok held n ms (CleanupOpContext op p).2.
Proof. intros Hl. unfold CleanupOpContext. repeat case_match; simpl; [by apply loop_freed|done|done]. Qed.

(** A request that is no connection's leaves the table, or comes back to it. *)
Lemma quiet_delete k op p :
  ops_ p !! k = Some op -> (forall fn, completion op <> Some (inl fn)) ->
  quiet p (with_ops (delete k (ops_ p)) p).
Proof.
  intros Hl Hc. split_and!; [by intros Hd; eapply directed_delete| |done].
  unfold requests. apply map_eq. intros k'. simpl. rewrite !lookup_omap.
  destruct (decide (k' = k)) as [->|Hne]; [|by rewrite lookup_delete_ne].
  rewrite lookup_delete_eq, Hl. simpl. unfold conn_request. repeat case_match; naive_solver.
Qed.

Lemma hold_ok n ms k op p :
  loop_ok None n ms p -> ops_ p !! k = Some op -> type op <> kPoll ->
  (forall fn, completion op <> Some (inl fn)) -> loop_ok (Some k) n ms (with_ops (delete k (ops_ p)) p).
Proof.
  intros Hl Hk Ht Hc. pose proof (lo_keys _ _ _ _ Hl) as [Hwf _].
  destruct (quiet_delete k op p Hk Hc) as (Hd & Hr & Hst).
  assert (kept 0 p (with_ops (delete k (ops_ p)) p)) as Hkept.
  { eapply kept_from_deleted. apply kept_frame; try done. by eapply wf_delete_op. }
  assert (loop_ok None n ms (with_ops (delete k (ops_ p)) p)) as [? ? ? ? _].
  { apply (loop_ok_frame _ _ 0 _ p); [by rewrite Z.add_0_r|done|by apply Hd, Hl|done|done]. }
  split; try done. intros k' ?. simplify_eq. destruct (wf_ops _ Hwf _ _ Hk) as (_ & ? & _).
  simpl. split; [lia|by rewrite lookup_delete_eq].
Qed.

Lemma drop_held held n ms p : loop_ok held n ms p -> loop_ok None n ms p.
Proof. intros [? ? ? ? _]. by split. Qed.

Lemma put_back_ok n ms op p :
  loop_ok (Some (key op)) n ms p -> 0 < key op -> type op <> kPoll -> (forall fn, completion op <> Some (inl fn)) ->
  loop_ok None n ms (with_ops (<[key op := op]> (ops_ p)) p).
Proof.
  intros Hl Hpos Ht Hc. destruct (lo_held _ _ _ _ Hl _ eq_refl) as [Hlt Hnone].
  pose proof (lo_keys _ _ _ _ Hl) as [Hwf Hroom].
  destruct (quiet_insert p (with_ops (<[key op := op]> (ops_ p)) p) (key op) op Hnone Hc eq_refl ltac:(done))
    as (Hd & Hr & _).
  assert (wf (with_ops (<[key op := op]> (ops_ p)) p)) as Hwf' by by apply wf_insert_op.
  pose proof (drop_held _ _ _ _ Hl) as [K D M O _]. split; [by split|by apply Hd| | |done].
  - intros j m Hj. destruct (M j m Hj) as (? & ? & Hio). split; [done|]. split; [done|].
    apply (io_at_frame _ 0 _ p); [by rewrite Z.add_0_r|by split|by rewrite Hr].
  - by rewrite Hr.
Qed.

(** The connection's request leaves the table and its flag is cleared. *)
Lemma take_request_own k x i m s :
  requests (s_poller s) !! k = Some x -> ctx_self x = i -> self_ m.1 = i -> wf (s_poller s) ->
  own_step 0 (enter i m s) (enter i m (upd_poller (fun p => with_ops (delete k (ops_ p)) p) s)) /\
  taken_out k (enter i m s) (enter i m (upd_poller (fun p => with_ops (delete k (ops_ p)) p) s)).
Proof.
  intros Hx Hi Hm Hwf. pose proof Hx as Hop. unfold requests in Hop. rewrite lookup_omap in Hop.
  destruct (ops_ (s_poller s) !! k) as [op|] eqn:Eop; [|done]. simpl in Hop.
  assert (type op <> kPoll) as Ht.
  { intros Ht. destruct (wf_ops _ Hwf _ _ Eop) as (_ & _ & Hp). destruct (Hp Ht) as [Hc _].
    unfold conn_request in Hop. by rewrite Hc in Hop. }
  assert (wf (with_ops (delete k (ops_ (s_poller s))) (s_poller s))) as Hwf' by by eapply wf_delete_op.
  split; [split; simpl; try done|split; [done|split]].
  - eapply kept_from_deleted. by apply kept_frame.
  - intros Hd. by eapply directed_delete.
  - intros k' y Hy. unfold requests. simpl. rewrite !lookup_omap.
    destruct (decide (k' = k)) as [->|Hne]; [|by rewrite lookup_delete_ne].
    rewrite lookup_delete_eq, Eop. simpl. rewrite Hop. split; [done|]. intros ?. simplify_eq.
  - simpl. unfold requests. simpl. apply map_eq. intros k'. rewrite lookup_omap.
    destruct (decide (k' = k)) as [->|Hne]; [by rewrite !lookup_delete_eq|].
    by rewrite !lookup_delete_ne, lookup_omap by done.
  - intros n [_ ?]. by split.
Qed.

Section completions.
Context (b B : Z) {Hcb : forall held, LawfulCallbacks (loop_inv held) b} {Hot : LawfulOthers b B}.

(** The request [op] of a connection finds the connection it is of, alive and
    registered. *)
Lemma request_member n s k op fn :
  sys_ok None n s -> ops_ (s_poller s) !! k = Some op -> completion op = Some (inl fn) ->
  exists x (m : Member), request_of x op /\ fn = fn_of x /\ requests (s_poller s) !! k = Some x /\
    members (s_env s) !! ctx_self x = Some m /\ self_ m.1 = ctx_self x /\
    is_Some (states_ (s_poller s) !! ctx_self x).
Proof.
  intros Hs Hk Hc. destruct (lo_directed _ _ _ _ Hs k op fn Hk Hc) as [x Hx].
  pose proof Hx as (Hctx & Hfn & _). assert (requests (s_poller s) !! k = Some x) as Hr.
  { unfold requests. rewrite lookup_omap, Hk. simpl. unfold conn_request. by rewrite Hfn, Hctx. }
  destruct (lo_owned _ _ _ _ Hs k x Hr) as [m Hm]. exists x, m.
  destruct (lo_members _ _ _ _ Hs _ _ Hm) as (? & ? & _). split_and!; try done. congruence.
Qed.

(** What [HandleCqe] comes to for it. *)
Lemma HandleCqe_request n c s op fn :
  sys_ok None n s -> ops_ (s_poller s) !! cqe_user_data c = Some op -> completion op = Some (inl fn) -> one_shot c ->
  exists x (m : Member), request_of x op /\ fn = fn_of x /\ requests (s_poller s) !! cqe_user_data c = Some x /\
    members (s_env s) !! ctx_self x = Some m /\
    let s1 := upd_poller (fun p => with_ops (delete (cqe_user_data c) (ops_ p)) p) s in
    HandleCqe c s = ('(_, w) ← run_completion fn c x (enter (ctx_self x) m s1);
                     Ok (upd_poller (ReleaseBufferFromCqe c) (leave w s1))).
Proof.
  intros Hs Hk Hc Hone. destruct (request_member _ _ _ _ _ Hs Hk Hc) as (x & m & Hx & Hfn & Hr & Hm & Hself & [st Hst]).
  exists x, m. split_and!; try done. intros s1. pose proof (lo_keys _ _ _ _ Hs) as [Hwf _].
  destruct (wf_ops _ Hwf _ _ Hk) as (_ & Hpos & _). pose proof Hx as (Hctx & _ & Hev & _).
  unfold HandleCqe, LookupOp. rewrite (proj2 (Z.eqb_neq _ _)), Hk, Hc, Hev by lia. simpl.
  rewrite (bool_decide_eq_true_2 (is_Some (states_ (s_poller s) !! ctx_self x))), andb_false_r by by eexists. simpl.
  unfold conn_complete. rewrite Hctx. simpl. rewrite Hm.
  unfold one_shot in Hone. rewrite Hone. cbn [andb].
  destruct (run_completion fn c x _) as [[cleared w]|]; [|done]. by destruct cleared.
Qed.

Lemma run_completion_inv n k c x i m s flag w :
  0 <= n -> sys_ok None (n + (2 * b + 1)) s -> one_shot c -> requests (s_poller s) !! k = Some x -> ctx_self x = i ->
  members (s_env s) !! i = Some m ->
  run_completion (fn_of x) c x (enter i m (upd_poller (fun p => with_ops (delete k (ops_ p)) p) s)) = Ok (flag, w) ->
  loop_inv None n w.
Proof using Hcb.
  intros Hn Hs Hone Hx Hi Hm Hrun. pose proof (enter_inv _ _ _ _ _ Hs Hm) as Hl.
  pose proof (loop_self_io _ _ _ Hl) as Hio.
  destruct (lo_members _ _ _ _ Hs _ _ Hm) as (Hself & _).
  destruct (take_request_own k x i m s Hx Hi Hself (proj1 (lo_keys _ _ _ _ Hs))) as [Hown Hout].
  set (w1 := enter i m (upd_poller _ s)) in *. set (w0 := enter i m s) in *.
  assert (forall f, (forall c, self_ (f c) = self_ c) -> own_step 0 w0 (upd_conn f w1)) as Hown'.
  { intros f Hf. destruct Hown. split; try done. simpl. by rewrite Hf. }
  destruct x as [ctx|ctx]; simpl in Hrun, Hi.
  - destruct (ii_only_read _ _ Hio k ctx Hx (eq_trans Hi (eq_sym Hself))) as [Hf Hk]. rewrite Hk in Hout.
    eapply (OnReadComplete_inv (loop_inv None) b); [done| |done|exact Hrun].
    eapply (loop_own _ _ 0 w0); [by rewrite Z.add_0_r|by apply Hown'|]. by eapply read_taken_inv.
  - destruct (ii_only_write _ _ Hio k ctx Hx (eq_trans Hi (eq_sym Hself))) as [Hf Hk]. rewrite Hk in Hout.
    eapply (OnWriteComplete_inv (loop_inv None) b); [done| |exact Hrun].
    eapply (loop_own _ _ 0 w0); [by rewrite Z.add_0_r|by apply Hown'|]. by eapply write_taken_inv.
Qed.

(** The callbacks an eventer runs for one completion are at most one. *)
Lemma run_calls_ok held n ev cs s s' :
  (length cs <= 1)%nat -> 0 <= n -> sys_ok held (n + B) s -> run_calls ev cs s = Ok s' -> sys_ok held n s'.
Proof using Hcb Hot.
  intros Hlen Hn Hs Hrun. pose proof (ot_bound b). destruct cs as [|c [|? ?]]; simpl in *; [| |lia].
  - simplify_eq. eapply loop_ok_le; [exact Hs|lia].
  - bind_ok. destruct (ot_call b ev c s _ Hok) as (m & Hm & Hu).
    eapply (uses_ok b); [exact Hu|done|]. eapply loop_ok_le; [exact Hs|lia].
Qed.

Lemma HandlePoll_ok n c op s s' :
  0 <= n -> sys_ok None (n + 1) s -> ops_ (s_poller s) !! cqe_user_data c = Some op -> type op = kPoll ->
  HandlePollCqe c op (upd_poller (fun p => with_ops (delete (cqe_user_data c) (ops_ p)) p) s) = Ok s' ->
  sys_ok None n s'.
Proof.
  intros Hn Hs Hk Ht Hh. pose proof (lo_keys _ _ _ _ Hs) as [Hwf Hroom].
  destruct (wf_ops _ Hwf _ _ Hk) as (_ & _ & Hpoll). destruct (Hpoll Ht) as [Hc _].
  pose proof (HandlePollCqe_kept c op _ s s' Hwf ltac:(lia) Hk Hh) as Hkept.
  pose proof (quiet_delete _ op _ Hk ltac:(congruence)) as Hq.
  assert (quiet (s_poller s) (s_poller s') /\ s_env s' = s_env s) as [(Hd & Hr & Hst) He].
  2: { unfold sys_ok. rewrite He. eapply loop_ok_frame; [exact Hs|done|by apply Hd, Hs|done|]. intros j _. apply Hst. }
  unfold HandlePollCqe in Hh. destruct (eventer op) as [ev|] eqn:Eev; [|by simplify_eq].
  simpl in Hh. destruct (states_ (s_poller s) !! ev) as [st|] eqn:Est; [|by simplify_eq].
  bind_ok. pose proof (wf_delete_poll _ _ _ _ (mask st) (poll_key st) Hwf Hk Eev) as Hwf'.
  split; [|by destruct (0 <=? cqe_res c)].
  eapply quiet_trans; [exact Hq|]. eapply quiet_trans; [eapply (quiet_states ev)|].
  destruct (0 <=? cqe_res c); simpl; apply quiet_SubmitPoll; try exact Hwf'; simpl; lia.
Qed.

Lemma HandleByType_ok held n c op s s' :
  type op <> kPoll -> 0 <= n -> sys_ok held (n + B) s -> HandleByType c op s = Ok s' -> sys_ok held n s'.
Proof using Hcb Hot.
  intros Ht Hn Hs Hh. pose proof (ot_bound b). unfold HandleByType in Hh.
  assert (sys_ok held n s) as Hid by (eapply loop_ok_le; [exact Hs|lia]).
  pose proof (loop_release _ _ _ c _ Hs) as Hrel.
  assert (forall cs, (length cs <= 1)%nat -> forall ev,
    run_calls ev cs (upd_poller (ReleaseBufferFromCqe c) s) = Ok s' -> sys_ok held n s') as Hrun.
  { intros cs Hcs ev Hr. eapply (run_calls_ok held n ev cs (upd_poller (ReleaseBufferFromCqe c) s)); [done|done|exact Hrel|done]. }
  destruct (type op); [done| | | |by simplify_eq|by simplify_eq].
  - destruct (eventer op) as [ev|]; [|by apply (Hrun [] ltac:(simpl; lia) 0)].
    destruct (registered _ _); [|by apply (Hrun [] ltac:(simpl; lia) 0)].
    bind_ok. by eapply (Hrun _ (proj1 (on_done_one a _ _))).
  - destruct (eventer op) as [ev|]; [|by simplify_eq].
    destruct (registered _ _); [|by simplify_eq]. bind_ok.
    by eapply (run_calls_ok held n _ _ _ _ (proj1 (proj2 (on_done_one a (cqe_res c) _)))).
  - destruct (eventer op) as [ev|]; [|by simplify_eq]. bind_ok.
    by eapply (run_calls_ok held n _ _ _ _ (proj2 (proj2 (on_done_one a (cqe_res c) 0)))).
Qed.

(** Completions of requests that are no connection's. *)
Lemma HandleCqe_other n c s s' op :
  0 <= n -> sys_ok None (n + B) s -> ops_ (s_poller s) !! cqe_user_data c = Some op -> type op <> kPoll ->
  (forall fn, completion op <> Some (inl fn)) -> HandleCqe c s = Ok s' -> sys_ok None n s'.
Proof using Hcb Hot.
  intros Hn Hs Hk Ht Hc Hh. pose proof (ot_bound b).
  pose proof (hold_ok _ _ _ _ _ Hs Hk Ht Hc) as Hheld.
  destruct (wf_ops _ (proj1 (lo_keys _ _ _ _ Hs)) _ _ Hk) as (Hkey & Hpos & _).
  unfold HandleCqe, LookupOp in Hh. rewrite (proj2 (Z.eqb_neq _ _)), Hk in Hh by lia.
  set (p1 := with_ops (delete (cqe_user_data c) (ops_ (s_poller s))) (s_poller s)) in *.
  destruct (completion op) as [[fn|f]|] eqn:Ecomp; [by destruct (Hc fn)| |].
  - destruct (_ && _); [simplify_eq; simpl|].
    { apply (loop_ok_le _ (n + B)); [|lia]. by eapply drop_held, loop_release, loop_cleanup. }
    bind_ok. destruct (ot_complete b f c op _ _ _ Hok) as (Hk' & Ht' & Hc' & m & Hm & Hu).
    assert (sys_ok (Some (cqe_user_data c)) n s0) as Hs0.
    { eapply (uses_ok b); [exact Hu|done|]. eapply loop_ok_le; [exact Hheld|lia]. }
    apply (loop_release _ _ _ c) in Hs0. destruct (_ && _); simplify_eq; [|by eapply drop_held].
    assert (cqe_user_data c = key i) as Hki by congruence. unfold sys_ok. simpl. rewrite Hki in *.
    apply put_back_ok; [done|lia|congruence|congruence].
  - destruct (CleanupOpContext_op op p1) as (_ & Ht2 & _).
    pose proof (loop_cleanup _ _ _ op _ Hheld) as Hcl. fold p1 in Hcl. simpl in Hh. fold p1 in Hh.
    destruct (CleanupOpContext op p1) as [op2 p2]. simpl in *.
    eapply drop_held, (HandleByType_ok _ n c op2); [congruence|done| |exact Hh]. exact Hcl.
Qed.

(** A completion that is the last one of its request, if that is a
    connection's. *)
Definition last_shot (c : cqe) (s : S) : Prop :=
  forall op fn, ops_ (s_poller s) !! cqe_user_data c = Some op -> completion op = Some (inl fn) -> one_shot c.

Lemma HandleCqe_ok n c s s' :
  0 <= n -> sys_ok None (n + (B + 2 * b + 2)) s -> last_shot c s -> HandleCqe c s = Ok s' -> sys_ok None n s'.
Proof using Hcb Hot.
  intros Hn Hs Hlast Hh. pose proof (ot_bound b). pose proof (cb_bound (I := loop_inv None)).
  destruct (ops_ (s_poller s) !! cqe_user_data c) as [op|] eqn:Hk.
  2: { unfold HandleCqe, LookupOp in Hh. rewrite Hk in Hh.
       assert (sys_ok None n (upd_poller (ReleaseBufferFromCqe c) s)).
       { apply (loop_ok_le _ (n + (B + 2 * b + 2))); [|lia]. by apply loop_release. }
       by destruct (_ =? 0); simplify_eq. }
  destruct (wf_ops _ (proj1 (lo_keys _ _ _ _ Hs)) _ _ Hk) as (Hkey & Hpos & Hpoll).
  destruct (decide (type op = kPoll)) as [Ht|Ht].
  { destruct (Hpoll Ht) as [Hc0 Hx0]. unfold HandleCqe, LookupOp, CleanupOpContext, HandleByType in Hh.
    rewrite (proj2 (Z.eqb_neq _ _)), Hk, Hc0, Hx0, Ht in Hh by lia.
    eapply HandlePoll_ok; [done| |exact Hk|done|exact Hh]. eapply loop_ok_le; [exact Hs|lia]. }
  destruct (completion op) as [[fn|f]|] eqn:Hc.
  - destruct (HandleCqe_request _ _ _ _ _ Hs Hk Hc (Hlast _ _ Hk Hc)) as (x & m & _ & -> & Hx & Hm & Heq).
    simpl in Heq. rewrite Heq in Hh. bind_ok. apply loop_release. eapply leave_ok.
    eapply (run_completion_inv n); [done| |by eapply Hlast|exact Hx|done|exact Hm|exact Hok].
    eapply loop_ok_le; [exact Hs|lia].
  - eapply HandleCqe_other; [done| |exact Hk|done|congruence|exact Hh]. eapply loop_ok_le; [exact Hs|lia].
  - eapply HandleCqe_other; [done| |exact Hk|done|congruence|exact Hh]. eapply loop_ok_le; [exact Hs|lia].
Qed.

(** ** Runs of a loop *)

Inductive loop_run (s0 : S) : Z -> S -> Prop :=
| loop_start : loop_run s0 0 s0
| loop_uses N s m s' : loop_run s0 N s -> uses b s m s' -> 0 <= m -> loop_run s0 (N + m) s'
| loop_cqe N s c s' :
    loop_run s0 N s -> last_shot c s -> HandleCqe c s = Ok s' -> loop_run s0 (N + (B + 2 * b + 2)) s'
| loop_delete N s i m :
    loop_run s0 N s -> members (s_env s) !! i = Some m -> loop_run s0 N (delete_connection i m s).

Lemma loop_run_ok s0 N s : loop_run s0 N s -> forall n, 0 <= n -> sys_ok None (n + N) s0 -> sys_ok None n s.
Proof using Hcb Hot.
  pose proof (ot_bound b). pose proof (cb_bound (I := loop_inv None)).
  induction 1 as [|N s m s' _ IH Hu Hm|N s c s' _ IH Hlast Hh|N s i m _ IH Hm]; intros n Hn Hs.
  - by rewrite Z.add_0_r in Hs.
  - eapply (uses_ok b); [exact Hu|done|]. apply IH; [lia|]. by replace (n + m + N) with (n + (N + m)) by lia.
  - eapply HandleCqe_ok; [done| |exact Hlast|exact Hh]. apply IH; [lia|].
    by replace (n + (B + 2 * b + 2) + N) with (n + (N + (B + 2 * b + 2))) by lia.
  - apply delete_connection_ok; [|done]. by apply IH.
Qed.

(** A loop at its start: no connections, and a poller as it is constructed. *)
Definition loop_new (r : R) (accept_supported : option bool) (cqe_answer : Z * Z)
    (evs : gmap Z Eventer.Eventer) (x : X) : S :=
  mkSys (Poller_new r accept_supported cqe_answer) evs [] (mkLoopState ∅ [] x).

Lemma loop_new_ok n r a q evs x : n <= 2 ^ 64 - 2 -> sys_ok None n (loop_new r a q evs x).
Proof.
  intros Hn. destruct (wf_new (Ctx := Ctx) (Fn := Fn) r a q) as (Hwf & Hnext & _).
  assert (ops_ (Poller_new r a q : P) = ∅) as Ho.
  { unfold Poller_new, RegisterBuffers. by repeat case_match. }
  split; simpl; try done.
  - split; [done|]. rewrite Hnext. lia.
  - intros k op fn. by rewrite Ho, lookup_empty.
  - intros k x'. unfold requests. by rewrite Ho, lookup_omap, lookup_empty.
Qed.

(** What a request in the table says of the connection it is of: its direction
    is in flight, under this key. *)
Definition waits_for (k : Z) (x : IoContext) (c : Connecting) : Prop :=
  match x with
  | ReadCtx _ => read_in_flight_ c = true /\ read_cancel_key_ c = k
  | WriteCtx _ => write_in_flight_ c = true /\ write_cancel_key_ c = k
  end.

Lemma request_waited_for n s k x m :
  sys_ok None n s -> requests (s_poller s) !! k = Some x -> members (s_env s) !! ctx_self x = Some m ->
  waits_for k x m.1.
Proof.
  intros Hs Hx Hm. destruct (lo_members _ _ _ _ Hs _ _ Hm) as (Hself & _ & Hio).
  destruct x as [ctx|ctx]; simpl in *.
  - by destruct (ii_only_read _ _ Hio k ctx Hx (eq_sym Hself)).
  - by destruct (ii_only_write _ _ Hio k ctx Hx (eq_sym Hself)).
Qed.

(** C4. One loop with all its connections: while connections are made, used,
    closed and destroyed in any order, from user callbacks that may use other
    connections of the loop, and the poller serves its other users, every request
    whose completion function would still run belongs to a live, registered
    connection that waits for exactly this request in this direction; handling
    the completion that ends the request runs that connection's completion
    function and nothing else. *)
Theorem completion_reaches_its_connection r a q evs x N s c op fn :
  loop_run (loop_new r a q evs x) N s -> N <= 2 ^ 64 - 2 ->
  ops_ (s_poller s) !! cqe_user_data c = Some op -> completion op = Some (inl fn) -> one_shot c ->
  exists ctx (m : Member),
    request_of ctx op /\ fn = fn_of ctx /\
    members (s_env s) !! ctx_self ctx = Some m /\ is_Some (states_ (s_poller s) !! ctx_self ctx) /\
    waits_for (cqe_user_data c) ctx m.1 /\
    let s1 := upd_poller (fun p => with_ops (delete (cqe_user_data c) (ops_ p)) p) s in
    HandleCqe c s = ('(_, w) ← run_completion fn c ctx (enter (ctx_self ctx) m s1);
                     Ok (upd_poller (ReleaseBufferFromCqe c) (leave w s1))).
Proof using Hcb Hot.
  intros Hrun HN Hk Hc Hone.
  assert (sys_ok None 0 s) as Hs by (eapply loop_run_ok; [exact Hrun|done|by apply loop_new_ok]).
  destruct (HandleCqe_request _ _ _ _ _ Hs Hk Hc Hone) as (ctx & m & Hreq & Hfn & Hx & Hm & Heq).
  exists ctx, m. split_and!; try done.
  - by apply (lo_members _ _ _ _ Hs _ _ Hm).
  - by eapply request_waited_for.
Qed.
End completions.
End reactor.

(** ** Two connections *)

Module Concrete.

#[local] Existing Instance PollerFacts.Concrete.endless_ring.

Abbreviation P := (Poller (list sqe) (IoContext + unit) (ConnFn + unit)).
Abbreviation W := (World P (Peers unit)).
Abbreviation Op := (IoUringOp (IoContext + unit) (ConnFn + unit)).
Abbreviation S := (Sys (list sqe) (IoContext + unit) (ConnFn + unit) (LoopState unit)).

Definition greeting : list Byte.byte := [Byte.x68; Byte.x69].
Definition kernel (_ : cqe) : list Byte.byte := greeting.
Definition no_complete (_ : unit) (_ : cqe) (op : Op) (s : S) : result (Op * S) := Ok (op, s).
Definition no_call (_ : Z) (_ : Eventer.call) (s : S) : result S := Ok s.

Section config.
Context `{!BuildConfig}.

(** A user who, at a message, makes connection 2 stop reading. *)
Definition hushing : ConnCallbacks W := {|
  OnConnectionCallback_ := Some Ok;
  OnMessageCallback_ := Some (at_peer 2 (fun w => Ok (StopReading w)));
  WriteCompleteCallback_ := None;
  HighWaterMarkCallback_ := None;
  CloseCallback_ := None;
|}.
#[local] Existing Instance hushing.

#[export] Instance hushing_lawful held : LawfulCallbacks (loop_inv held) 0.
Proof.
  split; try done; simpl.
  - intros f Hf n w w' Hn Hinv Hcall. simplify_eq. by rewrite Z.add_0_r in Hinv.
  - intros f Hf. simplify_eq. apply at_peer_keeps. intros n w w' Hn Hinv Hcall. simplify_eq.
    rewrite Z.add_0_r in Hinv. by apply ri_cancel.
Qed.

#[export] Instance no_others : LawfulOthers no_complete no_call 0 0.
Proof.
  split; [done| |].
  - intros f c op s op' s' Hc. unfold no_complete in Hc. simplify_eq. split_and!; [done..|].
    exists 0. split; [done|]. constructor.
  - intros ev c s s' Hc. unfold no_call in Hc. simplify_eq. exists 0. split; [done|]. constructor.
Qed.

(** The step of connection [i], if it succeeds. *)
Definition step (i : Z) (me : method) (s : S) : option S :=
  m ← members (s_env s) !! i;
  match run_method me (enter i m s) with Ok w => Some (leave w s) | Fault _ => None end.
Definition do (i : Z) (me : method) (s : S) : S := default s (step i me s).

Lemma uses_do s0 n s i me :
  uses 0 s0 n s -> bool_decide (is_Some (step i me s)) = true -> uses 0 s0 (n + (2 * 0 + 1)) (do i me s).
Proof.
  intros Hu Hs%bool_decide_eq_true. unfold do. destruct (step i me s) as [s'|] eqn:E; [|by destruct Hs]. simpl.
  unfold step in E. destruct (members (s_env s) !! i) as [m|] eqn:Em; [|done]. simpl in E.
  destruct (run_method me (enter i m s)) as [w|] eqn:Er; [|done]. simplify_eq. by eapply uses_method.
Qed.

Definition start : S := loop_new [] None (0, 0) ∅ ().
Definition two : S := new_connection 2 6 0 (new_connection 1 5 0 start).

(** Both connections established, a read of each in flight. *)
Definition reading : S := do 2 MOnEstablishing (do 1 MOnEstablishing two).

Lemma reading_run :
  bool_decide (is_Some (step 1 MOnEstablishing two)) = true ->
  bool_decide (is_Some (step 2 MOnEstablishing (do 1 MOnEstablishing two))) = true ->
  loop_run kernel no_complete no_call 0 0 start 4 reading.
Proof.
  intros H1 H2. apply (loop_uses _ _ _ _ _ _ 0 start 4); [constructor| |done].
  apply (uses_do _ 3); [|done]. apply (uses_do _ 2); [|done].
  apply (uses_new _ _ 1); [|done]. apply (uses_new _ _ 0); [|done]. constructor.
Qed.
End config.

#[local] Existing Instance PollerFacts.Concrete.old_headers.
#[local] Existing Instance hushing.
#[local] Existing Instance loop_handlers.

(** The completion of the read of connection 1 is its own. *)
Lemma completion_reaches_its_connection_witness :
  exists ctx (m : Member), ctx_self ctx = 1 /\
    members (s_env reading) !! 1 = Some m /\ waits_for 1 ctx m.1.
Proof.
  assert (exists op, ops_ (s_poller reading) !! 1 = Some op /\
    completion op = Some (inl FnOnReadComplete) /\ eventer op = Some 1) as (op & Hop & Hc & He)
    by (eexists; split; [reflexivity|split; reflexivity]).
  destruct (completion_reaches_its_connection kernel no_complete no_call 0 0 [] None (0, 0) ∅ () 4 reading
              (mkCqe 1 2 0) op FnOnReadComplete) as (ctx & m & Hreq & _ & Hm & _ & Hw & _).
  - apply reading_run; vm_compute; reflexivity.
  - vm_compute. discriminate.
  - exact Hop.
  - exact Hc.
  - reflexivity.
  - destruct Hreq as (_ & _ & He' & _). rewrite He in He'. injection He' as He'.
    exists ctx, m. rewrite <-He' in Hm. split; [done|]. split; [exact Hm|exact Hw].
Defined.

(** A connection that is destroyed leaves the kernel's request behind: closing
    cancels the read and clears its flag, so [HasPendingIo] is false at once and
    nothing waits for the kernel, whose [readv] points into the connection's
    input buffer until the cancellation is carried out. *)
Definition pending (i : Z) (s : S) : option bool := m ← members (s_env s) !! i; Some (HasPendingIo m.1).
Definition destroy (i : Z) (s : S) : S :=
  match members (s_env s) !! i with Some m => delete_connection i m s | None => s end.

Lemma destroyed_while_kernel_reads :
  pending 1 reading = Some true /\ pending 1 (do 1 MForceClose reading) = Some false /\
  exists op, ops_ (s_poller (destroy 1 (do 1 MForceClose reading))) !! 1 = Some op /\
    type op = kRead /\ exists ctx, context op = Some (inl (ReadCtx ctx)) /\ rc_self ctx = 1.
Proof. split; [reflexivity|]. split; [reflexivity|]. eexists. split; [reflexivity|]. split; [reflexivity|]. eexists. by split. Qed.

(** *** Multishot reads *)

Definition new_headers : BuildConfig := {| recv_multishot_defined := true; accept_multishot_defined := true |}.

(** A user who closes the connection at a message. *)
Definition leaving (H : BuildConfig) : ConnCallbacks W := {|
  OnConnectionCallback_ := Some Ok;
  OnMessageCallback_ := Some (ForceClose (ConnCallbacks0 := hushing (H := H)));
  WriteCompleteCallback_ := None;
  HighWaterMarkCallback_ := None;
  CloseCallback_ := None;
|}.

(** [HandleCqe] of such a loop. *)
Definition on_cqe (c : cqe) (s : S) : S :=
  match HandleCqe (H := new_headers)
          (Handlers0 := loop_handlers (H := new_headers) (ConnCallbacks0 := leaving new_headers)
                          kernel no_complete no_call) c s with
  | Ok s' => s'
  | Fault _ => s
  end.

(** A message arrives with more to come, the callback closes the connection, and
    the request goes back into the table with its completion function. When the
    connection is destroyed and another one is made at its address, the last
    completion of the old request reaches the new one, whose own read is in
    flight while its flag says otherwise. *)
Definition more_to_come : cqe := mkCqe 1 2 (Z.lor IORING_CQE_F_BUFFER IORING_CQE_F_MORE).
Definition cancelled : cqe := mkCqe 1 (- 125) 0.
Definition closed_in_callback : S :=
  on_cqe more_to_come (do (H := new_headers) 1 MOnEstablishing
    (new_connection 1 5 0 (start (H := new_headers)))).
Definition reused : S :=
  do (H := new_headers) 1 MOnEstablishing
    (new_connection 1 6 0 (destroy 1 closed_in_callback)).

Lemma multishot_outlives_its_connection :
  pending 1 closed_in_callback = Some false /\
  (exists op, ops_ (s_poller closed_in_callback) !! 1 = Some op /\ completion op = Some (inl FnOnReadComplete)) /\
  pending 1 reused = Some true /\ pending 1 (on_cqe cancelled reused) = Some false /\
  exists op, ops_ (s_poller (on_cqe cancelled reused)) !! 2 = Some op /\
    completion op = Some (inl FnOnReadComplete) /\ op_fd op = 6.
Proof.
  split; [vm_compute; reflexivity|]. split; [eexists; split; vm_compute; reflexivity|].
  split; [vm_compute; reflexivity|]. split; [vm_compute; reflexivity|].
  eexists. split; [vm_compute; reflexivity|]. split; reflexivity.
Qed.

End Concrete.
