(* ===== verification/LoopSteps.v ===== *)
(** * Steps of the connections of one loop

    Shared by EventLoop and LoopRun: what steps of one connection leave alone,
    properties of all connections of a loop seen from one of them, and the
    methods, completion functions and [HandleCqe] that keep them. *)

From stdpp Require Import prelude gmap list.
From S2P Require Import Prelude.
From S2P Require Import IoBuffer.
From S2P Require Import Poller.
From S2P Require Import PollerFacts.
From S2P Require Import Connecting.
From S2P Require Import ConnectingFacts.
From S2P Require Import Reactor.

(** ** What handling completions does besides the poller *)

Section handlers.
Context {R Ctx Fn E : Type} `{!Ring R, !BuildConfig, !Handlers R Ctx Fn E}.
Abbreviation S := (Sys R Ctx Fn E).
Context (Q : E -> Prop).
Context (Hcomplete : forall fn c op (s : S) op' s', Poller.complete fn c op s = Ok (op', s') -> Q (s_env s) -> Q (s_env s')).
Context (Hcall : forall ev c (s s' : S), Poller.run_call ev c s = Ok s' -> Q (s_env s) -> Q (s_env s')).

Lemma run_calls_env ev cs (s s' : S) : run_calls ev cs s = Ok s' -> Q (s_env s) -> Q (s_env s').
Proof using Hcall.
  revert s. induction cs as [|c cs IH]; intros s Hrun Hs; simpl in Hrun; [by simplify_eq|].
  bind_ok. eapply IH; [done|]. by eapply Hcall.
Qed.

Lemma HandleCqe_env c (s s' : S) : HandleCqe c s = Ok s' -> Q (s_env s) -> Q (s_env s').
Proof using Hcomplete Hcall.
  intros Hh Hs. unfold HandleCqe in Hh. destruct (_ =? 0); [by simplify_eq|].
  destruct (LookupOp _ _) as [[op|] p]; [|by simplify_eq]. destruct (completion op) as [fn|].
  - destruct (_ && _); [by simplify_eq|]. bind_ok. apply Hcomplete in Hok; [|done].
    destruct (_ && _); by simplify_eq.
  - destruct (CleanupOpContext _ _) as [op' p']. unfold HandleByType in Hh.
    destruct (type op'); simpl in Hh; try by simplify_eq.
    + unfold HandlePollCqe in Hh. destruct (eventer op'); [|by simplify_eq].
      destruct (_ !! _); [|by simplify_eq]. bind_ok. by destruct (0 <=? _).
    + destruct (eventer op'); [|by simplify_eq]. destruct (bool_decide _); [|by simplify_eq].
      bind_ok. by eapply run_calls_env.
    + destruct (eventer op'); [|by simplify_eq]. destruct (bool_decide _); [|by simplify_eq].
      bind_ok. by eapply run_calls_env.
    + destruct (eventer op'); [|by simplify_eq]. bind_ok. by eapply run_calls_env.
Qed.

Lemma drain_env limit budget start now clock handled peeks (s s' : S) n :
  drain limit budget start now clock handled peeks s = Ok (n, s') -> Q (s_env s) -> Q (s_env s').
Proof using Hcomplete Hcall.
  revert now clock handled s. induction peeks as [|[c|e] peeks IH]; intros now clock handled s Hd Hs;
    cbn [drain] in Hd; (destruct (_ || _); [|by simplify_eq]);
    destruct (if 0 <? budget then _ else _) as [now' clock']; (destruct (_ && _); [by simplify_eq|]); try by simplify_eq.
  bind_ok. eapply IH; [done|]. by eapply HandleCqe_env.
Qed.

Lemma Poll_env timeout wait peeks start clock (s s' : S) n :
  Poll timeout wait peeks start clock s = Ok (n, s') -> Q (s_env s) -> Q (s_env s').
Proof using Hcomplete Hcall.
  intros Hp Hs. unfold Poll in Hp. destruct (wait _); [|by simplify_eq]. bind_ok.
  apply HandleCqe_env in Hok; [|done]. simpl. by eapply drain_env.
Qed.
End handlers.

Section steps.
Context {R A F X : Type} `{!Ring R, !BuildConfig}.
Abbreviation Ctx := (IoContext + A)%type.
Abbreviation Fn := (ConnFn + F)%type.
Abbreviation P := (Poller R Ctx Fn).
Abbreviation W := (World P (Peers X)).

(** ** Steps that close nothing *)

Record calm (w w' : W) : Prop := {
  ca_self : self_ (conn w') = self_ (conn w);
  ca_fd : fd_ (conn w') = fd_ (conn w);
  ca_eventer : eventer_ (conn w') = eventer_ (conn w);
  ca_state : state_ (conn w') = kDisconnected -> state_ (conn w) = kDisconnected;
  ca_retries : pending_io_retries_ (conn w') = pending_io_retries_ (conn w);
  ca_closed : closed_fds_ w' = closed_fds_ w;
  ca_env : env w' = env w;
}.

(** Most of them do not change the state of the connection either. *)
Definition still (w w' : W) : Prop := calm w w' /\ state_ (conn w') = state_ (conn w).

Lemma still_trans w1 w2 w3 : still w1 w2 -> still w2 w3 -> still w1 w3.
Proof. intros [[? ? ? ? ? ? ?] ?] [[? ? ? ? ? ? ?] ?]. split; [|congruence]. split; try congruence. Qed.

Lemma still_SubmitReadOnce w : still w (SubmitReadOnce w).
Proof.
  unfold SubmitReadOnce. destruct (read_in_flight_ _); [done|].
  destruct (if _ && _ then _ else _) as [k p]. by destruct (k =? 0).
Qed.

Lemma still_SubmitWriteOnce w : still w (SubmitWriteOnce w).
Proof.
  unfold SubmitWriteOnce. destruct (_ || _); [done|].
  destruct (pa_SubmitWrite _ _ _ _ _) as [k p]. by destruct (k =? 0).
Qed.

Lemma still_CancelPendingIo w : still w (CancelPendingIo w).
Proof.
  unfold CancelPendingIo. destruct (read_in_flight_ (conn w)); cbv zeta;
    destruct (negb (read_cancel_key_ (conn w) =? 0)); cbn [upd_conn conn set_reading write_in_flight_ write_cancel_key_ set_poller];
    destruct (write_in_flight_ (conn w)); try destruct (negb (write_cancel_key_ (conn w) =? 0)); done.
Qed.

Lemma still_DoWithError err w : still w (DoWithError err w).
Proof. unfold DoWithError. by destruct (_ =? 0). Qed.

(** ** From one connection to another *)

(** A property of all connections, the list of descriptors and the user's state,
    seen from connection [i]. *)
Definition at_member (J : gmap Z Member -> list Z -> X -> Prop) (i : Z) (w : W) : Prop :=
  self_ (conn w) = i /\ peers (env w) !! i = None /\ J (all_members w) (closed_fds_ w) (user (env w)).

(** Connections are kept under their addresses. *)
Class Addressed (J : gmap Z Member -> list Z -> X -> Prop) : Prop :=
  addressed : forall ms dels x i (m : Member), J ms dels x -> ms !! i = Some m -> self_ m.1 = i.

Section addressed.
Context (J : gmap Z Member -> list Z -> X -> Prop) `{!Addressed J}.

Lemma world_at i (m : Member) ms (p : P) dels x :
  J ms dels x -> ms !! i = Some m -> at_member J i (world m p dels (delete i ms) x).
Proof using Addressed0.
  intros Hj Hi. pose proof (addressed _ _ _ _ _ Hj Hi) as Hs. split; [done|].
  split; simpl; [by rewrite lookup_delete_eq|].
  unfold all_members. rewrite member_of_world. simpl. by rewrite Hs, insert_delete_id.
Qed.

(** Callbacks that use other connections. *)
Lemma at_peer_at j (f : W -> result W) :
  (forall i, keeps (fun _ => at_member J i) 0 f) -> forall i, keeps (fun _ => at_member J i) 0 (at_peer j f).
Proof using Addressed0.
  intros Hf i n w w' Hn Hw Hrun. unfold at_peer in Hrun.
  pose proof Hw as (Hs & Hp & Hall). rewrite Hs in Hrun.
  destruct (Z.eqb_spec j i) as [->|Hj]; [by eapply Hf|].
  destruct (focus j w) as [w1|] eqn:E1; [|done]. bind_ok.
  destruct (focus i a) as [w3|] eqn:E3; simplify_eq.
  assert (at_member J j w1) as H1.
  { unfold focus in E1. destruct (peers (env w) !! j) as [m|] eqn:Em; simplify_eq/=.
    apply world_at; [done|]. unfold all_members. by rewrite lookup_insert_ne. }
  pose proof (Hf j n w1 a Hn H1 Hok) as (Hsa & Hpa & Ha).
  unfold focus in E3. destruct (peers (env a) !! self_ (conn w)) as [m|] eqn:Em; simplify_eq/=.
  apply world_at; [done|]. unfold all_members. rewrite lookup_insert_ne; [done|congruence].
Qed.
End addressed.

(** ** Methods and completions *)

(** A property [I] that steps keep, and [Ic] for the time between the two ends of
    closing a connection, when the user is told. *)
Class ClosingInv (I Ic : W -> Prop) : Prop := {
  ci_still : forall w w', I w -> still w w' -> I w';
  ci_closing_still : forall w w', Ic w -> still w w' -> Ic w';
  ci_state : forall st w, I w -> state_ (conn w) <> kDisconnected -> st <> kDisconnected ->
    I (upd_conn (set_state st) w);
  ci_begin : forall w, I w -> state_ (conn w) <> kDisconnected -> Ic (upd_conn (set_state kDisconnected) w);
  ci_end : forall w, Ic w -> I (DeleteConnection (fd_ (conn w)) w);
}.

Section closing_inv.
Context `{!ConnCallbacks W} (I Ic : W -> Prop) `{!ClosingInv I Ic}.
Context {Hcb : LawfulCallbacks (fun _ => I) 0} {Hcbc : LawfulCallbacks (fun _ => Ic) 0}.

Lemma keeps_call (K : W -> Prop) f w w' : keeps (fun _ => K) 0 f -> K w -> f w = Ok w' -> K w'.
Proof. intros Hk Hw Hrun. by apply (Hk 0 w w'). Qed.

Lemma keeps_call_if (K : W -> Prop) cb w w' :
  (forall f, cb = Some f -> keeps (fun _ => K) 0 f) -> K w -> call_if cb w = Ok w' -> K w'.
Proof.
  intros Hk Hw Hrun. destruct cb as [f|]; simpl in Hrun; [|by simplify_eq].
  by eapply keeps_call; [apply Hk|..].
Qed.

(** The closing of an open connection, up to the request to destroy it. *)
Lemma DoClosing_steps w w' :
  I w -> state_ (conn w) <> kDisconnected -> DoClosing w = Ok w' ->
  exists w1, Ic w1 /\ w' = DeleteConnection (fd_ (conn w1)) w1.
Proof using ClosingInv0 Hcbc.
  intros Hi Hst Hrun. unfold DoClosing in Hrun. rewrite bool_decide_true in Hrun by done. bind_ok.
  eexists. split; [|done]. eapply keeps_call_if; [apply cb_close| |exact Hok1].
  eapply keeps_call_if; [apply cb_connection| |exact Hok].
  eapply ci_closing_still; [|apply still_CancelPendingIo]. eapply ci_closing_still; [|apply still_CancelPendingIo].
  by apply ci_begin.
Qed.

Lemma DoClosing_keeps w w' : I w -> DoClosing w = Ok w' -> I w'.
Proof using ClosingInv0 Hcbc.
  intros Hi Hrun. destruct (decide (state_ (conn w) = kDisconnected)) as [Hd|Hd].
  - unfold DoClosing in Hrun. rewrite bool_decide_false in Hrun by naive_solver. by simplify_eq.
  - destruct (DoClosing_steps w w' Hi Hd Hrun) as (w1 & Hw1 & ->). by apply ci_end.
Qed.

Lemma ForceClose_keeps w w' : I w -> ForceClose w = Ok w' -> I w'.
Proof using ClosingInv0 Hcbc.
  intros Hi Hrun. unfold ForceClose in Hrun. destruct (bool_decide_reflect (state_ (conn w) <> kDisconnected)); [|by simplify_eq].
  eapply DoClosing_keeps; [|done]. by apply ci_state.
Qed.

Lemma Send_keeps bs w w' : I w -> Send bs w = Ok w' -> I w'.
Proof using ClosingInv0 Hcb.
  intros Hi Hrun. unfold Send in Hrun. destruct (bool_decide _); [by simplify_eq|].
  destruct (bool_decide _); [|by simplify_eq]. bind_ok. assert (I a) as Ha.
  { destruct HighWaterMarkCallback_ as [f|] eqn:Ef; [|by simplify_eq].
    destruct (_ && _); [|by simplify_eq]. by eapply keeps_call; [by apply cb_high|..]. }
  destruct (write_in_flight_ (conn a)); bind_ok; [by eapply ci_still; [exact Ha|]|].
  eapply ci_still; [|apply still_SubmitWriteOnce]. by eapply ci_still; [exact Ha|].
Qed.

Lemma run_method_keeps me w w' : I w -> run_method me w = Ok w' -> I w'.
Proof using ClosingInv0 Hcb Hcbc.
  intros Hi Hrun. assert (forall w1, still w w1 -> I w1) as Hstill by (intros; by eapply ci_still).
  destruct me; simpl in Hrun.
  - simplify_eq. apply Hstill, still_SubmitReadOnce.
  - simplify_eq. apply Hstill, still_CancelPendingIo.
  - simplify_eq. apply Hstill, still_SubmitWriteOnce.
  - simplify_eq. apply Hstill, still_CancelPendingIo.
  - simplify_eq. unfold DoReading. destruct (negb _); [apply Hstill, still_SubmitReadOnce|done].
  - simplify_eq. unfold DoWriting. destruct (_ && _); [apply Hstill, still_SubmitWriteOnce|done].
  - by eapply DoClosing_keeps.
  - by eapply ForceClose_keeps.
  - simplify_eq. unfold ForceCloseAfter. destruct (bool_decide _); [by apply Hstill|done].
  - simplify_eq. unfold ShutDownWrite. destruct (bool_decide_reflect (state_ (conn w) = kConnected)) as [Hst|]; [|done].
    assert (I (upd_conn (set_state kDisconnecting) w)) as H1 by (apply ci_state; [done|congruence|done]).
    destruct (negb _); [by eapply ci_still; [exact H1|]|done].
  - unfold OnEstablishing in Hrun. destruct (bool_decide_reflect (state_ (conn w) = kConnecting)) as [Hst|]; [|by simplify_eq].
    bind_ok. eapply ci_still; [|apply still_SubmitReadOnce]. destruct OnConnectionCallback_ as [f|] eqn:Ef; [|done].
    eapply keeps_call; [by apply cb_connection| |done]. apply ci_state; [done|congruence|done].
  - by eapply Send_keeps.
  - unfold SendBuffer in Hrun. bind_ok. by eapply Send_keeps.
Qed.

Lemma OnReadComplete_keeps c data ctx w flag w' : I w -> OnReadComplete c data ctx w = Ok (flag, w') -> I w'.
Proof using ClosingInv0 Hcb Hcbc.
  intros Hi Hrun. unfold OnReadComplete in Hrun.
  destruct (_ && _ && _); [simplify_eq; by eapply ci_still; [exact Hi|]|]. cbv zeta in Hrun.
  set (w1 := if negb _ then upd_conn _ w else w) in Hrun.
  assert (I w1) as H1 by (subst w1; destruct (negb _); [by eapply ci_still; [exact Hi|]|done]).
  clearbody w1. assert (forall w2 : W, I w2 ->
    I (if negb (has_bits (cqe_flags c) IORING_CQE_F_MORE) then SubmitReadOnce w2 else w2)) as Hagain.
  { intros w2 H2. destruct (negb _); [by eapply ci_still; [exact H2|apply still_SubmitReadOnce]|done]. }
  bind_ok. destruct (0 <? cqe_res c).
  - bind_ok. apply Hagain. eapply keeps_call_if; [apply cb_message| |exact Hok].
    unfold take_input in Hok0. bind_ok. by eapply ci_still; [exact H1|].
  - destruct (_ =? 0); [by eapply DoClosing_keeps|].
    destruct (Eventer.transient _); [simplify_eq; by apply Hagain|].
    destruct (_ || _); [by eapply DoClosing_keeps|]. simplify_eq.
    by eapply ci_still; [exact H1|apply still_DoWithError].
Qed.

Lemma OnWriteComplete_keeps c ctx w flag w' : I w -> OnWriteComplete c ctx w = Ok (flag, w') -> I w'.
Proof using ClosingInv0 Hcb.
  intros Hi Hrun. unfold OnWriteComplete in Hrun. set (w1 := upd_conn (set_writing _ _) w) in *.
  assert (forall w2 : W, still w1 w2 -> I w2) as Hstill.
  { intros w2 H2. eapply ci_still; [exact Hi|]. by eapply still_trans; [|exact H2]. }
  destruct (0 <? cqe_res c).
  - destruct (0 <? _); [simplify_eq; eapply Hstill, still_trans; [|apply still_SubmitWriteOnce]; done|].
    destruct (0 <? _); [unfold Swap in Hrun; simplify_eq; eapply Hstill, still_trans; [|apply still_SubmitWriteOnce]; done|].
    bind_ok. assert (I a) as Ha by (eapply keeps_call_if; [apply cb_write| |exact Hok]; by apply Hstill).
    destruct (_ && _); [by eapply ci_still; [exact Ha|]|done].
  - destruct (Eventer.transient _); simplify_eq; [apply Hstill, still_SubmitWriteOnce|apply Hstill, still_DoWithError].
Qed.
End closing_inv.
End steps.
