(* ===== verification/EventManager.v ===== *)
(** * Event loops

    Model of class [EventManager] (src/event_manager.h, src/event_manager.cc):
    the loop around the poller, its time tasks, its connections and the list of
    connections waiting for their destruction. The closures in the timer are
    names ([T] for tasks, [C] for the conditions of periodic tasks) whose code
    is given by [EmHandlers]; what one call of [Poller::Poll] does to the loop's
    state, completions and the user's callbacks included, is a function given
    with every round. The locks make each access to a table one step. *)

From stdpp Require Import prelude gmap list.
From S2P Require Import Prelude.
From S2P Require Import IoBuffer.
From S2P Require Import Timer.
From S2P Require Import Poller.
From S2P Require Import Connecting.

(** An eventfd: its counter and the answers of the two calls. *)
Definition kEventfdMax : Z := 2 ^ 64 - 2.

Definition eventfd_write (msg counter : Z) : Z :=
  if kEventfdMax <? counter + msg then counter else counter + msg.

Definition eventfd_read (counter : Z) : option Z * Z :=
  if counter =? 0 then (None, 0) else (Some counter, 0).

Record EventManager (T C E : Type) := mkEventManager {
  timer_ : Timer (Continue := C) (Task := option T);
  connection_map_ : gmap Z Connecting;
  closed_fds_ : gset Z;
  should_quit_ : bool;
  wake_up_counter : Z;
  active_events_ : list Z;
  destroyed_ : list Z;
  em_env : E;
}.
Arguments mkEventManager {_ _ _}.
Arguments timer_ {_ _ _}.
Arguments connection_map_ {_ _ _}.
Arguments closed_fds_ {_ _ _}.
Arguments should_quit_ {_ _ _}.
Arguments wake_up_counter {_ _ _}.
Arguments active_events_ {_ _ _}.
Arguments destroyed_ {_ _ _}.
Arguments em_env {_ _ _}.

(** The code behind closures, eventers and connections: a time task, the
    condition of a periodic one, [Eventer::Work] of an active eventer,
    [Connecting::ForceClose] of the connection with a descriptor. *)
Class EmHandlers (T C E : Type) := {
  run_task : T -> EventManager T C E -> result (EventManager T C E);
  run_continue : C -> EventManager T C E -> result (bool * EventManager T C E);
  work : Z -> timeval -> EventManager T C E -> result (EventManager T C E);
  force_close : Z -> EventManager T C E -> result (EventManager T C E);
}.

Section event_manager.
Context {T C E : Type} `{!EmHandlers T C E}.
Abbreviation EM := (EventManager T C E).
Abbreviation TP := (TimePoint C).

Definition set_timer (t : Timer) (em : EM) : EM :=
  mkEventManager t (connection_map_ em) (closed_fds_ em) (should_quit_ em) (wake_up_counter em)
    (active_events_ em) (destroyed_ em) (em_env em).
Definition set_map (cm : gmap Z Connecting) (em : EM) : EM :=
  mkEventManager (timer_ em) cm (closed_fds_ em) (should_quit_ em) (wake_up_counter em)
    (active_events_ em) (destroyed_ em) (em_env em).
Definition set_closed (cf : gset Z) (em : EM) : EM :=
  mkEventManager (timer_ em) (connection_map_ em) cf (should_quit_ em) (wake_up_counter em)
    (active_events_ em) (destroyed_ em) (em_env em).
Definition set_quit (q : bool) (em : EM) : EM :=
  mkEventManager (timer_ em) (connection_map_ em) (closed_fds_ em) q (wake_up_counter em)
    (active_events_ em) (destroyed_ em) (em_env em).
Definition set_wake (c : Z) (em : EM) : EM :=
  mkEventManager (timer_ em) (connection_map_ em) (closed_fds_ em) (should_quit_ em) c
    (active_events_ em) (destroyed_ em) (em_env em).
Definition set_active (l : list Z) (em : EM) : EM :=
  mkEventManager (timer_ em) (connection_map_ em) (closed_fds_ em) (should_quit_ em)
    (wake_up_counter em) l (destroyed_ em) (em_env em).
Definition destroy (fd : Z) (em : EM) : EM :=
  mkEventManager (timer_ em) (delete fd (connection_map_ em)) (closed_fds_ em) (should_quit_ em)
    (wake_up_counter em) (active_events_ em) (destroyed_ em ++ [fd]) (em_env em).

Definition EventManager_new (env : E) : EM := mkEventManager Timer_new ∅ ∅ false 0 [] [] env.

(** ** Waking up *)

Definition WakeUp (em : EM) : EM := set_wake (eventfd_write 1 (wake_up_counter em)) em.

(** The read callback of [wake_up_eventer_]: read until there is nothing. *)
Fixpoint drain_wake_up (fuel : nat) (em : EM) : EM :=
  match fuel with
  | O => em
  | S fuel' =>
      match eventfd_read (wake_up_counter em) with
      | (Some _, c) => drain_wake_up fuel' (set_wake c em)
      | (None, _) => em
      end
  end.

Definition Quit (em : EM) : EM := WakeUp (set_quit true em).

(** ** Connections *)

Definition InsertNewConnection (self socket_fd : Z) (em : EM) : EM :=
  set_map (<[socket_fd := Connecting_new self socket_fd]> (connection_map_ em)) em.

Definition GetEventerAmount (em : EM) : Z := u32 (Z.of_nat (size (connection_map_ em))).

Definition DeleteConnection (fd : Z) (em : EM) : EM := set_closed ({[fd]} ∪ closed_fds_ em) em.

(** ** Time tasks

    [tv] is the reading of the clock inside [GetMinTimeDuration], [tv'] the one
    inside the [TimePoint()] it is compared with. *)

Definition wake_if_first (tp : TP) (tv tv' : timeval) (em : EM) : EM :=
  if s32 (GetMillisecond tp - GetMillisecond (TimePoint_now (Continue := C) tv'))
     <=? GetMinTimeDuration tv (timer_ em)
  then WakeUp em else em.

Definition RunAt (time_point : TP) (task : option T) (tv tv' : timeval) (em : EM) : EM :=
  wake_if_first time_point tv tv' (set_timer (AddTimeTask time_point task (timer_ em)) em).

Definition RunAfter (delay_microseconds : Z) (task : option T) (tv0 tv tv' : timeval) (em : EM) : EM :=
  let tp := TimePoint_after tv0 delay_microseconds false in
  wake_if_first tp tv tv' (set_timer (AddTimeTask tp task (timer_ em)) em).

Definition RunEveryUntil (interval_microseconds : Z) (task : option T) (start_time_point : TP)
    (IsContinue : option C) (tv tv' : timeval) (em : EM) : EM :=
  let time_point := TimePoint_from interval_microseconds start_time_point true in
  let tmp_time_point := time_point in
  let time_point := match IsContinue with
                    | Some _ => SetTaskContinueCallback IsContinue time_point
                    | None => time_point
                    end in
  wake_if_first tmp_time_point tv tv' (set_timer (AddTimeTask time_point task (timer_ em)) em).

(** The default argument [TimePoint(TimePoint::FNow())]: [tv1] is the reading of
    [FNow], [tv2] the one inside the constructor, which takes a duration. *)
Definition default_start (tv1 tv2 : timeval) : TP := TimePoint_after tv2 (FNow tv1) false.

Definition RunSoon (task : option T) (tv : timeval) (em : EM) : EM :=
  WakeUp (set_timer (AddTimeTask (TimePoint_now tv) task (timer_ em)) em).

(** One expired task: run it, and register a periodic one for the next time. *)
Definition do_expired (return_time : TP) (tv : timeval) (x : TP * option T) (em : EM) : result EM :=
  let '(tp, cb) := x in
  em ← match cb with Some t => run_task t em | None => Ok em end;
  if negb (0 =? GetContext tp) then
    match GetTaskContinueCallback tp with
    | Some c =>
        '(go, em) ← run_continue c em;
        Ok (if (go : bool) then RunEveryUntil (GetContext tp) cb return_time (Some c) tv tv em else em)
    | None => Ok (RunEveryUntil (GetContext tp) cb return_time None tv tv em)
    end
  else Ok em.

Fixpoint do_all_expired (return_time : TP) (tv : timeval) (l : list (TP * option T)) (em : EM)
  : result EM :=
  match l with
  | [] => Ok em
  | x :: l => em ← do_expired return_time tv x em; do_all_expired return_time tv l em
  end.

Definition DoExpiredTimeTasks (return_time : TP) (tv : timeval) (em : EM) : result EM :=
  let '(expired, t) := GetExpiredTimeTasks tv (timer_ em) in
  do_all_expired return_time tv expired (set_timer t em).

(** ** The loop *)

Fixpoint work_all (evs : list Z) (tv : timeval) (em : EM) : result EM :=
  match evs with
  | [] => Ok em
  | ev :: evs => em ← work ev tv em; work_all evs tv em
  end.

Definition DoWithActiveTasks (tv : timeval) (em : EM) : result EM :=
  em ← work_all (active_events_ em) tv em; Ok (set_active [] em).

Definition kMaxPendingIoRetries : Z := 1000.
Definition kMaxPendingIoTimeoutMs : Z := 2000.

(** Requests are pending, and neither bound on waiting for them is reached. *)
Definition keeps_waiting (c : Connecting) : bool :=
  HasPendingIo c && (pending_io_retries_ c <? kMaxPendingIoRetries)
  && (pending_io_wait_ms_ c <? kMaxPendingIoTimeoutMs).

(** The body of the loop over [closed_fds_]. *)
Definition destroy_one (fd : Z) (acc : EM * gset Z) : EM * gset Z :=
  let '(em, remaining) := acc in
  match connection_map_ em !! fd with
  | Some c =>
      if IsDisconnected c then
        if keeps_waiting c
        then (set_map (<[fd := BumpPendingIoWait 1 c]> (connection_map_ em)) em, {[fd]} ∪ remaining)
        else (destroy fd em, remaining)
      else (em, remaining)
  | None => (em, remaining)
  end.

Definition DestroyClosedConnections (em : EM) : EM :=
  let '(em', remaining) := foldl (fun acc fd => destroy_one fd acc) (em, ∅) (elements (closed_fds_ em)) in
  set_closed remaining em'.

(** One round of the environment: the time before the polling, what [Poll] does,
    the time it returns, and the time when the expired tasks are collected and
    registered again (there the clock is read for each of them; one reading
    stands for all). *)
Record round := mkRound {
  before : timeval;
  poll : Z -> EM -> result EM;
  returned : timeval;
  now : timeval;
}.

Definition loop_body (r : round) (em : EM) : result EM :=
  em ← poll r (GetMinTimeDuration (before r) (timer_ em)) em;
  let return_time := TimePoint_now (returned r) in
  em ← DoWithActiveTasks (returned r) em;
  em ← DoExpiredTimeTasks return_time (now r) em;
  Ok (DestroyClosedConnections em).

(** The main loop over the rounds given: [inl] when they are used up. *)
Fixpoint main_loop (rounds : list round) (em : EM) : result (EM + EM * list round) :=
  if should_quit_ em then Ok (inr (em, rounds))
  else match rounds with
       | [] => Ok (inl em)
       | r :: rounds => em ← loop_body r em; main_loop rounds em
       end.

Fixpoint close_all (fds : list Z) (em : EM) : result EM :=
  match fds with
  | [] => Ok em
  | fd :: fds => em ← force_close fd em; close_all fds em
  end.

(** The second loop, which destroys the connections: [None] when the rounds are
    used up before. *)
Fixpoint drain_loop (rounds : list round) (em : EM) : result (option EM) :=
  if bool_decide (connection_map_ em = ∅) && bool_decide (closed_fds_ em = ∅) then Ok (Some em)
  else match rounds with
       | [] => Ok None
       | r :: rounds =>
           em ← poll r 1 em;
           em ← DoWithActiveTasks (now r) em;
           drain_loop rounds (DestroyClosedConnections em)
       end.

(** [Start]: [Some] of the final state when it returns within the rounds. *)
Definition Start (rounds : list round) (em : EM) : result (option EM) :=
  outcome ← main_loop rounds (set_quit false em);
  match outcome with
  | inl _ => Ok None
  | inr (em, rounds) =>
      em ← close_all (map_to_list (connection_map_ em)).*1 em;
      outcome ← drain_loop rounds em;
      Ok (match outcome with Some em => Some (set_map ∅ em) | None => None end)
  end.

End event_manager.
