(* ===== verification/EventManagerFacts.v ===== *)
(** * What event loops guarantee

    Theorems about [EventManager]: one pass over the closed connections and the
    end of the loop, which destroys every connection in a bounded number of
    rounds even when their requests never complete; periodic tasks; wake-ups. *)

From stdpp Require Import prelude gmap list sorting.
From S2P Require Import Prelude.
From S2P Require Import IoBuffer.
From S2P Require Import Timer.
From S2P Require Import Poller.
From S2P Require Import Connecting.
From S2P Require Import EventManager.

Section facts.
Context {T C E : Type} `{!EmHandlers T C E}.
Abbreviation EM := (EventManager T C E).
Abbreviation TP := (TimePoint C).
Implicit Types em : EM.

(** ** One pass over the closed connections *)

Definition waits (c : Connecting) : bool := IsDisconnected c && keeps_waiting c.

(** What a pass leaves of the connection of a closed descriptor. *)
Definition after_pass (c : Connecting) : option Connecting :=
  if IsDisconnected c then if keeps_waiting c then Some (BumpPendingIoWait 1 c) else None
  else Some c.

Lemma partial_alter_at {A} (f : option A -> option A) (m m' : gmap Z A) k :
  m' !! k = f (m !! k) -> (forall k', k' <> k -> m' !! k' = m !! k') -> m' = partial_alter f k m.
Proof.
  intros Hk Ho. apply map_eq. intros k'. destruct (decide (k' = k)) as [->|].
  - by rewrite lookup_partial_alter_eq.
  - rewrite lookup_partial_alter_ne by done. by apply Ho.
Qed.

Lemma destroy_one_map fd em rem em' rem' :
  destroy_one fd (em, rem) = (em', rem') ->
  connection_map_ em' = partial_alter (fun o => o ≫= after_pass) fd (connection_map_ em) /\
  (forall fd', fd' ∈ rem' <-> fd' ∈ rem \/ fd' = fd /\
     exists c, connection_map_ em !! fd = Some c /\ waits c = true).
Proof.
  unfold destroy_one, waits. intros Hd. destruct (connection_map_ em !! fd) as [c|] eqn:Ec.
  2: { simplify_eq. split; [apply partial_alter_at; [by rewrite Ec|done]|].
       intros fd'. split; [by left|]. by intros [?|[_ (c & ? & _)]]. }
  destruct (IsDisconnected c) eqn:Edis.
  2: { simplify_eq. split.
       - apply partial_alter_at; [|done]. rewrite Ec. simpl. unfold after_pass. by rewrite Edis.
       - intros fd'. split; [by left|]. intros [?|[_ (c' & ? & Hw)]]; [done|].
         simplify_eq. by rewrite Edis in Hw. }
  destruct (keeps_waiting c) eqn:Ew; simplify_eq; simpl; split.
  - apply partial_alter_at; [|intros; by apply lookup_insert_ne].
    rewrite lookup_insert_eq, Ec. simpl. unfold after_pass. by rewrite Edis, Ew.
  - intros fd'. rewrite elem_of_union, elem_of_singleton. split; [|tauto].
    intros [->|?]; [|by left]. right. split; [done|]. exists c. by rewrite Edis, Ew.
  - apply partial_alter_at; [|intros; by apply lookup_delete_ne].
    rewrite lookup_delete_eq, Ec. simpl. unfold after_pass. by rewrite Edis, Ew.
  - intros fd'. split; [by left|]. intros [?|[_ (c' & ? & Hw)]]; [done|].
    simplify_eq. by rewrite Edis, Ew in Hw.
Qed.

Lemma destroy_fold l em rem em' rem' :
  NoDup l -> foldl (fun acc fd => destroy_one fd acc) (em, rem) l = (em', rem') ->
  (forall fd, connection_map_ em' !! fd =
     if decide (fd ∈ l) then connection_map_ em !! fd ≫= after_pass else connection_map_ em !! fd) /\
  (forall fd, fd ∈ rem' <-> fd ∈ rem \/ fd ∈ l /\
     exists c, connection_map_ em !! fd = Some c /\ waits c = true).
Proof.
  intros Hnd. revert em rem. induction Hnd as [|x l Hx Hnd IH]; intros em rem Hf; cbn [foldl] in Hf.
  { simplify_eq. split; intros fd; [by rewrite decide_False by apply not_elem_of_nil|].
    split; [by left|]. intros [?|[Hin _]]; [done|]. by apply not_elem_of_nil in Hin. }
  destruct (destroy_one x (em, rem)) as [em1 rem1] eqn:E1.
  destruct (destroy_one_map _ _ _ _ _ E1) as (Hm1 & Hr1).
  destruct (IH em1 rem1 Hf) as [Hm Hr]. split; intros fd.
  - rewrite Hm, Hm1. destruct (decide (fd = x)) as [->|Hne].
    + rewrite decide_False by done. rewrite decide_True by left.
      by rewrite lookup_partial_alter_eq.
    + rewrite lookup_partial_alter_ne by done. apply decide_ext. rewrite elem_of_cons. tauto.
  - rewrite Hr, Hr1. destruct (decide (fd = x)) as [->|Hne].
    + split.
      * intros [[?|[_ Hc]]|[? _]]; [by left|right; split; [left|done]|done].
      * intros [?|[_ Hc]]; [by left; left|]. left. by right.
    + rewrite Hm1. rewrite lookup_partial_alter_ne by done. rewrite elem_of_cons. tauto.
Qed.

(** A pass of [DestroyClosedConnections], descriptor by descriptor. *)
Lemma destroy_pass em :
  (forall fd, connection_map_ (DestroyClosedConnections em) !! fd =
     if decide (fd ∈ closed_fds_ em) then connection_map_ em !! fd ≫= after_pass
     else connection_map_ em !! fd) /\
  (forall fd, fd ∈ closed_fds_ (DestroyClosedConnections em) <->
     fd ∈ closed_fds_ em /\ exists c, connection_map_ em !! fd = Some c /\ waits c = true).
Proof.
  unfold DestroyClosedConnections.
  destruct (foldl _ _ _) as [em' rem'] eqn:Ef.
  apply destroy_fold in Ef as [Hm Hr]; [|apply NoDup_elements]. split; intros fd; simpl.
  - rewrite Hm. apply decide_ext. by rewrite elem_of_elements.
  - rewrite Hr, elem_of_elements, elem_of_empty. tauto.
Qed.

(** ** Destruction in bounded time *)

(** Every connection is closed, listed, and has been waited for at least [k]
    times. *)
Definition closing (k : Z) (em : EM) : Prop :=
  forall fd c, connection_map_ em !! fd = Some c ->
  fd ∈ closed_fds_ em /\ IsDisconnected c = true /\ k <= pending_io_retries_ c.

(** What may happen between two passes of a loop that ends: connections lose
    requests or go away, but none is opened, reopened or unlisted. *)
Definition settling (em em' : EM) : Prop :=
  (forall fd c', connection_map_ em' !! fd = Some c' ->
   exists c, connection_map_ em !! fd = Some c /\ IsDisconnected c' = IsDisconnected c /\
     pending_io_retries_ c' = pending_io_retries_ c) /\
  closed_fds_ em ⊆ closed_fds_ em'.

Lemma closing_settles k em em' : settling em em' -> closing k em -> closing k em'.
Proof.
  intros [Hm Hc] Hk fd c' Hl. destruct (Hm fd c' Hl) as (c & Hl0 & -> & ->).
  destruct (Hk fd c Hl0) as (? & ? & ?). split_and!; [set_solver|done|done].
Qed.

Lemma keeps_waiting_bound c :
  keeps_waiting c = true -> pending_io_retries_ c < 1000.
Proof. unfold keeps_waiting. rewrite !andb_true_iff. intros [[_ ?%Z.ltb_lt] _]. done. Qed.

(** A pass destroys the connections it does not let wait, and those that wait
    have waited once more; none is left after they have waited 1000 times. *)
Lemma closing_pass k em :
  0 <= k -> closing k em ->
  closing (k + 1) (DestroyClosedConnections em) /\
  (1000 <= k -> connection_map_ (DestroyClosedConnections em) = ∅ /\
                closed_fds_ (DestroyClosedConnections em) = ∅).
Proof.
  intros Hk Hcl. destruct (destroy_pass em) as [Hm Hr].
  assert (forall fd c', connection_map_ (DestroyClosedConnections em) !! fd = Some c' ->
    exists c, connection_map_ em !! fd = Some c /\ fd ∈ closed_fds_ em /\ k <= pending_io_retries_ c /\
      waits c = true /\ keeps_waiting c = true /\ c' = BumpPendingIoWait 1 c) as Hleft.
  { intros fd c' Hl. rewrite Hm in Hl.
    destruct (connection_map_ em !! fd) as [c|] eqn:Ec; [|by case_decide].
    destruct (Hcl fd c Ec) as (Hin & Hdis & Hret). rewrite decide_True in Hl by done.
    simpl in Hl. unfold after_pass in Hl. rewrite Hdis in Hl.
    destruct (keeps_waiting c) eqn:Ew; [|done]. simplify_eq. exists c.
    unfold waits. by rewrite Hdis, Ew. }
  split.
  - intros fd c' Hl. destruct (Hleft fd c' Hl) as (c & Hc & Hin & Hret & Hw & Hkw & ->).
    split; [apply Hr; eauto|]. destruct (Hcl fd c Hc) as (_ & Hdis & _). split; [done|].
    simpl. pose proof (keeps_waiting_bound c Hkw). unfold s32. rewrite sext_small by lia. lia.
  - intros Hk1. split.
    + apply map_empty. intros fd.
      destruct (connection_map_ (DestroyClosedConnections em) !! fd) as [c'|] eqn:Ec; [|done].
      destruct (Hleft fd c' Ec) as (c & _ & _ & Hret & _ & Hkw & _).
      apply keeps_waiting_bound in Hkw. lia.
    + apply set_eq. intros fd. rewrite Hr, elem_of_empty. split; [|done].
      intros [_ (c & Hc & Hw)]. destruct (Hcl fd c Hc) as (_ & _ & Hret).
      unfold waits in Hw. apply andb_true_iff in Hw as [_ Hw%keeps_waiting_bound]. lia.
Qed.

(** The rounds of an ending loop: the poller and the active eventers return and
    only settle things. *)
Definition settling_round (r : round) : Prop :=
  forall em, exists em1 em2,
    poll r 1 em = Ok em1 /\ DoWithActiveTasks (now r) em1 = Ok em2 /\ settling em em2.

Lemma drain_ends rounds k em :
  0 <= k -> closing k em -> (1001 <= k -> connection_map_ em = ∅ /\ closed_fds_ em = ∅) ->
  Forall settling_round rounds -> 1001 <= k + zlen rounds ->
  exists em', drain_loop rounds em = Ok (Some em') /\ connection_map_ em' = ∅.
Proof.
  intros Hk Hcl Hdone Hr. revert k em Hk Hcl Hdone.
  induction Hr as [|r rounds Hr1 _ IH]; intros k em Hk Hcl Hdone Hlen; simpl.
  - destruct Hdone as [Hm Hc]; [unfold zlen in Hlen; simpl in Hlen; lia|].
    rewrite Hm, Hc. simpl. eauto.
  - destruct (bool_decide (connection_map_ em = ∅) && bool_decide (closed_fds_ em = ∅)) eqn:Edone.
    { apply andb_true_iff in Edone as [?%bool_decide_eq_true_1 _]. eauto. }
    destruct (Hr1 em) as (em1 & em2 & -> & Hw & Hset). simpl. rewrite Hw. simpl.
    pose proof (closing_settles k em em2 Hset Hcl) as Hcl2.
    destruct (closing_pass k em2 Hk Hcl2) as [Hcl3 Hend].
    apply (IH (k + 1)); [lia|done|intros; apply Hend; lia|].
    rewrite zlen_cons in Hlen. lia.
Qed.

(** Connections that are closed are listed for destruction. *)
Definition tracked (em : EM) : Prop :=
  forall fd c, connection_map_ em !! fd = Some c ->
  0 <= pending_io_retries_ c /\ (IsDisconnected c = true -> fd ∈ closed_fds_ em).

(** [ForceClose] of one connection: it is closed and listed afterwards; others
    may be closed by the callbacks, and none is opened or reopened. *)
Definition force_closes (fd : Z) (em em' : EM) : Prop :=
  tracked em' /\
  (forall fd', is_Some (connection_map_ em' !! fd') -> is_Some (connection_map_ em !! fd')) /\
  (forall fd' c c', connection_map_ em !! fd' = Some c -> connection_map_ em' !! fd' = Some c' ->
     IsDisconnected c = true \/ fd' = fd -> IsDisconnected c' = true).

Class LawfulClose : Prop := {
  force_close_ok : forall fd em, tracked em ->
    exists em', force_close fd em = Ok em' /\ force_closes fd em em';
}.

Lemma close_all_ok `{!LawfulClose} fds em :
  tracked em -> exists em', close_all fds em = Ok em' /\ tracked em' /\
    (forall fd, is_Some (connection_map_ em' !! fd) -> is_Some (connection_map_ em !! fd)) /\
    (forall fd c c', connection_map_ em !! fd = Some c -> connection_map_ em' !! fd = Some c' ->
       IsDisconnected c = true \/ fd ∈ fds -> IsDisconnected c' = true).
Proof.
  revert em. induction fds as [|fd fds IH]; intros em Ht; simpl.
  - exists em. split_and!; try done. intros fd c c' ?? [?|Hin]; [congruence|].
    by apply not_elem_of_nil in Hin.
  - destruct (force_close_ok fd em Ht) as (em1 & -> & Ht1 & Hsub1 & Hcl1). simpl.
    destruct (IH em1 Ht1) as (em2 & -> & Ht2 & Hsub2 & Hcl2).
    exists em2. split_and!; try done; [by auto|]. intros fd' c c' Hc Hc' Hor.
    destruct (Hsub2 fd') as [c1 Hc1]; [by eexists|]. apply (Hcl2 fd' c1 c' Hc1 Hc').
    rewrite elem_of_cons in Hor. destruct Hor as [?|[->|?]]; [left|left|by right].
    + eapply Hcl1; eauto.
    + eapply Hcl1; eauto.
Qed.

(** The loop ends. Once the quit flag is seen, [Start] closes every
    connection and returns with all of them destroyed after at most 1001 more
    rounds, whether or not their requests ever complete. *)
Theorem start_returns `{!LawfulClose} rounds em em1 rest :
  main_loop rounds (set_quit false em) = Ok (inr (em1, rest)) -> tracked em1 ->
  Forall settling_round rest -> 1001 <= zlen rest ->
  exists em', Start rounds em = Ok (Some em') /\ connection_map_ em' = ∅.
Proof.
  intros Hmain Ht Hr Hlen. unfold Start. rewrite Hmain. simpl.
  destruct (close_all_ok (map_to_list (connection_map_ em1)).*1 em1 Ht)
    as (em2 & -> & Ht2 & Hsub & Hcl). simpl.
  assert (closing 0 em2) as Hclosing.
  { intros fd c' Hl. destruct (Ht2 fd c' Hl) as [Hret Hlist].
    destruct (Hsub fd) as [c Hc]; [by eexists|].
    assert (IsDisconnected c' = true) as Hdis.
    { apply (Hcl fd c c' Hc Hl). right. apply list_elem_of_fmap. exists (fd, c). split; [done|].
      by apply elem_of_map_to_list. }
    split_and!; [by apply Hlist|done|done]. }
  destruct (drain_ends rest 0 em2) as (em3 & -> & Hempty); [lia|done|lia|done|lia|].
  simpl. eexists. split; [done|]. done.
Qed.

(** A pass over the closed connections, exactly: a closed connection without
    pending requests is destroyed; one with pending requests is kept, and its
    counters raised, until it was waited for 1000 times or 2 s; a connection
    that is listed without being closed is dropped from the list and stays; and
    what is not listed is not touched. *)
Theorem destroy_pass_outcome em fd :
  let em' := DestroyClosedConnections em in
  (fd ∉ closed_fds_ em ->
     connection_map_ em' !! fd = connection_map_ em !! fd /\ fd ∉ closed_fds_ em') /\
  (fd ∈ closed_fds_ em -> connection_map_ em !! fd = None ->
     connection_map_ em' !! fd = None /\ fd ∉ closed_fds_ em') /\
  (forall c, fd ∈ closed_fds_ em -> connection_map_ em !! fd = Some c ->
     if IsDisconnected c then
       if HasPendingIo c && (pending_io_retries_ c <? 1000) && (pending_io_wait_ms_ c <? 2000)
       then connection_map_ em' !! fd = Some (BumpPendingIoWait 1 c) /\ fd ∈ closed_fds_ em'
       else connection_map_ em' !! fd = None /\ fd ∉ closed_fds_ em'
     else connection_map_ em' !! fd = Some c /\ fd ∉ closed_fds_ em').
Proof.
  cbv zeta. destruct (destroy_pass em) as [Hm Hr]. split_and!.
  - intros Hn. rewrite Hm, decide_False, Hr by done. split; [done|]. by intros [? _].
  - intros Hin Hnone. rewrite Hm, decide_True, Hnone, Hr by done. split; [done|].
    intros [_ (c & ? & _)]. congruence.
  - intros c Hin Hc. rewrite Hm, decide_True, Hc by done. simpl. unfold after_pass.
    change (HasPendingIo c && (pending_io_retries_ c <? 1000) && (pending_io_wait_ms_ c <? 2000))
      with (keeps_waiting c).
    destruct (IsDisconnected c) eqn:Edis; [destruct (keeps_waiting c) eqn:Ew|];
      (split; [done|]); rewrite Hr.
    + split; [done|]. exists c. unfold waits. by rewrite Edis, Ew.
    + intros [_ (c' & ? & Hw)]. simplify_eq. unfold waits in Hw. by rewrite Edis, Ew in Hw.
    + intros [_ (c' & ? & Hw)]. simplify_eq. unfold waits in Hw. by rewrite Edis in Hw.
Qed.

(** ** Time tasks *)

(** A periodic task that is due is run, and then registered again exactly
    when it has no condition or its condition says so: once, with the same
    callback, interval and condition, one interval after the time the loop
    returned from polling. A task that is not periodic is not registered
    again. *)
Theorem periodic_rescheduled return_time tv tp t em em1 :
  run_task t em = Ok em1 ->
  (context_ tp = 0 -> do_expired return_time tv (tp, Some t) em = Ok em1) /\
  (context_ tp <> 0 -> IsContinue_ tp = None ->
   exists em', do_expired return_time tv (tp, Some t) em = Ok em' /\
     timer_ em' = AddTimeTask (mkTimePoint (s64 (time_point_microseconds_ return_time + context_ tp))
                                 (context_ tp) None) (Some t) (timer_ em1)) /\
  (forall c em2 go, context_ tp <> 0 -> IsContinue_ tp = Some c ->
   run_continue c em1 = Ok (go, em2) ->
   exists em', do_expired return_time tv (tp, Some t) em = Ok em' /\
     timer_ em' = if (go : bool) then
         AddTimeTask (mkTimePoint (s64 (time_point_microseconds_ return_time + context_ tp))
                        (context_ tp) (Some c)) (Some t) (timer_ em2)
       else timer_ em2).
Proof.
  intros Hrun. unfold do_expired. rewrite Hrun. cbn [mbind result_bind].
  assert (forall (x : TP) tv tv' (v : EM), timer_ (wake_if_first x tv tv' v) = timer_ v) as Hwake
    by (intros; unfold wake_if_first; by case_match).
  split_and!.
  - intros H0. unfold GetContext. by rewrite H0.
  - intros H0 Hc. unfold GetContext, GetTaskContinueCallback.
    rewrite (proj2 (Z.eqb_neq 0 _)), Hc by done. simpl. eexists. split; [done|].
    unfold RunEveryUntil. by rewrite Hwake.
  - intros c em2 go H0 Hc Hgo. unfold GetContext, GetTaskContinueCallback.
    rewrite (proj2 (Z.eqb_neq 0 _)), Hc by done. simpl. rewrite Hgo. simpl.
    destruct go; eexists; (split; [done|]); [|done].
    unfold RunEveryUntil. rewrite Hwake. unfold SetTaskContinueCallback, TimePoint_from.
    cbn [context_ timer_ set_timer]. by rewrite (proj2 (Z.eqb_neq 0 _)) by done.
Qed.

(** [RunEveryUntil] without a start time: the default argument is the
    current time taken as a duration from now, so the first run is due at twice
    the current time plus the interval, some fifty years ahead. *)
Theorem default_start_doubles interval t tv1 tv2 tv tv' em :
  0 <= interval -> 0 <= FNow tv1 -> 0 <= FNow tv2 -> FNow tv1 + FNow tv2 + interval < 2 ^ 63 ->
  timer_ (RunEveryUntil interval t (default_start tv1 tv2) None tv tv' em) =
  AddTimeTask (mkTimePoint (FNow tv1 + FNow tv2 + interval) interval None) t (timer_ em).
Proof.
  intros Hi H1 H2 Hb. unfold RunEveryUntil, wake_if_first.
  assert (TimePoint_from interval (default_start tv1 tv2) true
          = mkTimePoint (FNow tv1 + FNow tv2 + interval) interval (@None C)) as ->.
  { unfold TimePoint_from, default_start, TimePoint_after, GetMicroseconds. simpl. f_equal.
    unfold s64. rewrite (sext_small 64 (FNow tv2 + FNow tv1)) by lia.
    rewrite sext_small by lia. lia. }
  by case_match.
Qed.

(** [Quit] called before the loop has started is forgotten: [Start] clears
    the flag first. *)
Theorem quit_before_start_lost em r rounds em1 :
  loop_body r (set_quit false (Quit em)) = Ok em1 -> should_quit_ em1 = false ->
  should_quit_ (Quit em) = true /\
  main_loop (r :: rounds) (set_quit false (Quit em)) = main_loop rounds em1 /\
  Start [r] (Quit em) = Ok None.
Proof.
  intros Hb Hq. split; [done|]. assert (forall l, main_loop (r :: l) (set_quit false (Quit em))
    = main_loop l em1) as Hstep by (intros l; simpl; by rewrite Hb).
  split; [done|]. unfold Start. rewrite Hstep. simpl. by rewrite Hq.
Qed.

Lemma multimap_insert_first (x : TP * option T) l :
  (forall y, head l = Some y -> Timer.key x < Timer.key y) -> multimap_insert x l = x :: l.
Proof.
  destruct l as [|y l]; [done|]. intros Hf. simpl. unfold tp_lt.
  pose proof (Hf y eq_refl) as Hlt. unfold Timer.key in Hlt. by rewrite (proj2 (Z.ltb_lt _ _)) by lia.
Qed.

(** C32. A task that becomes the earliest one wakes the loop up, so that a poll
    that is waiting for a later task is cut short (the clock not running
    backwards between the two readings, times within 24 days). *)
Theorem earliest_task_wakes tp t tv tv' em :
  (forall y, head (time_points_ (timer_ em)) = Some y -> time_point_microseconds_ tp < Timer.key y) ->
  Z.quot (FNow tv) 1000 <= Z.quot (FNow tv') 1000 ->
  - 2 ^ 31 <= GetMillisecond tp - Z.quot (FNow tv') 1000 ->
  GetMillisecond tp - Z.quot (FNow tv) 1000 < 2 ^ 31 ->
  RunAt tp t tv tv' em = WakeUp (set_timer (AddTimeTask tp t (timer_ em)) em).
Proof.
  intros Hf Hle Hlo Hhi. unfold RunAt, wake_if_first. unfold AddTimeTask.
  rewrite multimap_insert_first by done. simpl. unfold GetMinTimeDuration. simpl.
  change (GetMillisecond (TimePoint_now tv)) with (Z.quot (FNow tv) 1000).
  change (GetMillisecond (TimePoint_now tv')) with (Z.quot (FNow tv') 1000).
  unfold s32. rewrite !sext_small by lia. by rewrite (proj2 (Z.leb_le _ _)) by (case_cmp; lia).
Qed.

End facts.

(** ** Evaluations *)

Module Concrete.

Abbreviation EM := (EventManager unit unit unit).

(** Tasks that do nothing, conditions that always hold, connections that close
    when they are told to. *)
#[local] Instance plain : EmHandlers unit unit unit := {|
  run_task _ em := Ok em;
  run_continue _ em := Ok (true, em);
  work _ _ em := Ok em;
  force_close fd em :=
    match connection_map_ em !! fd with
    | Some c => Ok (DeleteConnection fd
                      (set_map (<[fd := set_state kDisconnected c]> (connection_map_ em)) em))
    | None => Ok em
    end;
|}.

#[local] Instance plain_closes : LawfulClose (T := unit) (C := unit) (E := unit).
Proof.
  split. intros fd em Ht. simpl. destruct (connection_map_ em !! fd) as [c|] eqn:Ec.
  - eexists. split; [done|]. split_and!.
    + intros fd' c'. simpl. rewrite lookup_insert_Some. intros [(-> & <-)|(Hne & Hl)].
      * destruct (Ht _ c Ec) as [? _]. split; [done|set_solver].
      * destruct (Ht fd' c' Hl) as [? ?]. split; [done|set_solver].
    + intros fd'. simpl. rewrite lookup_insert_is_Some. intros [<-|[_ ?]]; [by eexists|done].
    + intros fd' c1 c2 H1. simpl. rewrite lookup_insert_Some. 
      intros [(_ & <-)|(Hne & Hl)] [Hd|?]; try done; congruence.
  - eexists. split; [done|]. split; [done|]. split; [done|].
    intros fd' c1 c2 ?? [?|Heq]; [|rewrite Heq in *]; congruence.
Qed.

Definition idle_poll (timeout : Z) (em : EM) : result EM := Ok em.
Definition quiet : round (T := unit) (C := unit) (E := unit) := mkRound (mkTimeval 1000 0) idle_poll (mkTimeval 1000 0) (mkTimeval 1000 0).

(** Connection 5 with a read in flight. *)
Definition busy : Connecting := set_reading true 1 (Connecting_new 7 5).
Definition busy_loop : EM := set_map {[5 := busy]} (EventManager_new tt).

(** A round in which somebody calls [Quit]. *)
Definition quitting : round (T := unit) (C := unit) (E := unit) :=
  mkRound (mkTimeval 1000 0) (fun _ em => Ok (Quit em)) (mkTimeval 1000 0) (mkTimeval 1000 0).

Lemma start_returns_witness :
  exists em', Start (quitting :: replicate 1001 quiet) busy_loop = Ok (Some em') /\
    connection_map_ em' = ∅.
Proof.
  apply (start_returns (quitting :: replicate 1001 quiet) busy_loop (Quit busy_loop)
           (replicate 1001 quiet)).
  - vm_compute. reflexivity.
  - intros fd c Hl. simpl in Hl. apply lookup_singleton_Some in Hl as (<- & <-).
    split; [vm_compute; discriminate|]. intros Hd. vm_compute in Hd. discriminate.
  - apply Forall_replicate. intros em. exists em, (set_active [] em).
    split; [reflexivity|]. split; [|split; [intros fd c' Hl; exists c'; split_and!; done|done]].
    unfold DoWithActiveTasks. assert (forall l, work_all l (now quiet) em = Ok em) as ->; [|done].
    induction l as [|x l IH]; [done|exact IH].
  - vm_compute. discriminate.
Defined.

Lemma periodic_rescheduled_witness :
  exists em', do_expired (mkTimePoint 5000 0 None) (mkTimeval 0 5000)
      (mkTimePoint 4000 1000 (Some tt), Some tt) (EventManager_new tt) = Ok em' /\
    timer_ em' = mkTimer [(mkTimePoint 6000 1000 (Some tt), Some tt)].
Proof.
  destruct (periodic_rescheduled (mkTimePoint 5000 0 None) (mkTimeval 0 5000)
    (mkTimePoint 4000 1000 (Some tt)) tt (EventManager_new tt : EM) (EventManager_new tt : EM))
    as (_ & _ & Hcond); [reflexivity|].
  apply (Hcond tt (EventManager_new tt) true); [vm_compute; discriminate|reflexivity|reflexivity].
Defined.

Lemma default_start_doubles_witness :
  timer_ (RunEveryUntil 1000000 (Some tt)
            (default_start (mkTimeval 1700000000 0) (mkTimeval 1700000000 1)) None
            (mkTimeval 1700000000 2) (mkTimeval 1700000000 3) (EventManager_new tt : EM)) =
  AddTimeTask (mkTimePoint 3400000001000001 1000000 None) (Some tt) Timer_new.
Proof.
  apply (default_start_doubles 1000000 (Some tt) (mkTimeval 1700000000 0) (mkTimeval 1700000000 1)
    (mkTimeval 1700000000 2) (mkTimeval 1700000000 3) (EventManager_new tt : EM));
    vm_compute; (discriminate || reflexivity).
Defined.

Lemma quit_before_start_lost_witness :
  Start [quiet] (Quit (EventManager_new tt)) = Ok None.
Proof.
  apply (quit_before_start_lost (EventManager_new tt) quiet [] 
           (set_quit false (Quit (EventManager_new tt)))); vm_compute; reflexivity.
Defined.

Lemma earliest_task_wakes_witness :
  wake_up_counter (RunAt (mkTimePoint 2000000 0 None) (Some tt) (mkTimeval 1 0) (mkTimeval 1 0)
                     (EventManager_new tt : EM)) = 1.
Proof.
  rewrite (earliest_task_wakes (mkTimePoint 2000000 0 None) (Some tt) (mkTimeval 1 0)
             (mkTimeval 1 0) (EventManager_new tt : EM)).
  - vm_compute. reflexivity.
  - intros y Hy. discriminate Hy.
  - reflexivity.
  - vm_compute. discriminate.
  - vm_compute. reflexivity.
Defined.

End Concrete.
