(* ===== verification/EventLoop.v ===== *)
(** * The life of the connections of a loop

    The composition of EventManager and Reactor: the table of the connections of
    a loop by descriptor, which owns them, and the pass that destroys the closed
    ones, on the connections and the poller themselves (src/event_manager.cc:
    [InsertNewConnection], [DestroyClosedConnections]). EventManager has the same
    pass on a table of its own, without the poller. *)

From stdpp Require Import prelude gmap list.
From S2P Require Import Prelude.
From S2P Require Import IoBuffer.
From S2P Require Import Poller.
From S2P Require Import PollerFacts.
From S2P Require Import Connecting.
From S2P Require Import ConnectingFacts.
From S2P Require Import Reactor.
From S2P Require Import LoopSteps.
From S2P Require EventManager.
From S2P Require EventManagerFacts.

(** [connection_map_] as the addresses of the connections, and what the loop's
    other users keep. *)
Record Table (U : Type) := mkTable { connection_map : gmap Z Z; rest : U }.
Arguments mkTable {_}.
Arguments connection_map {_}.
Arguments rest {_}.

(** The table has exactly the live connections, every closed connection is on
    the list, no eventer has been taken out of the poller, and nobody was waited
    for more often than allowed. In [E] are the connections whose closing is not
    finished yet. *)
Record filed (E : gset Z) (ms : gmap Z Member) (dels : list Z) (t : gmap Z Z) : Prop := {
  f_self : forall i (m : Member), ms !! i = Some m -> self_ m.1 = i;
  f_table : forall fd i, t !! fd = Some i -> exists m : Member, ms !! i = Some m /\ fd_ m.1 = fd;
  f_members : forall i (m : Member), ms !! i = Some m -> t !! fd_ m.1 = Some i;
  f_closed : forall i (m : Member), ms !! i = Some m -> state_ m.1 = kDisconnected -> fd_ m.1 ∈ dels \/ i ∈ E;
  f_eventer : forall i (m : Member), ms !! i = Some m -> Eventer.out_events_ (eventer_ m.1) <> Eventer.kRemoved;
  f_retries : forall i (m : Member), ms !! i = Some m ->
    0 <= pending_io_retries_ m.1 <= EventManager.kMaxPendingIoRetries;
}.

Abbreviation filing E := (fun ms dels x => filed E ms dels (connection_map x)).
Abbreviation filed_at E := (at_member (filing E)).

Section event_loop.
Context {R A F U : Type} `{!Ring R, !BuildConfig}.
Abbreviation Ctx := (IoContext + A)%type.
Abbreviation Fn := (ConnFn + F)%type.
Abbreviation P := (Poller R Ctx Fn).
Abbreviation Op := (IoUringOp Ctx Fn).
Abbreviation W := (World P (Peers (Table U))).
Abbreviation S := (Sys R Ctx Fn (LoopState (Table U))).

Definition table (s : S) : gmap Z Z := connection_map (loop_user (s_env s)).
Definition set_env (e : LoopState (Table U)) (s : S) : S :=
  mkSys (s_poller s) (s_eventers s) (active_eventers s) e.
Definition set_table (t : gmap Z Z) (s : S) : S :=
  set_env (mkLoopState (members (s_env s)) (deletions (s_env s)) (mkTable t (rest (loop_user (s_env s))))) s.
Definition set_member (i : Z) (m : Member) (s : S) : S :=
  set_env (mkLoopState (<[i := m]> (members (s_env s))) (deletions (s_env s)) (loop_user (s_env s))) s.
Definition set_deletions (dels : list Z) (s : S) : S :=
  set_env (mkLoopState (members (s_env s)) dels (loop_user (s_env s))) s.

(** [EventManager::InsertNewConnection]: the entry of a descriptor that has one
    gives up its connection, which is destroyed. *)
Definition InsertNewConnection (i socket_fd so_error : Z) (s : S) : S :=
  let s' := new_connection i socket_fd so_error s in
  let s' := match table s !! socket_fd with
            | Some j => match members (s_env s') !! j with
                        | Some m => delete_connection j m s'
                        | None => s'
                        end
            | None => s'
            end in
  set_table (<[socket_fd := i]> (table s)) s'.

(** The body of the loop of [EventManager::DestroyClosedConnections]. *)
Definition destroy_one (fd : Z) (acc : S * gset Z) : S * gset Z :=
  let '(s, remaining_fds) := acc in
  match table s !! fd with
  | Some i =>
      match members (s_env s) !! i with
      | Some m =>
          if IsDisconnected m.1 then
            if EventManager.keeps_waiting m.1
            then (set_member i (BumpPendingIoWait 1 m.1, m.2) s, {[fd]} ∪ remaining_fds)
            else (delete_connection i m (set_table (delete fd (table s)) s), remaining_fds)
          else (s, remaining_fds)
      | None => (s, remaining_fds)
      end
  | None => (s, remaining_fds)
  end.

Definition closed_set (s : S) : gset Z := list_to_set (deletions (s_env s)).

Definition DestroyClosedConnections (s : S) : S :=
  let '(s', remaining_fds) := foldl (fun acc fd => destroy_one fd acc) (s, ∅) (elements (closed_set s)) in
  set_deletions (elements remaining_fds) s'.

(** ** Table, connections and list in agreement *)

#[export] Instance filed_addressed E : Addressed (X := Table U) (filing E).
Proof. intros ms dels x i m Hf Hi. by apply (f_self _ _ _ _ Hf). Qed.

Definition filed_sys (s : S) : Prop := filed ∅ (members (s_env s)) (deletions (s_env s)) (table s).

(** One connection is replaced by a later state of itself. *)
Lemma filed_update E ms dels dels' t i (m m' : Member) :
  filed E (<[i := m]> ms) dels t ->
  self_ m'.1 = self_ m.1 -> fd_ m'.1 = fd_ m.1 -> Eventer.out_events_ (eventer_ m'.1) = Eventer.out_events_ (eventer_ m.1) ->
  (state_ m'.1 = kDisconnected -> state_ m.1 = kDisconnected \/ i ∈ E) ->
  0 <= pending_io_retries_ m'.1 <= EventManager.kMaxPendingIoRetries -> dels ⊆ dels' ->
  filed E (<[i := m']> ms) dels' t.
Proof.
  intros [Hs Ht Hm Hc He Hr] Hself Hfd Hev Hst Hret Hdels.
  assert ((<[i := m]> ms) !! i = Some m) as Hi by apply lookup_insert_eq.
  split.
  - intros j mj [[<- <-]|[Hne Hj]]%lookup_insert_Some; [rewrite Hself; by apply Hs|].
    apply Hs. by rewrite lookup_insert_ne.
  - intros fd j Hj. destruct (Ht fd j Hj) as (mj & Hmj & Hfdj).
    apply lookup_insert_Some in Hmj as [[<- <-]|[Hne Hmj]].
    + exists m'. by rewrite lookup_insert_eq, Hfd.
    + exists mj. by rewrite lookup_insert_ne.
  - intros j mj [[<- <-]|[Hne Hj]]%lookup_insert_Some; [rewrite Hfd; by apply Hm|].
    apply Hm. by rewrite lookup_insert_ne.
  - intros j mj [[<- <-]|[Hne Hj]]%lookup_insert_Some Hd.
    + destruct (Hst Hd) as [Hd'|?]; [|by right]. rewrite Hfd. destruct (Hc i m Hi Hd'); [left; by apply Hdels|by right].
    + destruct (Hc j mj) as [?|?]; [by rewrite lookup_insert_ne|done|left; by apply Hdels|by right].
  - intros j mj [[<- <-]|[Hne Hj]]%lookup_insert_Some; [rewrite Hev; by apply (He i)|].
    apply (He j). by rewrite lookup_insert_ne.
  - intros j mj [[<- <-]|[Hne Hj]]%lookup_insert_Some; [done|]. apply (Hr j). by rewrite lookup_insert_ne.
Qed.

Lemma filed_calm E i (w w' : W) : filed_at E i w -> calm w w' -> filed_at E i w'.
Proof.
  intros (Hs & Hp & Hf) [Hs' Hfd Hev Hst Hre Hcl He]. unfold at_member. rewrite He, Hs', Hcl. split; [done|]. split; [done|].
  unfold all_members in *. rewrite Hs', He. eapply filed_update; [exact Hf|done|done|by simpl; rewrite Hev| | |done].
  - intros Hd. left. by apply Hst.
  - simpl. rewrite Hre. apply (f_retries _ _ _ _ Hf (self_ (conn w)) (member_of w)), lookup_insert_eq.
Qed.

(** ** Methods and completions *)

(** The connection may close once it counts as closing. *)
Lemma filed_closing E i st (w : W) : filed_at E i w -> filed_at ({[i]} ∪ E) i (upd_conn (set_state st) w).
Proof.
  intros (Hs & Hp & [Hse Ht Hm Hc He Hre]). split; [done|]. split; [done|].
  unfold all_members in *. change (env (upd_conn (set_state st) w)) with (env w).
  change (self_ (conn (upd_conn (set_state st) w))) with (self_ (conn w)).
  eapply (filed_update _ _ (closed_fds_ w) _ _ _ (member_of w)); [|done|done|done| | |done].
  - split; [done|done|done| |done|done]. intros j m Hj Hd. destruct (Hc j m Hj Hd); [by left|right; set_solver].
  - intros _. right. set_solver.
  - apply (Hre (self_ (conn w)) (member_of w)), lookup_insert_eq.
Qed.

Lemma filed_closed E i (w : W) : filed_at ({[i]} ∪ E) i w -> filed_at E i (DeleteConnection (fd_ (conn w)) w).
Proof.
  intros (Hs & Hp & [Hse Ht Hm Hc He Hre]). split; [done|]. split; [done|].
  change (all_members (DeleteConnection (fd_ (conn w)) w)) with (all_members w).
  split; [done|done|done| |done|done]. intros j m Hj Hd. simpl. rewrite elem_of_app, elem_of_cons.
  destruct (decide (j = i)) as [->|Hne].
  - unfold all_members in Hj. rewrite Hs, lookup_insert_eq in Hj. simplify_eq. simpl. tauto.
  - destruct (Hc j m Hj Hd) as [?|?]; [tauto|]. right. set_solver.
Qed.

#[export] Instance filed_steps E i : ClosingInv (filed_at E i : W -> Prop) (filed_at ({[i]} ∪ E) i).
Proof.
  split.
  - intros w w' Hw [Hc _]. by eapply filed_calm.
  - intros w w' Hw [Hc _]. by eapply filed_calm.
  - intros st w Hw Hst Hne. by eapply filed_calm; [exact Hw|].
  - intros w Hw _. by apply filed_closing.
  - apply filed_closed.
Qed.

(** ** The pass over the closed connections *)

(** What it leaves of a connection on the list. *)
Definition after_pass (m : Member) : option Member :=
  (fun c => (c, m.2)) <$> EventManagerFacts.after_pass m.1.

Lemma after_pass_eq m :
  after_pass m = if IsDisconnected m.1
                 then if EventManager.keeps_waiting m.1 then Some (BumpPendingIoWait 1 m.1, m.2) else None
                 else Some m.
Proof.
  unfold after_pass, EventManagerFacts.after_pass. destruct m as [c l].
  by destruct (IsDisconnected _); [destruct (EventManager.keeps_waiting _)|].
Qed.

Lemma after_pass_same m m' : after_pass m = Some m' ->
  self_ m'.1 = self_ m.1 /\ fd_ m'.1 = fd_ m.1 /\ state_ m'.1 = state_ m.1 /\ eventer_ m'.1 = eventer_ m.1.
Proof.
  rewrite after_pass_eq. intros Ha.
  destruct (IsDisconnected m.1); [destruct (EventManager.keeps_waiting m.1)|]; by simplify_eq/=.
Qed.

Lemma destroy_one_members fd s rem s' rem' :
  filed_sys s -> destroy_one fd (s, rem) = (s', rem') ->
  deletions (s_env s') = deletions (s_env s) /\
  (forall i, members (s_env s') !! i = m ← members (s_env s) !! i; if decide (fd_ m.1 = fd) then after_pass m else Some m) /\
  (forall fd', fd' ∈ rem' <-> fd' ∈ rem \/ fd' = fd /\
     exists i (m : Member), members (s_env s) !! i = Some m /\ fd_ m.1 = fd /\ EventManagerFacts.waits m.1 = true).
Proof.
  intros Hf Hd. unfold destroy_one in Hd. cbv beta iota in Hd.
  destruct (table s !! fd) as [i|] eqn:Et.
  2: { simplify_eq. split; [done|]. split.
       - intros j. destruct (members (s_env s') !! j) as [m|] eqn:Em; [|done]. simpl.
         rewrite decide_False; [done|]. intros <-. by rewrite (f_members _ _ _ _ Hf j m Em) in Et.
       - intros fd'. split; [by left|]. intros [?|(_ & j & m & Em & <- & _)]; [done|].
         by rewrite (f_members _ _ _ _ Hf j m Em) in Et. }
  destruct (f_table _ _ _ _ Hf _ _ Et) as (m & Em & Hfd). rewrite Em in Hd.
  assert (forall j (mj : Member), members (s_env s) !! j = Some mj -> fd_ mj.1 = fd -> j = i) as Huniq.
  { intros j mj Ej Hj. pose proof (f_members _ _ _ _ Hf j mj Ej) as Ht. congruence. }
  assert (forall j, j <> i -> members (s_env s) !! j =
    mj ← members (s_env s) !! j; if decide (fd_ mj.1 = fd) then after_pass mj else Some mj) as Hother.
  { intros j Hj. destruct (members (s_env s) !! j) as [mj|] eqn:Ej; [|done]. simpl. rewrite decide_False; [done|].
    intros Heq. by apply Hj, (Huniq j mj). }
  assert (forall o, o = after_pass m -> forall j, (if decide (j = i) then o else members (s_env s) !! j) =
    mj ← members (s_env s) !! j; if decide (fd_ mj.1 = fd) then after_pass mj else Some mj) as Hall.
  { intros o Ho j. destruct (decide (j = i)) as [->|Hj]; [|by apply Hother]. rewrite Em. simpl. by rewrite decide_True. }
  assert (forall w, EventManagerFacts.waits m.1 = w -> forall fd', (fd' ∈ rem \/ fd' = fd /\ w = true) <->
    fd' ∈ rem \/ fd' = fd /\ exists j (mj : Member), members (s_env s) !! j = Some mj /\ fd_ mj.1 = fd /\
      EventManagerFacts.waits mj.1 = true) as Hw.
  { intros w Hw fd'. split; (intros [?|[-> Hx]]; [by left|right; split; [done|]]); [exists i, m; by subst|].
    destruct Hx as (j & mj & Ej & Hj & Hwj). rewrite (Huniq j mj Ej Hj), Em in Ej. by simplify_eq. }
  pose proof (after_pass_eq m) as Hap. unfold EventManagerFacts.waits in Hw.
  destruct (IsDisconnected m.1); [destruct (EventManager.keeps_waiting m.1)|]; simplify_eq;
    (split; [done|]; split; [intros j; rewrite <-(Hall _ (eq_sym Hap) j)|
       intros fd'; rewrite <-(Hw _ eq_refl fd'); set_solver]); simpl; destruct (decide (j = i)) as [->|]; try done.
  - apply lookup_insert_eq.
  - by apply lookup_insert_ne.
  - apply lookup_delete_eq.
  - by apply lookup_delete_ne.
Qed.

Lemma filed_delete E ms dels t i fd (m : Member) :
  filed E ms dels t -> t !! fd = Some i -> ms !! i = Some m -> fd_ m.1 = fd ->
  filed E (delete i ms) dels (delete fd t).
Proof.
  intros [Hs Ht Hm Hc He Hr] Hfd Hi Hmfd.
  split; [intros j mj [_ Hj]%lookup_delete_Some; by apply Hs| | |
          intros j mj [_ Hj]%lookup_delete_Some; by apply Hc|intros j mj [_ Hj]%lookup_delete_Some; by apply (He j)|
          intros j mj [_ Hj]%lookup_delete_Some; by apply (Hr j)].
  - intros fd' j [Hne Hj]%lookup_delete_Some. destruct (Ht fd' j Hj) as (mj & Hmj & Hfdj).
    exists mj. rewrite lookup_delete_ne; [done|]. intros <-. congruence.
  - intros j mj [Hne Hj]%lookup_delete_Some. rewrite lookup_delete_ne; [by apply Hm|].
    intros Heq. pose proof (Hm j mj Hj). congruence.
Qed.

(** Nobody is waited for more than 1000 times. *)
Lemma bump_retries c :
  0 <= pending_io_retries_ c <= EventManager.kMaxPendingIoRetries -> EventManager.keeps_waiting c = true ->
  0 <= pending_io_retries_ (BumpPendingIoWait 1 c) <= EventManager.kMaxPendingIoRetries /\
  pending_io_retries_ (BumpPendingIoWait 1 c) = pending_io_retries_ c + 1.
Proof.
  unfold EventManager.keeps_waiting, EventManager.kMaxPendingIoRetries.
  intros Hr [[_ Hlt%Z.ltb_lt]%andb_true_iff _]%andb_true_iff. simpl. unfold s32. rewrite sext_small by lia. lia.
Qed.

Lemma bump_ok held n i (m : Member) (s : S) :
  sys_ok held n s -> members (s_env s) !! i = Some m ->
  sys_ok held n (set_member i (BumpPendingIoWait 1 m.1, m.2) s).
Proof.
  intros [K D M O Hh] Hi. split; simpl; [done|done| | |done].
  - intros j mj [[<- <-]|[_ Hj]]%lookup_insert_Some; [|by apply M].
    destruct (M i m Hi) as (? & ? & []). split; [done|]. split; [done|]. by split.
  - intros k x Hx. apply lookup_insert_mono. by apply (O k).
Qed.

(** The poller afterwards: the eventer is gone, and none is added. *)
Lemma delete_connection_states held n i (m : Member) (s : S) :
  sys_ok held n s -> members (s_env s) !! i = Some m ->
  Eventer.out_events_ (eventer_ m.1) <> Eventer.kRemoved ->
  forall j, states_ (s_poller (delete_connection i m s)) !! j
            = if decide (j = i) then None else states_ (s_poller s) !! j.
Proof.
  intros Hs Hi He j. pose proof (loop_self_io _ _ _ (enter_inv _ _ _ _ _ Hs Hi)) as Hio.
  pose proof (os_states _ _ _ (own_CancelPendingIo _ _ Hio)) as Hst. simpl in Hst.
  unfold delete_connection. cbn [s_poller].
  assert (eventer_ (conn (CancelPendingIo (enter i m s))) = eventer_ m.1) as -> by apply still_CancelPendingIo.
  unfold Eventer.RemoveMyself. rewrite (proj2 (Z.eqb_neq _ _)) by done. cbn [negb snd].
  unfold RemoveEventer. cbn [states_ with_states]. destruct (decide (j = i)) as [->|Hne]; [apply lookup_delete_eq|].
  rewrite lookup_delete_ne, <-Hst by done. unfold CancelPoll.
  repeat case_match; simpl; try done; by rewrite lookup_insert_ne.
Qed.

(** One step of the pass keeps the loop in order. *)
Lemma destroy_one_filed fd s rem s' rem' :
  filed_sys s -> destroy_one fd (s, rem) = (s', rem') -> filed_sys s'.
Proof.
  intros Hf Hd. unfold destroy_one in Hd. cbv beta iota in Hd.
  destruct (table s !! fd) as [i|] eqn:Et; [|by simplify_eq].
  destruct (f_table _ _ _ _ Hf _ _ Et) as (m & Em & Hfd). rewrite Em in Hd.
  destruct (IsDisconnected m.1); [destruct (EventManager.keeps_waiting m.1) eqn:Ew|]; simplify_eq; [| |done].
  - eapply (filed_update _ _ (deletions (s_env s)) _ _ i m); [by rewrite insert_id|done|done|done|by left| |done].
    by apply bump_retries; [apply (f_retries _ _ _ _ Hf i)|].
  - by eapply filed_delete.
Qed.

Lemma destroy_one_ok held n fd s rem s' rem' :
  sys_ok held n s -> filed_sys s -> destroy_one fd (s, rem) = (s', rem') ->
  sys_ok held n s' /\
  forall i, states_ (s_poller s') !! i =
    if decide (is_Some (members (s_env s) !! i) /\ members (s_env s') !! i = None)
    then None else states_ (s_poller s) !! i.
Proof.
  intros Hs Hf Hd. unfold destroy_one in Hd. cbv beta iota in Hd.
  assert (sys_ok held n s /\ forall i, states_ (s_poller s) !! i =
    if decide (is_Some (members (s_env s) !! i) /\ members (s_env s) !! i = None)
    then None else states_ (s_poller s) !! i) as Hsame.
  { split; [done|]. intros i. rewrite decide_False; [done|]. intros [[? ?] ?]. congruence. }
  destruct (table s !! fd) as [i|] eqn:Et; [|by simplify_eq].
  destruct (f_table _ _ _ _ Hf _ _ Et) as (m & Em & Hfd). rewrite Em in Hd.
  destruct (IsDisconnected m.1); [destruct (EventManager.keeps_waiting m.1)|]; simplify_eq; [| |done].
  - split; [by apply bump_ok|]. intros j. simpl. rewrite decide_False; [done|]. intros [Hsome Hn].
    apply lookup_insert_None in Hn as [Hn _]. rewrite Hn in Hsome. by destruct Hsome.
  - split; [by apply delete_connection_ok|].
    intros j. rewrite (delete_connection_states held n) by (done || by apply (f_eventer _ _ _ _ Hf i)).
    simpl. destruct (decide (j = i)) as [->|Hne].
    + rewrite decide_True; [done|]. rewrite Em, lookup_delete_eq. done.
    + rewrite decide_False; [done|]. rewrite lookup_delete_ne by done. intros [[? ?] ?]. congruence.
Qed.

(** The state of the loop after the descriptors [l] were looked at. *)
Record passed (l : list Z) (s : S) (rem : gset Z) (s' : S) (rem' : gset Z) : Prop := {
  pa_deletions : deletions (s_env s') = deletions (s_env s);
  pa_members : forall i, members (s_env s') !! i
    = m ← members (s_env s) !! i; if decide (fd_ m.1 ∈ l) then after_pass m else Some m;
  pa_remaining : forall fd, fd ∈ rem' <-> fd ∈ rem \/ fd ∈ l /\
    exists i (m : Member), members (s_env s) !! i = Some m /\ fd_ m.1 = fd /\ EventManagerFacts.waits m.1 = true;
}.

Lemma closed_fold l s rem s' rem' :
  NoDup l -> filed_sys s -> foldl (fun acc fd => destroy_one fd acc) (s, rem) l = (s', rem') ->
  filed_sys s' /\ passed l s rem s' rem'.
Proof.
  intros Hnd. revert s rem. induction Hnd as [|fd l Hfd Hnd IH]; intros s rem Hf Hfold; cbn [foldl] in Hfold.
  { simplify_eq. split; [done|]. split; [done| |].
    - intros i. by destruct (members (s_env s') !! i).
    - intros fd. split; [by left|]. intros [?|[?%elem_of_nil _]]; done. }
  destruct (destroy_one fd (s, rem)) as [s1 rem1] eqn:E1.
  destruct (destroy_one_members _ _ _ _ _ Hf E1) as (Hd1 & Hm1 & Hr1).
  destruct (IH s1 rem1 (destroy_one_filed _ _ _ _ _ Hf E1) Hfold) as (Hf' & [Hd Hm Hr]). split; [done|].
  split; [congruence| |].
  - intros i. rewrite Hm, Hm1. destruct (members (s_env s) !! i) as [m|]; [|done]. cbn [mbind option_bind].
    destruct (decide (fd_ m.1 = fd)) as [Heq|Hne].
    + rewrite (decide_True (P := fd_ m.1 ∈ fd :: l)) by set_solver.
      destruct (after_pass m) as [m'|] eqn:Ea; [|done]. cbn [mbind option_bind].
      destruct (after_pass_same _ _ Ea) as (_ & Hfd' & _). by rewrite decide_False by congruence.
    + cbn [mbind option_bind]. apply decide_ext. set_solver.
  - intros fd'. rewrite Hr, Hr1, elem_of_cons. split.
    + intros [[?|[-> ?]]|[? (i & m & Hi & Hmfd & Hw)]]; [by left|right; split; [by left|done]|right; split; [by right|]].
      rewrite Hm1 in Hi. destruct (members (s_env s) !! i) as [m0|] eqn:E0; [|done]. simpl in Hi.
      destruct (decide (fd_ m0.1 = fd)) as [Heq|]; [|simplify_eq; by exists i, m].
      destruct (after_pass_same _ _ Hi) as (_ & Hfd' & _). congruence.
    + intros [?|[[->|Hin] (i & m & Hi & Hmfd & Hw)]]; [by left; left|left; right; split; [done|by exists i, m]|].
      right. split; [done|]. exists i, m. rewrite Hm1, Hi. simpl. rewrite decide_False by congruence. done.
Qed.

Lemma closed_fold_ok held n l s rem s' rem' :
  sys_ok held n s -> filed_sys s -> foldl (fun acc fd => destroy_one fd acc) (s, rem) l = (s', rem') ->
  sys_ok held n s' /\
  (forall i, members (s_env s') !! i = None -> is_Some (members (s_env s) !! i) -> states_ (s_poller s') !! i = None) /\
  (forall i, states_ (s_poller s) !! i = None -> states_ (s_poller s') !! i = None).
Proof.
  revert s rem. induction l as [|fd l IH]; intros s rem Hs Hf Hfold; cbn [foldl] in Hfold.
  { simplify_eq. split; [done|]. split; [by intros i -> [? ?]|done]. }
  destruct (destroy_one fd (s, rem)) as [s1 rem1] eqn:E1.
  destruct (destroy_one_ok held n _ _ _ _ _ Hs Hf E1) as (Hs1 & Hst1).
  destruct (IH s1 rem1 Hs1 (destroy_one_filed _ _ _ _ _ Hf E1) Hfold) as (Hs' & Hst & Hnew). split; [done|]. split.
  - intros i Hn Hsome. destruct (members (s_env s1) !! i) as [m1|] eqn:Em1; [by apply Hst; [|eexists]|].
    apply Hnew. by rewrite Hst1, decide_True.
  - intros i Hi. apply Hnew. rewrite Hst1. by case_decide.
Qed.

(** What a pass does to each connection. *)
Record pass_outcome (s s' : S) : Prop := {
  po_members : forall i, members (s_env s') !! i
    = m ← members (s_env s) !! i; if decide (fd_ m.1 ∈ deletions (s_env s)) then after_pass m else Some m;
  po_deletions : forall fd, fd ∈ deletions (s_env s') <-> fd ∈ deletions (s_env s) /\
    exists i (m : Member), members (s_env s) !! i = Some m /\ fd_ m.1 = fd /\ EventManagerFacts.waits m.1 = true;
}.

Lemma pass_filed s :
  filed_sys s -> filed_sys (DestroyClosedConnections s) /\ pass_outcome s (DestroyClosedConnections s).
Proof.
  intros Hf. unfold DestroyClosedConnections.
  destruct (foldl _ _ _) as [s' rem] eqn:Efold.
  destruct (closed_fold _ _ _ _ _ (NoDup_elements _) Hf Efold) as (Hf' & [Hd Hm Hr]).
  assert (forall fd, fd ∈ elements (closed_set s) <-> fd ∈ deletions (s_env s)) as Hin.
  { intros fd. unfold closed_set. by rewrite elem_of_elements, elem_of_list_to_set. }
  assert (forall fd, fd ∈ elements rem <-> fd ∈ deletions (s_env s) /\
    exists i (m : Member), members (s_env s) !! i = Some m /\ fd_ m.1 = fd /\ EventManagerFacts.waits m.1 = true) as Hrem.
  { intros fd. rewrite elem_of_elements, Hr, Hin. set_solver. }
  assert (forall i, members (s_env s') !! i = m ← members (s_env s) !! i;
    if decide (fd_ m.1 ∈ deletions (s_env s)) then after_pass m else Some m) as Hm'.
  { intros i. rewrite Hm. destruct (members (s_env s) !! i) as [m|]; [|done]. simpl. by apply decide_ext. }
  split; [|by split]. destruct Hf' as [F1 F2 F3 F4 F5 F6]. split; simpl; [done|done|done| |done|done].
  intros i m' Hi Hdis. left. pose proof Hi as Hi0. rewrite Hm' in Hi0.
  destruct (members (s_env s) !! i) as [m|] eqn:Em; [|done]. simpl in Hi0.
  destruct (decide (fd_ m.1 ∈ deletions (s_env s))) as [Hl|Hl].
  - destruct (after_pass_same _ _ Hi0) as (_ & Hfd & Hstate & _). apply Hrem. rewrite Hfd. split; [done|].
    exists i, m. split; [done|]. split; [done|]. unfold EventManagerFacts.waits.
    rewrite after_pass_eq in Hi0. rewrite Hstate in Hdis. unfold IsDisconnected in *.
    rewrite bool_decide_true in * by done. by destruct (EventManager.keeps_waiting m.1).
  - simplify_eq. destruct (f_closed _ _ _ _ Hf i m' Em Hdis) as [?|?]; [done|set_solver].
Qed.

Lemma pass_ok held n s :
  sys_ok held n s -> filed_sys s ->
  sys_ok held n (DestroyClosedConnections s) /\
  forall i, members (s_env (DestroyClosedConnections s)) !! i = None -> is_Some (members (s_env s) !! i) ->
    states_ (s_poller (DestroyClosedConnections s)) !! i = None.
Proof.
  intros Hs Hf. unfold DestroyClosedConnections. destruct (foldl _ _ _) as [s' rem] eqn:Efold.
  by destruct (closed_fold_ok held n _ _ _ _ _ Hs Hf Efold) as (? & ? & _).
Qed.

Section callbacks.
Context `{!ConnCallbacks W} {Hfc : forall E i, LawfulCallbacks (fun _ => filed_at E i) 0}.

(** ** The loop *)

Lemma enter_filed s i (m : Member) : filed_sys s -> members (s_env s) !! i = Some m -> filed_at ∅ i (enter i m s).
Proof. apply (world_at (filing ∅)). Qed.

Lemma leave_filed i w s : filed_at ∅ i w -> filed_sys (leave w s).
Proof. by intros (_ & _ & ?). Qed.

(** A new connection: the kernel hands out no descriptor that is still open, so
    the table has no entry for it. *)
Lemma Insert_fresh i fd e s :
  table s !! fd = None ->
  InsertNewConnection i fd e s = set_table (<[fd := i]> (table s)) (new_connection i fd e s).
Proof. intros Hfd. unfold InsertNewConnection. by rewrite Hfd. Qed.

Lemma Insert_filed i fd e s :
  filed_sys s -> members (s_env s) !! i = None -> table s !! fd = None -> filed_sys (InsertNewConnection i fd e s).
Proof.
  intros [Hs Ht Hm Hc He Hr] Hi Hfd. rewrite Insert_fresh by done. unfold filed_sys, table. simpl.
  fold (table s). split.
  - intros j m [[<- <-]|[_ Hj]]%lookup_insert_Some; [done|by apply Hs].
  - intros fd' j [[<- <-]|[_ Hj]]%lookup_insert_Some; [eexists; split; [apply lookup_insert_eq|done]|].
    destruct (Ht fd' j Hj) as (m & Hmj & ?). exists m. rewrite lookup_insert_ne; [done|congruence].
  - intros j m [[<- <-]|[_ Hj]]%lookup_insert_Some; simpl; [apply lookup_insert_eq|].
    specialize (Hm j m Hj). rewrite lookup_insert_ne; [done|congruence].
  - intros j m [[<- <-]|[_ Hj]]%lookup_insert_Some; [done|by apply Hc].
  - intros j m [[<- <-]|[_ Hj]]%lookup_insert_Some; [done|by apply (He j)].
  - intros j m [[<- <-]|[_ Hj]]%lookup_insert_Some; [done|by apply (Hr j)].
Qed.

Context (kernel_data : cqe -> list Byte.byte).
Context (other_complete : F -> cqe -> Op -> S -> result (Op * S)) (other_call : Z -> Eventer.call -> S -> result S).
Context (b B : Z) {Hcb : forall held, LawfulCallbacks (loop_inv held) b}.

(** What code outside the connections does with the loop, new connections going
    into the table. *)
Inductive loop_uses (s0 : S) : Z -> S -> Prop :=
| lu_nothing : loop_uses s0 0 s0
| lu_api m s a : loop_uses s0 m s -> foreign a s -> loop_uses s0 (m + 1) (upd_poller (run_api a) s)
| lu_insert m s i fd e :
    loop_uses s0 m s -> members (s_env s) !! i = None -> table s !! fd = None ->
    loop_uses s0 (m + 1) (InsertNewConnection i fd e s)
| lu_method m s i mem me w :
    loop_uses s0 m s -> members (s_env s) !! i = Some mem -> run_method me (enter i mem s) = Ok w ->
    loop_uses s0 (m + (2 * b + 1)) (leave w s)
| lu_rest m s evs act x :
    loop_uses s0 m s -> loop_uses s0 m (mkSys (s_poller s) evs act
      (mkLoopState (members (s_env s)) (deletions (s_env s)) (mkTable (table s) x))).

Lemma loop_uses_uses s0 m s : loop_uses s0 m s -> uses b s0 m s.
Proof.
  induction 1 as [|m s a _ IH Ha|m s i fd e _ IH Hi Hfd|m s i mem me w _ IH Hi Hrun|m s evs act x _ IH].
  - constructor.
  - by constructor.
  - rewrite Insert_fresh by done. unfold set_table, set_env.
    apply (uses_rest _ _ _ (new_connection i fd e s)). by constructor.
  - by eapply uses_method.
  - by apply uses_rest.
Qed.

Lemma loop_uses_filed s0 m s : loop_uses s0 m s -> filed_sys s0 -> filed_sys s.
Proof using Hfc.
  intros Hu Hs. induction Hu as [|m s a _ IH Ha|m s i fd e _ IH Hi Hfd|m s i mem me w _ IH Hi Hrun|m s evs act x _ IH];
    try done.
  - by apply Insert_filed.
  - eapply leave_filed, run_method_keeps; [apply filed_steps|done|done|by apply enter_filed|exact Hrun].
Qed.

(** The poller's other users. *)
Class LoopUsers : Prop := {
  lu_bound : 0 <= B;
  lu_complete : forall f c op s op' s', other_complete f c op s = Ok (op', s') ->
    key op' = key op /\ type op' = type op /\ completion op' = completion op /\
    exists m, m <= B /\ loop_uses s m s';
  lu_call : forall ev c s s', other_call ev c s = Ok s' -> exists m, m <= B /\ loop_uses s m s';
}.

#[export] Instance loop_users_lawful : LoopUsers -> LawfulOthers other_complete other_call b B.
Proof.
  intros [HB Hc Hr]. split; [done| |].
  - intros f c op s op' s' Ho. destruct (Hc _ _ _ _ _ _ Ho) as (? & ? & ? & m & ? & Hu).
    split_and!; try done. exists m. split; [done|by apply loop_uses_uses].
  - intros ev c s s' Ho. destruct (Hr _ _ _ _ Ho) as (m & ? & Hu). exists m. split; [done|by apply loop_uses_uses].
Qed.

#[local] Existing Instance loop_handlers.

Abbreviation HandleCqe_ := (HandleCqe (Handlers0 := loop_handlers kernel_data other_complete other_call)).

Section completions.
Context {Hlu : LoopUsers}.

Lemma complete_filed fn c op s op' s' :
  Poller.complete (Handlers := loop_handlers kernel_data other_complete other_call) fn c op s = Ok (op', s') ->
  filed_sys s -> filed_sys s'.
Proof using Hfc Hlu.
  intros Hrun Hs. destruct fn as [fn|f]; simpl in Hrun.
  - unfold conn_complete in Hrun. destruct (context op) as [[x|]|]; try done.
    destruct (members (s_env s) !! ctx_self x) as [m|] eqn:Em; [|done]. bind_ok.
    pose proof (enter_filed _ _ _ Hs Em) as Hw. apply (leave_filed (ctx_self x)).
    destruct fn, x; simpl in Hok; try done.
    + eapply OnReadComplete_keeps; [apply filed_steps|done|done|exact Hw|exact Hok].
    + eapply OnWriteComplete_keeps; [apply filed_steps|done|exact Hw|exact Hok].
  - destruct (lu_complete _ _ _ _ _ _ Hrun) as (_ & _ & _ & m & _ & Hu). by eapply loop_uses_filed.
Qed.

Lemma call_filed ev c s s' :
  Poller.run_call (Handlers := loop_handlers kernel_data other_complete other_call) ev c s = Ok s' ->
  filed_sys s -> filed_sys s'.
Proof using Hfc Hlu. intros Hrun. destruct (lu_call _ _ _ _ Hrun) as (m & _ & Hu). by eapply loop_uses_filed. Qed.

Lemma HandleCqe_filed c s s' : HandleCqe_ c s = Ok s' -> filed_sys s -> filed_sys s'.
Proof using Hfc Hlu.
  apply (HandleCqe_env (fun e => filed ∅ (members e) (deletions e) (connection_map (loop_user e))));
    [apply complete_filed|apply call_filed].
Qed.
End completions.

(** ** The life of a loop *)

Section life.
Context {Hlu : LoopUsers}.

(** Uses of the loop, completions and passes, in any order; the number bounds
    the keys used. *)
Inductive life (s0 : S) : Z -> S -> Prop :=
| life_start : life s0 0 s0
| life_uses N s m s' : life s0 N s -> loop_uses s m s' -> 0 <= m -> life s0 (N + m) s'
| life_cqe N s c s' :
    life s0 N s -> last_shot c s -> HandleCqe_ c s = Ok s' -> life s0 (N + (B + 2 * b + 2)) s'
| life_submit N s : life s0 N s -> life s0 N (upd_poller SubmitPending s)
| life_pass N s : life s0 N s -> life s0 N (DestroyClosedConnections s).

Lemma submit_pending_ok held n (s : S) : sys_ok held n s -> sys_ok held n (upd_poller SubmitPending s).
Proof.
  intros Hs. apply (loop_ok_frame _ _ 0 _ (s_poller s)); [by rewrite Z.add_0_r| |apply Hs|done|done].
  apply kept_frame; try done. apply wf_with_ring, Hs.
Qed.

Lemma life_filed s0 N s : life s0 N s -> filed_sys s0 -> filed_sys s.
Proof using Hfc Hlu.
  induction 1 as [|N s m s' _ IH Hu Hm|N s c s' _ IH Hlast Hh|N s _ IH|N s _ IH]; intros Hf; [done| | |by apply IH|].
  - by eapply loop_uses_filed, IH.
  - by eapply HandleCqe_filed, IH.
  - by apply pass_filed, IH.
Qed.

Lemma life_ok s0 N s :
  life s0 N s -> filed_sys s0 -> forall n, 0 <= n -> sys_ok None (n + N) s0 -> sys_ok None n s.
Proof using Hcb Hfc Hlu.
  intros Hrun Hf0. pose proof lu_bound. pose proof (cb_bound (I := loop_inv None)).
  induction Hrun as [|N s m s' _ IH Hu Hm|N s c s' _ IH Hlast Hh|N s _ IH|N s Hl IH]; intros n Hn Hs.
  - by rewrite Z.add_0_r in Hs.
  - eapply (uses_ok other_complete other_call b); [by apply loop_uses_uses|done|].
    apply IH; [lia|]. by replace (n + m + N) with (n + (N + m)) by lia.
  - eapply (HandleCqe_ok kernel_data other_complete other_call b B); [done| |done|done].
    apply IH; [lia|]. by replace (n + (B + 2 * b + 2) + N) with (n + (N + (B + 2 * b + 2))) by lia.
  - by apply submit_pending_ok, IH.
  - apply pass_ok; [by apply IH|by eapply life_filed].
Qed.

(** A loop at its start. *)
Definition event_loop_new (r : R) (accept_supported : option bool) (cqe_answer : Z * Z)
    (evs : gmap Z Eventer.Eventer) (x : U) : S :=
  loop_new r accept_supported cqe_answer evs (mkTable ∅ x).

Lemma new_filed r a q evs x : filed_sys (event_loop_new r a q evs x).
Proof. split; simpl; intros; by simplify_map_eq. Qed.

Lemma life_in_order r a q evs x N s :
  life (event_loop_new r a q evs x) N s -> N <= 2 ^ 64 - 2 -> sys_ok None 0 s /\ filed_sys s.
Proof using Hcb Hfc Hlu.
  intros Hl HN. split; [|by eapply life_filed, new_filed].
  eapply life_ok; [exact Hl|apply new_filed|done|by apply loop_new_ok].
Qed.

Lemma pass_back s s' : pass_outcome s s' -> forall i (m : Member), members (s_env s') !! i = Some m ->
  exists m0 : Member, members (s_env s) !! i = Some m0 /\ fd_ m0.1 = fd_ m.1.
Proof.
  intros [Hm _] i m Hi. rewrite Hm in Hi. destruct (members (s_env s) !! i) as [m0|]; [|done].
  cbn [mbind option_bind] in Hi. exists m0. split; [done|]. destruct (decide _); [|by simplify_eq].
  by destruct (after_pass_same _ _ Hi) as (_ & ? & _).
Qed.

(** The pass leaves the table with exactly the connections it leaves. *)
Lemma pass_table i (m : Member) s :
  filed_sys s -> filed_sys (DestroyClosedConnections s) -> pass_outcome s (DestroyClosedConnections s) ->
  members (s_env s) !! i = Some m ->
  table (DestroyClosedConnections s) !! fd_ m.1
  = match members (s_env (DestroyClosedConnections s)) !! i with Some _ => Some i | None => None end.
Proof.
  set (s' := DestroyClosedConnections s). intros Hf Hf' Hpass Hi.
  pose proof (pass_back s s' Hpass) as Hback.
  destruct (members (s_env s') !! i) as [m'|] eqn:Hi'.
  - destruct (Hback i m' Hi') as (m0 & Hm0 & Hfd). simplify_eq. rewrite Hfd. by apply (f_members _ _ _ _ Hf').
  - destruct (table s' !! fd_ m.1) as [j|] eqn:Et; [|done].
    destruct (f_table _ _ _ _ Hf' _ _ Et) as (mj & Hj & Hfd). destruct (Hback j mj Hj) as (m0 & Hm0 & Hfd0).
    pose proof (f_members _ _ _ _ Hf _ _ Hm0) as H1. pose proof (f_members _ _ _ _ Hf _ _ Hi) as H2.
    rewrite Hfd0, Hfd, H2 in H1. simplify_eq.
Qed.

(** C5. No connection of a loop is lost. Whatever the loop has done, from user
    callbacks that use any of its connections to completions in any order: every
    live connection is in the table under its descriptor, and a closed one is on
    the list of descriptors. The next pass destroys exactly the closed
    connections it need not wait for: such a connection, its entry in the table
    and its eventer in the poller are gone, and no request is left whose
    completion function would run on it; one that is waited for stays on the list
    with its counters raised, and open connections stay as they are. *)
Theorem closed_connections_destroyed r a q evs x N s :
  life (event_loop_new r a q evs x) N s -> N <= 2 ^ 64 - 2 ->
  let s' := DestroyClosedConnections s in
  (forall i (m : Member), members (s_env s) !! i = Some m ->
    table s !! fd_ m.1 = Some i /\
    if IsDisconnected m.1 then
      fd_ m.1 ∈ deletions (s_env s) /\
      if EventManager.keeps_waiting m.1 then
        members (s_env s') !! i = Some (BumpPendingIoWait 1 m.1, m.2) /\ table s' !! fd_ m.1 = Some i /\
        fd_ m.1 ∈ deletions (s_env s')
      else
        members (s_env s') !! i = None /\ table s' !! fd_ m.1 = None /\ states_ (s_poller s') !! i = None /\
        (fd_ m.1 ∉ deletions (s_env s')) /\
        forall k y, requests (s_poller s') !! k = Some y -> ctx_self y <> i
    else members (s_env s') !! i = Some m /\ table s' !! fd_ m.1 = Some i) /\
  (forall i, members (s_env s) !! i = None -> members (s_env s') !! i = None).
Proof using Hcb Hfc Hlu.
  intros Hl HN s'. destruct (life_in_order _ _ _ _ _ _ _ Hl HN) as [Hs Hf].
  destruct (pass_ok None 0 s Hs Hf) as [Hs' Hst]. destruct (pass_filed s Hf) as [Hf' Hpass].
  fold s' in Hs', Hst, Hf', Hpass. pose proof Hpass as [Hm Hd]. split; [|by intros i Hi; rewrite Hm, Hi].
  intros i m Hi. pose proof (f_members _ _ _ _ Hf i m Hi) as Ht. split; [done|].
  pose proof (pass_table i m s Hf Hf' Hpass Hi) as Htab. fold s' in Htab.
  pose proof (Hm i) as Hmi. rewrite Hi in Hmi. cbn [mbind option_bind] in Hmi.
  pose proof (after_pass_eq m) as Hap.
  destruct (IsDisconnected m.1) eqn:Edis.
  2: { assert (members (s_env s') !! i = Some m) as Hi' by (rewrite Hmi; destruct (decide _); congruence).
       by rewrite Hi' in Htab. }
  assert (fd_ m.1 ∈ deletions (s_env s)) as Hin.
  { unfold IsDisconnected in Edis. apply bool_decide_eq_true in Edis.
    destruct (f_closed _ _ _ _ Hf i m Hi Edis); [done|set_solver]. }
  split; [done|]. rewrite decide_True, Hap in Hmi by done.
  destruct (EventManager.keeps_waiting m.1) eqn:Ew; rewrite Hmi in Htab.
  - split; [done|]. split; [done|]. apply Hd. split; [done|]. exists i, m. unfold EventManagerFacts.waits. by rewrite Edis, Ew.
  - split; [done|]. split; [done|]. split; [by apply Hst; [|eexists]|]. split.
    + intros [_ (j & mj & Hj & Hfd & Hw)]%Hd. pose proof (f_members _ _ _ _ Hf j mj Hj).
      assert (j = i) as -> by congruence. simplify_eq. unfold EventManagerFacts.waits in Hw. by rewrite Edis, Ew in Hw.
    + intros k y Hy <-. destruct (lo_owned _ _ _ _ Hs' k y Hy). congruence.
Qed.

End life.
End callbacks.

End event_loop.

(** Users who do nothing. *)
Lemma idle_users {R A F U : Type} `{!Ring R, !BuildConfig}
    `{!ConnCallbacks (World (Poller R (IoContext + A) (ConnFn + F)) (Peers (Table U)))} b :
  LoopUsers (R := R) (A := A) (F := F) (U := U) (fun _ _ op s => Ok (op, s)) (fun _ _ s => Ok s) b 0.
Proof.
  split; [done| |].
  - intros f c op s op' s' Hc. simplify_eq. split_and!; [done..|]. exists 0. split; [done|]. constructor.
  - intros ev c s s' Hc. simplify_eq. exists 0. split; [done|]. constructor.
Qed.

(** ** Two connections, one closed *)

Module Concrete.

#[local] Existing Instance PollerFacts.Concrete.endless_ring.
#[local] Existing Instance PollerFacts.Concrete.old_headers.

Abbreviation P := (Poller (list sqe) (IoContext + unit) (ConnFn + unit)).
Abbreviation W := (World P (Peers (Table unit))).
Abbreviation Op := (IoUringOp (IoContext + unit) (ConnFn + unit)).
Abbreviation S := (Sys (list sqe) (IoContext + unit) (ConnFn + unit) (LoopState (Table unit))).

Definition kernel (_ : cqe) : list Byte.byte := [].
Definition no_complete (_ : unit) (_ : cqe) (op : Op) (s : S) : result (Op * S) := Ok (op, s).
Definition no_call (_ : Z) (_ : Eventer.call) (s : S) : result S := Ok s.

(** A user who stops the reading of connection 2 when a connection changes. *)
#[local] Instance hushing : ConnCallbacks W := {|
  OnConnectionCallback_ := Some (at_peer 2 (fun w => Ok (StopReading w)));
  OnMessageCallback_ := None;
  WriteCompleteCallback_ := None;
  HighWaterMarkCallback_ := None;
  CloseCallback_ := None;
|}.

#[local] Instance hushing_lawful held : LawfulCallbacks (loop_inv held) 0.
Proof.
  split; try done; simpl. intros f Hf. simplify_eq. apply at_peer_keeps. intros n w w' Hn Hinv Hcall. simplify_eq.
  rewrite Z.add_0_r in Hinv. by apply ri_cancel.
Qed.

#[local] Instance hushing_files E i : LawfulCallbacks (fun _ => filed_at E i) 0.
Proof.
  split; try done; simpl. intros f Hf. simplify_eq. apply (at_peer_at (filing E)). clear i. intros i n w w' Hn Hinv Hcall. simplify_eq.
  eapply ci_still; [exact Hinv|apply still_CancelPendingIo].
Qed.

#[local] Instance no_users : LoopUsers no_complete no_call 0 0 := idle_users 0.

Definition step (i : Z) (me : method) (s : S) : option S :=
  m ← members (s_env s) !! i;
  match run_method me (enter i m s) with Ok w => Some (leave w s) | Fault _ => None end.
Definition do (i : Z) (me : method) (s : S) : S := default s (step i me s).

Lemma loop_uses_do s0 n s i me :
  loop_uses 0 s0 n s -> bool_decide (is_Some (step i me s)) = true -> loop_uses 0 s0 (n + (2 * 0 + 1)) (do i me s).
Proof.
  intros Hu Hs%bool_decide_eq_true. unfold do. destruct (step i me s) as [s'|] eqn:E; [|by destruct Hs]. simpl.
  unfold step in E. destruct (members (s_env s) !! i) as [m|] eqn:Em; [|done]. simpl in E.
  destruct (run_method me (enter i m s)) as [w|] eqn:Er; [|done]. simplify_eq. by eapply lu_method.
Qed.

Definition start : S := event_loop_new [] None (0, 0) ∅ ().
Definition two : S := InsertNewConnection 2 6 0 (InsertNewConnection 1 5 0 start).
Definition reading : S := do 2 MOnEstablishing (do 1 MOnEstablishing two).
Definition one_closed : S := do 1 MForceClose reading.

Lemma one_closed_life : life kernel no_complete no_call 0 0 start 5 one_closed.
Proof.
  apply (life_uses _ _ _ _ _ _ 0 start 5); [constructor| |done].
  apply (loop_uses_do _ 4); [|vm_compute; reflexivity]. apply (loop_uses_do _ 3); [|vm_compute; reflexivity].
  apply (loop_uses_do _ 2); [|vm_compute; reflexivity].
  apply (lu_insert _ _ 1); [|done|done]. apply (lu_insert _ _ 0); [|done|done]. constructor.
Qed.

Definition view (i : Z) : option (bool * bool * Z) :=
  (fun m : Member => (IsDisconnected m.1, EventManager.keeps_waiting m.1, fd_ m.1)) <$> members (s_env one_closed) !! i.

Lemma one_closed_view :
  view 1 = Some (true, false, 5) /\ view 2 = Some (false, false, 6) /\ deletions (s_env one_closed) = [5].
Proof. split; [vm_compute; reflexivity|]. split; vm_compute; reflexivity. Qed.

Lemma view_member i d w fd : view i = Some (d, w, fd) ->
  exists m : Member, members (s_env one_closed) !! i = Some m /\ IsDisconnected m.1 = d /\
    EventManager.keeps_waiting m.1 = w /\ fd_ m.1 = fd.
Proof.
  unfold view. intros (m & Hm & Hv)%fmap_Some. injection Hv as -> -> ->.
  exists m. split; [exact Hm|]. split; [reflexivity|]. split; reflexivity.
Qed.

Definition after : S := DestroyClosedConnections one_closed.

Lemma closed_connections_destroyed_witness :
  members (s_env after) !! 1 = None /\ table after !! 5 = None /\ states_ (s_poller after) !! 1 = None /\
  members (s_env after) !! 2 = members (s_env one_closed) !! 2.
Proof.
  destruct (closed_connections_destroyed kernel no_complete no_call 0 0 [] None (0, 0) ∅ () 5 one_closed) as [Hm _].
  - exact one_closed_life.
  - vm_compute. discriminate.
  - destruct one_closed_view as (H1 & H2 & _).
    apply view_member in H1 as (m1 & H1 & Hd1 & Hw1 & Hf1). apply view_member in H2 as (m2 & H2 & Hd2 & _).
    destruct (Hm 1 m1 H1) as [_ Hgone]. rewrite Hd1, Hw1, Hf1 in Hgone. destruct Hgone as (_ & Hg & Ht & Hst & _).
    destruct (Hm 2 m2 H2) as [_ Hstay]. rewrite Hd2 in Hstay. destruct Hstay as [Hstay _].
    split; [exact Hg|]. split; [exact Ht|]. split; [exact Hst|]. rewrite H2. exact Hstay.
Defined.
End Concrete.
