(* ===== verification/LoopRun.v ===== *)
(** * The run of a loop

    [EventManager::Start] (src/event_manager.cc) on the connections and the
    poller themselves: the rounds of polling, active eventers, expired time tasks
    and the pass over the closed connections; then all connections are closed,
    and completions are handled and closed connections destroyed until there is
    none. EventManager has the same with what [Poll], the eventers and
    [ForceClose] do as arguments; here they are Poller's and Connecting's. *)

From stdpp Require Import prelude gmap list.
From S2P Require Import Prelude.
From S2P Require Import IoBuffer.
From S2P Require Import Timer.
From S2P Require Import Poller.
From S2P Require Import PollerFacts.
From S2P Require Import Connecting.
From S2P Require Import ConnectingFacts.
From S2P Require Import Reactor.
From S2P Require Import LoopSteps.
From S2P Require Import EventLoop.
From S2P Require EventManager.
From S2P Require EventManagerFacts.

(** What other threads call on the manager of a loop. *)
Inductive remote (T C : Type) :=
| RQuit
| RWakeUp
| RRunAt (time_point : TimePoint C) (task : option T)
| RRunAfter (delay_microseconds : Z) (task : option T)
| RRunEveryUntil (interval_microseconds : Z) (task : option T) (start : TimePoint C) (IsContinue : option C)
| RRunSoon (task : option T).
Arguments RQuit {_ _}.
Arguments RWakeUp {_ _}.
Arguments RRunAt {_ _}.
Arguments RRunAfter {_ _}.
Arguments RRunEveryUntil {_ _}.
Arguments RRunSoon {_ _}.

(** One round: the calls of other threads and the time before the polling, what
    the kernel and the clock of the budget answer, the time [Poll] returns, and
    the time when the expired tasks are collected and registered again (there the
    clock is read for each of them; one reading stands for all). *)
Record round (T C : Type) := mkRound {
  meanwhile : list (remote T C);
  before : timeval;
  wait : option (Z * Z) -> cq_answer;
  peeks : list cq_answer;
  started : Z;
  clock : list Z;
  returned : timeval;
  now : timeval;
}.
Arguments mkRound {_ _}.
Arguments meanwhile {_ _}.
Arguments before {_ _}.
Arguments wait {_ _}.
Arguments peeks {_ _}.
Arguments started {_ _}.
Arguments clock {_ _}.
Arguments returned {_ _}.
Arguments now {_ _}.

(** Nothing completes. *)
Definition silent {T C} (r : round T C) : Prop := forall t, exists err, wait r t = NoCqe err.

Section run.
Context {R A F T C V : Type} `{!Ring R, !BuildConfig}.
(** The timer, [should_quit_] and the wake-up descriptor of the manager, with its
    operations on them; its connections are those of the loop. *)
Abbreviation U := (EventManager.EventManager T C V).
Abbreviation round := (round T C).
Abbreviation Ctx := (IoContext + A)%type.
Abbreviation Fn := (ConnFn + F)%type.
Abbreviation P := (Poller R Ctx Fn).
Abbreviation Op := (IoUringOp Ctx Fn).
Abbreviation W := (World P (Peers (Table U))).
Abbreviation S := (Sys R Ctx Fn (LoopState (Table U))).
Context `{!ConnCallbacks W} (kernel_data : cqe -> list Byte.byte).
Context (other_complete : F -> cqe -> Op -> S -> result (Op * S)) (other_call : Z -> Eventer.call -> S -> result S).
(** The time tasks and the conditions of periodic ones. *)
Context (run_task : T -> S -> result S) (run_continue : C -> S -> result (bool * S)).
#[local] Instance handlers : Handlers R Ctx Fn (LoopState (Table U)) :=
  loop_handlers kernel_data other_complete other_call.

Definition manager (s : S) : U := rest (loop_user (s_env s)).
Definition upd_manager (f : U -> U) (s : S) : S :=
  set_env (mkLoopState (members (s_env s)) (deletions (s_env s)) (mkTable (table s) (f (manager s)))) s.

Definition run_remote (tv : timeval) (c : remote T C) : U -> U :=
  match c with
  | RQuit => EventManager.Quit
  | RWakeUp => EventManager.WakeUp
  | RRunAt tp task => EventManager.RunAt tp task tv tv
  | RRunAfter d task => EventManager.RunAfter d task tv tv tv
  | RRunEveryUntil d task start go => EventManager.RunEveryUntil d task start go tv tv
  | RRunSoon task => EventManager.RunSoon task tv
  end.

Definition remotely (r : round) (s : S) : S :=
  upd_manager (fun em => foldl (fun em c => run_remote (before r) c em) em (meanwhile r)) s.

(** [EventManager::DoWithActiveTasks]: [Eventer::Work] of every active eventer. *)
Fixpoint work_all (evs : list Z) (s : S) : result S :=
  match evs with
  | [] => Ok s
  | ev :: evs =>
      e ← deref ev s;
      s ← run_calls ev (Eventer.Work e) s;
      work_all evs s
  end.

Definition DoWithActiveTasks (s : S) : result S :=
  s ← work_all (active_eventers s) s;
  Ok (mkSys (s_poller s) (s_eventers s) [] (s_env s)).

(** [EventManager::DoExpiredTimeTasks]: every expired task runs, and a periodic
    one is registered for the next time. *)
Definition do_expired (return_time : TimePoint C) (tv : timeval) (x : TimePoint C * option T) (s : S) : result S :=
  let '(tp, cb) := x in
  s ← match cb with Some t => run_task t s | None => Ok s end;
  if negb (0 =? GetContext tp) then
    match GetTaskContinueCallback tp with
    | Some c =>
        '(go, s) ← run_continue c s;
        Ok (if (go : bool)
            then upd_manager (EventManager.RunEveryUntil (GetContext tp) cb return_time (Some c) tv tv) s else s)
    | None => Ok (upd_manager (EventManager.RunEveryUntil (GetContext tp) cb return_time None tv tv) s)
    end
  else Ok s.

Fixpoint do_all_expired (return_time : TimePoint C) (tv : timeval) (l : list (TimePoint C * option T)) (s : S)
  : result S :=
  match l with
  | [] => Ok s
  | x :: l => s ← do_expired return_time tv x s; do_all_expired return_time tv l s
  end.

Definition DoExpiredTimeTasks (return_time : TimePoint C) (tv : timeval) (s : S) : result S :=
  let '(expired, t) := GetExpiredTimeTasks tv (EventManager.timer_ (manager s)) in
  do_all_expired return_time tv expired (upd_manager (EventManager.set_timer t) s).

(** A round of the main loop. *)
Definition loop_body (r : round) (s : S) : result S :=
  let s := remotely r s in
  '(_, s) ← Poll (GetMinTimeDuration (before r) (EventManager.timer_ (manager s)))
              (wait r) (peeks r) (started r) (clock r) s;
  s ← DoWithActiveTasks s;
  s ← DoExpiredTimeTasks (TimePoint_now (returned r)) (now r) s;
  Ok (DestroyClosedConnections s).

(** The main loop over the rounds given: [inl] when they are used up. *)
Fixpoint main_loop (rounds : list round) (s : S) : result (S + S * list round) :=
  if EventManager.should_quit_ (manager s) then Ok (inr (s, rounds))
  else match rounds with
       | [] => Ok (inl s)
       | r :: rounds => s ← loop_body r s; main_loop rounds s
       end.

(** The loop over [connections_to_close]; the order in which the table lists them
    is not specified, here it is that of [map_to_list]. *)
Fixpoint close_all (connections : list Z) (s : S) : result S :=
  match connections with
  | [] => Ok s
  | i :: connections =>
      match members (s_env s) !! i with
      | None => Fault OutOfBounds
      | Some m => w ← ForceClose (enter i m s); close_all connections (leave w s)
      end
  end.

(** A round of the loop that drains. *)
Definition drain_round (r : round) (s : S) : result S :=
  '(_, s) ← Poll 1 (wait r) (peeks r) (started r) (clock r) (remotely r s);
  s ← DoWithActiveTasks s;
  Ok (DestroyClosedConnections s).

(** [None] when the rounds are used up before. *)
Fixpoint drain_loop (rounds : list round) (s : S) : result (option S) :=
  if bool_decide (table s = ∅) && bool_decide (deletions (s_env s) = []) then Ok (Some s)
  else match rounds with
       | [] => Ok None
       | r :: rounds => s ← drain_round r s; drain_loop rounds s
       end.

(** [Start] after its main loop. *)
Definition Finish (rounds : list round) (s : S) : result (option S) :=
  s ← close_all (map_to_list (table s)).*2 s;
  o ← drain_loop rounds s;
  Ok (option_map (set_table ∅) o).

(** [EventManager::Start]: [Some] of the final state when it returns within the
    rounds. *)
Definition Start (rounds : list round) (s : S) : result (option S) :=
  o ← main_loop rounds (upd_manager (EventManager.set_quit false) s);
  match o with
  | inl _ => Ok None
  | inr (s, rounds) => Finish rounds s
  end.

(** ** All connections closed *)

(** The connections [D] exist; all but those in [L] are closed, and everyone was
    waited for [n] times at least. *)
Definition closing (D : gset Z) (L : list Z) (n : Z) (ms : gmap Z Member) (_ : list Z) (_ : Table U) : Prop :=
  D ⊆ dom ms /\
  forall j (m : Member), ms !! j = Some m ->
    self_ m.1 = j /\ n <= pending_io_retries_ m.1 /\ (j ∈ L \/ state_ m.1 = kDisconnected).

Abbreviation closing_at D L n := (at_member (closing D L n)).
Definition closing_sys (D : gset Z) (L : list Z) (n : Z) (s : S) : Prop :=
  closing D L n (members (s_env s)) (deletions (s_env s)) (loop_user (s_env s)).

#[export] Instance closing_addressed D L n : Addressed (closing D L n).
Proof. intros ms dels x i m [_ Hm] Hi. by destruct (Hm i m Hi). Qed.

Lemma closing_update D L L' n i (m m' : Member) ms dels dels' x x' :
  closing D L n (<[i := m]> ms) dels x ->
  self_ m'.1 = self_ m.1 -> pending_io_retries_ m'.1 = pending_io_retries_ m.1 ->
  (i ∈ L' \/ state_ m'.1 = kDisconnected) -> (forall j, j <> i -> j ∈ L -> j ∈ L') ->
  closing D L' n (<[i := m']> ms) dels' x'.
Proof.
  intros [Hd Hm] Hs Hr Hst HL. split; [by rewrite dom_insert_L in *|].
  destruct (Hm i m) as (Hi & Hn & _); [apply lookup_insert_eq|].
  intros j mj [[<- <-]|[Hne Hj]]%lookup_insert_Some; [rewrite Hs, Hr; done|].
  destruct (Hm j mj) as (? & ? & Hstj); [by rewrite lookup_insert_ne|]. split; [done|]. split; [done|].
  destruct Hstj as [?|?]; [left; by apply HL|by right].
Qed.

(** Closing connection [i] takes it off [L]. *)
#[local] Instance closing_steps D L n i : ClosingInv (closing_at D (i :: L) n i : W -> Prop) (closing_at D L n i).
Proof using.
  assert (forall L' (w w' : W), closing_at D L' n i w -> still w w' -> closing_at D L' n i w') as Hstill.
  { intros L' w w' (Hs & Hp & Hc) [[Hs' _ _ _ Hr Hcl He] Hst]. split; [congruence|]. split; [by rewrite He|].
    unfold all_members in *. rewrite Hs', He. eapply closing_update; [exact Hc|done|done| |done].
    destruct Hc as [_ Hm]. destruct (Hm (self_ (conn w)) (member_of w)) as (_ & _ & Hw); [apply lookup_insert_eq|].
    simpl in *. by rewrite Hst. }
  assert (forall st L' (w : W), closing_at D (i :: L) n i w -> (i ∈ L' \/ st = kDisconnected) ->
    (forall j, j <> i -> j ∈ i :: L -> j ∈ L') -> closing_at D L' n i (upd_conn (set_state st) w)) as Hstate.
  { intros st L' w (Hs & Hp & Hc) Hst HL. split; [done|]. split; [done|].
    unfold all_members in *. change (self_ (conn (upd_conn (set_state st) w))) with (self_ (conn w)).
    change (env (upd_conn (set_state st) w)) with (env w).
    eapply closing_update; [exact Hc|done|done| |]; by rewrite Hs. }
  split.
  - apply Hstill.
  - apply Hstill.
  - intros st w Hw _ _. apply Hstate; [done|left; by left|done].
  - intros w Hw _. apply Hstate; [done|by right|]. by intros j Hne [->|?]%elem_of_cons.
  - intros w (Hs & Hp & [Hd Hm]). split; [done|]. split; [done|]. split; [done|].
    intros j m Hj. destruct (Hm j m Hj) as (? & ? & [?|?]); (split; [done|]; split; [done|]); [left; by right|by right].
Qed.

(** Steps that close any number of connections keep everyone else's state. *)
#[export] Instance closing_same D L n i : ClosingInv (closing_at D L n i : W -> Prop) (closing_at D L n i).
Proof using.
  assert (forall w w' : W, closing_at D L n i w -> still w w' -> closing_at D L n i w') as Hstill.
  { intros w w' Hw Hst. destruct (closing_steps D L n i) as [_ Hc _ _ _]. by eapply Hc. }
  assert (forall st (w : W), closing_at D L n i w -> state_ (conn w) <> kDisconnected ->
    closing_at D L n i (upd_conn (set_state st) w)) as Hstate.
  { intros st w (Hs & Hp & Hc) Hst. split; [done|]. split; [done|].
    unfold all_members in *. change (self_ (conn (upd_conn (set_state st) w))) with (self_ (conn w)).
    change (env (upd_conn (set_state st) w)) with (env w).
    eapply closing_update; [exact Hc|done|done| |done]. left.
    destruct Hc as [_ Hm]. by destruct (Hm (self_ (conn w)) (member_of w)) as (_ & _ & [?|?]); [apply lookup_insert_eq|..]. }
  split; [done|done|by intros; apply Hstate|by intros; apply Hstate|done].
Qed.

Lemma enter_closing D L n s i (m : Member) :
  closing_sys D L n s -> members (s_env s) !! i = Some m -> closing_at D L n i (enter i m s).
Proof. apply (world_at (closing D L n)). Qed.

Lemma leave_closing D L n i w s : closing_at D L n i w -> closing_sys D L n (leave w s).
Proof. by intros (_ & _ & ?). Qed.

Section callbacks.
Context {Hcc : forall D L n i, LawfulCallbacks (fun _ => closing_at D L n i) 0}.
Context {Hfc : forall E i, LawfulCallbacks (fun _ => filed_at E i) 0}.

Lemma ForceClose_closing D L n i (w w' : W) :
  closing_at D (i :: L) n i w -> ForceClose w = Ok w' -> closing_at D L n i w'.
Proof using Hcc.
  intros Hw Hrun. unfold ForceClose in Hrun.
  destruct (bool_decide_reflect (state_ (conn w) <> kDisconnected)) as [Hst|Hst].
  - destruct (DoClosing_steps (closing_at D (i :: L) n i) (closing_at D L n i)
      (upd_conn (set_state kDisconnecting) w) w') as (w1 & Hw1 & ->); [|done|done|exact Hw1].
    by eapply (ci_state (ClosingInv := closing_steps D L n i)).
  - simplify_eq. destruct Hw as (Hs & Hp & Hd & Hm). split; [done|]. split; [done|]. split; [done|].
    intros j m Hj. destruct (Hm j m Hj) as (? & ? & Hor). split; [done|]. split; [done|].
    destruct (decide (j = i)) as [->|Hne]; [|destruct Hor as [[?|?]%elem_of_cons|?]; [done|by left|by right]]. right.
    unfold all_members in Hj. rewrite Hs, lookup_insert_eq in Hj. simplify_eq. by apply dec_stable.
Qed.

Lemma close_all_closing D L n s s' : closing_sys D L n s -> close_all L s = Ok s' -> closing_sys D [] n s'.
Proof using Hcc.
  revert s. induction L as [|i L IH]; intros s Hs Hrun; cbn [close_all] in Hrun; [by simplify_eq|].
  destruct (members (s_env s) !! i) as [m|] eqn:Em; [|done]. bind_ok.
  eapply IH; [|done]. eapply leave_closing, ForceClose_closing; [by apply enter_closing|done].
Qed.

Lemma close_all_filed L s s' : filed_sys s -> close_all L s = Ok s' -> filed_sys s'.
Proof using Hfc.
  revert s. induction L as [|i L IH]; intros s Hs Hrun; cbn [close_all] in Hrun; [by simplify_eq|].
  destruct (members (s_env s) !! i) as [m|] eqn:Em; [|done]. bind_ok.
  eapply IH; [|done]. eapply leave_filed, ForceClose_keeps; [apply filed_steps|done|by apply enter_filed|exact Hok].
Qed.

(** The connections of the table are all there are. *)
Lemma filed_closing_sys s : filed_sys s -> closing_sys (dom (members (s_env s))) (map_to_list (table s)).*2 0 s.
Proof.
  intros Hf. split; [done|]. intros i m Hi.
  split; [by eapply f_self|]. split; [by eapply f_retries|]. left.
  pose proof (f_members _ _ _ _ Hf i m Hi) as Ht. apply list_elem_of_fmap. exists (fd_ m.1, i).
  split; [done|by apply elem_of_map_to_list].
Qed.

Lemma close_all_active L s s' : close_all L s = Ok s' -> active_eventers s' = active_eventers s.
Proof using.
  revert s. induction L as [|i L IH]; intros s Hrun; cbn [close_all] in Hrun; [by simplify_eq|].
  destruct (members (s_env s) !! i) as [m|]; [|done]. bind_ok. by eapply IH in Hok0.
Qed.

(** ** Closing returns *)

(** The callbacks of closing return while the connections [D] exist. *)
Definition returning (D : gset Z) : Prop := forall f : W -> result W,
  OnConnectionCallback_ = Some f \/ CloseCallback_ = Some f ->
  forall L n i w, closing_at D L n i w -> exists w', f w = Ok w'.

Lemma call_if_returns D L n i (cb : option (W -> result W)) w :
  returning D -> (forall f, cb = Some f -> OnConnectionCallback_ = Some f \/ CloseCallback_ = Some f) ->
  closing_at D L n i w -> exists w', call_if cb w = Ok w' /\ closing_at D L n i w'.
Proof using Hcc.
  intros Hr Hcb Hw. destruct cb as [f|]; simpl; [|by eexists].
  destruct (Hr f (Hcb f eq_refl) L n i w Hw) as [w' Hw']. exists w'. split; [done|].
  destruct (Hcb f eq_refl) as [Hf|Hf]; (eapply keeps_call; [|exact Hw|exact Hw']); [by apply cb_connection|by apply cb_close].
Qed.

(** Such a callback may use a connection in [D]. *)
Lemma at_peer_returns D L n i j (f : W -> result W) w :
  j ∈ D -> (forall w, exists w', f w = Ok w') -> (forall D i, keeps (fun _ => closing_at D L n i) 0 f) ->
  closing_at D L n i w -> exists w', at_peer j f w = Ok w'.
Proof using.
  intros Hj Hf Hk (Hs & Hp & Hd & Hm). unfold at_peer. rewrite Hs. destruct (Z.eqb_spec j i) as [->|Hne]; [apply Hf|].
  assert (closing_at ({[i]} ∪ D) L n i w) as Hw.
  { split; [done|]. split; [done|]. split; [|done]. apply union_subseteq. split; [|done].
    apply singleton_subseteq_l, elem_of_dom. unfold all_members. rewrite Hs, lookup_insert_eq. by eexists. }
  pose proof (Hd j Hj) as Hin. apply elem_of_dom in Hin as [m Hin]. unfold all_members in Hin.
  rewrite Hs, lookup_insert_ne in Hin by done. unfold focus. rewrite Hin. cbn [mbind option_bind].
  set (w1 := world _ _ _ _ _). destruct (Hf w1) as [w2 Hw2]. rewrite Hw2. cbn [mbind result_bind].
  assert (closing_at ({[i]} ∪ D) L n j w2) as (Hs2 & _ & Hd2 & _).
  { eapply keeps_call; [apply Hk| |exact Hw2]. apply (world_at (closing _ L n)); [apply Hw|].
    unfold all_members. by rewrite Hs, lookup_insert_ne. }
  assert (i ∈ dom (all_members w2)) as Hi by (apply Hd2, elem_of_union_l, elem_of_singleton; done).
  apply elem_of_dom in Hi as [m' Hi]. unfold all_members in Hi. rewrite Hs2, lookup_insert_ne in Hi by done.
  rewrite Hi. by eexists.
Qed.

Lemma ForceClose_returns D L n i w :
  returning D -> closing_at D (i :: L) n i w -> exists w', ForceClose w = Ok w'.
Proof using Hcc.
  intros Hr Hw. unfold ForceClose. destruct (bool_decide_reflect (state_ (conn w) <> kDisconnected)); [|by eexists].
  unfold DoClosing. rewrite bool_decide_true by done. cbv zeta.
  destruct (call_if_returns D L n i OnConnectionCallback_ (CancelPendingIo (StopReadingWriting
    (upd_conn (set_state kDisconnected) (upd_conn (set_state kDisconnecting) w))))) as (w1 & -> & Hw1); [done|by left| |].
  - eapply ci_closing_still; [|apply still_CancelPendingIo]. eapply ci_closing_still; [|apply still_CancelPendingIo].
    apply (ci_begin (ClosingInv := closing_steps D L n i)); [|done].
    by apply (ci_state (ClosingInv := closing_steps D L n i)).
  - cbn [mbind result_bind]. destruct (call_if_returns D L n i CloseCallback_ w1) as (w2 & -> & _); [done|by right|done|].
    by eexists.
Qed.

Lemma close_all_returns D L n s :
  returning D -> closing_sys D L n s -> list_to_set L ⊆ D -> exists s', close_all L s = Ok s'.
Proof using Hcc.
  intros Hr. revert s. induction L as [|i L IH]; intros s Hs HD; [by eexists|]. cbn [close_all].
  destruct (members (s_env s) !! i) as [m|] eqn:Em.
  2: { apply not_elem_of_dom in Em. destruct Hs as [Hd _]. destruct Em. apply Hd, HD. apply elem_of_list_to_set. by left. }
  destruct (ForceClose_returns D L n i (enter i m s) Hr) as [w Hw]; [by apply enter_closing|]. rewrite Hw. cbn [mbind result_bind].
  apply IH; [|intros j Hj; apply HD, elem_of_list_to_set; right; by apply elem_of_list_to_set in Hj].
  eapply leave_closing, ForceClose_closing; [by apply enter_closing|done].
Qed.

(** ** The rounds *)

Context (b B : Z) {Hlu : LoopUsers other_complete other_call b B}.

(** Once the loop stops, the poller's other users add no connections to it. *)
Class StopsQuietly : Prop := {
  sq_complete : forall n f c op (s : S) op' s', other_complete f c op s = Ok (op', s') ->
    closing_sys ∅ [] n s -> closing_sys ∅ [] n s';
  sq_call : forall n ev c (s s' : S), other_call ev c s = Ok s' -> closing_sys ∅ [] n s -> closing_sys ∅ [] n s';
}.

(** Users who leave the connections alone, and at most submit requests or post
    tasks, as an acceptor does, are quiet. *)
Lemma stops_quietly_aside :
  (forall f c op (s : S) op' s', other_complete f c op s = Ok (op', s') -> members (s_env s') = members (s_env s)) ->
  (forall ev c (s s' : S), other_call ev c s = Ok s' -> members (s_env s') = members (s_env s)) ->
  StopsQuietly.
Proof using Type.
  intros Hc Hd. split; unfold closing_sys, closing.
  - intros n f c op s op' s' Hrun. by rewrite (Hc _ _ _ _ _ _ Hrun).
  - intros n ev c s s' Hrun. by rewrite (Hd _ _ _ _ Hrun).
Qed.

Context {Hsq : StopsQuietly}.

Lemma complete_closing n fn c op (s : S) op' s' :
  Poller.complete fn c op s = Ok (op', s') -> closing_sys ∅ [] n s -> closing_sys ∅ [] n s'.
Proof using Hcc Hsq.
  intros Hrun Hs. destruct fn as [fn|f]; simpl in Hrun; [|by eapply sq_complete].
  unfold conn_complete in Hrun. destruct (context op) as [[x|]|]; try done.
  destruct (members (s_env s) !! ctx_self x) as [m|] eqn:Em; [|done]. bind_ok.
  pose proof (enter_closing _ _ _ _ _ _ Hs Em) as Hw. apply (leave_closing _ _ _ (ctx_self x)).
  destruct fn, x; simpl in Hok; try done.
  - eapply OnReadComplete_keeps; [apply closing_same|done|done|exact Hw|exact Hok].
  - eapply OnWriteComplete_keeps; [apply closing_same|done|exact Hw|exact Hok].
Qed.

(** A loop that has been draining for [n] rounds. *)
Record draining (n : Z) (e : LoopState (Table U)) : Prop := {
  dr_filed : filed ∅ (members e) (deletions e) (connection_map (loop_user e));
  dr_closing : closing ∅ [] n (members e) (deletions e) (loop_user e);
}.

Lemma complete_draining n fn c op (s : S) op' s' :
  Poller.complete fn c op s = Ok (op', s') -> draining n (s_env s) -> draining n (s_env s').
Proof using Hcc Hfc Hlu Hsq.
  intros Hrun [Hf Hc]. split; [by eapply complete_filed|by eapply complete_closing].
Qed.

Lemma call_draining n ev c (s s' : S) :
  Poller.run_call ev c s = Ok s' -> draining n (s_env s) -> draining n (s_env s').
Proof using Hfc Hlu Hsq.
  intros Hrun [Hf Hc]. split; [by eapply (call_filed kernel_data)|by eapply sq_call].
Qed.

Lemma work_all_draining n evs (s s' : S) :
  work_all evs s = Ok s' -> draining n (s_env s) -> draining n (s_env s').
Proof using Hfc Hlu Hsq.
  revert s. induction evs as [|ev evs IH]; intros s Hrun Hs; cbn [work_all] in Hrun; [by simplify_eq|]. bind_ok.
  eapply IH; [done|]. eapply (run_calls_env (draining n)); [by apply call_draining|done|done].
Qed.

(** A pass destroys the closed connections or waits once more. *)
Lemma pass_draining n (s : S) : draining n (s_env s) -> draining (n + 1) (s_env (DestroyClosedConnections s)).
Proof using.
  intros [Hf Hc]. destruct (pass_filed s Hf) as [Hf' [Hm _]]. split; [done|]. split; [apply empty_subseteq|].
  intros i m' Hi. rewrite Hm in Hi. destruct (members (s_env s) !! i) as [m|] eqn:Em; [|done].
  cbn [mbind option_bind] in Hi. destruct Hc as [_ Hc]. destruct (Hc i m Em) as (Hs & Hn & [Hnil|Hst]); [by apply elem_of_nil in Hnil|].
  rewrite decide_True, after_pass_eq in Hi.
  2: { destruct (f_closed _ _ _ _ Hf i m Em Hst) as [?|?%elem_of_empty]; done. }
  unfold IsDisconnected in Hi. rewrite bool_decide_true in Hi by done.
  destruct (EventManager.keeps_waiting m.1) eqn:Ew; [|done].
  destruct (bump_retries m.1 (f_retries _ _ _ _ Hf i m Em) Ew) as [_ Hr]. injection Hi as <-. cbn [fst].
  split; [done|]. split; [lia|by right].
Qed.

Lemma fold_active l (acc acc' : S * gset Z) :
  foldl (fun acc fd => destroy_one fd acc) acc l = acc' -> active_eventers acc'.1 = active_eventers acc.1.
Proof using.
  intros <-. revert acc. induction l as [|fd l IH]; intros [s rem]; [done|]. cbn [foldl]. rewrite IH.
  unfold destroy_one. by repeat case_match.
Qed.

Lemma pass_active (s : S) : active_eventers (DestroyClosedConnections s) = active_eventers s.
Proof using. unfold DestroyClosedConnections. destruct (foldl _ _ _) as [s' rem] eqn:E. apply (fold_active _ _ _ E). Qed.

(** Nobody is left after the last round. *)
Lemma draining_done n (s : S) :
  draining n (s_env s) -> EventManager.kMaxPendingIoRetries < n -> members (s_env s) = ∅ /\ table s = ∅.
Proof using.
  intros [Hf [_ Hc]] Hn. assert (forall i, members (s_env s) !! i = None) as Hno.
  { intros i. destruct (members (s_env s) !! i) as [m|] eqn:Em; [|done].
    destruct (Hc i m Em) as (_ & Hge & _). pose proof (f_retries _ _ _ _ Hf i m Em). lia. }
  split; [by apply map_empty|]. apply map_empty. intros fd.
  destruct (table s !! fd) as [i|] eqn:Et; [|done]. destruct (f_table _ _ _ _ Hf fd i Et) as (m & Hi & _).
  by rewrite Hno in Hi.
Qed.

Lemma pass_settled n (s : S) :
  draining n (s_env s) -> EventManager.kMaxPendingIoRetries < n + 1 ->
  deletions (s_env (DestroyClosedConnections s)) = [].
Proof using.
  intros Hs Hn. destruct (draining_done (n + 1) _ (pass_draining n s Hs) Hn) as [Hno _].
  destruct (pass_filed s (dr_filed _ _ Hs)) as [_ [Hm Hd]].
  apply elem_of_nil_inv. intros fd [Hin (i & m & Hi & Hfd & Hw)]%Hd. specialize (Hm i).
  rewrite Hno, lookup_empty, Hi in Hm. cbn [mbind option_bind] in Hm. subst fd. rewrite decide_True, after_pass_eq in Hm by done.
  unfold EventManagerFacts.waits in Hw. apply andb_true_iff in Hw as [Hw1 Hw2]. by rewrite Hw1, Hw2 in Hm.
Qed.

Lemma DoWithActiveTasks_draining n (s s' : S) :
  DoWithActiveTasks s = Ok s' -> draining n (s_env s) -> draining n (s_env s').
Proof using Hfc Hlu Hsq. intros Hrun Hs. unfold DoWithActiveTasks in Hrun. bind_ok. by apply (work_all_draining n) in Hok. Qed.

Lemma remotely_draining n r (s : S) : draining n (s_env s) -> draining n (s_env (remotely r s)).
Proof using. by intros [Hf Hc]. Qed.

Lemma drain_round_draining n r (s s' : S) :
  drain_round r s = Ok s' -> draining n (s_env s) ->
  draining (n + 1) (s_env s') /\ (EventManager.kMaxPendingIoRetries < n + 1 -> deletions (s_env s') = []).
Proof using Hcc Hfc Hlu Hsq.
  intros Hrun Hs. unfold drain_round in Hrun. bind_ok.
  apply (Poll_env (draining n)) in Hok; [|by apply complete_draining|by apply call_draining|by apply remotely_draining].
  assert (draining n (s_env a0)) as Ha by (by eapply DoWithActiveTasks_draining).
  split; [by apply pass_draining|by apply pass_settled].
Qed.

Lemma drain_loop_ends n rounds (s : S) out :
  drain_loop rounds s = Ok out -> draining n (s_env s) ->
  (EventManager.kMaxPendingIoRetries < n -> deletions (s_env s) = []) ->
  EventManager.kMaxPendingIoRetries < n + Z.of_nat (length rounds) ->
  exists s', out = Some s' /\ members (s_env s') = ∅ /\ table s' = ∅ /\ deletions (s_env s') = [].
Proof using Hcc Hfc Hlu Hsq.
  revert n s. induction rounds as [|r rounds IH]; intros n s Hrun Hs Hset Hlen; cbn [drain_loop length] in *;
    destruct (bool_decide_reflect (table s = ∅)) as [Ht|Ht]; cbn [andb] in Hrun.
  - destruct (draining_done n s Hs) as [Hm _]; [lia|]. rewrite bool_decide_true in Hrun by (apply Hset; lia).
    simplify_eq. exists s. split; [done|]. split; [done|]. split; [done|]. apply Hset. lia.
  - destruct Ht. by apply (draining_done n s Hs); [lia].
  - destruct (bool_decide_reflect (deletions (s_env s) = [])) as [Hd|Hd].
    + simplify_eq. exists s. split; [done|]. split; [|done]. apply map_empty. intros i.
      destruct (members (s_env s) !! i) as [m|] eqn:Em; [|done].
      pose proof (f_members _ _ _ _ (dr_filed _ _ Hs) i m Em) as Hi. change (table s !! fd_ m.1 = Some i) in Hi. by rewrite Ht in Hi.
    + bind_ok. destruct (drain_round_draining n r s a Hok Hs) as [H1 H2]. eapply IH; [done|done|done|lia].
  - bind_ok. destruct (drain_round_draining n r s a Hok Hs) as [H1 H2]. eapply IH; [done|done|done|lia].
Qed.

(** Rounds without completions need nothing of anybody. *)
Lemma drain_round_silent r (s : S) :
  silent r -> active_eventers s = [] -> exists s0, drain_round r s = Ok (DestroyClosedConnections s0) /\
    active_eventers s0 = [] /\ members (s_env s0) = members (s_env s) /\ (filed_sys s -> filed_sys s0).
Proof using.
  intros Hr Ha. unfold drain_round, Poll. destruct (Hr (poll_timespec 1)) as [err ->].
  cbn [mbind result_bind]. unfold DoWithActiveTasks. cbn [upd_poller active_eventers remotely upd_manager set_env]. rewrite Ha.
  cbn [work_all mbind result_bind]. by eexists.
Qed.

Lemma drain_loop_silent rounds (s : S) :
  Forall silent rounds -> active_eventers s = [] -> exists out, drain_loop rounds s = Ok out.
Proof using.
  intros Hr. revert s. induction Hr as [|r rounds Hr _ IH]; intros s Ha; cbn [drain_loop];
    (destruct (_ && _); [by eexists|]); [by eexists|].
  destruct (drain_round_silent r s Hr Ha) as (s0 & -> & Ha0 & _). apply IH. by rewrite pass_active.
Qed.

(** The drain loop does not end while a connection is open: one that is added
    after the others were told to close is waited for. *)
Theorem drain_waits_for_open rounds (s : S) i (m : Member) :
  Forall silent rounds -> active_eventers s = [] -> filed_sys s ->
  members (s_env s) !! i = Some m -> state_ m.1 <> kDisconnected -> drain_loop rounds s = Ok None.
Proof using.
  intros Hr. revert s. induction Hr as [|r rounds Hr _ IH]; intros s Ha Hf Hi Hst; cbn [drain_loop];
    (rewrite bool_decide_false by (intros Ht; pose proof (f_members _ _ _ _ Hf i m Hi) as Hin; by rewrite Ht in Hin)); [done|].
  destruct (drain_round_silent r s Hr Ha) as (s0 & -> & Ha0 & Hm0 & Hf0). cbn [andb mbind result_bind].
  destruct (pass_filed s0 (Hf0 Hf)) as [Hf1 [Hm _]]. apply IH; [by rewrite pass_active|done| |done].
  rewrite Hm, Hm0, Hi. cbn [mbind option_bind]. rewrite after_pass_eq. unfold IsDisconnected.
  rewrite bool_decide_false by done. by case_decide.
Qed.

Lemma Finish_ends rounds (s : S) out :
  filed_sys s -> EventManager.kMaxPendingIoRetries < Z.of_nat (length rounds) -> Finish rounds s = Ok out ->
  exists s', out = Some s' /\ members (s_env s') = ∅ /\ table s' = ∅ /\ deletions (s_env s') = [].
Proof using Hcc Hfc Hlu Hsq.
  intros Hf Hlen Hrun. unfold Finish in Hrun. bind_ok.
  assert (draining 0 (s_env a)) as Hd.
  { split; [by eapply close_all_filed|]. pose proof (filed_closing_sys s Hf) as Hc.
    eapply close_all_closing in Hc; [|done]. destruct Hc as [_ Hc]. by split; [apply empty_subseteq|]. }
  apply (drain_loop_ends 0) in Hok1 as (s' & -> & Hm & Ht & Hdel); [|done|done|done].
  simplify_eq/=. by eexists.
Qed.

Lemma Finish_returns rounds (s : S) :
  filed_sys s -> EventManager.kMaxPendingIoRetries < Z.of_nat (length rounds) ->
  returning (dom (members (s_env s))) -> Forall silent rounds -> active_eventers s = [] ->
  exists s', Finish rounds s = Ok (Some s').
Proof using Hcc Hfc Hlu Hsq.
  intros Hf Hlen Hr Hsil Hact.
  destruct (close_all_returns _ _ 0 s Hr (filed_closing_sys s Hf)) as [s1 Hs1].
  { intros i Hi%elem_of_list_to_set. apply list_elem_of_fmap in Hi as ([fd j] & -> & Hi%elem_of_map_to_list).
    destruct (f_table _ _ _ _ Hf fd j Hi) as (m & Hm & _). apply elem_of_dom. by eexists. }
  destruct (drain_loop_silent rounds s1 Hsil) as [out Hout].
  { by rewrite (close_all_active _ _ _ Hs1). }
  assert (Finish rounds s = Ok (option_map (set_table ∅) out)) as Hfin.
  { unfold Finish. rewrite Hs1. cbn [mbind result_bind]. by rewrite Hout. }
  rewrite Hfin. destruct (Finish_ends _ _ _ Hf Hlen Hfin) as (s' & -> & _). by eexists.
Qed.

(** ** The main loop *)

(** Time tasks do what code outside the connections may do. *)
Class TaskUsers : Prop := {
  tu_task : forall t (s s' : S), run_task t s = Ok s' -> exists m, loop_uses b s m s';
  tu_continue : forall c (s : S) go s', run_continue c s = Ok (go, s') -> exists m, loop_uses b s m s';
}.
Context {Htu : TaskUsers}.

Lemma do_expired_filed return_time tv x (s s' : S) :
  do_expired return_time tv x s = Ok s' -> filed_sys s -> filed_sys s'.
Proof using Hfc Htu.
  intros Hrun Hs. unfold do_expired in Hrun. destruct x as [tp cb]. bind_ok.
  assert (filed_sys a) as Ha.
  { destruct cb as [t|]; [|by simplify_eq]. destruct (tu_task _ _ _ Hok) as [m Hm]. by eapply loop_uses_filed. }
  destruct (negb _); [|by simplify_eq]. destruct (GetTaskContinueCallback tp) as [c|]; [|by simplify_eq].
  bind_ok. destruct (tu_continue _ _ _ _ Hok1) as [m Hm].
  assert (filed_sys s0) as H0 by (by eapply loop_uses_filed). by destruct b0.
Qed.

Lemma do_all_expired_filed return_time tv l (s s' : S) :
  do_all_expired return_time tv l s = Ok s' -> filed_sys s -> filed_sys s'.
Proof using Hfc Htu.
  revert s. induction l as [|x l IH]; intros s Hrun Hs; cbn [do_all_expired] in Hrun; [by simplify_eq|].
  bind_ok. eapply IH; [done|]. by eapply do_expired_filed.
Qed.

Lemma work_all_filed evs (s s' : S) : work_all evs s = Ok s' -> filed_sys s -> filed_sys s'.
Proof using Hfc Hlu.
  revert s. induction evs as [|ev evs IH]; intros s Hrun Hs; cbn [work_all] in Hrun; [by simplify_eq|]. bind_ok.
  eapply IH; [done|]. eapply (run_calls_env (fun e => filed ∅ (members e) (deletions e) (connection_map (loop_user e))));
    [by apply (call_filed kernel_data other_complete other_call b B)|done|done].
Qed.

Lemma DoWithActiveTasks_filed (s s' : S) : DoWithActiveTasks s = Ok s' -> filed_sys s -> filed_sys s'.
Proof using Hfc Hlu. intros Hrun Hs. unfold DoWithActiveTasks in Hrun. bind_ok. by apply work_all_filed in Hok. Qed.

Lemma DoExpiredTimeTasks_filed return_time tv (s s' : S) :
  DoExpiredTimeTasks return_time tv s = Ok s' -> filed_sys s -> filed_sys s'.
Proof using Hfc Htu.
  intros Hrun Hs. unfold DoExpiredTimeTasks in Hrun. destruct (GetExpiredTimeTasks _ _) as [expired t].
  by eapply do_all_expired_filed.
Qed.

Lemma loop_body_filed r (s s' : S) : loop_body r s = Ok s' -> filed_sys s -> filed_sys s'.
Proof using Hfc Hlu Htu.
  intros Hrun Hs. unfold loop_body in Hrun. bind_ok.
  apply (Poll_env (fun e => filed ∅ (members e) (deletions e) (connection_map (loop_user e)))) in Hok;
    [|by apply (complete_filed kernel_data other_complete other_call b B)
     |by apply (call_filed kernel_data other_complete other_call b B)|done].
  eapply pass_filed, DoExpiredTimeTasks_filed; [done|]. by eapply DoWithActiveTasks_filed.
Qed.

Lemma main_loop_filed rounds (s s' : S) left :
  main_loop rounds s = Ok (inr (s', left)) -> filed_sys s -> filed_sys s'.
Proof using Hfc Hlu Htu.
  revert s. induction rounds as [|r rounds IH]; intros s Hrun Hs; cbn [main_loop] in Hrun;
    (destruct (EventManager.should_quit_ _); [by simplify_eq|]); [done|].
  bind_ok. eapply IH; [done|]. by eapply loop_body_filed.
Qed.

(** C17. A loop that is asked to quit shuts down, if nobody opens connections on
    it any more. Whatever a loop has done before [EventManager::Start] and in the
    rounds of its main loop, once [should_quit_] is seen the drain loop ends
    within 1001 rounds, whatever completes on the connections in them: no
    connection waits for its requests longer than [DestroyClosedConnections]
    allows, so every connection is destroyed, and the table and the list of
    closed descriptors are empty. The condition is [StopsQuietly]: the
    completions and events of the poller's other users leave the connections
    closed and add none while the loop drains, and neither do the callbacks of
    the connections. It holds for an acceptor, whose callback only posts a time
    task, and drain rounds run none; it does not hold for a [Connector], whose
    completion opens a connection at once, and then the drain can wait for the
    peer ([drain_waits_for_open]). And [Start] does return: every connection of
    the table exists when it is closed, also after the callbacks of others, so if
    the callbacks of closing return while the loop's connections exist and
    nothing completes, [Start] comes to its end. *)
Theorem loop_shuts_down r a q evs x N s rounds s1 left :
  life kernel_data other_complete other_call b B (event_loop_new r a q evs x) N s ->
  main_loop rounds (upd_manager (EventManager.set_quit false) s) = Ok (inr (s1, left)) ->
  EventManager.kMaxPendingIoRetries < Z.of_nat (length left) ->
  (forall out, Start rounds s = Ok out ->
    exists s', out = Some s' /\ members (s_env s') = ∅ /\ table s' = ∅ /\ deletions (s_env s') = []) /\
  (returning (dom (members (s_env s1))) -> Forall silent left -> active_eventers s1 = [] ->
    exists s', Start rounds s = Ok (Some s')).
Proof using Hcc Hfc Hlu Hsq Htu.
  intros Hl Hmain Hlen. assert (filed_sys s) as Hf by (by eapply life_filed, new_filed).
  apply main_loop_filed in Hmain as Hf1; [|done].
  assert (Start rounds s = Finish left s1) as -> by (unfold Start; by rewrite Hmain).
  split; [intros out Hout; by eapply Finish_ends|intros; by apply Finish_returns].
Qed.
End callbacks.
End run.


(** ** A time task adds a connection, another thread calls [Quit] *)

Module Concrete.

#[local] Existing Instance PollerFacts.Concrete.endless_ring.
#[local] Existing Instance PollerFacts.Concrete.old_headers.

Abbreviation P := (Poller (list sqe) (IoContext + unit) (ConnFn + unit)).
Abbreviation U := (EventManager.EventManager unit unit unit).
Abbreviation W := (World P (Peers (Table U))).
Abbreviation Op := (IoUringOp (IoContext + unit) (ConnFn + unit)).
Abbreviation S := (Sys (list sqe) (IoContext + unit) (ConnFn + unit) (LoopState (Table U))).

Definition kernel (_ : cqe) : list Byte.byte := [].
Definition no_complete (_ : unit) (_ : cqe) (op : Op) (s : S) : result (Op * S) := Ok (op, s).
Definition no_call (_ : Z) (_ : Eventer.call) (s : S) : result S := Ok s.

(** A user who stops the reading of connection 1 when a connection changes. *)
#[local] Instance hushing : ConnCallbacks W := {|
  OnConnectionCallback_ := Some (at_peer 1 (fun w => Ok (StopReading w)));
  OnMessageCallback_ := None;
  WriteCompleteCallback_ := None;
  HighWaterMarkCallback_ := None;
  CloseCallback_ := None;
|}.

#[local] Instance hushing_files E i : LawfulCallbacks (fun _ => filed_at E i : W -> Prop) 0.
Proof.
  split; try done; simpl. intros f Hf. simplify_eq. apply (at_peer_at (filing E)). clear i. intros i n w w' Hn Hinv Hcall.
  simplify_eq. eapply ci_still; [exact Hinv|apply still_CancelPendingIo].
Qed.

#[local] Instance hushing_closing D L n i : LawfulCallbacks (fun _ => at_member (closing D L n) i : W -> Prop) 0.
Proof.
  split; try done; simpl. intros f Hf. simplify_eq. apply (at_peer_at (closing D L n)). clear i. intros i k w w' Hk Hinv Hcall.
  simplify_eq. eapply ci_still; [exact Hinv|apply still_CancelPendingIo].
Qed.

#[local] Instance no_users : LoopUsers no_complete no_call 0 0 := idle_users 0.

#[local] Instance quiet : StopsQuietly no_complete no_call.
Proof.
  apply stops_quietly_aside; [unfold no_complete|unfold no_call]; intros; by simplify_eq.
Qed.

(** The task of an accepted connection, as [AcceptNewConnectionCallback] hands it
    to the loop: descriptor 5 gets connection 1. *)
Definition accept_task (_ : unit) (s : S) : result S :=
  if bool_decide (members (s_env s) !! 1 = None) && bool_decide (table s !! 5 = None) then
    let s := InsertNewConnection 1 5 0 s in
    match members (s_env s) !! 1 with
    | Some m => w ← OnEstablishing (enter 1 m s); Ok (leave w s)
    | None => Fault NullPointer
    end
  else Ok s.
Definition always (_ : unit) (s : S) : result (bool * S) := Ok (true, s).

#[local] Instance accept_users : TaskUsers accept_task always 0.
Proof.
  split.
  - intros t s s' Hrun. unfold accept_task in Hrun.
    destruct (bool_decide_reflect (members (s_env s) !! 1 = None)) as [Hm|]; [|cbn [andb] in Hrun; simplify_eq; exists 0; constructor].
    destruct (bool_decide_reflect (table s !! 5 = None)) as [Ht|]; [|cbn [andb] in Hrun; simplify_eq; exists 0; constructor].
    cbv zeta in Hrun. cbn [andb] in Hrun. destruct (members _ !! 1) as [m|] eqn:Em; [|done]. bind_ok.
    exists (0 + 1 + (2 * 0 + 1)). apply (lu_method _ _ _ _ 1 m MOnEstablishing); [|done|exact Hok].
    by apply lu_insert; [constructor|..].
  - intros c s go s' Hrun. unfold always in Hrun. simplify_eq. exists 0. constructor.
Qed.

Definition start : S := event_loop_new [] None (0, 0) ∅ (EventManager.EventManager_new ()).
Definition nothing : round unit unit := mkRound [] (mkTimeval 1 0) (fun _ => NoCqe 62) [] 0 [] (mkTimeval 1 0) (mkTimeval 1 0).
Definition last : round unit unit := mkRound [RRunSoon (Some ()); RQuit] (mkTimeval 1 0) (fun _ => NoCqe 62) [] 0 [] (mkTimeval 1 0) (mkTimeval 1 0).
Definition body := loop_body kernel no_complete no_call accept_task always.
Definition begun : S := upd_manager (EventManager.set_quit false) start.
Definition serving : S := match body last begun with Ok s => s | Fault _ => start end.

Definition view (s : S) := ((fun m : Member => (state_ m.1, fd_ m.1)) <$> members (s_env s) !! 1, active_eventers s,
  EventManager.should_quit_ (manager s)).

Lemma serving_view : view serving = (Some (kConnected, 5), [], true).
Proof. vm_compute. reflexivity. Qed.

Lemma serving_main :
  main_loop kernel no_complete no_call accept_task always (last :: replicate 1001 nothing) begun
  = Ok (inr (serving, replicate 1001 nothing)).
Proof.
  pose proof serving_view as Hv. unfold serving in *. cbn [main_loop].
  change (EventManager.should_quit_ (manager begun)) with false.
  change (loop_body kernel no_complete no_call accept_task always last begun) with (body last begun).
  cbv iota. destruct (body last begun) as [s|f]; [|discriminate Hv]. cbn [mbind result_bind].
  apply (f_equal snd) in Hv. cbn [view snd] in Hv. generalize (replicate 1001 nothing). intros l. destruct l; cbn [main_loop]; by rewrite Hv.
Qed.

Lemma hushing_returns : returning (dom (members (s_env serving))).
Proof.
  intros f [Hf|Hf] L n i w Hw; [|done]. simpl in Hf. simplify_eq. eapply at_peer_returns; [| | |exact Hw].
  - pose proof (f_equal (fun v => v.1.1) serving_view) as Hm. apply fmap_Some in Hm as (m & Hm & _).
    apply elem_of_dom. by exists m.
  - intros w'. by eexists.
  - intros D j k v v' Hk Hv Hcall. simplify_eq. eapply ci_still; [exact Hv|apply still_CancelPendingIo].
Qed.

Lemma loop_shuts_down_witness :
  exists s', Start kernel no_complete no_call accept_task always (last :: replicate 1001 nothing) start = Ok (Some s') /\
    members (s_env s') = ∅ /\ table s' = ∅ /\ deletions (s_env s') = [].
Proof.
  destruct (loop_shuts_down kernel no_complete no_call accept_task always 0 0 [] None (0, 0) ∅
    (EventManager.EventManager_new ()) 0 start (last :: replicate 1001 nothing) serving (replicate 1001 nothing))
    as [Hends Hreturns].
  - constructor.
  - exact serving_main.
  - rewrite length_replicate. vm_compute. reflexivity.
  - destruct Hreturns as [s' Hs'].
    + exact hushing_returns.
    + apply Forall_replicate. intros t. by exists 62.
    + exact (f_equal (fun v => v.1.2) serving_view).
    + exists s'. destruct (Hends _ Hs') as (s0 & E0 & H0). injection E0 as <-. split; [exact Hs'|exact H0].
Defined.
End Concrete.
