(* ===== verification/LoopThread.v ===== *)
(** * The thread of an event loop

    Model of how an [EventManager] is started, waited for and destroyed
    (src/event_manager.cc: [Loop], [Work], [Join], [Quit], [~EventManager], and
    the use of [should_quit_] in [Start]). The owner calls one method after the
    other, other threads may call [Quit] at any time, and the loop takes its
    steps in between. What the rounds of the loop do is the subject of EventManager
    and LoopRun; here it only matters when they end. *)

From stdpp Require Import prelude list.
From S2P Require Import Prelude.

(** Where [Start] is: not called, called but not yet past its first store, in the
    main loop, closing the connections and draining with so many more rounds to
    go, returned. *)
Inductive LoopPc := LIdle | LEntering | LRunning | LDraining (rounds : nat) | LEnded.

#[export] Instance LoopPc_eq_dec : EqDecision LoopPc.
Proof. solve_decision. Defined.

Definition in_start (pc : LoopPc) : bool :=
  match pc with LEntering | LRunning | LDraining _ => true | LIdle | LEnded => false end.

(** The methods of the owner; the destructor has two parts, before and after it
    waits. *)
Inductive call := CLoop | CWork | CJoin | CQuit | CDelete | CDeleteEnd.

#[export] Instance call_eq_dec : EqDecision call.
Proof. solve_decision. Defined.

(** [thread_]: [None] is the null pointer, [Some j] a thread that is joinable or
    not. [working]: the owner is inside of [Work]. [fd_open] and [registered]:
    the event descriptor and its eventer in the poller. [starts] counts the
    calls of [Start]. *)
Record Manager := mkManager {
  start_once_flag_ : bool;
  thread_ : option bool;
  should_quit_ : bool;
  loop : LoopPc;
  working : bool;
  fd_open : bool;
  registered : bool;
  deleted : bool;
  starts : nat;
}.

(** [should_quit_] is not initialised by the constructor; [q] is its value. *)
Definition EventManager_new (q : bool) : Manager := mkManager false None q LIdle false true true false 0.

Definition set_loop (pc : LoopPc) (m : Manager) : Manager :=
  mkManager (start_once_flag_ m) (thread_ m) (should_quit_ m) pc (working m) (fd_open m) (registered m)
    (deleted m) (starts m).
Definition set_quit (q : bool) (m : Manager) : Manager :=
  mkManager (start_once_flag_ m) (thread_ m) q (loop m) (working m) (fd_open m) (registered m)
    (deleted m) (starts m).
Definition set_thread (t : option bool) (m : Manager) : Manager :=
  mkManager (start_once_flag_ m) t (should_quit_ m) (loop m) (working m) (fd_open m) (registered m)
    (deleted m) (starts m).

(** [Start] is called, by a new thread or by the owner. *)
Definition begin_start (thread : option bool) (own : bool) (m : Manager) : Manager :=
  mkManager true thread (should_quit_ m) LEntering own (fd_open m) (registered m) (deleted m) (S (starts m)).

(** [Loop], [Work] and [Quit] up to the point where the owner would wait. *)
Definition Loop (m : Manager) : Manager :=
  if start_once_flag_ m then m else begin_start (Some true) false m.
Definition Work (m : Manager) : Manager :=
  if start_once_flag_ m then m else begin_start (thread_ m) true m.
Definition Quit (m : Manager) : Manager := set_quit true m.

(** [Join]: [None] while it has to wait for the thread. *)
Definition Join (m : Manager) : option Manager :=
  match thread_ m with
  | Some true => if bool_decide (loop m = LEnded) then Some (set_thread (Some false) m) else None
  | _ => Some m
  end.

(** The destructor behind [Quit]; a [unique_ptr] to a thread that was joined is
    freed with it. *)
Definition delete_end (m : Manager) : option Manager :=
  m ← Join m;
  Some (mkManager (start_once_flag_ m) None (should_quit_ m) (loop m) (working m) false false true (starts m)).

(** One call of the owner: what is left of it to do, and the state. *)
Definition owner (c : call) (m : Manager) : option (list call * Manager) :=
  if working m then None
  else match c with
       | CLoop => Some ([], Loop m)
       | CWork => Some ([], Work m)
       | CJoin => m ← Join m; Some ([], m)
       | CQuit => Some ([], Quit m)
       | CDelete => Some ([CDeleteEnd], Quit m)
       | CDeleteEnd => m ← delete_end m; Some ([], m)
       end.

(** Who acts: the owner, [Start], another thread that calls [Quit]. *)
Inductive actor := AOwner | AEnter | AStop | ADrain | ALeave | AOther.

Section steps.

(** A bound on the rounds of the drain loop of [Start]; [None] when it may go on
    for ever. [LoopRun.loop_shuts_down] has the bound 1001 for a loop on which
    nobody opens connections while it drains; with [Connector] there need not be
    one ([LoopRun.drain_waits_for_open]). *)
Context (drain_bound : option nat).

Definition within (n : nat) : Prop := match drain_bound with Some d => (n <= d)%nat | None => True end.

(** The owner still has to make the calls of the list. *)
Inductive step : actor -> list call * Manager -> list call * Manager -> Prop :=
| step_owner c cs cs' m m' : owner c m = Some (cs', m') -> step AOwner (c :: cs, m) (cs' ++ cs, m')
| step_enter cs m : loop m = LEntering -> step AEnter (cs, m) (cs, set_loop LRunning (set_quit false m))
| step_stop cs m n : loop m = LRunning -> should_quit_ m = true -> within n ->
    step AStop (cs, m) (cs, set_loop (LDraining n) m)
| step_drain cs m n : loop m = LDraining (S n) -> step ADrain (cs, m) (cs, set_loop (LDraining n) m)
| step_drain_on cs m n : drain_bound = None -> loop m = LDraining n -> step ADrain (cs, m) (cs, m)
| step_leave cs m : loop m = LDraining 0 ->
    step ALeave (cs, m) (cs, mkManager (start_once_flag_ m) (thread_ m) (should_quit_ m) LEnded false
                               (fd_open m) (registered m) (deleted m) (starts m))
| step_other cs m : deleted m = false -> step AOther (cs, m) (cs, Quit m).

Definition any_step (x y : list call * Manager) : Prop := exists a, step a x y.

(** The methods of a program, the destructor only as its last one. *)
Definition method (c : call) : Prop := c <> CDelete /\ c <> CDeleteEnd.
Definition program_ok (cs : list call) : Prop :=
  exists cs', Forall method cs' /\ (cs = cs' \/ cs = cs' ++ [CDelete]).

(** ** Invariant *)

Record manager_ok (m : Manager) : Prop := {
  mo_flag : start_once_flag_ m = bool_decide (loop m <> LIdle);
  mo_idle : start_once_flag_ m = false -> thread_ m = None;
  mo_starts : starts m = (if start_once_flag_ m then 1 else 0)%nat;
  mo_thread : working m = false -> in_start (loop m) = true -> thread_ m = Some true;
  mo_working : working m = true -> thread_ m = None /\ in_start (loop m) = true;
  mo_deleted : deleted m = true -> (loop m = LIdle \/ loop m = LEnded) /\ thread_ m = None /\ working m = false;
  mo_fd : fd_open m = negb (deleted m) /\ registered m = negb (deleted m);
}.

(** After the destructor nothing is called. *)
Definition rest_ok (cs : list call) (m : Manager) : Prop :=
  (deleted m = true -> cs = []) /\
  (Forall method cs \/ (exists cs', cs = cs' ++ [CDelete] /\ Forall method cs') \/ cs = [CDeleteEnd]).

Lemma new_ok q cs : program_ok cs -> manager_ok (EventManager_new q) /\ rest_ok cs (EventManager_new q).
Proof using Type.
  intros (cs' & Hm & Hcs). split; [by split|].
  split; [done|]. destruct Hcs as [->| ->]; [by left|]. right. left. eauto.
Qed.

Lemma begin_ok thread own m :
  manager_ok m -> start_once_flag_ m = false -> deleted m = false ->
  (own = true /\ thread = None \/ own = false /\ thread = Some true) ->
  manager_ok (begin_start thread own m).
Proof.
  intros [Hf _ Hs _ _ _ Hfd] Hflag Hdel Hown. split; simpl; try done.
  - by rewrite Hs, Hflag.
  - intros -> _. by destruct Hown as [[? _]|[_ ->]].
  - intros ->. destruct Hown as [[_ ->]|[? _]]; [|done]. auto.
  - by rewrite Hdel.
Qed.

Lemma Join_ok m m' : manager_ok m -> working m = false -> Join m = Some m' ->
  manager_ok m' /\ deleted m' = deleted m /\ (loop m' = LIdle \/ loop m' = LEnded) /\ working m' = false.
Proof.
  intros Hok Hw HJ. pose proof Hok as [Hf Hi Hs Ht Hwk Hd Hfd]. unfold Join in HJ.
  destruct (thread_ m) as [[|]|] eqn:Eth; [destruct (bool_decide_reflect (loop m = LEnded)) as [Hl|]; [|done]| |]; simplify_eq.
  - split; [|by auto]. split; simpl; try done.
    + intros Hflag. by specialize (Hi Hflag).
    + intros _. by rewrite Hl.
    + intros Hworking. congruence.
    + intros Hdel. by destruct (Hd Hdel) as (_ & ? & _).
  - split; [done|]. split; [done|]. split; [|done]. destruct (loop m'); auto; by specialize (Ht Hw eq_refl).
  - split; [done|]. split; [done|]. split; [|done]. destruct (loop m'); auto; by specialize (Ht Hw eq_refl).
Qed.

Lemma owner_ok c cs m cs' m' :
  manager_ok m -> rest_ok (c :: cs) m -> owner c m = Some (cs', m') ->
  manager_ok m' /\ rest_ok (cs' ++ cs) m'.
Proof.
  intros Hok [Hdel Hrest] Ho. unfold owner in Ho. destruct (working m) eqn:Ew; [done|].
  assert (deleted m = false) as Hnd by (destruct (deleted m); [by specialize (Hdel eq_refl)|done]).
  assert (c <> CDelete -> c <> CDeleteEnd -> forall v, deleted v = false -> rest_ok cs v) as Htail.
  { intros Hc1 Hc2 v Hv. split; [congruence|]. destruct Hrest as [Hm|[(cs0 & Heq & Hm)|Heq]].
    - left. by apply Forall_cons in Hm as [_ ?].
    - right. left. destruct cs0 as [|c0 cs0]; simplify_eq/=. exists cs0.
      split; [done|]. by apply Forall_cons in Hm as [_ ?].
    - by simplify_eq. }
  pose proof Hok as [Hf Hi Hs Ht Hwk Hd Hfd].
  destruct c; simplify_eq/=; [| | | | |].
  - unfold Loop. destruct (start_once_flag_ m) eqn:Ef; [by auto|].
    split; [apply begin_ok; auto|]. apply Htail; done.
  - unfold Work. destruct (start_once_flag_ m) eqn:Ef; [by auto|].
    split; [apply begin_ok; auto|]. apply Htail; done.
  - destruct (Join m) as [m1|] eqn:HJ; simplify_eq/=.
    destruct (Join_ok m m' Hok Ew HJ) as (Hok' & Hd' & _). split; [done|]. apply Htail; [done|done|congruence].
  - split; [by split|]. by apply Htail.
  - split; [by split|]. assert (cs = []) as ->.
    { destruct Hrest as [Hm|[(cs0 & Heq & Hm)|Heq]]; [|destruct cs0 as [|c0 cs0]|done]; simplify_eq/=; [|done|].
      - apply Forall_cons in Hm as [[? _] _]. done.
      - apply Forall_cons in Hm as [[? _] _]. done. }
    split; [simpl; congruence|]. right. by right.
  - unfold delete_end in Ho. destruct (Join m) as [m1|] eqn:HJ; simplify_eq/=.
    destruct (Join_ok m m1 Hok Ew HJ) as ([Hf1 Hi1 Hs1 Ht1 Hwk1 Hd1 Hfd1] & _ & Hl1 & Hw1).
    assert (cs = []) as ->.
    { destruct Hrest as [Hm|[(cs0 & Heq & Hm)|Heq]]; [|destruct cs0 as [|c0 cs0]|]; simplify_eq/=; [| |done].
      - apply Forall_cons in Hm as [[_ ?] _]. done.
      - apply Forall_cons in Hm as [[_ ?] _]. done. }
    split; [|split; [done|by left]]. split; simpl; try done.
    + intros _. by destruct Hl1 as [->| ->].
    + congruence.
Qed.

Lemma loop_step_ok a x y :
  step a x y -> manager_ok x.2 -> rest_ok x.1 x.2 -> manager_ok y.2 /\ rest_ok y.1 y.2.
Proof.
  intros Hst Hok Hrest.
  assert (forall cs m pc, manager_ok m -> in_start (loop m) = true -> in_start pc = true ->
    (pc <> LIdle -> loop m <> LIdle) -> rest_ok cs m ->
    forall q, manager_ok (set_loop pc (set_quit q m)) /\ rest_ok cs (set_loop pc (set_quit q m))) as Hmove.
  { intros cs m pc [Hf Hi Hs Ht Hwk Hd Hfd] Hl Hpc Hne Hr q. split; [split; simpl; try done|done].
    - rewrite Hf. apply bool_decide_ext. destruct pc, (loop m); done.
    - intros Hw _. by apply Ht.
    - intros Hw. by destruct (Hwk Hw).
    - intros Hdel. destruct (Hd Hdel) as ([Hx|Hx] & _); by rewrite Hx in Hl. }
  assert (forall m, set_quit (should_quit_ m) m = m) as Hsame by by intros [].
  destruct Hst as [c cs cs' m m' Ho|cs m Hl|cs m n Hl Hq _|cs m n Hl|cs m n _ Hl|cs m Hl|cs m Hd]; simpl in *.
  - by eapply owner_ok.
  - apply Hmove; rewrite ?Hl; done.
  - rewrite <-(Hsame m). apply Hmove; rewrite ?Hl; done.
  - rewrite <-(Hsame m). apply Hmove; rewrite ?Hl; done.
  - done.
  - destruct Hok as [Hf Hi Hs Ht Hwk Hd Hfd]. split; [split; simpl; try done|done].
    + by rewrite Hf, Hl.
    + intros Hdel. destruct (Hd Hdel) as ([?|?] & _); congruence.
  - split; [|done]. by destruct Hok.
Qed.

Lemma loop_steps_ok x y :
  rtc any_step x y -> manager_ok x.2 -> rest_ok x.1 x.2 -> manager_ok y.2 /\ rest_ok y.1 y.2.
Proof.
  induction 1 as [x|x y z [a Hst] _ IH]; intros Hok Hrest; [done|].
  destruct (loop_step_ok a x y Hst Hok Hrest). by apply IH.
Qed.

(** ** Properties *)

(** C33. The life of an event loop. Whatever the owner calls ([Loop], [Work],
    [Join], [Quit] in any number and order, the destructor at the end), whoever
    else calls [Quit], and however the steps interleave: [Start] runs at most
    once; while it runs it has a thread that can be joined or its caller waits
    in [Work]; and when the destructor has finished, the loop is not running,
    no thread is left, and the event descriptor is unregistered and closed. *)
Theorem loop_lifecycle q cs cs' m :
  program_ok cs -> rtc any_step (cs, EventManager_new q) (cs', m) ->
  (starts m <= 1)%nat /\
  (in_start (loop m) = true -> thread_ m = Some true \/ working m = true) /\
  (deleted m = true -> (loop m = LIdle \/ loop m = LEnded) /\ thread_ m = None /\ working m = false /\
    fd_open m = false /\ registered m = false /\ cs' = []).
Proof.
  intros Hp Hrun. destruct (new_ok q cs Hp) as [Hok0 Hr0].
  destruct (loop_steps_ok _ _ Hrun Hok0 Hr0) as [[Hf Hi Hs Ht Hwk Hd [Hfd Hreg]] [Hempty _]]. simpl in *.
  split; [rewrite Hs; destruct (start_once_flag_ m); lia|]. split.
  - intros Hl. destruct (working m); [by right|]. left. auto.
  - intros Hdel. destruct (Hd Hdel) as (? & ? & ?). rewrite Hfd, Hreg, Hdel. auto 10.
Qed.

(** The destructor waits for a loop that was told to quit after it had begun. *)
Definition closing (x : list call * Manager) : Prop :=
  x.1 = [CDeleteEnd] /\ working x.2 = false /\ loop x.2 <> LEntering /\ (loop x.2 = LRunning -> should_quit_ x.2 = true).

Definition gone (x : list call * Manager) : Prop := x.1 = [] /\ deleted x.2 = true.

Definition left_to_do (d : nat) (x : list call * Manager) : nat :=
  (length x.1 + match loop x.2 with LRunning => d + 2 | LDraining n => n + 1 | _ => 0 end)%nat.


(** The destructor can hang. A manager that is destroyed right after [Loop],
    before its thread has come to the first store of [Start], forgets the
    [Quit]: a state is reached from which, without a [Quit] from elsewhere, no
    step is possible; the destructor waits for a loop that is never told. *)
Theorem destructor_can_hang q :
  exists m, rtc any_step ([CLoop; CDelete], EventManager_new q) ([CDeleteEnd], m) /\
    loop m = LRunning /\ deleted m = false /\
    forall a y, step a ([CDeleteEnd], m) y -> a = AOther.
Proof.
  eexists. split; [|split; [|split]].
  - eapply rtc_l; [eexists; by apply step_owner|]. eapply rtc_l; [eexists; by apply step_owner|].
    eapply rtc_l; [eexists; by apply step_enter|]. apply rtc_refl.
  - done.
  - done.
  - intros a y Hst. by inversion Hst.
Qed.
End steps.

(** ** Evaluations *)

Module Concrete.
Lemma loop_lifecycle_witness :
  (starts (Loop (EventManager_new false)) <= 1)%nat.
Proof.
  apply (loop_lifecycle None false [CLoop; CLoop; CDelete] [CDelete] (Loop (EventManager_new false))).
  - exists [CLoop; CLoop]. split; [|by right]. repeat constructor; discriminate.
  - eapply rtc_l; [exists AOwner; apply step_owner; reflexivity|].
    eapply rtc_l; [exists AOwner; apply step_owner; reflexivity|]. apply rtc_refl.
Defined.

Definition ending : Manager := mkManager true (Some true) true LRunning false true true false 1.

End Concrete.
