(* ===== verification/Connector.v ===== *)
(** * Connecting to a server

    Model of class [Connector] (src/connector.h, src/connector.cc): the state
    machine that opens a socket, waits until it is connected, hands the
    descriptor on or tries again later. The kernel's answers are arguments of
    the operations; the closures handed to the event manager are values of
    [task]; what happens to descriptors is recorded. *)

From stdpp Require Import prelude list.
From S2P Require Import Prelude.

Definition kMaxRetryDelayMicroseconds : Z := 30 * 1000 * 1000.
Definition kInitRetryDelayMicroseconds : Z := 500 * 1000.

Definition EINPROGRESS : Z := 115.
Definition EINTR : Z := 4.
Definition EISCONN : Z := 106.
Definition EAGAIN : Z := 11.
Definition EADDRINUSE : Z := 98.
Definition EADDRNOTAVAIL : Z := 99.
Definition ECONNREFUSED : Z := 111.
Definition ENETUNREACH : Z := 101.

Inductive ConnectState := kDisconnected | kConnecting | kConnected.

#[export] Instance ConnectState_eq_dec : EqDecision ConnectState.
Proof. solve_decision. Defined.

(** What the connector asks the event manager to run: [Connect], [Start], or
    the release of an eventer it has let go of. *)
Inductive task := TConnect | TStart | TReleaseEventer (fd : Z) (disable : bool).

(** [scheduled] are the calls of [RunSoon] (delay 0) and [RunAfter].
    [NewConnectionCallback_] tells whether a callback is registered; [handed]
    are the descriptors it was called with, [opened] and [closed] those of
    [socket] and [close]. [dropped] are the descriptors of eventers that were
    replaced while they were waiting. *)
Record Connector := mkConnector {
  state_ : ConnectState;
  can_connect_ : bool;
  retry_delay_microseconds_ : Z;
  eventer_ : option Z;
  NewConnectionCallback_ : bool;
  scheduled : list (Z * task);
  opened : list Z;
  closed : list Z;
  handed : list Z;
  dropped : list Z;
}.

Definition Connector_new (callback : bool) : Connector :=
  mkConnector kDisconnected false kInitRetryDelayMicroseconds None callback [] [] [] [] [].

Definition set_state (v : ConnectState) (c : Connector) : Connector :=
  mkConnector v (can_connect_ c) (retry_delay_microseconds_ c) (eventer_ c)
    (NewConnectionCallback_ c) (scheduled c) (opened c) (closed c) (handed c) (dropped c).
Definition set_can_connect (v : bool) (c : Connector) : Connector :=
  mkConnector (state_ c) v (retry_delay_microseconds_ c) (eventer_ c)
    (NewConnectionCallback_ c) (scheduled c) (opened c) (closed c) (handed c) (dropped c).
Definition set_delay (v : Z) (c : Connector) : Connector :=
  mkConnector (state_ c) (can_connect_ c) v (eventer_ c)
    (NewConnectionCallback_ c) (scheduled c) (opened c) (closed c) (handed c) (dropped c).
Definition schedule (delay : Z) (t : task) (c : Connector) : Connector :=
  mkConnector (state_ c) (can_connect_ c) (retry_delay_microseconds_ c) (eventer_ c)
    (NewConnectionCallback_ c) (scheduled c ++ [(delay, t)]) (opened c) (closed c) (handed c)
    (dropped c).
Definition open_fd (fd : Z) (c : Connector) : Connector :=
  mkConnector (state_ c) (can_connect_ c) (retry_delay_microseconds_ c) (eventer_ c)
    (NewConnectionCallback_ c) (scheduled c) (opened c ++ [fd]) (closed c) (handed c) (dropped c).
Definition close_fd (fd : Z) (c : Connector) : Connector :=
  mkConnector (state_ c) (can_connect_ c) (retry_delay_microseconds_ c) (eventer_ c)
    (NewConnectionCallback_ c) (scheduled c) (opened c) (closed c ++ [fd]) (handed c) (dropped c).
Definition hand_on (fd : Z) (c : Connector) : Connector :=
  mkConnector (state_ c) (can_connect_ c) (retry_delay_microseconds_ c) (eventer_ c)
    (NewConnectionCallback_ c) (scheduled c) (opened c) (closed c) (handed c ++ [fd]) (dropped c).
(** [eventer_ = std::make_unique<Eventer>(...)]: the old eventer goes, its
    descriptor stays open. *)
Definition replace_eventer (fd : Z) (c : Connector) : Connector :=
  mkConnector (state_ c) (can_connect_ c) (retry_delay_microseconds_ c) (Some fd)
    (NewConnectionCallback_ c) (scheduled c) (opened c) (closed c) (handed c)
    (dropped c ++ option_list (eventer_ c)).
(** [std::move(eventer_)]. *)
Definition release_eventer (c : Connector) : Connector :=
  mkConnector (state_ c) (can_connect_ c) (retry_delay_microseconds_ c) None
    (NewConnectionCallback_ c) (scheduled c) (opened c) (closed c) (handed c) (dropped c).

Definition Start (c : Connector) : Connector := schedule 0 TConnect (set_can_connect true c).

Definition Restart (c : Connector) : Connector :=
  Start (set_delay kInitRetryDelayMicroseconds (set_state kDisconnected c)).

Definition DoRetrying (conn_fd : Z) (c : Connector) : Connector :=
  let c := set_state kDisconnected (close_fd conn_fd c) in
  if can_connect_ c then
    set_delay (Z.min (s32 (retry_delay_microseconds_ c * 2)) kMaxRetryDelayMicroseconds)
      (schedule (retry_delay_microseconds_ c) TStart c)
  else c.

Definition DoConnecting (conn_fd : Z) (c : Connector) : Connector :=
  replace_eventer conn_fd (set_state kConnecting c).

Definition Stop (c : Connector) : Connector :=
  let c := set_can_connect false c in
  if bool_decide (state_ c = kConnecting) then
    let c := set_state kDisconnected c in
    match eventer_ c with
    | Some fd =>
        let c := schedule 0 (TReleaseEventer fd true) (release_eventer c) in
        if negb (fd =? -1) then DoRetrying fd c else c
    | None => c
    end
  else c.

Inductive connect_case := CaseConnecting | CaseRetrying | CaseClosing.

(** The [switch] over the error number of [connect]; every number that is not
    listed ends in the same way as the listed fatal ones. *)
Definition classify (saved_errno : Z) : connect_case :=
  if (saved_errno =? 0) || (saved_errno =? EINPROGRESS) || (saved_errno =? EINTR)
     || (saved_errno =? EISCONN) then CaseConnecting
  else if (saved_errno =? EAGAIN) || (saved_errno =? EADDRINUSE) || (saved_errno =? EADDRNOTAVAIL)
          || (saved_errno =? ECONNREFUSED) || (saved_errno =? ENETUNREACH) then CaseRetrying
  else CaseClosing.

(** [sock_fd] answers [socket], [err] is 0 or the error number of [connect]. *)
Definition Connect (sock_fd err : Z) (c : Connector) : Connector :=
  if sock_fd <? 0 then c
  else
    let c := open_fd sock_fd c in
    match classify err with
    | CaseConnecting => DoConnecting sock_fd c
    | CaseRetrying => DoRetrying sock_fd c
    | CaseClosing => close_fd sock_fd c
    end.

Definition RemoveAndReset (c : Connector) : Z * Connector :=
  match eventer_ c with
  | None => (-1, c)
  | Some fd => (fd, schedule 0 (TReleaseEventer fd false) (release_eventer c))
  end.

(** [error] answers [GetSocketError], [self_connected] compares the addresses of
    both ends. *)
Definition DoWriting (error : Z) (self_connected : bool) (c : Connector) : Connector :=
  match eventer_ c with
  | None => c
  | Some _ =>
      if bool_decide (state_ c = kConnecting) then
        let '(conn_fd, c) := RemoveAndReset c in
        if negb (error =? 0) then DoRetrying conn_fd c
        else if self_connected then DoRetrying conn_fd c
        else
          let c := set_state kConnected c in
          if can_connect_ c && NewConnectionCallback_ c then hand_on conn_fd c
          else close_fd conn_fd c
      else c
  end.

Definition DoWithError (c : Connector) : Connector :=
  match eventer_ c with
  | None => c
  | Some _ =>
      if bool_decide (state_ c = kConnecting) then
        let '(conn_fd, c) := RemoveAndReset c in DoRetrying conn_fd c
      else c
  end.

(** The body of the lambda that decides whether a socket is connected to
    itself, on what [getsockname] and [getpeername] answer. *)
Record sockaddr6 := mkSockaddr6 { family : Z; port : Z; addr4 : Z; addr6 : list Z }.

Definition AF_INET : Z := 2.
Definition AF_INET6 : Z := 10.

Definition self_connected (local peer : sockaddr6) : bool :=
  if family local =? AF_INET then (port local =? port peer) && (addr4 local =? addr4 peer)
  else if family local =? AF_INET6 then
    (port local =? port peer) && bool_decide (addr6 local = addr6 peer)
  else false.

(** ** Runs *)

(** What can happen to a connector; the kernel opens descriptors that are not
    negative. A scheduled task that has been run leaves the list. *)
Inductive event :=
| EvStart | EvRestart | EvStop
| EvConnect (sock_fd err : Z)
| EvWritable (error : Z) (self : bool)
| EvError.

Definition handle (e : event) (c : Connector) : Connector :=
  match e with
  | EvStart => Start c
  | EvRestart => Restart c
  | EvStop => Stop c
  | EvConnect fd err => Connect fd err c
  | EvWritable error self => DoWriting error self c
  | EvError => DoWithError c
  end.

Fixpoint handle_all (es : list event) (c : Connector) : Connector :=
  match es with [] => c | e :: es => handle_all es (handle e c) end.

(** Every descriptor ever opened is closed, handed on, dropped or still waited
    for; the connector waits exactly in the state [kConnecting], or was reset. *)
Record inv (c : Connector) : Prop := {
  inv_fds : opened c ≡ₚ closed c ++ handed c ++ dropped c ++ option_list (eventer_ c);
  inv_eventer : forall fd, eventer_ c = Some fd -> 0 <= fd;
  inv_state : state_ c = kConnecting -> is_Some (eventer_ c);
  inv_delay : kInitRetryDelayMicroseconds <= retry_delay_microseconds_ c <= kMaxRetryDelayMicroseconds;
}.

Lemma delay_step d :
  kInitRetryDelayMicroseconds <= d <= kMaxRetryDelayMicroseconds ->
  Z.min (s32 (d * 2)) kMaxRetryDelayMicroseconds = Z.min (d * 2) kMaxRetryDelayMicroseconds.
Proof.
  unfold kInitRetryDelayMicroseconds, kMaxRetryDelayMicroseconds, s32. intros Hd.
  by rewrite sext_small by lia.
Qed.

(** [DoRetrying] of a descriptor that is in nobody's hands. *)
Lemma DoRetrying_inv fd c :
  opened c ≡ₚ fd :: closed c ++ handed c ++ dropped c ++ option_list (eventer_ c) ->
  (forall fd, eventer_ c = Some fd -> 0 <= fd) ->
  kInitRetryDelayMicroseconds <= retry_delay_microseconds_ c <= kMaxRetryDelayMicroseconds ->
  inv (DoRetrying fd c).
Proof.
  intros Hf He Hd. unfold DoRetrying. simpl.
  destruct (can_connect_ c); split; simpl; try done.
  - rewrite Hf, <-app_assoc. apply Permutation_middle.
  - rewrite delay_step by done.
    unfold kInitRetryDelayMicroseconds, kMaxRetryDelayMicroseconds in *. lia.
  - rewrite Hf, <-app_assoc. apply Permutation_middle.
Qed.

Lemma take_eventer_fds c fd :
  inv c -> eventer_ c = Some fd ->
  opened c ≡ₚ fd :: closed c ++ handed c ++ dropped c ++ option_list None.
Proof.
  intros [Hf _ _ _] He. rewrite Hf, He. simpl. rewrite app_nil_r, !app_assoc.
  by rewrite Permutation_app_comm.
Qed.

Lemma handle_inv e c : inv c -> inv (handle e c).
Proof.
  intros Hinv. pose proof Hinv as [Hf He Hs Hd]. destruct e; simpl.
  - by split.
  - by split.
  - unfold Stop. simpl. destruct (bool_decide (state_ c = kConnecting)) eqn:Est; [|by split].
    apply bool_decide_eq_true_1 in Est. destruct (Hs Est) as [fd Hev]. rewrite Hev.
    pose proof (He fd Hev). rewrite (proj2 (Z.eqb_neq _ _)) by lia. simpl.
    apply DoRetrying_inv; simpl; try done. by apply take_eventer_fds.
  - unfold Connect. destruct (Z.ltb_spec sock_fd 0); [done|].
    assert (opened c ++ [sock_fd] ≡ₚ
            sock_fd :: closed c ++ handed c ++ dropped c ++ option_list (eventer_ c)) as Hnew
      by (rewrite Permutation_app_comm; by apply perm_skip).
    destruct (classify err).
    + split; simpl; [|congruence|by eexists|done].
      rewrite Hnew, Permutation_cons_append. by rewrite <-!app_assoc.
    + apply DoRetrying_inv; done.
    + split; simpl; try done. rewrite Hnew, <-app_assoc. apply Permutation_middle.
  - unfold DoWriting, RemoveAndReset. destruct (eventer_ c) as [fd|] eqn:Hev; [|done].
    destruct (bool_decide _); [|done]. pose proof (take_eventer_fds c fd Hinv Hev) as Hnew.
    destruct (negb _); [by apply DoRetrying_inv|]. destruct self; [by apply DoRetrying_inv|].
    simpl. destruct (_ && _); split; simpl; try done.
    + rewrite Hnew, Permutation_middle. apply Permutation_app_head.
      rewrite <-app_assoc. apply Permutation_middle.
    + rewrite Hnew, <-app_assoc. apply Permutation_middle.
  - unfold DoWithError, RemoveAndReset. destruct (eventer_ c) as [fd|] eqn:Hev; [|done].
    destruct (bool_decide _); [|done]. apply DoRetrying_inv; try done.
    exact (take_eventer_fds c fd Hinv Hev).
Qed.

Lemma handle_all_inv es c : inv c -> inv (handle_all es c).
Proof. revert c. induction es; intros c Hc; simpl; [done|]. by apply IHes, handle_inv. Qed.

Lemma inv_new cb : inv (Connector_new cb).
Proof. split; simpl; try done. Qed.

(** C24. Through starts, restarts, stops, connection attempts and their results,
    every descriptor the connector opened is at any time in exactly one place:
    closed, handed to the callback, waited for, or dropped; a descriptor is
    dropped only by an attempt that is made while another one is waited for.
    The retry delay stays between 0.5 s and 30 s. *)
Theorem descriptors_accounted cb es e :
  let c := handle_all es (Connector_new cb) in
  opened c ≡ₚ closed c ++ handed c ++ dropped c ++ option_list (eventer_ c) /\
  500000 <= retry_delay_microseconds_ c <= 30000000 /\
  (dropped (handle e c) = dropped c \/
   exists fd old err, e = EvConnect fd err /\ eventer_ c = Some old /\
     dropped (handle e c) = dropped c ++ [old]).
Proof.
  cbv zeta. set (c := handle_all es (Connector_new cb)).
  destruct (handle_all_inv es _ (inv_new cb)) as [Hf _ _ Hd]. split; [done|]. split; [done|].
  assert (forall fd c, dropped (DoRetrying fd c) = dropped c) as Hretry
    by (intros; unfold DoRetrying; by case_match).
  destruct e; simpl; try by left.
  - left. unfold Stop. simpl. destruct (bool_decide _); [|done].
    destruct (eventer_ c); [|done]. destruct (negb _); [by rewrite Hretry|done].
  - unfold Connect. destruct (_ <? 0); [by left|].
    destruct (classify err); [|left; by rewrite Hretry|by left]. simpl.
    destruct (eventer_ c) as [old|] eqn:Ev; simpl; [right|left; by rewrite app_nil_r].
    exists sock_fd, old, err. done.
  - left. unfold DoWriting, RemoveAndReset. destruct (eventer_ c); [|done].
    destruct (bool_decide _); [|done]. destruct (negb _); [by rewrite Hretry|].
    destruct self; [by rewrite Hretry|]. simpl. by destruct (_ && _).
  - left. unfold DoWithError, RemoveAndReset. destruct (eventer_ c); [|done].
    destruct (bool_decide _); [|done]. by rewrite Hretry.
Qed.

(** Backoff: while a server refuses, the [n]-th retry is scheduled after
    0.5 s doubled [n] times, at most 30 s, and the 32-bit delay never
    overflows. *)
Theorem retry_backoff n fds c :
  can_connect_ c = true -> retry_delay_microseconds_ c = kInitRetryDelayMicroseconds ->
  length fds = n -> Forall (Z.le 0) fds ->
  let c' := handle_all ((fun fd => EvConnect fd ECONNREFUSED) <$> fds) c in
  scheduled c' = scheduled c ++
    ((fun k => (Z.min (500000 * 2 ^ Z.of_nat k) 30000000, TStart)) <$> seq 0 n) /\
  closed c' = closed c ++ fds.
Proof.
  intros Hcan Hd Hn Hfds. cbv zeta.
  assert (forall fds k c, can_connect_ c = true -> Forall (Z.le 0) fds ->
    retry_delay_microseconds_ c = Z.min (500000 * 2 ^ Z.of_nat k) 30000000 ->
    let c' := handle_all ((fun fd => EvConnect fd ECONNREFUSED) <$> fds) c in
    scheduled c' = scheduled c ++
      ((fun k => (Z.min (500000 * 2 ^ Z.of_nat k) 30000000, TStart)) <$> seq k (length fds)) /\
    closed c' = closed c ++ fds) as Hgen.
  { clear. intros fds. induction fds as [|fd fds IH]; intros k c Hcan Hfds Hd; cbv zeta.
    - simpl. by rewrite !app_nil_r.
    - inversion Hfds as [|? ? Hfd Hrest]; subst. rewrite fmap_cons. cbn [handle_all handle].
      set (c1 := Connect fd ECONNREFUSED c).
      assert (c1 = set_delay (Z.min (s32 (retry_delay_microseconds_ c * 2)) kMaxRetryDelayMicroseconds)
        (schedule (retry_delay_microseconds_ c) TStart
           (set_state kDisconnected (close_fd fd (open_fd fd c))))) as Hc1.
      { unfold c1, Connect. rewrite (proj2 (Z.ltb_ge _ _)) by lia. simpl. unfold DoRetrying. simpl.
        by rewrite Hcan. }
      clearbody c1.
      destruct (IH (S k) c1) as [Hs Hc]; [by subst|done| |].
      + subst c1. simpl. rewrite Hd. assert (0 < 2 ^ Z.of_nat k) by (apply Z.pow_pos_nonneg; lia).
        replace (Z.of_nat (S k)) with (Z.of_nat k + 1) by lia. rewrite Z.pow_add_r by lia.
        unfold kMaxRetryDelayMicroseconds, s32. rewrite sext_small by lia. lia.
      + rewrite Hs, Hc. subst c1. simpl. rewrite Hd, <-!app_assoc. done. }
  subst n. apply (Hgen fds 0%nat c Hcan Hfds). rewrite Hd. done.
Qed.

(** [Stop] does not undo a retry that is already scheduled: when its time
    comes it calls [Start], which allows connecting again and schedules the next
    attempt; and [Connect] does not look at the flag at all. *)
Theorem stop_is_undone c fd :
  can_connect_ c = true -> 0 <= fd -> eventer_ c = None ->
  let c1 := Stop (Connect fd ECONNREFUSED c) in
  can_connect_ c1 = false /\ (retry_delay_microseconds_ c, TStart) ∈ scheduled c1 /\
  can_connect_ (Start c1) = true /\ (0, TConnect) ∈ scheduled (Start c1) /\
  eventer_ (Connect fd EINPROGRESS c1) = Some fd.
Proof.
  intros Hcan Hfd Hev. unfold Connect. rewrite (proj2 (Z.ltb_ge _ _)) by lia. simpl.
  unfold DoRetrying. simpl. rewrite Hcan. unfold Stop. simpl.
  split_and!; try done; rewrite elem_of_app; right; apply list_elem_of_singleton; done.
Qed.

Lemma descriptors_accounted_witness :
  let c := handle_all [EvStart; EvConnect 7 EINPROGRESS; EvStart; EvConnect 8 EINPROGRESS]
             (Connector_new true) in
  dropped c = [7] /\ opened c ≡ₚ closed c ++ handed c ++ dropped c ++ option_list (eventer_ c).
Proof.
  split; [reflexivity|].
  destruct (descriptors_accounted true
    [EvStart; EvConnect 7 EINPROGRESS; EvStart; EvConnect 8 EINPROGRESS] EvStop) as [Hf _].
  exact Hf.
Defined.

Lemma retry_backoff_witness :
  scheduled (handle_all ((fun fd => EvConnect fd ECONNREFUSED) <$> [7; 7; 7; 7; 7; 7; 7; 7])
               (set_can_connect true (Connector_new true)))
  = [(500000, TStart); (1000000, TStart); (2000000, TStart); (4000000, TStart); (8000000, TStart);
     (16000000, TStart); (30000000, TStart); (30000000, TStart)].
Proof.
  destruct (retry_backoff 8 [7; 7; 7; 7; 7; 7; 7; 7] (set_can_connect true (Connector_new true)))
    as [Hs _]; [reflexivity|reflexivity|reflexivity|repeat constructor; discriminate|].
  rewrite Hs. reflexivity.
Defined.

Lemma stop_is_undone_witness :
  can_connect_ (Start (Stop (Connect 7 ECONNREFUSED (Start (Connector_new true))))) = true.
Proof.
  apply (stop_is_undone (Start (Connector_new true)) 7); [reflexivity|discriminate|reflexivity].
Defined.
