(* ===== verification/NetAddress.v ===== *)
(** * Network addresses and sockets

    Model of class [NetAddress] (src/net_address.h, src/net_address.cc), a union
    of [sockaddr_in] and [sockaddr_in6] kept as its 28 bytes, and of the parts
    of class [Socketer] (src/socketer.h, src/socketer.cc) that decide something:
    setting descriptor flags, creating a socket, accepting, closing. The
    conversions [inet_pton] and [inet_ntop] are arguments. *)

From stdpp Require Import prelude list.
From coqutil Require Import Byte Word.LittleEndianList.
From S2P Require Import Prelude.

Definition AF_INET : Z := 2.
Definition AF_INET6 : Z := 10.
Definition INADDR_LOOPBACK : Z := 2130706433.
Definition INADDR_ANY : Z := 0.

(** [in6addr_loopback] and [in6addr_any]. *)
Definition in6addr_loopback : list byte := replicate 15 Byte.x00 ++ [Byte.x01].
Definition in6addr_any : list byte := replicate 16 Byte.x00.

(** The conversions of text to addresses ([None]: not in presentation format)
    and back. Texts are their character codes. *)
Class AddressText := {
  inet_pton4 : list Z -> option (list byte);
  inet_pton6 : list Z -> option (list byte);
  inet_ntop4 : list byte -> list Z;
  inet_ntop6 : list byte -> list Z;
}.

Section net_address.
Context `{!HostOrder, !AddressText}.

(** The bytes of the union, whatever they were before. *)
Definition NetAddress := list byte.

Definition sizeof_sockaddr_in : Z := 16.
Definition sizeof_sockaddr_in6 : Z := 28.

(** [sockaddr_in]: family, port, address, padding. *)
Definition sockaddr_in (port_be : Z) (addr : list byte) : list byte :=
  store_int 2 AF_INET ++ store_int 2 port_be ++ addr ++ replicate 8 Byte.x00.
(** [sockaddr_in6]: family, port, flow information, address, scope. *)
Definition sockaddr_in6 (port_be : Z) (addr : list byte) : list byte :=
  store_int 2 AF_INET6 ++ store_int 2 port_be ++ replicate 4 Byte.x00 ++ addr ++ replicate 4 Byte.x00.

(** Assigning the smaller member of the union keeps the bytes behind it. *)
Definition assign_in (sa : list byte) (old : NetAddress) : NetAddress :=
  sa ++ zdrop sizeof_sockaddr_in old.

Definition NetAddress_port (old : NetAddress) (port : Z) (loop_back use_ipv6 : bool) : NetAddress :=
  if use_ipv6 then
    sockaddr_in6 (htobe 2 port) (if loop_back then in6addr_loopback else in6addr_any)
  else
    assign_in (sockaddr_in (htobe 2 port)
                 (store_int 4 (htobe 4 (if loop_back then INADDR_LOOPBACK else INADDR_ANY)))) old.

Definition has_colon (ip : list Z) : bool := existsb (Z.eqb 58) ip.

(** A text that cannot be converted leaves the address zero. *)
Definition NetAddress_ip (old : NetAddress) (ip : list Z) (port : Z) (use_ipv6 : bool) : NetAddress :=
  if use_ipv6 || has_colon ip then
    sockaddr_in6 (htobe 2 port) (match inet_pton6 ip with Some a => a | None => replicate 16 Byte.x00 end)
  else
    assign_in (sockaddr_in (htobe 2 port)
                 (match inet_pton4 ip with Some a => a | None => replicate 4 Byte.x00 end)) old.

Definition GetFamily (a : NetAddress) : Z := load_int (ztake 2 a).

Definition GetPort (a : NetAddress) : Z := htobe 2 (load_int (zslice 2 2 a)).

(** [inet_ntop] is given the start of the union. *)
Definition GetIp (a : NetAddress) : list Z :=
  if GetFamily a =? AF_INET6 then inet_ntop6 (ztake 16 a)
  else if GetFamily a =? AF_INET then inet_ntop4 (ztake 4 a)
  else [].

Definition GetSize (a : NetAddress) : Z :=
  if GetFamily a =? AF_INET then sizeof_sockaddr_in else sizeof_sockaddr_in6.

Definition SetNetAddress (sa : list byte) (a : NetAddress) : NetAddress := assign_in sa a.
Definition SetNetAddress6 (sa6 : list byte) (a : NetAddress) : NetAddress := sa6.
Definition SetRawAddr (addr : list byte) (a : NetAddress) : NetAddress :=
  let ss_family := load_int (ztake 2 addr) in
  if ss_family =? AF_INET then assign_in (ztake sizeof_sockaddr_in addr) a
  else if ss_family =? AF_INET6 then ztake sizeof_sockaddr_in6 addr
  else a.

(** ** Facts *)

Lemma family_in port addr : load_int (ztake 2 (sockaddr_in port addr)) = AF_INET.
Proof. unfold sockaddr_in, load_int, store_int. destruct host_order; reflexivity. Qed.

Lemma family_in6 port addr : load_int (ztake 2 (sockaddr_in6 port addr)) = AF_INET6.
Proof. unfold sockaddr_in6, load_int, store_int. destruct host_order; reflexivity. Qed.

Lemma ztake_at_store n z (rest : list byte) :
  ztake (Z.of_nat n) (store_int n z ++ rest) = store_int n z.
Proof.
  unfold ztake. rewrite Nat2Z.id. rewrite take_app_le by (rewrite length_store_int; lia).
  apply take_ge. rewrite length_store_int. lia.
Qed.

Lemma port_slice (fam port : Z) (rest : list byte) :
  zslice 2 2 (store_int 2 fam ++ store_int 2 port ++ rest) = store_int 2 port.
Proof.
  unfold zslice. rewrite <-(ztake_at_store 2 port rest) at 2. f_equal. unfold zdrop.
  rewrite drop_app_ge by (rewrite length_store_int; lia). by rewrite length_store_int.
Qed.

Lemma first_four (fam port : Z) (rest : list byte) :
  ztake 4 (store_int 2 fam ++ store_int 2 port ++ rest) = store_int 2 fam ++ store_int 2 port.
Proof.
  unfold ztake. rewrite app_assoc. rewrite take_app_le.
  - apply take_ge. rewrite length_app, !length_store_int. simpl. lia.
  - rewrite length_app, !length_store_int. simpl. lia.
Qed.

Lemma port_back port : htobe 2 (load_int (store_int 2 (htobe 2 port))) = port mod 65536.
Proof.
  rewrite store_htobe. change (htobe 2) with (betoh 2).
  rewrite betoh_load by apply length_be_bytes. by rewrite be_value_bytes.
Qed.

(** An address built from a port or from a text and a port has that port and
    its family, for IPv4 and IPv6, on hosts of either byte order; its size is
    that of the family's structure. *)
Theorem port_roundtrip old port loop_back use_ipv6 ip :
  0 <= port < 65536 ->
  GetPort (NetAddress_port old port loop_back use_ipv6) = port /\
  GetPort (NetAddress_ip old ip port use_ipv6) = port /\
  GetFamily (NetAddress_port old port loop_back use_ipv6)
    = (if use_ipv6 then AF_INET6 else AF_INET) /\
  GetFamily (NetAddress_ip old ip port use_ipv6)
    = (if use_ipv6 || has_colon ip then AF_INET6 else AF_INET) /\
  GetSize (NetAddress_port old port loop_back use_ipv6) = (if use_ipv6 then 28 else 16).
Proof.
  intros Hp. unfold GetSize, GetPort, GetFamily, NetAddress_port, NetAddress_ip, assign_in.
  assert (forall (l : list byte) rest, 2 <= zlen l -> ztake 2 (l ++ rest) = ztake 2 l) as Htake.
  { intros l rest Hl. unfold ztake, zlen in *. by rewrite take_app_le by lia. }
  assert (forall p a, 2 <= zlen (sockaddr_in p a)) as Hlen.
  { intros p a. unfold sockaddr_in. rewrite !zlen_app, !zlen_store_int. pose proof (zlen_nonneg a).
    pose proof (zlen_nonneg (replicate 8 Byte.x00)). lia. }
  split_and!.
  - destruct use_ipv6; unfold sockaddr_in6, sockaddr_in; rewrite <-?app_assoc, port_slice, port_back;
      by apply Z.mod_small.
  - destruct (use_ipv6 || has_colon ip); unfold sockaddr_in6, sockaddr_in;
      rewrite <-?app_assoc, port_slice, port_back; by apply Z.mod_small.
  - destruct use_ipv6; [apply family_in6|]. rewrite Htake by done. apply family_in.
  - destruct (use_ipv6 || has_colon ip); [apply family_in6|]. rewrite Htake by done. apply family_in.
  - destruct use_ipv6; [by rewrite family_in6|]. rewrite Htake by done. by rewrite family_in.
Qed.

(** The text of an IPv4 address does not depend on the address: [GetIp] hands
    [inet_ntop] the start of the structure, so it prints the family and the port.
    Two addresses with the same port have the same text. *)
Theorem ip_text_ignores_address old old' ip ip' port :
  has_colon ip = false -> has_colon ip' = false ->
  GetIp (NetAddress_ip old ip port false) = GetIp (NetAddress_ip old' ip' port false) /\
  GetIp (NetAddress_ip old ip port false) = inet_ntop4 (store_int 2 AF_INET ++ be_bytes 2 port).
Proof.
  intros Hc Hc'.
  assert (forall o i, has_colon i = false -> GetIp (NetAddress_ip o i port false)
    = inet_ntop4 (store_int 2 AF_INET ++ be_bytes 2 port)) as Hip.
  { intros o i Hi. unfold GetIp, GetFamily, NetAddress_ip, assign_in. rewrite Hi. simpl.
    unfold sockaddr_in. rewrite <-!app_assoc.
    assert (forall rest, ztake 2 (store_int 2 AF_INET ++ rest) = store_int 2 AF_INET) as Hfam
      by (intros; apply (ztake_at_store 2)).
    rewrite Hfam.
    assert (load_int (store_int 2 AF_INET) = AF_INET) as ->
      by (unfold load_int, store_int; destruct host_order; reflexivity).
    simpl. by rewrite first_four, store_htobe. }
  split; [by rewrite !Hip|by apply Hip].
Qed.

End net_address.

(** ** Sockets *)

Definition O_NONBLOCK : Z := 2048.
Definition FD_CLOEXEC : Z := 1.

(** The two flag words of a descriptor, and which of the four calls of [fcntl]
    fail. *)
Record fd_flags := mkFlags { status_flags : Z; descriptor_flags : Z }.
Record fcntl_failures := mkFailures { getfl : bool; setfl : bool; getfd : bool; setfd : bool }.

Definition SetNonBlockAndCloexec (no : fcntl_failures) (f : fd_flags) : bool * fd_flags :=
  if getfl no then (false, f)
  else
    let missing := Z.land (status_flags f) O_NONBLOCK =? 0 in
    if missing && setfl no then (false, f)
    else
      let f := if missing then mkFlags (Z.lor (status_flags f) O_NONBLOCK) (descriptor_flags f) else f in
      if getfd no then (false, f)
      else
        let missing := Z.land (descriptor_flags f) FD_CLOEXEC =? 0 in
        if missing && setfd no then (false, f)
        else (true, if missing then mkFlags (status_flags f) (Z.lor (descriptor_flags f) FD_CLOEXEC)
                    else f).

(** [socket] with the flags, else without them and with [fcntl]; the descriptor
    (negative: none) and its flags. *)
Definition CreateNonblockingTcpSocket (with_flags without_flags : Z) (no : fcntl_failures)
  : Z * fd_flags :=
  if 0 <=? with_flags then (with_flags, mkFlags O_NONBLOCK FD_CLOEXEC)
  else if without_flags <? 0 then (without_flags, mkFlags 0 0)
  else (without_flags, (SetNonBlockAndCloexec no (mkFlags 0 0)).2).

Definition ENOSYS : Z := 38.
Definition EINVAL : Z := 22.
Definition EPERM : Z := 1.
Definition IsAccept4Unavailable (err : Z) : bool := (err =? ENOSYS) || (err =? EINVAL) || (err =? EPERM).

(** [Accept]: [accept4] first, [accept] where it is not available; answers are
    a descriptor, or a negative error number. The peer's address is written
    only on success. *)
Definition SocketAccept (accept4 accept : Z) (no : fcntl_failures) (sa6 : list byte)
    (peer : list byte) : Z * fd_flags * list byte :=
  let '(conn_fd, f) :=
    if (accept4 <? 0) && IsAccept4Unavailable (- accept4) then
      (accept, if 0 <=? accept then (SetNonBlockAndCloexec no (mkFlags 0 0)).2 else mkFlags 0 0)
    else (accept4, mkFlags O_NONBLOCK FD_CLOEXEC) in
  (conn_fd, f, if conn_fd <? 0 then peer else sa6).

(** [Close]: the descriptors closed, and the member afterwards. *)
Definition SocketClose (socket_fd : Z) : list Z * Z :=
  if negb (socket_fd =? -1) then ([socket_fd], -1) else ([], socket_fd).

(** Non-blocking and close-on-exec: when [SetNonBlockAndCloexec] reports
    success both flags are set and no other is lost, and when no call of [fcntl]
    fails it does; a socket created by either path without a failing call has
    both flags; closing twice closes once. *)
Theorem nonblocking_cloexec no f with_flags without_flags fd :
  ((SetNonBlockAndCloexec no f).1 = true ->
   Z.land (status_flags (SetNonBlockAndCloexec no f).2) O_NONBLOCK <> 0 /\
   Z.land (descriptor_flags (SetNonBlockAndCloexec no f).2) FD_CLOEXEC <> 0) /\
  ((SetNonBlockAndCloexec (mkFailures false false false false) f).1 = true) /\
  (let '(s, g) := CreateNonblockingTcpSocket with_flags without_flags
                    (mkFailures false false false false) in
   0 <= s -> Z.land (status_flags g) O_NONBLOCK <> 0 /\ Z.land (descriptor_flags g) FD_CLOEXEC <> 0) /\
  (SocketClose (SocketClose fd).2).1 = [].
Proof.
  assert (forall no f, (SetNonBlockAndCloexec no f).1 = true ->
    Z.land (status_flags (SetNonBlockAndCloexec no f).2) O_NONBLOCK <> 0 /\
    Z.land (descriptor_flags (SetNonBlockAndCloexec no f).2) FD_CLOEXEC <> 0) as Hset.
  { assert (forall x m, 0 < m -> Z.land (Z.lor x m) m <> 0) as Hlor.
    { intros x m Hm Hz. rewrite Z.land_lor_distr_l, Z.land_diag in Hz.
      apply Z.lor_eq_0_iff in Hz as [_ ?]. lia. }
    intros no' f'. unfold SetNonBlockAndCloexec.
    destruct (getfl no'); [done|].
    destruct (Z.eqb_spec (Z.land (status_flags f') O_NONBLOCK) 0); simpl;
      destruct (setfl no'); try done; destruct (getfd no'); try done; simpl;
      destruct (Z.eqb_spec (Z.land (descriptor_flags f') FD_CLOEXEC) 0); simpl;
      destruct (setfd no'); try done; simpl; intros _; split; try done; by apply Hlor. }
  split; [apply Hset|]. split.
  - unfold SetNonBlockAndCloexec. simpl. by rewrite !andb_false_r.
  - split.
    + unfold CreateNonblockingTcpSocket. destruct (Z.leb_spec 0 with_flags); [done|].
      destruct (Z.ltb_spec without_flags 0); [lia|]. intros _. by apply Hset.
    + unfold SocketClose. destruct (Z.eqb_spec fd (-1)) as [->|]; done.
Qed.

(** ** Evaluations *)

Module Concrete.

(** Dotted decimals without the dots' conversion: the bytes as numbers. *)
#[local] Instance plain_text : AddressText := {|
  inet_pton4 ip := Some (replicate 4 (match ip with [] => Byte.x00 | _ => Byte.x0a end));
  inet_pton6 _ := None;
  inet_ntop4 bs := (fun b => Z.of_N (Byte.to_N b)) <$> bs;
  inet_ntop6 _ := [];
|}.

#[local] Existing Instance x86_host.

Lemma port_roundtrip_witness :
  GetPort (NetAddress_port (replicate 28 Byte.xff) 4567 true false) = 4567.
Proof.
  destruct (port_roundtrip (replicate 28 Byte.xff) 4567 true false []) as [Hp _]; [lia|exact Hp].
Defined.

Lemma ip_text_ignores_address_witness :
  GetIp (NetAddress_ip [] [49; 46; 49] 8080 false) = [2; 0; 31; 144].
Proof.
  destruct (ip_text_ignores_address [] [] [49; 46; 49] [] 8080 eq_refl eq_refl) as [_ Hip].
  rewrite Hip. reflexivity.
Defined.

Lemma nonblocking_cloexec_witness :
  (SetNonBlockAndCloexec (mkFailures false false false false) (mkFlags 2 0)).2
  = mkFlags (2048 + 2) 1 /\
  Z.land (status_flags (SetNonBlockAndCloexec (mkFailures false false false false) (mkFlags 2 0)).2)
    O_NONBLOCK <> 0.
Proof.
  split; [reflexivity|].
  destruct (nonblocking_cloexec (mkFailures false false false false) (mkFlags 2 0) 3 4 5) as [Hset _].
  apply Hset. reflexivity.
Defined.

End Concrete.
