(* ===== verification/Sockets.v ===== *)
(** * Socket options and addresses of connections

    Model of the remaining operations of class [Socketer] (src/socketer.cc:
    binding, listening, shutting down, options), of how [Acceptor] sets up its
    socket with them (src/acceptor.cc), and of [GetLocalAddress] and
    [GetPeerAddress] (src/reactor_manager.cc, src/acceptor.cc). The answers of
    the system calls are arguments; none of these operations reports a failure
    to its caller. *)

From Stdlib Require Import Strings.String.
From stdpp Require Import prelude list.
From coqutil Require Import Byte Word.LittleEndianList.
From S2P Require Import Prelude.
From S2P Require Import NetAddress.

(** A socket in the kernel: its options, the address it is bound to and whether
    it listens, and whether its writing side is shut down. [logged] are the
    errors the program logged. *)
Record Socket := mkSocket {
  tcp_nodelay : bool;
  so_reuseaddr : bool;
  so_reuseport : bool;
  so_keepalive : bool;
  bound : option (list byte);
  listening : bool;
  shut_write : bool;
  logged : list string;
}.

Definition Socket_new : Socket := mkSocket false false false false None false false [].

Definition log_error (what : string) (s : Socket) : Socket :=
  mkSocket (tcp_nodelay s) (so_reuseaddr s) (so_reuseport s) (so_keepalive s) (bound s) (listening s)
    (shut_write s) (logged s ++ [what]).

Section sockets.
Context `{!HostOrder}.

(** [ret] is what the system call returns. *)
Definition BindAddress (ret : Z) (local_address : NetAddress) (s : Socket) : Socket :=
  if ret <? 0 then log_error "bind" s
  else mkSocket (tcp_nodelay s) (so_reuseaddr s) (so_reuseport s) (so_keepalive s)
         (Some (ztake (GetSize local_address) local_address)) (listening s) (shut_write s) (logged s).

Definition SocketListen (ret : Z) (s : Socket) : Socket :=
  if ret <? 0 then log_error "listen" s
  else mkSocket (tcp_nodelay s) (so_reuseaddr s) (so_reuseport s) (so_keepalive s) (bound s) true
         (shut_write s) (logged s).

Definition ShutdownWrite (ret : Z) (s : Socket) : Socket :=
  if ret <? 0 then log_error "shutdown" s
  else mkSocket (tcp_nodelay s) (so_reuseaddr s) (so_reuseport s) (so_keepalive s) (bound s) (listening s)
         true (logged s).

Definition SetTcpNoDelay (ret : Z) (on : bool) (s : Socket) : Socket :=
  if ret <? 0 then log_error "no delay" s
  else mkSocket on (so_reuseaddr s) (so_reuseport s) (so_keepalive s) (bound s) (listening s)
         (shut_write s) (logged s).

Definition SetReuseAddress (ret : Z) (on : bool) (s : Socket) : Socket :=
  if ret <? 0 then log_error "reuse address" s
  else mkSocket (tcp_nodelay s) on (so_reuseport s) (so_keepalive s) (bound s) (listening s)
         (shut_write s) (logged s).

Definition SetReusePort (ret : Z) (on : bool) (s : Socket) : Socket :=
  if ret <? 0 then log_error "reuse port" s
  else mkSocket (tcp_nodelay s) (so_reuseaddr s) on (so_keepalive s) (bound s) (listening s)
         (shut_write s) (logged s).

Definition SetKeepAlive (ret : Z) (on : bool) (s : Socket) : Socket :=
  if ret <? 0 then log_error "keep alive" s
  else mkSocket (tcp_nodelay s) (so_reuseaddr s) (so_reuseport s) on (bound s) (listening s)
         (shut_write s) (logged s).

(** The constructor of [Acceptor] and [Acceptor::Listen], as far as the listening
    socket is concerned. *)
Record setup_answers := mkAnswers { r_reuse_addr : Z; r_reuse_port : Z; r_bind : Z; r_listen : Z }.

Definition Acceptor_setup (r : setup_answers) (listen_address : NetAddress) (should_reuse_port : bool) : Socket :=
  BindAddress (r_bind r) listen_address
    (SetReusePort (r_reuse_port r) should_reuse_port (SetReuseAddress (r_reuse_addr r) true Socket_new)).

Definition Acceptor_listening (r : setup_answers) (listen_address : NetAddress) (should_reuse_port : bool) : Socket :=
  SocketListen (r_listen r) (Acceptor_setup r listen_address should_reuse_port).

(** [getsockname] and [getpeername] into a zeroed [sockaddr_in6]: [name] is the
    address of the socket, of which the kernel writes what fits. *)
Definition GetSocketAddress (ret : Z) (name : list byte) : NetAddress :=
  let local_addr := replicate 28 Byte.x00 in
  if ret <? 0 then local_addr else ztake 28 name ++ zdrop (zlen name) local_addr.

(** ** Facts *)

(** The listening socket. When every call succeeds it is bound to the given
    address, which may be reused, before it listens, and nothing is logged. A
    failing [bind] is only logged: the socket listens all the same, without the
    address that was asked for. *)
Theorem acceptor_socket r old port should_reuse_port :
  0 <= r_reuse_addr r -> 0 <= r_reuse_port r -> 0 <= r_listen r ->
  let listen_address := NetAddress_port old port false false in
  let s := Acceptor_listening r listen_address should_reuse_port in
  listening s = true /\ so_reuseaddr s = true /\ so_reuseport s = should_reuse_port /\
  if r_bind r <? 0 then bound s = None /\ logged s = ["bind"%string]
  else bound s = Some (ztake 16 listen_address) /\ logged s = [].
Proof.
  intros Ha Hp Hl listen_address s. subst s.
  unfold Acceptor_listening, Acceptor_setup, SocketListen, BindAddress, SetReusePort, SetReuseAddress.
  rewrite (proj2 (Z.ltb_ge _ _) Ha), (proj2 (Z.ltb_ge _ _) Hp), (proj2 (Z.ltb_ge _ _) Hl).
  assert (GetSize listen_address = 16) as ->.
  { unfold GetSize, GetFamily, listen_address, NetAddress_port, assign_in, sockaddr_in.
    assert (forall n rest, ztake 2 (store_int 2 n ++ rest) = store_int 2 n) as Hfam
      by (intros; apply (ztake_at_store 2)).
    rewrite <- !app_assoc, Hfam.
    assert (load_int (store_int 2 AF_INET) = AF_INET) as ->; [|done].
    unfold load_int, store_int. destruct host_order; reflexivity. }
  destruct (r_bind r <? 0); by split_and!.
Qed.

(** The address of a connection is the kernel's, for IPv4 as for IPv6, although it
    is always read as a [sockaddr_in6]: family, port and size come out right.
    When the call fails the address is all zeros, and its size that of an IPv6
    address. *)
Theorem connection_address ret port addr use_ipv6 :
  0 <= port < 65536 -> zlen addr = (if use_ipv6 : bool then 16 else 4) ->
  let name := (if use_ipv6 then sockaddr_in6 else sockaddr_in) (htobe 2 port) addr in
  let a := GetSocketAddress ret name in
  zlen a = 28 /\
  if ret <? 0 then GetFamily a = 0 /\ GetPort a = 0 /\ GetSize a = 28
  else GetFamily a = (if use_ipv6 then AF_INET6 else AF_INET) /\ GetPort a = port /\
       GetSize a = (if use_ipv6 then 28 else 16) /\ ztake (GetSize a) a = name.
Proof.
  intros Hp Hl name a.
  assert (zlen name = if use_ipv6 then 28 else 16) as Hn.
  { unfold name. destruct use_ipv6; unfold sockaddr_in6, sockaddr_in;
      rewrite !zlen_app, !zlen_store_int, ?zlen_replicate, Hl; reflexivity. }
  unfold a, GetSocketAddress. destruct (ret <? 0); [split; [done|]|].
  { unfold GetSize, GetFamily, GetPort, load_int, htobe, zslice. by destruct host_order. }
  rewrite ztake_all by (rewrite Hn; destruct use_ipv6; lia). set (rest := zdrop (zlen name) _).
  assert (zlen rest = 28 - zlen name) as Hr.
  { unfold rest. rewrite zlen_zdrop by (apply zlen_nonneg). rewrite Hn. by destruct use_ipv6. }
  assert (GetFamily (name ++ rest) = if use_ipv6 then AF_INET6 else AF_INET) as Hf.
  { unfold GetFamily, name. destruct use_ipv6; unfold sockaddr_in6, sockaddr_in; rewrite <- !app_assoc;
      rewrite (ztake_at_store 2); unfold load_int, store_int; destruct host_order; reflexivity. }
  split; [rewrite zlen_app; lia|]. unfold GetSize. rewrite Hf. split_and!.
  - done.
  - unfold GetPort, name. destruct use_ipv6; unfold sockaddr_in6, sockaddr_in;
      rewrite <- !app_assoc, port_slice, port_back; by apply Z.mod_small.
  - by destruct use_ipv6.
  - transitivity (ztake (zlen name) (name ++ rest)); [|apply ztake_app_exact]. rewrite Hn. by destruct use_ipv6.
Qed.
End sockets.

(** ** Evaluations *)

Module Concrete.
#[local] Existing Instance x86_host.

Lemma connection_address_witness :
  GetPort (GetSocketAddress 0 (sockaddr_in (htobe 2 4567) [Byte.x7f; Byte.x00; Byte.x00; Byte.x01])) = 4567.
Proof.
  destruct (connection_address 0 4567 [Byte.x7f; Byte.x00; Byte.x00; Byte.x01] false) as (_ & _ & Hp & _);
    [lia|reflexivity|exact Hp].
Defined.

(** The port is taken: the socket listens without an address. *)
Lemma acceptor_socket_witness :
  let s := Acceptor_listening (mkAnswers 0 0 (-1) 0) (NetAddress_port (replicate 28 Byte.x00) 4567 false false) false in
  listening s = true /\ bound s = None.
Proof.
  destruct (acceptor_socket (mkAnswers 0 0 (-1) 0) (replicate 28 Byte.x00) 4567 false) as (Hl & _ & _ & Hb & _);
    [done..|]. exact (conj Hl Hb).
Defined.
End Concrete.
