(* ===== verification/Acceptor.v ===== *)
(** * Accepting connections

    Model of class [Acceptor] (src/acceptor.h, src/acceptor.cc) on top of
    [Poller]: listening, the accept request, its completions with the reserve
    descriptor for [EMFILE]. The new-connection callback is an arbitrary function
    on the whole state; which descriptors it was given and which ones were closed
    is recorded. *)

From stdpp Require Import prelude gmap list.
From S2P Require Import Prelude.
From S2P Require Import Poller.
From S2P Require Import PollerFacts.
From S2P Require NetAddress.
From S2P Require Sockets.

Definition kMaxEventAmount : Z := 600000.
Definition EMFILE : Z := 24.

(** [NewConnectionCallback_]: whether one is registered. *)
Record Acceptor := mkAcceptor {
  self_ : Z;
  accept_fd : Z;
  is_listening_ : bool;
  idle_fd_ : Z;
  NewConnectionCallback_ : bool;
}.

(** The contexts and the completion function of acceptors among those of the
    poller. *)
Class AcceptorSlots (Ctx Fn : Type) := {
  AcceptContext : Z -> Ctx;
  FnOnAcceptComplete : Fn;
}.

(** [handed] are the descriptors given to the callback with the addresses of
    their peers, [closed] the descriptors closed. *)
Record World (R Ctx Fn E : Type) := mkWorld {
  acceptor : Acceptor;
  poller : Poller R Ctx Fn;
  handed : list (Z * NetAddress.NetAddress);
  closed : list Z;
  env : E;
}.
Arguments mkWorld {_ _ _ _}.
Arguments acceptor {_ _ _ _}.
Arguments poller {_ _ _ _}.
Arguments handed {_ _ _ _}.
Arguments closed {_ _ _ _}.
Arguments env {_ _ _ _}.

(** The registered function. *)
Class AcceptorCallback (W : Type) := OnNewConnection : Z -> NetAddress.NetAddress -> W -> result W.

(** What ends with an accept completion: the completion, the thread's [errno], the
    answers of [accept] and [open] where the reserve descriptor is used, and what
    [getpeername] answers and writes. *)
Record arrival := mkArrival {
  a_cqe : cqe;
  a_errno : Z;
  a_accepted : Z;
  a_reopened : Z;
  a_ret : Z;
  a_name : list Byte.byte;
}.

Section acceptor.
Context {R Ctx Fn E : Type} `{!Ring R, !BuildConfig, !AcceptorSlots Ctx Fn}.
Abbreviation W := (World R Ctx Fn E).
Context `{!AcceptorCallback W}.
Implicit Types w : W.

Definition set_acceptor (a : Acceptor) (w : W) : W := mkWorld a (poller w) (handed w) (closed w) (env w).
Definition set_poller (p : Poller R Ctx Fn) (w : W) : W :=
  mkWorld (acceptor w) p (handed w) (closed w) (env w).
Definition close_fd (fd : Z) (w : W) : W :=
  mkWorld (acceptor w) (poller w) (handed w) (closed w ++ [fd]) (env w).
Definition set_idle (fd : Z) (a : Acceptor) : Acceptor :=
  mkAcceptor (self_ a) (accept_fd a) (is_listening_ a) fd (NewConnectionCallback_ a).
Definition set_listening (v : bool) (a : Acceptor) : Acceptor :=
  mkAcceptor (self_ a) (accept_fd a) v (idle_fd_ a) (NewConnectionCallback_ a).

(** The call of the callback. *)
Definition hand_on (fd : Z) (peer_address : NetAddress.NetAddress) (w : W) : result W :=
  OnNewConnection fd peer_address
    (mkWorld (acceptor w) (poller w) (handed w ++ [(fd, peer_address)]) (closed w) (env w)).

(** The constructor: the listening socket, or the end of the process. *)
Definition Acceptor_new (self socket idle_fd : Z) : result Acceptor :=
  if socket <? 0 then Fault ExitFailure else Ok (mkAcceptor self socket false idle_fd false).

Definition RegisterNewConnectionCallback (a : Acceptor) : Acceptor :=
  mkAcceptor (self_ a) (accept_fd a) (is_listening_ a) (idle_fd_ a) true.

Definition SubmitAcceptOnce (w : W) : W :=
  let a := acceptor w in
  if negb (is_listening_ a) then w
  else
    let '(k, p) := SubmitAccept (accept_fd a) (Some (AcceptContext (self_ a)))
                     (Some FnOnAcceptComplete) 0 true true (poller w) in
    set_poller p w.

Definition DoReading : W -> W := SubmitAcceptOnce.

Definition Listen (w : W) : W := SubmitAcceptOnce (set_acceptor (set_listening true (acceptor w)) w).

(** [~Acceptor]. *)
Definition Acceptor_delete (w : W) : W :=
  close_fd (idle_fd_ (acceptor w)) (set_acceptor (set_listening false (acceptor w)) w).

(** The descriptor is taken for a new connection. *)
Definition usable (x : arrival) : bool := (0 <=? cqe_res (a_cqe x)) && (cqe_res (a_cqe x) <=? kMaxEventAmount).

Definition saved_errno (x : arrival) : Z :=
  let conn_fd := cqe_res (a_cqe x) in
  let saved := if conn_fd <? 0 then - conn_fd else 0 in
  if saved =? 0 then a_errno x else saved.

Definition GetPeerAddress (x : arrival) : NetAddress.NetAddress := Sockets.GetSocketAddress (a_ret x) (a_name x).

(** The result tells whether the context was deleted. *)
Definition OnAcceptComplete (x : arrival) (w : W) : result (bool * W) :=
  let conn_fd := cqe_res (a_cqe x) in
  w ← (if usable x then
         if NewConnectionCallback_ (acceptor w) then hand_on conn_fd (GetPeerAddress x) w
         else Ok (close_fd conn_fd w)
       else
         if negb (Eventer.transient (saved_errno x)) && (saved_errno x =? EMFILE) then
           let w := close_fd (idle_fd_ (acceptor w)) w in
           let w := set_acceptor (set_idle (a_accepted x) (acceptor w)) w in
           let w := close_fd (idle_fd_ (acceptor w)) w in
           Ok (set_acceptor (set_idle (a_reopened x) (acceptor w)) w)
         else Ok w);
  if negb (has_bits (cqe_flags (a_cqe x)) IORING_CQE_F_MORE) then
    Ok (true, if is_listening_ (acceptor w) then SubmitAcceptOnce w else w)
  else Ok (false, w).

(** ** The accept request *)

(** An accept request of this acceptor. *)
Definition mine (a : Acceptor) (op : IoUringOp Ctx Fn) : Prop :=
  type op = kAccept /\ op_fd op = accept_fd a /\ completion op = Some FnOnAcceptComplete /\
  context op = Some (AcceptContext (self_ a)).

Definition the_request (a : Acceptor) (k : Z) (ops : gmap Z (IoUringOp Ctx Fn)) : Prop :=
  (exists op, ops !! k = Some op /\ mine a op) /\
  forall k' op', ops !! k' = Some op' -> mine a op' -> k' = k.

(** The acceptor listens with one request in the poller; [n] keys are left. *)
Record accept_inv (n : Z) (w : W) : Prop := {
  ai_wf : wf (poller w);
  ai_keys : next_key_ (poller w) + n <= 2 ^ 64 - 1;
  ai_listening : is_listening_ (acceptor w) = true;
  ai_callback : NewConnectionCallback_ (acceptor w) = true;
  ai_request : exists k, the_request (acceptor w) k (ops_ (poller w));
}.

(** What others may do between the steps of the acceptor, and the callback during
    one: use the poller with at most [m] new keys, and leave the acceptor and its
    requests alone. *)
Record aside (m : Z) (w w' : W) : Prop := {
  as_acceptor : acceptor w' = acceptor w;
  as_handed : handed w' = handed w;
  as_closed : closed w' = closed w;
  as_wf : wf (poller w) -> wf (poller w');
  as_next : next_key_ (poller w) <= next_key_ (poller w') <= next_key_ (poller w) + m;
  as_gone : forall k, k < next_key_ (poller w) -> ops_ (poller w) !! k = None -> ops_ (poller w') !! k = None;
  as_mine : forall k op, mine (acceptor w) op ->
    ops_ (poller w') !! k = Some op <-> ops_ (poller w) !! k = Some op;
}.

(** The submission queue has room for every accept request. *)
Definition accepts_taken : Prop :=
  forall fd ctx fn (p : Poller R Ctx Fn), (SubmitAccept fd ctx fn 0 true true p).1 <> 0.

Lemma SubmitAcceptOnce_one n w :
  accepts_taken -> wf (poller w) -> next_key_ (poller w) + (n + 1) <= 2 ^ 64 - 1 -> 0 <= n ->
  is_listening_ (acceptor w) = true -> NewConnectionCallback_ (acceptor w) = true ->
  (forall k op, ops_ (poller w) !! k = Some op -> ~ mine (acceptor w) op) ->
  accept_inv n (SubmitAcceptOnce w) /\ acceptor (SubmitAcceptOnce w) = acceptor w /\
  handed (SubmitAcceptOnce w) = handed w /\ closed (SubmitAcceptOnce w) = closed w.
Proof using Type.
  intros Htake Hwf Hn Hn0 Hl Hcb Hnone. unfold SubmitAcceptOnce. rewrite Hl. cbn [negb].
  specialize (Htake (accept_fd (acceptor w)) (Some (AcceptContext (self_ (acceptor w))))
                (Some FnOnAcceptComplete) (poller w)).
  rewrite SubmitAccept_submit in * by (done || lia).
  set (op_of := fun k => mkOp kAccept None _ _ _ k true) in *.
  match type of Htake with context [submit _ ?q0 _] => set (q := q0) in * end.
  destruct (submit_ok op_of q (poller w)) as [Hwf' Hnext Hst _ _ Hops]; [done|lia|done|done|].
  destruct (submit op_of q (poller w)) as [k p]. simpl in *.
  destruct Hops as [[? _]|[-> Hops]]; [done|]. split; [|done].
  split; simpl; [done|lia|done|done|]. exists (next_key_ (poller w)). rewrite Hops. split.
  - exists (op_of (next_key_ (poller w))). by rewrite lookup_insert_eq.
  - intros k' op' [[<- _]|[_ Hk']]%lookup_insert_Some Hm; [done|]. by destruct (Hnone k' op').
Qed.

(** When the queue is full, [SubmitAcceptOnce] submits nothing; the next
    completion that would try again never comes. *)
Theorem accept_request_lost w :
  wf (poller w) -> next_key_ (poller w) < 2 ^ 64 - 1 ->
  io_uring_get_sqe (ring_ (poller w)) = None -> ops_ (poller (SubmitAcceptOnce w)) = ops_ (poller w).
Proof using Type.
  intros Hwf Hn Hr. unfold SubmitAcceptOnce. destruct (negb _); [done|].
  unfold SubmitAccept. rewrite NormalizeKey_fresh by done. unfold enqueue. simpl. by rewrite Hr.
Qed.

(** A descriptor above 600000 is neither handed to the callback nor closed. *)
Theorem large_descriptor_leaks x w f w' :
  kMaxEventAmount < cqe_res (a_cqe x) -> a_errno x <> EMFILE -> OnAcceptComplete x w = Ok (f, w') ->
  handed w' = handed w /\ closed w' = closed w.
Proof using Type.
  intros Hbig He Hrun. unfold OnAcceptComplete, usable, saved_errno, kMaxEventAmount in *.
  rewrite (proj2 (Z.leb_gt (cqe_res (a_cqe x)) _)), andb_false_r, (proj2 (Z.ltb_ge _ _)) in Hrun by lia.
  cbn in Hrun. rewrite (proj2 (Z.eqb_neq _ EMFILE)), andb_false_r in Hrun by done. simpl in Hrun.
  assert (handed (SubmitAcceptOnce w) = handed w /\ closed (SubmitAcceptOnce w) = closed w) as Hs.
  { unfold SubmitAcceptOnce. destruct (negb (is_listening_ _)); [done|].
    by destruct (SubmitAccept _ _ _ _ _ _ _). }
  destruct (negb (has_bits _ _)); [|by simplify_eq]. destruct (is_listening_ (acceptor w)); by simplify_eq.
Qed.

(** ** Serving *)

(** What the completions hand to the callback, and what is closed when the
    descriptors run out: the reserve makes room for the client that is turned
    away, and is renewed. *)
Definition handed_by (x : arrival) : list (Z * NetAddress.NetAddress) :=
  if usable x then [(cqe_res (a_cqe x), GetPeerAddress x)] else [].

Definition out_of_fds (x : arrival) : bool :=
  negb (usable x) && negb (Eventer.transient (saved_errno x)) && (saved_errno x =? EMFILE).

Fixpoint turned_away (idle : Z) (l : list arrival) : list Z * Z :=
  match l with
  | [] => ([], idle)
  | x :: l =>
      if out_of_fds x then
        let '(fds, idle') := turned_away (a_reopened x) l in (idle :: a_accepted x :: fds, idle')
      else turned_away idle l
  end.

Lemma turned_away_snoc idle l x :
  turned_away idle (l ++ [x]) =
  if out_of_fds x then
    ((turned_away idle l).1 ++ [(turned_away idle l).2; a_accepted x], a_reopened x)
  else turned_away idle l.
Proof using Type.
  clear. revert idle. induction l as [|y l IH]; intros idle; simpl.
  - by destruct (out_of_fds x).
  - rewrite !IH. destruct (out_of_fds y), (out_of_fds x); try done;
      by destruct (turned_away (a_reopened y) l).
Qed.

Section serving.
Context (b : Z) (Htake : accepts_taken).

(** The callback uses at most [b] keys of the poller and leaves the acceptor
    alone. *)
Class LawfulCallback : Prop := {
  lc_bound : 0 <= b;
  lc_aside : forall fd addr w w', OnNewConnection fd addr w = Ok w' -> aside b w w';
}.
Context {Hlc : LawfulCallback}.

(** A completion takes its request out of the poller's table, and puts it back
    when more are to come. *)
Definition take_out (k : Z) (w : W) : W :=
  set_poller (with_ops (delete k (ops_ (poller w))) (poller w)) w.
Definition put_back (k : Z) (op : IoUringOp Ctx Fn) (w : W) : W :=
  set_poller (with_ops (<[k := op]> (ops_ (poller w))) (poller w)) w.

(** Runs of an acceptor: completions of its request, with and without
    [IORING_CQE_F_MORE], and the doings of others. *)
Inductive accept_run (w0 : W) : Z -> list arrival -> W -> Prop :=
| accept_start : accept_run w0 0 [] w0
| accept_complete n l w k op x deleted w' :
    accept_run w0 n l w -> ops_ (poller w) !! k = Some op -> mine (acceptor w) op ->
    OnAcceptComplete x (take_out k w) = Ok (deleted, w') ->
    accept_run w0 (n + (b + 1)) (l ++ [x]) (if deleted : bool then w' else put_back k op w')
| accept_others n l w m w' :
    accept_run w0 n l w -> 0 <= m -> aside m w w' -> accept_run w0 (n + m) l w'.

Lemma aside_inv n m w w' : accept_inv (n + m) w -> aside m w w' -> accept_inv n w'.
Proof using Type.
  intros [Hwf Hk Hl Hcb (k & (op & Hop & Hm) & Hone)] [Ha _ _ Hw Hn _ Hs]. split; rewrite ?Ha; try done.
  - by apply Hw.
  - lia.
  - exists k. split; [exists op; by rewrite Hs|]. intros k' op' Hk' Hm'. apply (Hone k' op'); [|done].
    by rewrite <-Hs.
Qed.

(** The part of the completion before the next request. *)
Definition settle (x : arrival) (w : W) : result W :=
  if usable x then hand_on (cqe_res (a_cqe x)) (GetPeerAddress x) w
  else if out_of_fds x then
    Ok (set_acceptor (set_idle (a_reopened x) (acceptor w))
          (close_fd (a_accepted x) (close_fd (idle_fd_ (acceptor w)) w)))
  else Ok w.

Lemma OnAcceptComplete_settle x w :
  NewConnectionCallback_ (acceptor w) = true ->
  OnAcceptComplete x w =
  (w ← settle x w;
   if negb (has_bits (cqe_flags (a_cqe x)) IORING_CQE_F_MORE) then
     Ok (true, if is_listening_ (acceptor w) then SubmitAcceptOnce w else w)
   else Ok (false, w)).
Proof using Type.
  intros Hcb. unfold OnAcceptComplete, settle, out_of_fds. rewrite Hcb.
  destruct (usable x); [done|]. cbn [negb andb]. by destruct (_ && (_ =? EMFILE)).
Qed.

(** Up to the next request the poller is used by the callback only. *)
Lemma settle_aside x w w' :
  settle x w = Ok w' ->
  exists w1, aside b w w1 /\ poller w' = poller w1 /\
    acceptor w' = (if out_of_fds x then set_idle (a_reopened x) (acceptor w) else acceptor w) /\
    handed w' = handed w ++ handed_by x /\
    closed w' = closed w ++ (if out_of_fds x then [idle_fd_ (acceptor w); a_accepted x] else []).
Proof using Hlc.
  intros Hrun. pose proof lc_bound. unfold settle, handed_by in *.
  assert (aside b w w) as Hself by (split; try done; lia).
  destruct (usable x) eqn:Hu.
  - unfold hand_on in Hrun. apply lc_aside in Hrun as [Ha Hh Hc Hw Hn Hg Hm]. simpl in *.
    assert (out_of_fds x = false) as -> by (unfold out_of_fds; by rewrite Hu).
    exists (mkWorld (acceptor w) (poller w') (handed w) (closed w) (env w')).
    rewrite app_nil_r. split_and!; [by split|done..].
  - destruct (out_of_fds x); injection Hrun as <-; exists w; rewrite ?app_nil_r; [|done].
    split_and!; [done..|]. simpl. by rewrite <-app_assoc.
Qed.

Lemma mine_set_idle fd a op : mine (set_idle fd a) op <-> mine a op.
Proof using Type. done. Qed.

(** One completion of the request. *)
Lemma complete_serves n w k op x deleted w' :
  0 <= n -> accept_inv (n + (b + 1)) w -> ops_ (poller w) !! k = Some op -> mine (acceptor w) op ->
  OnAcceptComplete x (take_out k w) = Ok (deleted, w') ->
  let w2 := if deleted : bool then w' else put_back k op w' in
  accept_inv n w2 /\ handed w2 = handed w ++ handed_by x /\
  closed w2 = closed w ++ (if out_of_fds x then [idle_fd_ (acceptor w); a_accepted x] else []) /\
  idle_fd_ (acceptor w2) = (if out_of_fds x then a_reopened x else idle_fd_ (acceptor w)).
Proof using Htake Hlc.
  intros Hn [Hwf Hk Hl Hcb (k0 & _ & Hone)] Hop Hmine Hrun. cbv zeta. pose proof lc_bound.
  assert (k0 = k) as -> by (symmetry; by eapply Hone).
  rewrite OnAcceptComplete_settle in Hrun by done. apply result_bind_ok in Hrun as (w1 & Hset & Hrun).
  apply settle_aside in Hset as (v & [Ha _ _ Hw Hnx Hg Hm] & Hp & Hacc & Hh & Hc). simpl in *.
  assert (wf (with_ops (delete k (ops_ (poller w))) (poller w))) as Hwf0.
  { eapply wf_delete_op; [done|done|]. destruct Hmine as (-> & _). done. }
  assert (forall op, mine (acceptor w1) op <-> mine (acceptor w) op) as Hsame
    by (intros; rewrite Hacc; by destruct (out_of_fds x)).
  assert (idle_fd_ (acceptor w1) = if out_of_fds x then a_reopened x else idle_fd_ (acceptor w)) as Hidle
    by (rewrite Hacc; by destruct (out_of_fds x)).
  assert (is_listening_ (acceptor w1) = true /\ NewConnectionCallback_ (acceptor w1) = true) as [Hl1 Hcb1]
    by (rewrite Hacc; by destruct (out_of_fds x)).
  assert (forall k' op', ops_ (poller w1) !! k' = Some op' -> ~ mine (acceptor w1) op') as Hnone.
  { intros k' op' Hk' Hm'%Hsame. rewrite Hp, (Hm k' op' Hm') in Hk'.
    apply lookup_delete_Some in Hk' as [Hne Hk']. by destruct (Hone k' op' Hk' Hm'). }
  assert (wf (poller w1)) as Hwf1 by (rewrite Hp; by apply Hw).
  assert (next_key_ (poller w1) = next_key_ (poller v)) as Hnext by by rewrite Hp.
  destruct (negb _).
  - rewrite Hl1 in Hrun. simplify_eq.
    destruct (SubmitAcceptOnce_one n w1) as (Hi & Hi1 & Hi2 & Hi3); [done|done|lia|done..|].
    rewrite Hi1, Hi2, Hi3. done.
  - simplify_eq. split; [|by rewrite <-Hidle]. unfold put_back. split; simpl; [|lia|done|done|].
    + pose proof (wf_ops _ Hwf k op Hop) as (Hkey & Hlt & Hrest). subst k.
      apply wf_insert_op; [done| |].
      * split; [done|]. split; [lia|done].
      * rewrite Hp. apply Hg; [lia|]. simpl. apply lookup_delete_eq.
    + exists k. split; [exists op; rewrite lookup_insert_eq; split; [done|by apply Hsame]|].
      intros k' op' [[<- _]|[_ Hk']]%lookup_insert_Some Hm'; [done|]. by destruct (Hnone k' op').
Qed.

(** C35. A listening acceptor serves. As long as the submission queue takes its
    requests and keys last, and whatever its registered callback and others do
    to the poller beside it, an acceptor that listens with one accept request in
    the poller has exactly one at any time, through single and through multishot
    completions. The callback is given, in order and once each, exactly the
    descriptors from 0 to 600000 that the kernel answered, with the addresses of
    their peers; larger ones are given to nobody and stay open. Descriptors are
    closed only when the process has run out of them ([EMFILE]): then the reserve
    is given up for the next client, who is turned away, and opened again. *)
Theorem acceptor_serves w0 n N l w :
  0 <= n -> accept_inv (n + N) w0 -> accept_run w0 N l w ->
  accept_inv n w /\
  handed w = handed w0 ++ (l ≫= handed_by) /\
  closed w = closed w0 ++ (turned_away (idle_fd_ (acceptor w0)) l).1 /\
  idle_fd_ (acceptor w) = (turned_away (idle_fd_ (acceptor w0)) l).2.
Proof using Htake Hlc.
  intros Hn Hinv Hrun. pose proof lc_bound as Hb. revert n Hn Hinv.
  induction Hrun as [|N l w k op x deleted w' _ IH Hop Hm Hc|N l w m w' _ IH Hm Ha]; intros n Hn Hinv.
  - rewrite Z.add_0_r in Hinv. simpl. by rewrite !app_nil_r.
  - replace (n + (N + (b + 1))) with (n + (b + 1) + N) in Hinv by lia.
    destruct (IH (n + (b + 1)) ltac:(lia) Hinv) as (Hi & Hh & Hcl & Hid).
    destruct (complete_serves n w k op x deleted w' Hn Hi Hop Hm Hc) as (Hi' & Hh' & Hcl' & Hid').
    split; [done|]. rewrite Hh', Hcl', Hid', Hh, Hcl, Hid, turned_away_snoc, bind_app. simpl.
    rewrite app_nil_r, <-!app_assoc. split; [done|]. by destruct (out_of_fds x); simpl; rewrite ?app_nil_r.
  - replace (n + (N + m)) with (n + m + N) in Hinv by lia.
    destruct (IH (n + m) ltac:(lia) Hinv) as (Hi & Hh & Hcl & Hid).
    split; [by eapply aside_inv|]. destruct Ha as [Ha Hh' Hc' _ _ _ _]. by rewrite Ha, Hh', Hc'.
Qed.
End serving.

(** [Listen] on a new acceptor submits the first request. *)
Lemma Listen_inv n w :
  accepts_taken -> wf (poller w) -> next_key_ (poller w) + (n + 1) <= 2 ^ 64 - 1 -> 0 <= n ->
  NewConnectionCallback_ (acceptor w) = true ->
  (forall k op, ops_ (poller w) !! k = Some op -> ~ mine (acceptor w) op) -> accept_inv n (Listen w).
Proof using Type. intros. by apply SubmitAcceptOnce_one. Qed.
End acceptor.

(** ** Evaluations *)

Module Concrete.

#[local] Existing Instance PollerFacts.Concrete.endless_ring.
#[local] Existing Instance PollerFacts.Concrete.old_headers.
#[local] Instance slots : AcceptorSlots Z unit := {| AcceptContext s := s; FnOnAcceptComplete := tt |}.

Abbreviation W := (World (list sqe) Z unit nat).

(** A callback that counts. *)
#[local] Instance counting : AcceptorCallback W := fun _ _ w =>
  Ok (mkWorld (acceptor w) (poller w) (handed w) (closed w) (S (env w))).

#[local] Instance counting_lawful : LawfulCallback (R := list sqe) (Ctx := Z) (Fn := unit) (E := nat) 0.
Proof. split; [done|]. intros fd addr w w' [= <-]. split; try done. simpl. lia. Qed.

Definition fresh : W :=
  mkWorld (RegisterNewConnectionCallback (mkAcceptor 1 4 false 9 false)) (Poller_new [] None (0, 0)) [] [] 0%nat.
Definition listening : W := Listen fresh.
Definition request : IoUringOp Z unit := mkOp kAccept None (Some 1) 4 (Some tt) 1 true.

(** A client on descriptor 12 with more to come, then the descriptors run out. *)
Definition client : arrival := mkArrival (mkCqe 1 12 IORING_CQE_F_MORE) 0 0 0 0 (replicate 28 Byte.x07).
Definition refused : arrival := mkArrival (mkCqe 1 (-24) 0) 0 13 14 0 [].

Definition or_fresh (r : result (bool * W)) : W := match r with Ok (_, w) => w | Fault _ => fresh end.
Definition one_client : W := put_back 1 request (or_fresh (OnAcceptComplete client (take_out 1 listening))).
Definition after_all : W := or_fresh (OnAcceptComplete refused (take_out 1 one_client)).

Lemma endless_accepts : accepts_taken (R := list sqe) (Ctx := Z) (Fn := unit).
Proof.
  intros fd ctx fn p. unfold SubmitAccept, NormalizeKey, fetch_add_key. simpl.
  destruct (Z.eqb_spec (next_key_ p) 0) as [->|Hne]; done.
Qed.

Lemma acceptor_serves_witness :
  handed after_all = [(12, replicate 28 Byte.x07)] /\ closed after_all = [9; 13] /\
  idle_fd_ (acceptor after_all) = 14 /\ accept_inv 5 after_all.
Proof.
  destruct (acceptor_serves 0 endless_accepts listening 5 2 [client; refused] after_all) as (Hi & Hh & Hc & Hd).
  - lia.
  - apply Listen_inv; [exact endless_accepts|..].
    + apply wf_new.
    + vm_compute. discriminate.
    + lia.
    + reflexivity.
    + intros k op Hop. discriminate Hop.
  - apply (accept_complete 0 listening 1 [client] one_client 1 request refused true after_all).
    + apply (accept_complete 0 listening 0 [] listening 1 request client false
               (or_fresh (OnAcceptComplete client (take_out 1 listening)))).
      * apply accept_start.
      * vm_compute. reflexivity.
      * by repeat split.
      * vm_compute. reflexivity.
    + vm_compute. reflexivity.
    + by repeat split.
    + vm_compute. reflexivity.
  - rewrite Hh, Hc, Hd. split; [vm_compute; reflexivity|]. split; [reflexivity|]. split; [reflexivity|exact Hi].
Defined.

End Concrete.
