(* ===== verification/RpcCodec.v ===== *)
(** * RPC framing

    Model of class [RpcCodec] (src/rpc_codec.h, src/rpc_codec.cc): a frame is a
    big-endian length, a tag, the serialised message and a checksum of tag and
    message. zlib's [adler32] and the two protobuf functions are the class
    [Wire], what the code relies on is [WireOk]. The callbacks are functions on
    the rest of the program's state [E]. *)

From stdpp Require Import prelude list.
From coqutil Require Import Byte Word.LittleEndianList.
From S2P Require Import Prelude.
From S2P Require Import IoBuffer.

Class Wire (Msg : Type) := {
  adler32 : list byte -> Z;
  serialize : Msg -> list byte;
  parse : list byte -> option Msg;
}.

(** What protobuf documents: parsing what was serialised gives the message. *)
Class WireOk (Msg : Type) `{!Wire Msg} : Prop := {
  parse_serialize : forall m : Msg, parse (serialize m) = Some m;
}.

Inductive ErrorCode :=
| kNoError | kInvalidLength | kChecksumError | kInvalidNameLength | kUnknownMessageType | kParseError.

#[export] Instance ErrorCode_eq_dec : EqDecision ErrorCode.
Proof. solve_decision. Defined.

Definition kHeaderLength : Z := 4.
Definition kChecksumLength : Z := 4.
Definition kMaxMessageLength : Z := 64 * 1024 * 1024.

(** [AsyncRawCallback_] may be absent. *)
Class CodecCallbacks (Msg E : Type) := {
  RawCallback_ : option (list byte -> E -> bool * E);
  MessageCallback_ : Msg -> E -> E;
  ErrCallback_ : ErrorCode -> E -> E;
}.

Section codec.
Context {Msg E : Type} `{!HostOrder, !Wire Msg, !CodecCallbacks Msg E}.
(** The tag every message of the codec starts with. *)
Context (tag_ : list byte).

Definition kMinMessageLength : Z := s32 (zlen tag_ + kChecksumLength).

(** ** Writing *)

Definition Checksum (data : list byte) : Z := s32 (adler32 data).

(** protobuf announces as many bytes as it writes, so the check of the source
    that they agree passes. *)
Definition Serialize2Buffer (message : Msg) (b : IoBuffer) : result (Z * IoBuffer) :=
  let byte_size := zlen (serialize message) in
  b ← EnsureWritableSpace (byte_size +u kChecksumLength) b;
  buf ← mem_write (buffer_ b) (GetWritablePosition b) (serialize message);
  Ok (s32 byte_size, RefreshW byte_size (mkIoBuffer buf (reading_index_ b) (writing_index_ b))).

Definition FillEmptyBuffer (message : Msg) (b : IoBuffer) : result IoBuffer :=
  b ← Append tag_ b;
  '(_, b) ← Serialize2Buffer message b;
  data ← mem_read (buffer_ b) (GetReadablePosition b) (u32 (s32 (GetReadableBytes b)));
  b ← AppendInt32 (Checksum data) b;
  let len := s32 (htobe 4 (u32 (s32 (GetReadableBytes b)))) in
  SetHeadContent (store_int 4 len) b.

(** [Send] to a connection hands it the bytes of a fresh buffer. *)
Definition Send (message : Msg) : result (list byte) :=
  b ← FillEmptyBuffer message (IoBuffer_new kInitialCapacity);
  mem_read (buffer_ b) (GetReadablePosition b) (GetReadableBytes b).

(** The loop of [Send] to a descriptor: [answers] are the results of [send]. What
    it wrote, or [None] when the loop is still running after them. *)
Fixpoint send_loop (answers : list Z) (buffer_size : Z) (b : IoBuffer) : option (list byte) :=
  if 0 <? buffer_size then
    match answers with
    | [] => None
    | n :: answers =>
        let '(bytes_sent, b') := WriteToFd n b in
        app (ztake n (readable b)) <$> send_loop answers (buffer_size -u bytes_sent) b'
    end
  else Some [].

(** [Send] to a descriptor; [valid] when [CheckSocketStatusValid] is. *)
Definition Send_sync (valid : bool) (answers : list Z) (message : Msg) : result (option (list byte)) :=
  if negb valid then Ok (Some [])
  else
    b ← FillEmptyBuffer message (IoBuffer_new kInitialCapacity);
    Ok (send_loop answers (GetReadableBytes b) b).

(** ** Reading *)

Definition AsInt32 (bs : list byte) : Z := s32 (betoh 4 (u32 (s32 (load_int bs)))).

(** On the [length] bytes behind the header. *)
Definition ValidateChecksum (data : list byte) : bool :=
  AsInt32 (zslice (zlen data - kChecksumLength) 4 data)
  =? Checksum (ztake (zlen data - kChecksumLength) data).

Definition Parse (data : list byte) : ErrorCode + Msg :=
  if ValidateChecksum data then
    if bool_decide (ztake (zlen tag_) data = tag_) then
      match parse (zslice (zlen tag_) (zlen data - kChecksumLength - zlen tag_) data) with
      | Some m => inr m
      | None => inl kParseError
      end
    else inl kUnknownMessageType
  else inl kChecksumError.

(** The loop of [OnMessage] on a connection. *)
Fixpoint OnMessage_loop (fuel : nat) (b : IoBuffer) (e : E) : result (IoBuffer * E) :=
  match fuel with
  | O => Ok (b, e)
  | S fuel =>
      if u32 (kMinMessageLength + kHeaderLength) <=? GetReadableBytes b then
        len ← GetReadableInt32 b;
        if (kMaxMessageLength <? len) || (len <? kMinMessageLength) then
          Ok (b, ErrCallback_ kInvalidLength e)
        else if u64 (kHeaderLength + len) <=? GetReadableBytes b then
          frame ← mem_read (buffer_ b) (GetReadablePosition b) (kHeaderLength + len);
          let '(go, e) := match RawCallback_ with
                          | Some raw => raw frame e
                          | None => (true, e)
                          end in
          if negb go then OnMessage_loop fuel (Refresh (u64 (kHeaderLength + len)) b) e
          else
            match Parse (zdrop kHeaderLength frame) with
            | inr m =>
                OnMessage_loop fuel (Refresh (u64 (kHeaderLength + len)) b) (MessageCallback_ m e)
            | inl error_code => Ok (b, ErrCallback_ error_code e)
            end
        else Ok (b, e)
      else Ok (b, e)
  end.

(** Every round takes at least one byte off the buffer. *)
Definition OnMessage (b : IoBuffer) (e : E) : result (IoBuffer * E) :=
  OnMessage_loop (S (Z.to_nat (GetReadableBytes b))) b e.

(** The loops that wait for [target] bytes: each [ReadFromFd] takes at least one
    answer of the kernel. [None] when they are used up before. *)
Fixpoint await (fuel : nat) (target : Z) (answers : list recv_answer) (b : IoBuffer)
  : result (option (IoBuffer * list recv_answer)) :=
  match fuel with
  | O => Ok None
  | S fuel =>
      if GetReadableBytes b <? target then
        r ← ReadFromFd_exact answers (target -u GetReadableBytes b) b;
        match r with
        | Reading _ _ _ => Ok None
        | Finished _ b unused => await fuel target unused b
        end
      else Ok (Some (b, answers))
  end.

(** [OnMessage] on a descriptor. It asks whether the raw callback of the other
    mode is set, [async_raw], before it calls its own; calling an empty one
    throws. [Ok None]: still waiting for bytes. *)
Definition OnMessage_sync (valid async_raw : bool) (answers : list recv_answer) (b : IoBuffer) (e : E)
  : result (option (IoBuffer * E)) :=
  if negb valid then Ok (Some (b, e))
  else
    w ← await (S (length answers)) (u64 (kMinMessageLength + kHeaderLength)) answers b;
    match w with
    | None => Ok None
    | Some (b, answers) =>
        len ← GetReadableInt32 b;
        if (kMaxMessageLength <? len) || (len <? kMinMessageLength) then
          Ok (Some (b, ErrCallback_ kInvalidLength e))
        else
          w ← await (S (length answers)) (u64 (kHeaderLength + len)) answers b;
          match w with
          | None => Ok None
          | Some (b, _) =>
              frame ← mem_read (buffer_ b) (GetReadablePosition b) (kHeaderLength + len);
              '(go, e) ← (if async_raw then
                            match RawCallback_ with
                            | Some raw => Ok (raw frame e)
                            | None => Fault NullPointer
                            end
                          else Ok (true, e));
              if negb (go : bool) then Ok (Some (Refresh (u64 (kHeaderLength + len)) b, e))
              else
                match Parse (zdrop kHeaderLength frame) with
                | inr m => Ok (Some (Refresh (u64 (kHeaderLength + len)) b, MessageCallback_ m e))
                | inl error_code => Ok (Some (b, ErrCallback_ error_code e))
                end
          end
    end.

(** ** Frames as bytes *)

Definition body (message : Msg) : list byte := tag_ ++ serialize message.

Definition frame_len (message : Msg) : Z := zlen (body message) + kChecksumLength.

Definition frame (message : Msg) : list byte :=
  be_bytes 4 (frame_len message) ++ body message ++ be_bytes 4 (adler32 (body message)).

(** A message the receiver accepts. *)
Definition fits (message : Msg) : Prop := frame_len message <= kMaxMessageLength.

(** The decoder on the bytes that are there: what is left, and the state. *)
Definition decode_step (next : list byte -> E -> list byte * E) (bs : list byte) (e : E)
  : list byte * E :=
  if zlen bs <? zlen tag_ + kChecksumLength + kHeaderLength then (bs, e)
  else
    let len := s32 (be_value (ztake 4 bs)) in
    if (kMaxMessageLength <? len) || (len <? zlen tag_ + kChecksumLength) then
      (bs, ErrCallback_ kInvalidLength e)
    else if zlen bs <? kHeaderLength + len then (bs, e)
    else
      let '(go, e) := match RawCallback_ with
                      | Some raw => raw (ztake (kHeaderLength + len) bs) e
                      | None => (true, e)
                      end in
      if negb go then next (zdrop (kHeaderLength + len) bs) e
      else match Parse (zslice kHeaderLength len bs) with
           | inr m => next (zdrop (kHeaderLength + len) bs) (MessageCallback_ m e)
           | inl error_code => (bs, ErrCallback_ error_code e)
           end.

Fixpoint decode (fuel : nat) (bs : list byte) (e : E) : list byte * E :=
  match fuel with
  | O => (bs, e)
  | S fuel => decode_step (decode fuel) bs e
  end.

(** ** Facts *)

Context (tag_small : zlen tag_ < 1024).

Lemma kMin_eq : kMinMessageLength = zlen tag_ + 4.
Proof using tag_small.
  unfold kMinMessageLength, kChecksumLength, s32. pose proof (zlen_nonneg tag_).
  rewrite sext_small; lia.
Qed.

Lemma be_value_range (bs : list byte) :
  0 <= be_value bs < 2 ^ (8 * Z.of_nat (length bs)).
Proof. unfold be_value. pose proof (le_combine_bound (rev bs)) as Hb. by rewrite length_rev in Hb. Qed.

(** The loop on a buffer is the decoder on its readable bytes. *)
Lemma OnMessage_loop_decode fuel b e :
  wf b -> exists b', OnMessage_loop fuel b e = Ok (b', (decode fuel (readable b) e).2) /\ wf b' /\
    readable b' = (decode fuel (readable b) e).1.
Proof using tag_small.
  revert b e. induction fuel as [|fuel IH]; intros b e Hwf; [by exists b|].
  pose proof (zlen_nonneg tag_) as Htag. cbn [OnMessage_loop decode].
  unfold decode_step.
  rewrite (readable_bytes_zlen b Hwf), kMin_eq. unfold u32, kHeaderLength, kChecksumLength.
  rewrite (Z.mod_small (zlen tag_ + 4 + 4)) by lia.
  destruct (Z.leb_spec (zlen tag_ + 4 + 4) (zlen (readable b))) as [Hmin|Hmin];
    [rewrite (proj2 (Z.ltb_ge _ (zlen tag_ + 4 + 4))) by lia|
     rewrite (proj2 (Z.ltb_lt _ (zlen tag_ + 4 + 4))) by lia; by exists b].
  rewrite GetReadableInt32_ok by (done || lia). cbn [mbind result_bind].
  set (len := s32 (be_value (ztake 4 (readable b)))).
  destruct ((kMaxMessageLength <? len) || (len <? zlen tag_ + 4)) eqn:Elen; [by exists b|].
  apply orb_false_iff in Elen as [Hmax%Z.ltb_ge Hlen%Z.ltb_ge]. unfold kMaxMessageLength in Hmax.
  rewrite (u64_small (4 + len)) by lia.
  destruct (Z.leb_spec (4 + len) (zlen (readable b))) as [Hfull|Hpart];
    [rewrite (proj2 (Z.ltb_ge (zlen (readable b)) _)) by lia|
     rewrite (proj2 (Z.ltb_lt (zlen (readable b)) _)) by lia; by exists b].
  unfold GetReadablePosition. rewrite readable_read by (done || lia). cbn [mbind result_bind].
  destruct (Refresh_spec b (4 + len) Hwf ltac:(lia)) as (Hwf' & Hr' & _).
  assert (zdrop 4 (ztake (4 + len) (readable b)) = zslice 4 len (readable b)) as Hslice.
  { unfold zslice, zdrop, ztake. rewrite skipn_firstn_comm. f_equal. lia. }
  rewrite Hslice.
  destruct (match RawCallback_ with Some raw => _ | None => _ end) as [go e1].
  destruct go; cbn [negb].
  - destruct (Parse (zslice 4 len (readable b))) as [code|m]; [by exists b|].
    rewrite <-Hr'. by apply IH.
  - rewrite <-Hr'. by apply IH.
Qed.

(** A step looks at the rest of the stream only. *)
Lemma decode_step_ext next next' bs e :
  (forall bs' e', zlen bs' < zlen bs -> next bs' e' = next' bs' e') ->
  decode_step next bs e = decode_step next' bs e.
Proof using tag_small.
  intros Hext. pose proof (zlen_nonneg tag_) as Htag. unfold decode_step.
  unfold kHeaderLength, kChecksumLength in *.
  destruct (Z.ltb_spec (zlen bs) (zlen tag_ + 4 + 4)); [done|]. cbv zeta.
  set (len := s32 (be_value (ztake 4 bs))).
  destruct (kMaxMessageLength <? len); [done|].
  destruct (Z.ltb_spec len (zlen tag_ + 4)); [done|]. cbn [orb].
  destruct (Z.ltb_spec (zlen bs) (4 + len)); [done|].
  destruct (match RawCallback_ with Some raw => _ | None => _ end) as [go e1].
  destruct go; cbn [negb]; [destruct (Parse _); [done|]|];
    (apply Hext; rewrite zlen_zdrop; lia).
Qed.

(** More fuel than bytes changes nothing. *)
Lemma decode_fuel fuel : forall bs e, zlen bs < Z.of_nat fuel ->
  decode (S fuel) bs e = decode fuel bs e.
Proof using tag_small.
  induction fuel as [|fuel IH]; intros bs e Hlen; [pose proof (zlen_nonneg bs); lia|].
  change (decode_step (decode (S fuel)) bs e = decode_step (decode fuel) bs e).
  apply decode_step_ext. intros bs' e' Hlt. apply IH. lia.
Qed.

Lemma decode_enough fuel fuel' bs e :
  zlen bs < Z.of_nat fuel -> (fuel <= fuel')%nat -> decode fuel' bs e = decode fuel bs e.
Proof using tag_small.
  intros Hlen. induction 1 as [|fuel' Hle IH]; [done|]. rewrite decode_fuel by lia. done.
Qed.

(** *** Writing a frame *)

Lemma Serialize2Buffer_ok m b :
  wf b -> reading_index_ b = kReservedCapacity ->
  writing_index_ b + zlen (serialize m) + 4 <= vector_max_size ->
  exists b', Serialize2Buffer m b = Ok (s32 (zlen (serialize m)), b') /\ wf b' /\
    readable b' = readable b ++ serialize m /\ reading_index_ b' = kReservedCapacity /\
    writing_index_ b' = writing_index_ b + zlen (serialize m).
Proof.
  intros Hwf Hr Hmax. pose proof (zlen_nonneg (serialize m)) as Hm. wf_facts.
  unfold vector_max_size, kReservedCapacity in *.
  unfold Serialize2Buffer, kChecksumLength. rewrite (u64_small (zlen (serialize m) + 4)) by lia.
  destruct (EnsureWritableSpace_ok b (zlen (serialize m) + 4)) as (b1 & -> & Hwf1 & Hr1 & Hi1 & Hj1 & Hsp);
    [done|lia|by apply compacts_fresh|unfold vector_max_size; lia|].
  cbn [mbind result_bind]. unfold GetWritablePosition. rewrite GetWritableBytes_eq in Hsp by done.
  pose proof (wf_reading _ Hwf1); pose proof (wf_writing _ Hwf1); pose proof (wf_size _ Hwf1).
  unfold kReservedCapacity in *.
  rewrite mem_write_ok by lia. cbn [mbind result_bind].
  eexists. split; [done|].
  set (buf := ztake _ _ ++ _). assert (zlen buf = zlen (buffer_ b1)) as Hbuf by (apply zlen_written; lia).
  set (b2 := mkIoBuffer buf (reading_index_ b1) (writing_index_ b1)).
  assert (wf b2) as Hwf2 by (split; simpl; unfold kReservedCapacity; lia).
  assert (0 <= zlen (serialize m) <= GetWritableBytes b2) as Hsp2
    by (rewrite GetWritableBytes_eq by done; simpl; lia).
  split_and!.
  - by apply RefreshW_wf.
  - rewrite RefreshW_readable by done. f_equal.
    + rewrite <-Hr1. unfold readable, b2; simpl. apply zslice_before_written; lia.
    + simpl. apply zslice_written; lia.
  - simpl. lia.
  - rewrite RefreshW_index by done. simpl. lia.
Qed.

(** A fresh buffer is filled with the frame of the message. *)
Lemma FillEmptyBuffer_frame m :
  frame_len m < 2 ^ 31 ->
  exists b, FillEmptyBuffer m (IoBuffer_new kInitialCapacity) = Ok b /\ wf b /\
    readable b = frame m.
Proof using tag_small.
  intros Hlen. pose proof (zlen_nonneg tag_). pose proof (zlen_nonneg (serialize m)).
  unfold frame_len, body, kChecksumLength in Hlen. rewrite zlen_app in Hlen.
  unfold FillEmptyBuffer.
  pose proof (IoBuffer_new_wf kInitialCapacity ltac:(done)) as Hwf0.
  destruct (Append_fresh (IoBuffer_new kInitialCapacity) tag_) as (b1 & -> & Hwf1 & Hr1 & Hi1 & Hj1);
    [done|done|unfold vector_max_size; simpl; unfold kReservedCapacity; lia|].
  cbn [mbind result_bind]. simpl in Hj1. unfold kReservedCapacity in Hj1.
  destruct (Serialize2Buffer_ok m b1) as (b2 & -> & Hwf2 & Hr2 & Hi2 & Hj2);
    [done|done|unfold vector_max_size; lia|]. cbn [mbind result_bind].
  rewrite Hr1, IoBuffer_new_readable in Hr2. simpl in Hr2.
  assert (zlen (readable b2) = zlen tag_ + zlen (serialize m)) as Hl2
    by (by rewrite Hr2, zlen_app).
  rewrite readable_bytes_zlen by done.
  assert (u32 (s32 (zlen (readable b2))) = zlen (readable b2)) as ->
    by (unfold u32, s32; rewrite sext_small, Z.mod_small by lia; done).
  rewrite readable_read by (done || lia). rewrite ztake_all by lia. cbn [mbind result_bind].
  rewrite (proj1 (proj2 (proj2 (AppendInt_bytes _)))).
  destruct (Append_fresh b2 (be_bytes 4 (Checksum (readable b2)))) as (b3 & -> & Hwf3 & Hr3 & Hi3 & Hj3);
    [done|done|rewrite zlen_be_bytes; unfold vector_max_size; lia|]. cbn [mbind result_bind].
  assert (zlen (readable b3) = zlen tag_ + zlen (serialize m) + 4) as Hl3
    by (rewrite Hr3, zlen_app, zlen_be_bytes; lia).
  rewrite readable_bytes_zlen by done.
  replace (store_int 4 _) with (be_bytes 4 (zlen (readable b3))); swap 1 2.
  { unfold u32. rewrite (store_signed_htobe 4). unfold s32. by rewrite sext_small by lia. }
  destruct (SetHeadContent_ok b3 (be_bytes 4 (zlen (readable b3)))) as (b4 & -> & Hwf4 & Hr4 & _);
    [done|rewrite zlen_be_bytes, Hi3; unfold kReservedCapacity; lia|].
  exists b4. split_and!; [done..|]. rewrite Hr4, Hl3, Hr3, Hr2. unfold frame, frame_len, body.
  f_equal; [|f_equal].
  - f_equal. rewrite zlen_app. unfold kChecksumLength. lia.
  - unfold Checksum, s32. rewrite <-(be_bytes_mod 4 (sext _ _)).
    change (Z.of_nat 4 * 8) with 32. rewrite mod_sext. apply (be_bytes_mod 4).
Qed.

(** *** Reading a frame *)

Lemma zlen_frame m : zlen (frame m) = kHeaderLength + frame_len m.
Proof. unfold frame, frame_len, kHeaderLength, kChecksumLength. rewrite !zlen_app, !zlen_be_bytes. lia. Qed.

Lemma frame_len_range m : zlen tag_ + kChecksumLength <= frame_len m.
Proof. unfold frame_len, body. rewrite zlen_app. pose proof (zlen_nonneg (serialize m)). lia. Qed.

Lemma AsInt32_be bs : zlen bs = 4 -> AsInt32 bs = s32 (be_value bs).
Proof. intros Hl. apply (load_signed_betoh 4). unfold zlen in Hl. lia. Qed.

(** The payload of a frame parses back. *)
Lemma Parse_frame `{!WireOk Msg} m :
  Parse (body m ++ be_bytes 4 (adler32 (body m))) = inr m.
Proof.
  pose proof (zlen_nonneg (serialize m)) as Hm. unfold Parse, ValidateChecksum.
  rewrite zlen_app, zlen_be_bytes. unfold kChecksumLength.
  replace (zlen (body m) + Z.of_nat 4 - 4) with (zlen (body m)) by lia.
  rewrite ztake_app_exact. unfold zslice at 1. rewrite zdrop_app_exact.
  rewrite ztake_all by (rewrite zlen_be_bytes; lia).
  rewrite AsInt32_be by apply zlen_be_bytes.
  unfold s32, Checksum, s32 at 1. rewrite (signed_be_roundtrip 4), Z.eqb_refl.
  rewrite (ztake_app_l _ (body m)) by (unfold body; rewrite zlen_app; lia).
  rewrite bool_decide_true by apply ztake_app_exact.
  unfold zslice, body. rewrite <-app_assoc, zdrop_app_exact, zlen_app.
  replace (zlen tag_ + zlen (serialize m) - zlen tag_) with (zlen (serialize m)) by lia.
  by rewrite ztake_app_exact, parse_serialize.
Qed.

Lemma frame_head m rest : ztake 4 (frame m ++ rest) = be_bytes 4 (frame_len m).
Proof.
  unfold frame. rewrite <-!app_assoc. change 4 with (Z.of_nat 4) at 1.
  rewrite <-(zlen_be_bytes 4 (frame_len m)) at 1. apply ztake_app_exact.
Qed.

Lemma frame_head_value m rest :
  frame_len m < 2 ^ 31 -> s32 (be_value (ztake 4 (frame m ++ rest))) = frame_len m.
Proof.
  intros Hlen. rewrite frame_head. unfold s32. rewrite (signed_be_roundtrip 4), sext_small; [done|lia|].
  pose proof (frame_len_range m). pose proof (zlen_nonneg tag_). unfold kChecksumLength in *. lia.
Qed.

(** A complete frame in front of the stream is delivered. *)
Lemma decode_frame `{!WireOk Msg} next m rest e :
  fits m -> RawCallback_ = None ->
  decode_step next (frame m ++ rest) e = next rest (MessageCallback_ m e).
Proof using tag_small.
  intros Hfits Hraw. pose proof (frame_len_range m) as Hge. pose proof (zlen_nonneg rest).
  unfold fits, kMaxMessageLength in Hfits. unfold decode_step.
  rewrite frame_head_value by lia. rewrite zlen_app, zlen_frame, Hraw.
  unfold kMaxMessageLength, kHeaderLength, kChecksumLength in *.
  rewrite (proj2 (Z.ltb_ge (_ + _) _)) by lia. cbv zeta.
  rewrite (proj2 (Z.ltb_ge (64 * 1024 * 1024) _)), (proj2 (Z.ltb_ge (frame_len m) _)) by lia.
  cbn [orb]. rewrite (proj2 (Z.ltb_ge (_ + _) _)) by lia. cbn [negb].
  replace (4 + frame_len m) with (zlen (frame m)) by apply zlen_frame. rewrite zdrop_app_exact.
  replace (zslice 4 (frame_len m) (frame m ++ rest)) with (body m ++ be_bytes 4 (adler32 (body m))).
  - by rewrite Parse_frame.
  - unfold frame, zslice. rewrite <-app_assoc.
    rewrite <-(zlen_be_bytes 4 (frame_len m) : _ = 4), zdrop_app_exact.
    symmetry. replace (frame_len m) with (zlen (body m ++ be_bytes 4 (adler32 (body m))))
      by (rewrite zlen_app, zlen_be_bytes; done). apply ztake_app_exact.
Qed.

(** An incomplete frame stays in the buffer. *)
Lemma decode_partial next m rest more e :
  fits m -> frame m = rest ++ more -> more <> [] -> decode_step next rest e = (rest, e).
Proof using tag_small.
  intros Hfits Heq Hmore. assert (0 < zlen more) as Hpos.
  { destruct (Z.le_gt_cases (zlen more) 0) as [Hz|]; [by apply zlen_nonpos in Hz|lia]. }
  pose proof (f_equal zlen Heq) as Hz. rewrite zlen_frame, zlen_app in Hz.
  pose proof (frame_len_range m) as Hge. unfold fits, kMaxMessageLength in Hfits.
  unfold decode_step, kHeaderLength, kChecksumLength in *.
  destruct (Z.ltb_spec (zlen rest) (zlen tag_ + 4 + 4)); [done|]. pose proof (zlen_nonneg tag_).
  assert (s32 (be_value (ztake 4 rest)) = frame_len m) as ->.
  { rewrite <-(ztake_app_l 4 rest more) by lia. rewrite <-Heq, <-(app_nil_r (frame m)).
    apply frame_head_value. lia. }
  cbv zeta. rewrite (proj2 (Z.ltb_ge kMaxMessageLength _)) by (unfold kMaxMessageLength; lia).
  rewrite (proj2 (Z.ltb_ge (frame_len m) _)) by lia. cbn [orb].
  by rewrite (proj2 (Z.ltb_lt _ (4 + frame_len m))) by lia.
Qed.

Lemma frames_cons m ms : mjoin (frame <$> (m :: ms)) = frame m ++ mjoin (frame <$> ms).
Proof. done. Qed.

Lemma decode_frames `{!WireOk Msg} ms m rest more e fuel :
  Forall fits ms -> fits m -> RawCallback_ = None -> frame m = rest ++ more -> more <> [] ->
  (length ms < fuel)%nat ->
  decode fuel (mjoin (frame <$> ms) ++ rest) e = (rest, foldl (fun e m => MessageCallback_ m e) e ms).
Proof using tag_small.
  intros Hms Hm Hraw Heq Hmore. revert fuel e.
  induction Hms as [|m0 ms Hfit Hms IH]; intros [|fuel] e Hfuel; simpl in Hfuel; try lia; cbn [decode].
  - by eapply decode_partial.
  - rewrite frames_cons, <-app_assoc, decode_frame by done. apply IH. lia.
Qed.

Lemma frames_length ms rest : Z.of_nat (length ms) <= zlen (mjoin (frame <$> ms) ++ rest).
Proof.
  induction ms as [|m ms IH]; [cbn; apply zlen_nonneg|].
  rewrite frames_cons, <-app_assoc, zlen_app, zlen_frame, length_cons.
  pose proof (frame_len_range m). pose proof (zlen_nonneg tag_).
  unfold kHeaderLength, kChecksumLength in *. lia.
Qed.

Lemma Send_frame m : fits m -> Send m = Ok (frame m).
Proof using tag_small.
  intros Hm. unfold fits, kMaxMessageLength in Hm.
  destruct (FillEmptyBuffer_frame m) as (b & Hfill & Hwf & Hr); [lia|].
  unfold Send. rewrite Hfill. cbn [mbind result_bind]. rewrite <-Hr. by apply readable_read_all.
Qed.

Lemma OnMessage_complete `{!WireOk Msg} ms m b rest more e :
  Forall fits ms -> fits m -> RawCallback_ = None -> frame m = rest ++ more -> more <> [] ->
  wf b -> readable b = mjoin (frame <$> ms) ++ rest ->
  exists b', OnMessage b e = Ok (b', foldl (fun e m => MessageCallback_ m e) e ms) /\ wf b' /\
    readable b' = rest.
Proof using tag_small.
  intros Hms Hm Hraw Heq Hmore Hwf Hb.
  unfold OnMessage. destruct (OnMessage_loop_decode (S (Z.to_nat (GetReadableBytes b))) b e Hwf)
    as (b' & -> & Hwf' & Hr').
  pose proof (frames_length ms rest) as Hfl.
  rewrite readable_bytes_zlen, Hb in Hr' |- * by done.
  rewrite (decode_frames ms m rest more) in Hr' |- * by (done || lia). eauto.
Qed.

(** ** Properties *)

(** C8. The RPC frame round trip: [Send] hands the connection the frame of the
    message, and a receiver whose buffer holds any number of frames, followed by
    a part of one more, hands the message callback exactly the messages of the
    complete frames, in order and once each, and keeps the part for the bytes
    still to come. *)
Theorem rpc_stream_roundtrip `{!WireOk Msg} ms m b rest more e :
  Forall fits ms -> fits m -> RawCallback_ = None -> frame m = rest ++ more -> more <> [] ->
  wf b -> readable b = mjoin (frame <$> ms) ++ rest ->
  Forall (fun m => Send m = Ok (frame m)) ms /\
  exists b', OnMessage b e = Ok (b', foldl (fun e m => MessageCallback_ m e) e ms) /\ wf b' /\
    readable b' = rest.
Proof using tag_small.
  intros Hms Hm Hraw Heq Hmore Hwf Hb. split.
  - eapply Forall_impl; [exact Hms|]. apply Send_frame.
  - by eapply OnMessage_complete.
Qed.

(** The decoder's verdict on a stream that starts with a bad frame. *)
Definition rejected (bs : list byte) (code : ErrorCode) : Prop :=
  zlen tag_ + kChecksumLength + kHeaderLength <= zlen bs /\
  let len := s32 (be_value (ztake 4 bs)) in
  ((kMaxMessageLength < len \/ len < zlen tag_ + kChecksumLength) /\ code = kInvalidLength) \/
  (zlen tag_ + kChecksumLength <= len <= kMaxMessageLength /\ kHeaderLength + len <= zlen bs /\
   Parse (zslice kHeaderLength len bs) = inl code).

Lemma rejected_app bs more code : rejected bs code -> rejected (bs ++ more) code.
Proof.
  intros [Hlen Hcase]. pose proof (zlen_nonneg more). pose proof (zlen_nonneg tag_).
  unfold kHeaderLength, kChecksumLength in *.
  split; [rewrite zlen_app; unfold kHeaderLength, kChecksumLength; lia|].
  rewrite ztake_app_l by lia. cbv zeta in *. destruct Hcase as [Hbad|(Hrange & Hfull & Hparse)]; [by left|].
  right. unfold kHeaderLength, kChecksumLength in *. split_and!; [lia|lia|rewrite zlen_app; lia|].
  unfold zslice in *. rewrite zdrop_app_l, ztake_app_l by (rewrite ?zlen_zdrop; lia). done.
Qed.

(** The outcome for a rejected frame, on each branch. *)
Lemma rejected_frame b e code :
  wf b -> RawCallback_ = None -> rejected (readable b) code ->
  OnMessage b e = Ok (b, ErrCallback_ code e).
Proof using tag_small.
  intros Hwf Hraw [Hlen Hcase]. unfold OnMessage. pose proof (zlen_nonneg tag_).
  cbn [OnMessage_loop]. rewrite (readable_bytes_zlen b Hwf), kMin_eq.
  unfold u32, kHeaderLength, kChecksumLength in *. rewrite (Z.mod_small (_ + 4 + 4)) by lia.
  rewrite (proj2 (Z.leb_le _ _)) by lia. rewrite GetReadableInt32_ok by (done || lia).
  cbn [mbind result_bind]. set (len := s32 _) in *. cbv zeta in Hcase.
  destruct Hcase as [[[Hbig|Hsmall] ->]|([Hmin Hmax] & Hfull & Hcode)].
  - by rewrite (proj2 (Z.ltb_lt _ _) Hbig).
  - by rewrite (proj2 (Z.ltb_lt _ _) Hsmall), orb_true_r.
  - rewrite (proj2 (Z.ltb_ge kMaxMessageLength _)), (proj2 (Z.ltb_ge len _)) by lia. cbn [orb].
    unfold kMaxMessageLength in *.
    rewrite u64_small by lia. rewrite (proj2 (Z.leb_le (4 + len) _)) by lia.
    unfold GetReadablePosition. rewrite readable_read by (done || lia). cbn [mbind result_bind].
    rewrite Hraw. cbn [negb].
    replace (zdrop 4 _) with (zslice 4 len (readable b)); [by rewrite Hcode|].
    unfold zslice, zdrop, ztake. rewrite skipn_firstn_comm. f_equal. lia.
Qed.

(** A frame the decoder rejects (a length outside of the limits, a wrong
    checksum or tag, an unparsable payload) is never skipped: whatever bytes
    arrive behind it, each call reports the same error once more, delivers
    nothing and leaves the buffer as it is. *)
Theorem rejected_frame_is_final b e bs code more :
  wf b -> RawCallback_ = None -> rejected bs code -> readable b = bs ++ more ->
  OnMessage b e = Ok (b, ErrCallback_ code e).
Proof using tag_small.
  intros Hwf Hraw Hrej Hb. apply rejected_frame; [done|done|]. rewrite Hb. by apply rejected_app.
Qed.

(** The writer does not enforce the reader's limit: a message whose frame is
    longer than 64 MiB is sent, and the receiver rejects it with
    [kInvalidLength]. *)
Theorem oversize_message_sent m b e :
  kMaxMessageLength < frame_len m < 2 ^ 31 -> wf b -> readable b = frame m ->
  RawCallback_ = None ->
  Send m = Ok (frame m) /\ OnMessage b e = Ok (b, ErrCallback_ kInvalidLength e).
Proof using tag_small.
  intros Hlen Hwf Hb Hraw. split.
  - destruct (FillEmptyBuffer_frame m) as (bx & Hfill & Hwfx & Hrx); [lia|].
    unfold Send. rewrite Hfill. cbn [mbind result_bind]. rewrite <-Hrx. by apply readable_read_all.
  - pose proof (frame_len_range m). pose proof (frame_head_value m [] ltac:(lia)) as Hv.
    rewrite app_nil_r in Hv.
    apply rejected_frame; [done|done|]. rewrite Hb. split; [rewrite zlen_frame; lia|].
    rewrite Hv. left. split; [lia|done].
Qed.

(** Nothing to wait for. *)
Lemma await_there fuel target answers b :
  target <= GetReadableBytes b -> await (S fuel) target answers b = Ok (Some (b, answers)).
Proof. intros Hb. cbn [await]. by rewrite (proj2 (Z.ltb_ge _ _)). Qed.

(** The blocking receiver takes one frame: with the frame of a message in the
    buffer it hands over the message and leaves what follows. The raw callback
    of a codec built for this mode is not consulted (the code asks for the
    callback of the other mode), so it cannot veto the message. *)
Theorem sync_takes_one_frame `{!WireOk Msg} m b rest answers e :
  fits m -> wf b -> readable b = frame m ++ rest ->
  exists b', OnMessage_sync true false answers b e = Ok (Some (b', MessageCallback_ m e)) /\
    wf b' /\ readable b' = rest.
Proof using tag_small.
  intros Hfits Hwf Hb. pose proof (frame_len_range m) as Hge. pose proof (zlen_nonneg rest).
  pose proof (zlen_nonneg tag_). unfold fits, kMaxMessageLength in Hfits.
  assert (zlen (readable b) = 4 + frame_len m + zlen rest) as Hz
    by (rewrite Hb, zlen_app, zlen_frame; done).
  unfold OnMessage_sync, kHeaderLength, kChecksumLength in *. cbn [negb].
  rewrite kMin_eq, (u64_small (zlen tag_ + 4 + 4)) by lia.
  rewrite await_there by (rewrite readable_bytes_zlen by done; lia). cbn [mbind result_bind].
  rewrite GetReadableInt32_ok by (done || lia). cbn [mbind result_bind].
  rewrite Hb, frame_head_value by lia.
  rewrite (proj2 (Z.ltb_ge kMaxMessageLength _)) by (unfold kMaxMessageLength; lia).
  rewrite (proj2 (Z.ltb_ge (frame_len m) _)) by lia. cbn [orb].
  rewrite (u64_small (4 + frame_len m)) by lia.
  rewrite await_there by (rewrite readable_bytes_zlen by done; lia). cbn [mbind result_bind].
  unfold GetReadablePosition. rewrite readable_read by (done || lia). cbn [mbind result_bind negb].
  replace (4 + frame_len m) with (zlen (frame m)) by apply zlen_frame.
  rewrite Hb, ztake_app_exact. unfold frame at 1.
  rewrite <-(zlen_be_bytes 4 (frame_len m) : _ = 4), zdrop_app_exact, Parse_frame.
  destruct (Refresh_spec b (zlen (frame m)) Hwf (zlen_nonneg _)) as (Hwf' & Hr' & _).
  eexists. split_and!; [done|done|]. by rewrite Hr', Hb, zdrop_app_exact.
Qed.

(** *** Writing to a descriptor *)

Fixpoint total (ns : list Z) : Z := match ns with [] => 0 | n :: ns => n + total ns end.

(** However many bytes each [send] takes, all of them are written. *)
Lemma send_loop_all ns b :
  wf b -> Forall (fun n => 0 < n) ns -> total ns = zlen (readable b) ->
  send_loop ns (zlen (readable b)) b = Some (readable b).
Proof using.
  intros Hwf Hpos. revert b Hwf. induction Hpos as [|n ns Hn Hpos IH]; intros b Hwf Ht; simpl in Ht.
  - rewrite <-Ht. simpl. f_equal. symmetry. apply nil_length_inv. unfold zlen in Ht. lia.
  - assert (0 <= total ns) by (clear -Hpos; induction Hpos; simpl; lia).
    cbn [send_loop]. rewrite (proj2 (Z.ltb_lt _ _)) by lia. unfold WriteToFd.
    rewrite (proj2 (Z.ltb_lt _ _)) by lia.
    destruct (Refresh_spec b n Hwf ltac:(lia)) as (Hwf' & Hr' & _).
    assert (zlen (readable (Refresh n b)) = total ns) as Hl by (rewrite Hr', zlen_zdrop; lia).
    pose proof (zlen_readable b Hwf). wf_facts. unfold vector_max_size in *.
    rewrite u64_small by lia. replace (zlen (readable b) - n) with (zlen (readable (Refresh n b))) by lia.
    rewrite IH by done. simpl. by rewrite Hr', ztake_zdrop.
Qed.

(** What [send] can answer: an error, or at most what was offered. *)
Fixpoint kernel_sends (ns : list Z) (b : IoBuffer) : Prop :=
  match ns with
  | [] => True
  | n :: ns => -1 <= n <= zlen (readable b) /\ kernel_sends ns (WriteToFd n b).2
  end.

Lemma send_loop_behind ns k b :
  wf b -> kernel_sends ns b -> 0 < k -> k + zlen ns < 2 ^ 62 ->
  send_loop ns (zlen (readable b) + k) b = None.
Proof using.
  revert k b. induction ns as [|n ns IH]; intros k b Hwf Hs Hk Hb; cbn [send_loop];
    pose proof (zlen_nonneg (readable b)); (rewrite (proj2 (Z.ltb_lt _ _)) by lia); [done|].
  destruct Hs as [Hn Hs]. rewrite zlen_cons in Hb. pose proof (zlen_nonneg ns).
  pose proof (zlen_readable b Hwf). wf_facts. unfold vector_max_size in *.
  unfold WriteToFd in *. destruct (Z.ltb_spec 0 n) as [Hpos|Hneg]; simpl in Hs.
  - destruct (Refresh_spec b n Hwf ltac:(lia)) as (Hwf' & Hr' & _).
    assert (zlen (readable (Refresh n b)) = zlen (readable b) - n) as Hl by (rewrite Hr', zlen_zdrop; lia).
    rewrite u64_small by lia.
    replace (zlen (readable b) + k - n) with (zlen (readable (Refresh n b)) + k) by lia.
    rewrite IH by (done || lia). done.
  - rewrite u64_small by lia. replace (zlen (readable b) + k - n) with (zlen (readable b) + (k - n)) by lia.
    rewrite IH by (done || lia). done.
Qed.

(** One failed [send] and the blocking [Send] never returns: the failure is
    counted as minus one byte, so that when everything is written the loop still
    waits for a byte that does not exist. *)
Theorem send_error_spins ns b :
  wf b -> 0 < zlen (readable b) -> kernel_sends ns b -> zlen ns < 2 ^ 61 ->
  send_loop (-1 :: ns) (GetReadableBytes b) b = None.
Proof using.
  intros Hwf Hne Hs Hl. rewrite readable_bytes_zlen by done. cbn [send_loop].
  rewrite (proj2 (Z.ltb_lt _ _)) by lia. simpl.
  pose proof (zlen_readable b Hwf). wf_facts. unfold vector_max_size in *.
  rewrite u64_small by lia. replace (zlen (readable b) - -1) with (zlen (readable b) + 1) by lia.
  rewrite send_loop_behind by (done || lia). done.
Qed.

(** *** Reading from a descriptor *)

Lemma ReadFromFd_loop_reading answers len res b r b' unused :
  ReadFromFd_loop answers len res b = Ok (Finished r b' unused) -> reading_index_ b' = reading_index_ b.
Proof using.
  revert len res b. induction answers as [|a answers IH]; intros len res b; cbn [ReadFromFd_loop];
    (destruct (0 <? len); [|by intros [= _ -> _]]); [done|].
  destruct a as [errno|data]; cbn [mbind result_bind]; [by intros ->%IH|].
  destruct (mem_write _ _ _) as [buf|]; cbn [mbind result_bind]; [by intros ->%IH|done].
Qed.

Lemma await_step fuel target answers b :
  GetReadableBytes b < target ->
  await (S fuel) target answers b
  = (r ← ReadFromFd_exact answers (target -u GetReadableBytes b) b;
     match r with Reading _ _ _ => Ok None | Finished _ b unused => await fuel target unused b end).
Proof using. intros Hb. cbn [await]. by rewrite (proj2 (Z.ltb_lt _ _)). Qed.

(** Chunks up to the bytes waited for. *)
Lemma await_chunks chunks rest fuel target b :
  wf b -> reading_index_ b = kReservedCapacity -> Forall (fun c => 0 < zlen c) chunks ->
  zlen (readable b) + zlen (concat chunks) = target -> target <= 2 ^ 31 -> (length chunks <= fuel)%nat ->
  exists b', await (S fuel) target (map RecvBytes chunks ++ rest) b = Ok (Some (b', rest)) /\ wf b' /\
    reading_index_ b' = kReservedCapacity /\ readable b' = readable b ++ concat chunks.
Proof using.
  intros Hwf Hr Hc Ht Hmax Hfuel. pose proof (zlen_nonneg (readable b)).
  destruct chunks as [|c chunks].
  { cbn [concat map app] in *. rewrite zlen_nil in Ht. exists b. rewrite app_nil_r.
    rewrite await_there by (rewrite readable_bytes_zlen by done; lia). done. }
  assert (0 < zlen (concat (c :: chunks))) as Hpos.
  { apply Forall_cons in Hc as [? _]. cbn [concat]. rewrite zlen_app. pose proof (zlen_nonneg (concat chunks)). lia. }
  pose proof (zlen_readable b Hwf) as Hz. pose proof (wf_reading _ Hwf). pose proof (wf_writing _ Hwf).
  pose proof (wf_size _ Hwf). unfold kReservedCapacity, vector_max_size in *.
  destruct fuel as [|fuel]; [cbn [length] in Hfuel; lia|].
  assert (GetReadableBytes b = zlen (readable b)) as Hg by by apply readable_bytes_zlen.
  rewrite await_step, Hg by lia.
  rewrite u64_small by lia. replace (target - zlen (readable b)) with (zlen (concat (c :: chunks))) by lia.
  destruct (read_exact_complete b (c :: chunks) rest) as (b' & Hread & Hwf' & Hr');
    [done|done|by apply compacts_fresh|unfold vector_max_size; lia|].
  rewrite Hread. cbn [mbind result_bind]. rewrite await_there.
  2: { rewrite readable_bytes_zlen, Hr', zlen_app by done. lia. }
  exists b'. split; [done|]. split; [done|]. split; [|done].
  destruct (EnsureWritableSpace_ok b (zlen (concat (c :: chunks)))) as (b1 & He & _ & _ & Hi & _);
    [done|lia|by apply compacts_fresh|unfold vector_max_size; lia|].
  unfold ReadFromFd_exact in Hread. rewrite He in Hread. cbn [mbind result_bind] in Hread.
  apply ReadFromFd_loop_reading in Hread. congruence.
Qed.

(** The blocking receiver on an empty buffer: a frame that arrives in any chunks
    ([recv] gives no more than it is asked for: first the smallest frame, then
    the rest) is handed over, and the buffer is as before. *)
Lemma sync_receives `{!WireOk Msg} m chunks1 chunks2 rest b e :
  fits m -> wf b -> reading_index_ b = kReservedCapacity -> readable b = [] ->
  Forall (fun c => 0 < zlen c) chunks1 -> Forall (fun c => 0 < zlen c) chunks2 ->
  concat chunks1 = ztake (zlen tag_ + 8) (frame m) -> concat chunks2 = zdrop (zlen tag_ + 8) (frame m) ->
  exists b', OnMessage_sync true false (map RecvBytes chunks1 ++ map RecvBytes chunks2 ++ rest) b e
      = Ok (Some (b', MessageCallback_ m e)) /\
    wf b' /\ reading_index_ b' = kReservedCapacity /\ readable b' = [].
Proof using tag_small.
  intros Hfits Hwf Hri Hb Hc1 Hc2 H1 H2. pose proof (frame_len_range m) as Hge. pose proof (zlen_nonneg tag_).
  pose proof (zlen_frame m) as Hz. unfold fits, kMaxMessageLength in Hfits. unfold kHeaderLength, kChecksumLength in *.
  assert (zlen (concat chunks1) = zlen tag_ + 8) as Hl1 by (rewrite H1, zlen_ztake; lia).
  assert (zlen (concat chunks2) = 4 + frame_len m - (zlen tag_ + 8)) as Hl2 by (rewrite H2, zlen_zdrop; lia).
  unfold OnMessage_sync. cbn [negb]. rewrite kMin_eq. unfold kHeaderLength, kChecksumLength.
  rewrite (u64_small (zlen tag_ + 4 + 4)) by lia.
  destruct (await_chunks chunks1 (map RecvBytes chunks2 ++ rest)
    (length (map RecvBytes chunks1 ++ map RecvBytes chunks2 ++ rest)) (zlen tag_ + 4 + 4) b)
    as (b1 & -> & Hwf1 & Hri1 & Hr1); try done; [rewrite Hb, zlen_nil; lia|lia|rewrite length_app, length_map; lia|].
  rewrite Hb in Hr1. simpl in Hr1. cbn [mbind result_bind].
  rewrite GetReadableInt32_ok by (done || rewrite Hr1; lia). cbn [mbind result_bind].
  rewrite Hr1, H1, ztake_ztake by lia. replace (4 `min` _) with 4 by lia.
  rewrite <-(app_nil_r (frame m)), frame_head_value by lia.
  rewrite (proj2 (Z.ltb_ge kMaxMessageLength _)) by (unfold kMaxMessageLength; lia).
  rewrite (proj2 (Z.ltb_ge (frame_len m) _)) by lia. cbn [orb].
  rewrite (u64_small (4 + frame_len m)) by lia.
  destruct (await_chunks chunks2 rest (length (map RecvBytes chunks2 ++ rest)) (4 + frame_len m) b1)
    as (b2 & -> & Hwf2 & Hri2 & Hr2); try done; [rewrite Hr1; lia|lia|rewrite length_app, length_map; lia|].
  rewrite Hr1, H1, H2, ztake_zdrop in Hr2. cbn [mbind result_bind].
  unfold GetReadablePosition. rewrite readable_read by (done || rewrite Hr2; lia). cbn [mbind result_bind negb].
  replace (4 + frame_len m) with (zlen (frame m)) by apply zlen_frame.
  rewrite Hr2, ztake_all by lia. unfold frame at 1.
  rewrite <-(zlen_be_bytes 4 (frame_len m) : _ = 4), zdrop_app_exact, Parse_frame.
  destruct (Refresh_spec b2 (zlen (frame m)) Hwf2 ltac:(lia)) as (Hwf' & Hr' & Hi').
  eexists. split; [done|]. split; [done|]. rewrite Hi', Hr', Hr2, Z.ltb_irrefl. split; [done|].
  by rewrite zdrop_all by lia.
Qed.

End codec.

(** ** A concrete codec *)

Module Concrete.

(** Messages are byte strings; the checksum is RFC 1950's. *)
Definition rfc1950 (bs : list byte) : Z :=
  let '(a, b) := foldl (fun '(a, b) x => let a := (a + byte.unsigned x) mod 65521 in
                                         (a, (b + a) mod 65521)) (1, 0) bs in
  b * 65536 + a.

#[local] Instance host : HostOrder := x86_host.

#[local] Instance wire : Wire (list byte) :=
  {| adler32 := rfc1950; serialize := fun m => m; parse := Some |}.

#[local] Instance wire_ok : WireOk (list byte).
Proof. by split. Qed.

(** The state is the log of callbacks. *)
Inductive event := Got (m : list byte) | Failed (code : ErrorCode).

#[local] Instance callbacks : CodecCallbacks (list byte) (list event) :=
  {| RawCallback_ := None; MessageCallback_ := fun m e => e ++ [Got m];
     ErrCallback_ := fun c e => e ++ [Failed c] |}.

Definition tag : list byte := [Byte.x52; Byte.x50; Byte.x43; Byte.x30].
Definition hello : list byte := [Byte.x68; Byte.x69].

Lemma rpc_stream_roundtrip_witness :
  exists b', OnMessage tag (holding (frame tag hello ++ frame tag [] ++ take 5 (frame tag hello))) []
    = Ok (b', [Got hello; Got []]) /\ wf b' /\ readable b' = take 5 (frame tag hello).
Proof.
  destruct (holding_ok (frame tag hello ++ frame tag [] ++ take 5 (frame tag hello)))
    as [Hwf Hr]; [by vm_compute|].
  apply (rpc_stream_roundtrip tag ltac:(done) [hello; []] hello _ (take 5 (frame tag hello))
    (drop 5 (frame tag hello)) []); try done.
  - repeat constructor; vm_compute; discriminate.
Defined.

Lemma rejected_frame_is_final_witness :
  let b := holding (replicate 12 Byte.xff ++ frame tag hello) in
  OnMessage tag b [] = Ok (b, [Failed kInvalidLength]).
Proof.
  destruct (holding_ok (replicate 12 Byte.xff ++ frame tag hello)) as [Hwf Hr]; [by vm_compute|].
  apply (rejected_frame_is_final tag ltac:(done) _ [] (replicate 12 Byte.xff) kInvalidLength
    (frame tag hello)); try done.
  split; [vm_compute; discriminate|]. left. split; [by right|done].
Defined.

Definition zeros (n : Z) : list byte := replicate (Z.to_nat n) Byte.x00.

Lemma frame_len_zeros n : 0 <= n -> frame_len tag (zeros n) = n + 8.
Proof.
  intros Hn. unfold frame_len, body. rewrite zlen_app. cbn [serialize wire].
  assert (zlen (zeros n) = n) as -> by (unfold zeros, zlen; rewrite length_replicate; lia).
  unfold kChecksumLength. change (zlen tag) with 4. lia.
Qed.

Lemma oversize_message_sent_witness :
  let huge := zeros kMaxMessageLength in
  Send tag huge = Ok (frame tag huge) /\
  OnMessage tag (holding (frame tag huge)) [] = Ok (holding (frame tag huge), [Failed kInvalidLength]).
Proof.
  assert (frame_len tag (zeros kMaxMessageLength) = kMaxMessageLength + 8) as Hlen
    by (apply frame_len_zeros; unfold kMaxMessageLength; lia).
  destruct (holding_ok (frame tag (zeros kMaxMessageLength))) as [Hwf Hr].
  - rewrite zlen_frame, Hlen. unfold kMaxMessageLength, kHeaderLength. lia.
  - apply (oversize_message_sent tag ltac:(done) (zeros kMaxMessageLength) _ []).
    + rewrite Hlen. unfold kMaxMessageLength. lia.
    + exact Hwf.
    + exact Hr.
    + reflexivity.
Defined.

Lemma sync_takes_one_frame_witness :
  exists b', OnMessage_sync tag true false [] (holding (frame tag hello ++ hello)) []
    = Ok (Some (b', [Got hello])) /\ wf b' /\ readable b' = hello.
Proof.
  destruct (holding_ok (frame tag hello ++ hello)) as [Hwf Hr]; [by vm_compute|].
  apply (sync_takes_one_frame tag ltac:(done) hello _ hello [] []); [|done|done].
  vm_compute. discriminate.
Defined.

End Concrete.
