(* ===== verification/RpcChannel.v ===== *)
(** * Remote procedure calls

    Model of [RpcAsyncChannel], [RpcSyncChannel] (src/rpc_channel.h,
    src/rpc_channel.cc) and the service table of [RpcServer] (src/rpc_server.cc)
    at the level of the messages of src/rpc.proto, which [RpcCodec] carries. The
    calls of user code, the messages sent and what happens to response objects
    are recorded in a log. Response objects and closures are names. *)

From stdpp Require Import prelude gmap list strings.
From coqutil Require Import Byte.
From S2P Require Import Prelude.

(** ** Messages (rpc.proto) *)

Inductive MessageType := OTHER | REQUEST | RESPONSE | ERROR.

Inductive RpcError :=
| NO_ERROR | WRONG_PROTO | NO_SERVICE | NO_METHOD | INVALID_REQUEST | INVALID_RESPONSE | TIMEOUT.

#[export] Instance RpcError_eq_dec : EqDecision RpcError.
Proof. solve_decision. Defined.

Record RpcMessage := mkRpcMessage {
  type : MessageType;
  id : Z;
  service : option string;
  method : option string;
  request : option (list byte);
  response : option (list byte);
  error : option RpcError;
}.

(** A field that is not set reads as the empty string. *)
Definition get_string (x : option string) : string := default EmptyString x.
Definition get_bytes (x : option (list byte)) : list byte := default [] x.

(** A service as protobuf presents it: its methods, and whether the bytes of a
    request parse. *)
Class Service (S : Type) := {
  service_name : S -> string;
  FindMethodByName : S -> string -> bool;
  ParseRequest : S -> string -> list byte -> bool;
}.

Section rpc_channel.
Context {S : Type} `{!Service S}.

(** A null pointer is [None]. *)
Record OutstandingCall := mkOutstandingCall {
  response_message_ : option Z;
  DoneCallback_ : option Z;
}.

Inductive event :=
| EvSend (m : RpcMessage)
| EvDispatch (s : S) (method : string) (request : list byte) (id : Z)
| EvParse (response : Z) (bytes : list byte)
| EvRun (done : Z)
| EvDelete (response : Z)
| EvDeleteClosure (done : Z).

Record Channel := mkChannel {
  id_ : Z;
  outstanding_calls_ : gmap Z OutstandingCall;
  services_ : option (gmap string S);
  log : list event;
}.

(** [id_] is not initialised by the constructors. *)
Definition RpcAsyncChannel_new (id0 : Z) : Channel := mkChannel id0 ∅ None [].

Definition SetServices (services : gmap string S) (ch : Channel) : Channel :=
  mkChannel (id_ ch) (outstanding_calls_ ch) (Some services) (log ch).

Definition emit (es : list event) (ch : Channel) : Channel :=
  mkChannel (id_ ch) (outstanding_calls_ ch) (services_ ch) (log ch ++ es).
Definition set_outstanding (o : gmap Z OutstandingCall) (ch : Channel) : Channel :=
  mkChannel (id_ ch) o (services_ ch) (log ch).

(** The part both kinds of channels share: number the call and remember it. *)
Definition begin_call (svc meth : string) (req : list byte) (resp done : option Z) (ch : Channel)
  : RpcMessage * Channel :=
  let id := s64 (id_ ch + 1) in
  (mkRpcMessage REQUEST (u64 id) (Some svc) (Some meth) (Some req) None None,
   mkChannel (s64 (id_ ch + 1)) (<[id := mkOutstandingCall resp done]> (outstanding_calls_ ch))
     (services_ ch) (log ch)).

Definition CallMethod (svc meth : string) (req : list byte) (resp done : option Z) (ch : Channel)
  : Channel :=
  let '(m, ch) := begin_call svc meth req resp done ch in emit [EvSend m] ch.

(** What a [RESPONSE] does; [owned] when the response object is deleted at the
    end. *)
Definition OnResponse (owned : bool) (m : RpcMessage) (ch : Channel) : Channel :=
  let id := s64 (id m) in
  let '(call, ch) :=
    match outstanding_calls_ ch !! id with
    | Some call => (call, set_outstanding (delete id (outstanding_calls_ ch)) ch)
    | None => (mkOutstandingCall None None, ch)
    end in
  match response_message_ call with
  | Some loc =>
      emit ((match response m with Some bytes => [EvParse loc bytes] | None => [] end)
            ++ (match DoneCallback_ call with Some d => [EvRun d] | None => [] end)
            ++ (if owned then [EvDelete loc] else [])) ch
  | None => ch
  end.

(** What a [REQUEST] does: the error, or the call of the service. *)
Definition route (m : RpcMessage) (ch : Channel) : RpcError + S :=
  match services_ ch with
  | None => inl NO_SERVICE
  | Some services =>
      match services !! get_string (service m) with
      | None => inl NO_SERVICE
      | Some s =>
          if FindMethodByName s (get_string (method m)) then
            if ParseRequest s (get_string (method m)) (get_bytes (request m)) then inr s
            else inl INVALID_REQUEST
          else inl NO_METHOD
      end
  end.

Definition OnRpcMessage (m : RpcMessage) (ch : Channel) : Channel :=
  match type m with
  | RESPONSE => OnResponse true m ch
  | REQUEST =>
      match route m ch with
      | inr s =>
          emit [EvDispatch s (get_string (method m)) (get_bytes (request m)) (s64 (id m))] ch
      | inl error_code =>
          emit [EvSend (mkRpcMessage RESPONSE (id m) None None None None (Some error_code))] ch
      end
  | ERROR | OTHER => ch
  end.

(** The closure handed to the service. *)
Definition DoneCallback (bytes : list byte) (id : Z) (ch : Channel) : Channel :=
  emit [EvSend (mkRpcMessage RESPONSE (u64 id) None None None (Some bytes) None)] ch.

(** [~RpcAsyncChannel], over the calls in any order. *)
Fixpoint delete_calls (calls : list OutstandingCall) : list event :=
  match calls with
  | [] => []
  | c :: calls =>
      (match response_message_ c with Some loc => [EvDelete loc] | None => [] end)
      ++ (match DoneCallback_ c with Some d => [EvDeleteClosure d] | None => [] end)
      ++ delete_calls calls
  end.
Definition RpcAsyncChannel_delete (ch : Channel) : Channel :=
  emit (delete_calls (map_to_list (outstanding_calls_ ch)).*2) ch.

(** ** The blocking channel *)

(** [socket] and [connect]; a failed [connect] leaves the number -100. The list
    are the descriptors closed. *)
Definition RpcSyncChannel_new (socket : Z) (connected : bool) : result (Z * list Z) :=
  if socket <? 0 then Fault ExitFailure
  else if connected then Ok (socket, []) else Ok (-100, [socket]).
Definition RpcSyncChannel_delete (socket_fd_ : Z) : list Z :=
  if 0 <=? socket_fd_ then [socket_fd_] else [].

Definition OnRpcMessage_sync (m : RpcMessage) (ch : Channel) : Channel :=
  match type m with RESPONSE => OnResponse false m ch | _ => ch end.

(** [reply] is the message the codec delivers, if it delivers one. *)
Definition CallMethod_sync (socket_fd_ : Z) (reply : option RpcMessage) (svc meth : string)
    (req : list byte) (resp done : option Z) (ch : Channel) : Channel :=
  let '(m, ch) := begin_call svc meth req resp done ch in
  if socket_fd_ <? 0 then ch
  else
    let ch := emit [EvSend m] ch in
    match reply with Some r => OnRpcMessage_sync r ch | None => ch end.

(** ** The service table *)

Definition RegisterService (s : S) (services : gmap string S) : gmap string S :=
  <[service_name s := s]> services.

(** ** Runs of one channel *)

(** A call with a response object and a closure, a message that arrives, the
    end of a service's work. *)
Inductive op :=
| OpCall (svc meth : string) (req : list byte) (resp done : Z)
| OpRecv (m : RpcMessage)
| OpReply (bytes : list byte) (id : Z).

Definition do_op (o : op) (ch : Channel) : Channel :=
  match o with
  | OpCall svc meth req resp done => CallMethod svc meth req (Some resp) (Some done) ch
  | OpRecv m => OnRpcMessage m ch
  | OpReply bytes id => DoneCallback bytes id ch
  end.

Fixpoint do_ops (os : list op) (ch : Channel) : Channel :=
  match os with [] => ch | o :: os => do_ops os (do_op o ch) end.

Definition called (o : op) : list (Z * Z) :=
  match o with OpCall _ _ _ resp done => [(resp, done)] | _ => [] end.
Definition all_called (os : list op) : list (Z * Z) := os ≫= called.

(** The closures that ran, and the response objects that were deleted. *)
Definition ran (es : list event) : list Z :=
  es ≫= fun e => match e with EvRun d => [d] | _ => [] end.
Definition deleted (es : list event) : list Z :=
  es ≫= fun e => match e with EvDelete r => [r] | _ => [] end.

Definition waiting (ch : Channel) : list OutstandingCall := (map_to_list (outstanding_calls_ ch)).*2.

Definition whole (c : OutstandingCall) : Prop := exists resp done, c = mkOutstandingCall (Some resp) (Some done).

Definition resp_of (c : OutstandingCall) : list Z := option_list (response_message_ c).
Definition done_of (c : OutstandingCall) : list Z := option_list (DoneCallback_ c).

(** After [n] calls from [id0]: the calls are the finished and the waiting ones. *)
Record calls_ok (id0 : Z) (n : Z) (made : list (Z * Z)) (ch : Channel) : Prop := {
  calls_id : id_ ch = s64 (id0 + n);
  calls_keys : forall k c, outstanding_calls_ ch !! k = Some c ->
    whole c /\ exists i, 1 <= i <= n /\ k = s64 (id0 + i);
  calls_done : made.*2 ≡ₚ ran (log ch) ++ (waiting ch ≫= done_of);
  calls_resp : made.*1 ≡ₚ deleted (log ch) ++ (waiting ch ≫= resp_of);
}.

Lemma s64_inj a b : s64 a = s64 b -> - 2 ^ 64 < a - b < 2 ^ 64 -> a = b.
Proof.
  intros Heq Hd. assert (a mod 2 ^ 64 = b mod 2 ^ 64) as Hm.
  { rewrite <-(mod_sext 64 a), <-(mod_sext 64 b). by f_equal. }
  pose proof (Z.div_mod a (2 ^ 64) ltac:(lia)). pose proof (Z.div_mod b (2 ^ 64) ltac:(lia)). lia.
Qed.

Lemma s64_u64_s64 a : s64 (u64 (s64 a)) = s64 a.
Proof. unfold s64, u64. by rewrite mod_sext, sext_mod. Qed.

Lemma bind_app_ran (e e' : list event) : ran (e ++ e') = ran e ++ ran e'.
Proof. apply bind_app. Qed.
Lemma bind_app_deleted (e e' : list event) : deleted (e ++ e') = deleted e ++ deleted e'.
Proof. apply bind_app. Qed.

(** Log entries that finish nothing. *)
Lemma calls_emit id0 n made ch es :
  calls_ok id0 n made ch -> ran es = [] -> deleted es = [] -> calls_ok id0 n made (emit es ch).
Proof.
  intros [] Hr Hd. split; simpl; try done.
  - by rewrite bind_app_ran, Hr, app_nil_r.
  - by rewrite bind_app_deleted, Hd, app_nil_r.
Qed.

Lemma waiting_insert i k c o sv lg :
  o !! k = None -> waiting (mkChannel i (<[k := c]> o) sv lg) ≡ₚ c :: waiting (mkChannel i o sv lg).
Proof. intros Hk. unfold waiting. simpl. exact (fmap_Permutation snd _ _ (map_to_list_insert o k c Hk)). Qed.

Lemma waiting_delete k c ch :
  outstanding_calls_ ch !! k = Some c ->
  waiting ch ≡ₚ c :: waiting (set_outstanding (delete k (outstanding_calls_ ch)) ch).
Proof.
  intros Hk. unfold waiting. simpl. symmetry.
  exact (fmap_Permutation snd _ _ (map_to_list_delete _ _ _ Hk)).
Qed.

(** The ledger of finished and waiting calls: a new one waits, a waiting one is
    finished. *)
Lemma ledger_add {A} (made finished rest rest' : list A) (x : A) :
  made ≡ₚ finished ++ rest -> rest' ≡ₚ x :: rest -> made ++ [x] ≡ₚ finished ++ rest'.
Proof.
  intros Hm Hr. transitivity (finished ++ x :: rest); [|apply Permutation_app_head; by symmetry].
  transitivity (x :: made); [symmetry; apply Permutation_cons_append|].
  transitivity (x :: finished ++ rest); [by constructor|apply Permutation_middle].
Qed.

Lemma ledger_move {A} (made finished rest rest' xs ys : list A) :
  made ≡ₚ finished ++ rest -> rest ≡ₚ xs ++ rest' -> ys = xs -> made ≡ₚ (finished ++ ys) ++ rest'.
Proof.
  intros Hm Hr ->. transitivity (finished ++ rest); [done|].
  rewrite <-app_assoc. by apply Permutation_app_head.
Qed.

Lemma calls_call id0 n made ch svc meth req resp done :
  calls_ok id0 n made ch -> 0 <= n -> n + 1 < 2 ^ 64 ->
  calls_ok id0 (n + 1) (made ++ [(resp, done)]) (CallMethod svc meth req (Some resp) (Some done) ch).
Proof.
  intros [] Hn Hmax. unfold CallMethod, begin_call. simpl.
  assert (s64 (id_ ch + 1) = s64 (id0 + (n + 1))) as Hid
    by (rewrite calls_id0, s64_add; f_equal; lia).
  rewrite Hid. apply calls_emit; [|done|done].
  assert (outstanding_calls_ ch !! s64 (id0 + (n + 1)) = None) as Hfresh.
  { destruct (_ !! _) as [c|] eqn:Hc; [|done]. apply calls_keys0 in Hc as (_ & i & Hi & Heq).
    apply s64_inj in Heq; lia. }
  split; simpl; [done| | |].
  - intros k c. rewrite lookup_insert_Some. intros [[<- <-]|[_ Hk]].
    + split; [by exists resp, done|]. exists (n + 1). split; [lia|done].
    + apply calls_keys0 in Hk as (Hw & i & Hi & Heq). split; [done|]. exists i. split; [lia|done].
  - rewrite fmap_app. apply (ledger_add _ _ _ _ _ calls_done0).
    exact (bind_Permutation done_of _ _ (waiting_insert _ _ _ _ _ _ Hfresh)).
  - rewrite fmap_app. apply (ledger_add _ _ _ _ _ calls_resp0).
    exact (bind_Permutation resp_of _ _ (waiting_insert _ _ _ _ _ _ Hfresh)).
Qed.

Lemma calls_response id0 n made ch m :
  calls_ok id0 n made ch -> calls_ok id0 n made (OnResponse true m ch).
Proof.
  intros Hok. unfold OnResponse. destruct (outstanding_calls_ ch !! s64 (id m)) as [c|] eqn:Hc; [|done].
  destruct Hok. destruct (calls_keys0 _ _ Hc) as [(resp & done & ->) _]. simpl.
  pose proof (waiting_delete _ _ _ Hc) as Hw.
  split; simpl; [done| | |].
  - intros k c Hk. apply lookup_delete_Some in Hk as [_ Hk]. by apply calls_keys0.
  - rewrite bind_app_ran. apply (ledger_move _ _ _ _ [done] _ calls_done0).
    + exact (bind_Permutation done_of _ _ Hw).
    + by destruct (response m).
  - rewrite bind_app_deleted. apply (ledger_move _ _ _ _ [resp] _ calls_resp0).
    + exact (bind_Permutation resp_of _ _ Hw).
    + by destruct (response m).
Qed.

Lemma calls_op id0 n made ch o :
  calls_ok id0 n made ch -> 0 <= n -> n + 1 < 2 ^ 64 ->
  calls_ok id0 (n + zlen (called o)) (made ++ called o) (do_op o ch).
Proof.
  intros Hok Hn Hmax. destruct o as [svc meth req resp done|m|bytes id]; simpl.
  - by apply calls_call.
  - rewrite app_nil_r, Z.add_0_r. unfold OnRpcMessage. destruct (type m); try done.
    + by destruct (route m ch); apply calls_emit.
    + by apply calls_response.
  - rewrite app_nil_r, Z.add_0_r. by apply calls_emit.
Qed.

Lemma calls_ops id0 os n made ch :
  calls_ok id0 n made ch -> 0 <= n -> n + zlen (all_called os) < 2 ^ 64 - 1 ->
  calls_ok id0 (n + zlen (all_called os)) (made ++ all_called os) (do_ops os ch).
Proof.
  revert n made ch. induction os as [|o os IH]; intros n made ch Hok Hn Hmax; simpl.
  - by rewrite Z.add_0_r, app_nil_r.
  - unfold all_called in *. rewrite bind_cons, zlen_app in *.
    pose proof (zlen_nonneg (called o)). pose proof (zlen_nonneg (os ≫= called)).
    rewrite app_assoc, Z.add_assoc. apply IH; [apply calls_op; [done|lia|lia]|lia|lia].
Qed.

Lemma calls_new id0 : s64 id0 = id0 -> calls_ok id0 0 [] (RpcAsyncChannel_new id0).
Proof. intros Hid. split; simpl; [by rewrite Z.add_0_r| |done|done]. by intros k c ?%lookup_empty_Some. Qed.

(** ** Properties *)

(** C20. Every remote call is finished at most once: through any sequence of calls,
    incoming messages (responses to unknown or finished calls, doubled ones and
    requests included) and replies, the closures that ran together with those of
    the calls still waiting are exactly the closures of the calls made, and each
    response object is deleted exactly when its call is finished. *)
Theorem rpc_calls_conserved id0 os :
  s64 id0 = id0 -> zlen (all_called os) < 2 ^ 64 - 1 ->
  let ch := do_ops os (RpcAsyncChannel_new id0) in
  (all_called os).*2 ≡ₚ ran (log ch) ++ (waiting ch ≫= done_of) /\
  (all_called os).*1 ≡ₚ deleted (log ch) ++ (waiting ch ≫= resp_of) /\
  (NoDup (all_called os).*2 -> NoDup (ran (log ch))).
Proof.
  intros Hid Hmax ch. pose proof (calls_ops id0 os 0 [] _ (calls_new id0 Hid) ltac:(lia) ltac:(lia)) as [].
  simpl in *. split_and!; [done|done|]. intros Hnd.
  assert (NoDup (ran (log ch) ++ (waiting ch ≫= done_of))) as Hnd2
    by (eapply NoDup_Permutation_proper; [symmetry; exact calls_done0|done]).
  by apply NoDup_app in Hnd2 as [? _].
Qed.

(** A remote call end to end: the request the caller sends makes the callee
    run the method of the registered service, and when the service is done the
    response the callee sends finishes that very call: the response object is
    filled, the closure runs, then the object is deleted. *)
Theorem rpc_call_roundtrip client server svc meth req resp done s bytes :
  services_ server ≫= lookup svc = Some s -> FindMethodByName s meth = true ->
  ParseRequest s meth req = true ->
  let client1 := CallMethod svc meth req (Some resp) (Some done) client in
  exists m reply,
    log client1 = log client ++ [EvSend m] /\
    log (OnRpcMessage m server) = log server ++ [EvDispatch s meth req (s64 (id m))] /\
    log (DoneCallback bytes (s64 (id m)) server) = log server ++ [EvSend reply] /\
    log (OnRpcMessage reply client1)
      = log client1 ++ [EvParse resp bytes; EvRun done; EvDelete resp] /\
    outstanding_calls_ (OnRpcMessage reply client1) = delete (s64 (id m)) (outstanding_calls_ client).
Proof.
  intros Hs Hm Hp client1. unfold client1, CallMethod, begin_call. simpl.
  set (n := s64 (id_ client + 1)). eexists _, _. split; [done|].
  assert (s64 (u64 n) = n) as Hn by apply s64_u64_s64. split.
  { unfold OnRpcMessage, route. simpl. destruct (services_ server) as [t|]; [|done].
    simpl in Hs. rewrite Hs, Hm, Hp. done. }
  split; [done|]. unfold OnRpcMessage, OnResponse, DoneCallback. simpl.
  rewrite !Hn. rewrite lookup_insert_eq. simpl.
  split; [done|]. by rewrite delete_insert_eq.
Qed.

(** A request that cannot be served is answered with the matching error code
    and the id of the request; the caller's closure then runs like after a
    success, with the response object left as it was: the code itself reaches
    nobody. *)
Theorem rpc_error_reply client server m code :
  type m = REQUEST -> route m server = inl code ->
  let reply := mkRpcMessage RESPONSE (id m) None None None None (Some code) in
  OnRpcMessage m server = emit [EvSend reply] server /\
  (forall resp done, outstanding_calls_ client !! s64 (id m) = Some (mkOutstandingCall (Some resp) (Some done)) ->
   log (OnRpcMessage reply client) = log client ++ [EvRun done; EvDelete resp]) /\
  match code with
  | NO_SERVICE => services_ server ≫= lookup (get_string (service m)) = None
  | NO_METHOD => exists s, services_ server ≫= lookup (get_string (service m)) = Some s /\
      FindMethodByName s (get_string (method m)) = false
  | INVALID_REQUEST => exists s, services_ server ≫= lookup (get_string (service m)) = Some s /\
      FindMethodByName s (get_string (method m)) = true /\
      ParseRequest s (get_string (method m)) (get_bytes (request m)) = false
  | _ => False
  end.
Proof.
  intros Ht Hr reply. split; [unfold OnRpcMessage; by rewrite Ht, Hr|]. split.
  - intros resp done Hc. unfold OnRpcMessage, OnResponse, reply. simpl. by rewrite Hc.
  - unfold route in Hr. destruct (services_ server) as [t|]; [|by simplify_eq/=]. simpl.
    destruct (t !! get_string (service m)) as [s|] eqn:Hl; [|by simplify_eq/=].
    destruct (FindMethodByName s _) eqn:Hf; [|simplify_eq/=; by exists s].
    destruct (ParseRequest s _ _) eqn:Hq; [done|]. simplify_eq/=. by exists s.
Qed.

(** A blocking call is finished before it returns when the one message it
    waits for is the response to it; on a channel that could not connect it
    returns without sending, and the closure never runs. *)
Theorem rpc_sync_call fd svc meth req resp done bytes ch :
  0 <= fd ->
  (let m := (begin_call svc meth req (Some resp) (Some done) ch).1 in
   let reply := mkRpcMessage RESPONSE (id m) None None None (Some bytes) None in
   log (CallMethod_sync fd (Some reply) svc meth req (Some resp) (Some done) ch)
     = log ch ++ [EvSend m; EvParse resp bytes; EvRun done]) /\
  RpcSyncChannel_new fd false = Ok (-100, [fd]) /\
  (forall reply, log (CallMethod_sync (-100) reply svc meth req (Some resp) (Some done) ch) = log ch).
Proof.
  intros Hfd. split_and!.
  - unfold CallMethod_sync. simpl. rewrite (proj2 (Z.ltb_ge _ _) Hfd).
    unfold OnRpcMessage_sync, OnResponse. simpl. rewrite s64_u64_s64, lookup_insert_eq. simpl.
    by rewrite <-app_assoc.
  - unfold RpcSyncChannel_new. by rewrite (proj2 (Z.ltb_ge _ _) Hfd).
  - done.
Qed.

End rpc_channel.
Arguments Channel : clear implicits.
Arguments event : clear implicits.

(** ** An echo service *)

Module Concrete.

Inductive echo := Echo.

#[local] Instance echo_service : Service echo := {|
  service_name _ := "Echo"%string;
  FindMethodByName _ name := bool_decide (name = "Say"%string);
  ParseRequest _ _ bytes := negb (bool_decide (bytes = []));
|}.

Definition request1 : RpcMessage :=
  mkRpcMessage REQUEST 7 (Some "Echo"%string) (Some "Shout"%string) None None None.
Definition server : Channel echo := SetServices (RegisterService Echo ∅) (RpcAsyncChannel_new 0).
Definition client : Channel echo := RpcAsyncChannel_new 6.

(** Two calls; the second is answered, twice. *)
Definition ops : list op :=
  [OpCall "Echo" "Say" [Byte.x01] 100 200; OpCall "Echo" "Say" [Byte.x02] 101 201;
   OpRecv (mkRpcMessage RESPONSE 8 None None None (Some [Byte.x02]) None);
   OpRecv (mkRpcMessage RESPONSE 8 None None None (Some [Byte.x02]) None)].

Lemma rpc_calls_conserved_witness :
  ran (log (do_ops ops client)) = [201] /\ NoDup (ran (log (do_ops ops client))).
Proof.
  split; [reflexivity|].
  destruct (rpc_calls_conserved (S := echo) 6 ops) as (_ & _ & Hnd); [reflexivity|reflexivity|].
  apply Hnd. apply (bool_decide_unpack _). by vm_compute.
Defined.

Lemma rpc_call_roundtrip_witness :
  exists m reply,
    log (OnRpcMessage m server) = [EvDispatch Echo "Say" [Byte.x01] 7] /\
    log (OnRpcMessage reply (CallMethod "Echo" "Say" [Byte.x01] (Some 100) (Some 200) client))
      = [EvSend m; EvParse 100 [Byte.x02]; EvRun 200; EvDelete 100].
Proof.
  destruct (rpc_call_roundtrip client server "Echo" "Say" [Byte.x01] 100 200 Echo [Byte.x02])
    as (m & reply & H1 & H2 & _ & H4 & _); [reflexivity|reflexivity|reflexivity|].
  assert (m = mkRpcMessage REQUEST 7 (Some "Echo"%string) (Some "Say"%string) (Some [Byte.x01]) None None)
    as Hm by (injection H1 as <-; reflexivity).
  exists m, reply. split; [rewrite H2, Hm; reflexivity|]. rewrite H4, H1. reflexivity.
Defined.

Lemma rpc_error_reply_witness :
  OnRpcMessage request1 server
  = emit [EvSend (mkRpcMessage RESPONSE 7 None None None None (Some NO_METHOD))] server.
Proof. destruct (rpc_error_reply client server request1 NO_METHOD) as [H _]; [reflexivity|reflexivity|exact H]. Defined.

Lemma rpc_sync_call_witness :
  RpcSyncChannel_new 3 false = Ok (-100, [3]).
Proof. destruct (rpc_sync_call 3 "Echo" "Say" [] 1 2 [] client) as (_ & H & _); [lia|exact H]. Defined.

End Concrete.
