(* ===== verification/Logger.v ===== *)
(** * The logger

    Model of class [Logger] (src/logger.h, src/logger.cc): any number of threads
    put records into a ring of sequenced slots, one thread takes them out and
    writes them down, sleeping on a condition variable when there is nothing to
    do; [EndLogger] stops it. Every access to an atomic variable, to a slot's
    data, to the mutex or to the condition variable is one step, and the steps
    of all threads interleave freely. Atomics are sequentially consistent: the
    acquire/release pairs of the source order the accesses to [data], and what
    weaker orders allow beyond that is not modelled. *)

From stdpp Require Import prelude list.
From coqutil Require Import Byte.
From S2P Require Import Prelude.

(** ** Records *)

(** The bytes [log_data] is built from: blanks, over which both parts are
    copied, and the line end in place of the last blank. *)
Definition RecordLogs_line (time_now_str log_info : list byte) : result (list byte) :=
  let log_data := replicate (Z.to_nat (zlen time_now_str +u zlen log_info +u 2)) Byte.x20 in
  log_data ← mem_write log_data 0 time_now_str;
  log_data ← mem_write log_data (zlen time_now_str +u 1) log_info;
  mem_write log_data (zlen log_data - 1) [Byte.x0a].

(** [UpdateLoggerTime]: [fresh] is the text of the second [tmp_time]. *)
Definition UpdateLoggerTime (tmp_time : Z) (fresh : list byte) (time_now_sec_ : Z)
    (time_now_str_ : list byte) : Z * list byte :=
  if time_now_sec_ <? tmp_time then (tmp_time, fresh) else (time_now_sec_, time_now_str_).

(** ** Threads *)

Definition kLogFileMaxByte : Z := 1024 * 1024 * 1024.
Definition kStandardLogFileByte : Z := kLogFileMaxByte / 2.

Section logger.
(** The ring has [2 ^ bits] slots; the source's size is [2 ^ 24]. *)
Context (bits : nat).

Definition kLogBufferSize : Z := 2 ^ Z.of_nat bits.
Definition kLogBufferMask : Z := kLogBufferSize - 1.

Record LogSlot := mkSlot { seq : Z; data : list byte }.

(** Where a call of [Enqueue] stands: about to load [write_index_], to load the
    slot's [seq], to exchange, to store the data, to store [seq], to count, to
    lock, to notify and unlock. *)
Inductive producer :=
| PIdle
| PLoad (d : list byte)
| PSeq (d : list byte) (pos : Z)
| PCas (d : list byte) (pos : Z)
| PWrite (d : list byte) (pos : Z)
| PPublish (pos : Z)
| PCount
| PLock
| PHeld.

(** Where [WriteDownLogs] stands: the two tests of its loop, [Dequeue], writing
    down the record, flushing, the tests before and under the lock, waiting and
    reacquiring the lock, and the end. *)
Inductive consumer :=
| CTestStop | CTestPending
| CLoad
| CSeq (pos : Z)
| CCas (pos : Z)
| CTake (pos : Z)
| CRelease (pos : Z) (d : list byte)
| CCount (d : list byte)
| CFile (d : list byte)
| CFlush
| CTestEmpty | CLock | CTestStopLocked | CTestEmptyLocked | CWait | CAsleep | CRelock | CUnlock
| CExit.

(** Where [EndLogger] stands. *)
Inductive ender := EIdle | EStore | ENotify | EJoin | EDone.

Inductive actor := Prod (i : nat) | Cons | Ender.

#[export] Instance actor_eq_dec : EqDecision actor.
Proof. solve_decision. Defined.

Record Logger := mkLogger {
  write_index_ : Z;
  read_index_ : Z;
  pending_ : Z;
  log_buffer_ : Z -> LogSlot;
  is_stopping_ : bool;
  log_mutex_ : option actor;
  producers : list producer;
  writer : consumer;
  closer : ender;
  cur_log_file_byte_ : Z;
  cur_log_file_seq_ : Z;
  (** the records written down *)
  file : list (list byte);
  (** the records [Enqueue] has taken, in the order of their positions *)
  accepted : list (list byte);
}.

Definition Logger_new (n : nat) : Logger :=
  mkLogger 0 0 0 (fun i => mkSlot i []) false None (replicate n PIdle) CTestStop EIdle 0 0 [] [].

Definition set_buffer (i : Z) (v : LogSlot) (s : Logger) : Logger :=
  mkLogger (write_index_ s) (read_index_ s) (pending_ s)
    (fun j => if j =? i then v else log_buffer_ s j) (is_stopping_ s) (log_mutex_ s) (producers s)
    (writer s) (closer s) (cur_log_file_byte_ s) (cur_log_file_seq_ s) (file s) (accepted s).
Definition set_producer (i : nat) (p : producer) (s : Logger) : Logger :=
  mkLogger (write_index_ s) (read_index_ s) (pending_ s) (log_buffer_ s) (is_stopping_ s)
    (log_mutex_ s) (<[i := p]> (producers s)) (writer s) (closer s) (cur_log_file_byte_ s)
    (cur_log_file_seq_ s) (file s) (accepted s).
Definition set_writer (c : consumer) (s : Logger) : Logger :=
  mkLogger (write_index_ s) (read_index_ s) (pending_ s) (log_buffer_ s) (is_stopping_ s)
    (log_mutex_ s) (producers s) c (closer s) (cur_log_file_byte_ s) (cur_log_file_seq_ s)
    (file s) (accepted s).
Definition set_closer (e : ender) (s : Logger) : Logger :=
  mkLogger (write_index_ s) (read_index_ s) (pending_ s) (log_buffer_ s) (is_stopping_ s)
    (log_mutex_ s) (producers s) (writer s) e (cur_log_file_byte_ s) (cur_log_file_seq_ s)
    (file s) (accepted s).
Definition set_pending (v : Z) (s : Logger) : Logger :=
  mkLogger (write_index_ s) (read_index_ s) v (log_buffer_ s) (is_stopping_ s) (log_mutex_ s)
    (producers s) (writer s) (closer s) (cur_log_file_byte_ s) (cur_log_file_seq_ s) (file s)
    (accepted s).
Definition set_mutex (v : option actor) (s : Logger) : Logger :=
  mkLogger (write_index_ s) (read_index_ s) (pending_ s) (log_buffer_ s) (is_stopping_ s) v
    (producers s) (writer s) (closer s) (cur_log_file_byte_ s) (cur_log_file_seq_ s) (file s)
    (accepted s).
Definition set_stopping (v : bool) (s : Logger) : Logger :=
  mkLogger (write_index_ s) (read_index_ s) (pending_ s) (log_buffer_ s) v (log_mutex_ s)
    (producers s) (writer s) (closer s) (cur_log_file_byte_ s) (cur_log_file_seq_ s) (file s)
    (accepted s).
(** The exchange of [Enqueue], with the record that takes the position. *)
Definition take_position (d : list byte) (s : Logger) : Logger :=
  mkLogger (u64 (write_index_ s + 1)) (read_index_ s) (pending_ s) (log_buffer_ s) (is_stopping_ s)
    (log_mutex_ s) (producers s) (writer s) (closer s) (cur_log_file_byte_ s) (cur_log_file_seq_ s)
    (file s) (accepted s ++ [d]).
Definition advance_read (s : Logger) : Logger :=
  mkLogger (write_index_ s) (u64 (read_index_ s + 1)) (pending_ s) (log_buffer_ s) (is_stopping_ s)
    (log_mutex_ s) (producers s) (writer s) (closer s) (cur_log_file_byte_ s) (cur_log_file_seq_ s)
    (file s) (accepted s).

(** Writing a record down: a full file is replaced first. *)
Definition write_file (d : list byte) (s : Logger) : Logger :=
  let full := kStandardLogFileByte <=? cur_log_file_byte_ s in
  mkLogger (write_index_ s) (read_index_ s) (pending_ s) (log_buffer_ s) (is_stopping_ s)
    (log_mutex_ s) (producers s) (writer s) (closer s)
    ((if full then 0 else cur_log_file_byte_ s) + zlen d)
    (if full then cur_log_file_seq_ s + 1 else cur_log_file_seq_ s) (file s ++ [d]) (accepted s).

Definition slot_of (pos : Z) : Z := Z.land pos kLogBufferMask.

(** [notify_one]: the writer is the only thread that waits. *)
Definition notify_one (s : Logger) : Logger :=
  match writer s with CAsleep => set_writer CRelock s | _ => s end.

(** What an actor may do: its next step; a failure of [compare_exchange_weak]
    with the expected value in place; the start of a call of [Enqueue] or of
    [EndLogger]; a wake-up without a notification. *)
Inductive move := Go | FailSpuriously | Call (d : list byte) | WakeSpuriously.

(** ** Steps *)

Definition Enqueue_step (i : nat) (m : move) (s : Logger) : option Logger :=
  match producers s !! i, m with
  | Some PIdle, Call d => Some (set_producer i (PLoad d) s)
  | Some (PLoad d), Go => Some (set_producer i (PSeq d (write_index_ s)) s)
  | Some (PSeq d pos), Go =>
      let diff := s64 (s64 (seq (log_buffer_ s (slot_of pos))) - s64 pos) in
      Some (if diff =? 0 then set_producer i (PCas d pos) s
            else if diff <? 0 then set_producer i PIdle s
            else set_producer i (PSeq d (write_index_ s)) s)
  | Some (PCas d pos), Go =>
      Some (if write_index_ s =? pos then set_producer i (PWrite d pos) (take_position d s)
            else set_producer i (PSeq d (write_index_ s)) s)
  | Some (PCas d pos), FailSpuriously => Some (set_producer i (PSeq d (write_index_ s)) s)
  | Some (PWrite d pos), Go =>
      Some (set_producer i (PPublish pos)
              (set_buffer (slot_of pos) (mkSlot (seq (log_buffer_ s (slot_of pos))) d) s))
  | Some (PPublish pos), Go =>
      Some (set_producer i PCount
              (set_buffer (slot_of pos) (mkSlot (u64 (pos + 1)) (data (log_buffer_ s (slot_of pos)))) s))
  | Some PCount, Go =>
      let s' := set_pending (u64 (pending_ s + 1)) s in
      Some (set_producer i (if pending_ s =? 0 then PLock else PIdle) s')
  | Some PLock, Go =>
      match log_mutex_ s with
      | None => Some (set_producer i PHeld (set_mutex (Some (Prod i)) s))
      | Some _ => None
      end
  | Some PHeld, Go => Some (set_producer i PIdle (set_mutex None (notify_one s)))
  | _, _ => None
  end.

Definition Dequeue_step (m : move) (s : Logger) : option Logger :=
  match writer s, m with
  | CLoad, Go => Some (set_writer (CSeq (read_index_ s)) s)
  | CSeq pos, Go =>
      let diff := s64 (s64 (seq (log_buffer_ s (slot_of pos))) - s64 (u64 (pos + 1))) in
      Some (set_writer (if diff =? 0 then CCas pos
                        else if diff <? 0 then CFlush
                        else CSeq (read_index_ s)) s)
  | CCas pos, Go =>
      Some (if read_index_ s =? pos then set_writer (CTake pos) (advance_read s)
            else set_writer (CSeq (read_index_ s)) s)
  | CCas pos, FailSpuriously => Some (set_writer (CSeq (read_index_ s)) s)
  | CTake pos, Go =>
      let slot := log_buffer_ s (slot_of pos) in
      Some (set_writer (CRelease pos (data slot)) (set_buffer (slot_of pos) (mkSlot (seq slot) []) s))
  | CRelease pos d, Go =>
      Some (set_writer (CCount d)
              (set_buffer (slot_of pos)
                 (mkSlot (u64 (pos + kLogBufferSize)) (data (log_buffer_ s (slot_of pos)))) s))
  | CCount d, Go => Some (set_writer (CFile d) (set_pending (u64 (pending_ s - 1)) s))
  | _, _ => None
  end.

Definition WriteDownLogs_step (m : move) (s : Logger) : option Logger :=
  match writer s, m with
  | CTestStop, Go => Some (set_writer (if is_stopping_ s then CTestPending else CLoad) s)
  | CTestPending, Go => Some (set_writer (if pending_ s =? 0 then CExit else CLoad) s)
  | CFile d, Go => Some (set_writer CLoad (write_file d s))
  | CFlush, Go => Some (set_writer CTestEmpty s)
  | CTestEmpty, Go => Some (set_writer (if pending_ s =? 0 then CLock else CTestStop) s)
  | CLock, Go =>
      match log_mutex_ s with
      | None => Some (set_writer CTestStopLocked (set_mutex (Some Cons) s))
      | Some _ => None
      end
  | CTestStopLocked, Go => Some (set_writer (if is_stopping_ s then CUnlock else CTestEmptyLocked) s)
  | CTestEmptyLocked, Go => Some (set_writer (if pending_ s =? 0 then CWait else CUnlock) s)
  | CWait, Go => Some (set_writer CAsleep (set_mutex None s))
  | CAsleep, WakeSpuriously => Some (set_writer CRelock s)
  | CRelock, Go =>
      match log_mutex_ s with
      | None => Some (set_writer CUnlock (set_mutex (Some Cons) s))
      | Some _ => None
      end
  | CUnlock, Go => Some (set_writer CTestStop (set_mutex None s))
  | _, _ => Dequeue_step m s
  end.

Definition EndLogger_step (m : move) (s : Logger) : option Logger :=
  match closer s, m with
  | EIdle, Call _ => Some (set_closer EStore s)
  | EStore, Go => Some (set_closer ENotify (set_stopping true s))
  | ENotify, Go => Some (set_closer EJoin (notify_one s))
  | EJoin, Go => match writer s with CExit => Some (set_closer EDone s) | _ => None end
  | _, _ => None
  end.

Definition step (a : actor) (m : move) (s : Logger) : option Logger :=
  match a with
  | Prod i => Enqueue_step i m s
  | Cons => WriteDownLogs_step m s
  | Ender => EndLogger_step m s
  end.

(** A run: what each actor does in turn; moves that are not possible are
    skipped. *)
Fixpoint run (l : list (actor * move)) (s : Logger) : Logger :=
  match l with
  | [] => s
  | (a, m) :: l => run l (default s (step a m s))
  end.

End logger.
