(* ===== verification/LoggerFacts.v ===== *)
(** * Facts about the logger

    The invariant of the ring, of its counter and of the sleeping writer, kept
    by every step, and what they give: records are written down in the order
    in which they were taken, none is lost or doubled, a record is refused only
    when the ring is full, and the writer never sleeps over records. *)

From stdpp Require Import prelude list.
From coqutil Require Import Byte.
From S2P Require Import Prelude.
From S2P Require Import Logger.

(** ** Counting *)

Definition b2z (b : bool) : Z := if b then 1 else 0.

Fixpoint zcount {A} (f : A -> bool) (l : list A) : Z :=
  match l with [] => 0 | x :: l => b2z (f x) + zcount f l end.

Lemma zcount_insert {A} (f : A -> bool) l i x y :
  l !! i = Some x -> zcount f (<[i := y]> l) = zcount f l - b2z (f x) + b2z (f y).
Proof.
  revert i. induction l as [|z l IH]; intros [|i] Hi; simplify_eq/=; [lia|].
  rewrite (IH i Hi). lia.
Qed.

Lemma zcount_nonneg {A} (f : A -> bool) l : 0 <= zcount f l.
Proof. induction l as [|x l IH]; simpl; [lia|]. destruct (f x); simpl; lia. Qed.

Lemma zcount_zero {A} (f : A -> bool) l : Forall (fun x => f x = false) l -> zcount f l = 0.
Proof. induction 1 as [|x l Hx _ IH]; simpl; [done|]. rewrite Hx, IH. done. Qed.

Lemma zlookup_app_old {A} p (l : list A) x y : zlookup p l = Some x -> zlookup p (l ++ [y]) = Some x.
Proof. rewrite !zlookup_Some. intros [Hp Hl]. split; [done|]. by apply lookup_app_l_Some. Qed.

Lemma zlookup_app_new {A} (l : list A) y : zlookup (zlen l) (l ++ [y]) = Some y.
Proof.
  apply zlookup_Some. unfold zlen. split; [lia|]. rewrite Nat2Z.id. by apply list_lookup_middle.
Qed.

Lemma ztake_snoc {A} p (l : list A) x :
  zlookup p l = Some x -> ztake (p + 1) l = ztake p l ++ [x].
Proof.
  rewrite zlookup_Some. intros [Hp Hl]. unfold ztake.
  replace (Z.to_nat (p + 1)) with (S (Z.to_nat p)) by lia. by apply take_S_r.
Qed.

Section facts.
Context (bits : nat) (Hbits : (1 <= bits < 62)%nat).
Abbreviation N := (kLogBufferSize bits).
Abbreviation slot_of := (slot_of bits).

Lemma N_range : 2 <= N < 2 ^ 62.
Proof.
  unfold kLogBufferSize. split.
  - change 2 with (2 ^ 1) at 1. apply Z.pow_le_mono_r; lia.
  - apply Z.pow_lt_mono_r; lia.
Qed.

Lemma slot_of_mod p : slot_of p = p mod N.
Proof.
  unfold Logger.slot_of, kLogBufferMask, kLogBufferSize. rewrite <-Z.land_ones by lia. f_equal.
  rewrite Z.ones_equiv. lia.
Qed.

(** Positions less than a ring apart have different slots. *)
Lemma slot_of_inj p q : slot_of p = slot_of q -> - N < p - q < N -> p = q.
Proof.
  rewrite !slot_of_mod. intros Heq Hd. pose proof N_range.
  pose proof (Z.div_mod p N ltac:(lia)) as Hp. pose proof (Z.div_mod q N ltac:(lia)) as Hq.
  rewrite Heq in Hp. generalize dependent (q mod N). intros r _ Hp Hq.
  generalize dependent (p / N). intros a Hp. generalize dependent (q / N). intros b Hq.
  assert (a = b) by nia. congruence.
Qed.

Lemma slot_of_wrap p : slot_of (p + N) = slot_of p.
Proof.
  rewrite !slot_of_mod. pose proof N_range. replace (p + N) with (p + 1 * N) by lia.
  apply Z.mod_add. lia.
Qed.

(** The signed difference of two positions. *)
Lemma diff_eq a b : 0 <= a < 2 ^ 63 -> 0 <= b < 2 ^ 63 -> s64 (s64 a - s64 b) = a - b.
Proof. intros. unfold s64. rewrite (sext_small 64 a), (sext_small 64 b), sext_small by lia. done. Qed.

(** ** The ring *)

(** The position a call has taken and not yet published. *)
Definition claim (q : producer) : option Z :=
  match q with PWrite _ pos | PPublish pos => Some pos | _ => None end.

(** The first position whose slot has not been given back. *)
Definition released (s : Logger) : Z :=
  match writer s with CTake pos | CRelease pos _ => pos | _ => read_index_ s end.

(** The writer holds a record that is not yet written down. *)
Definition in_flight (c : consumer) : bool :=
  match c with CTake _ | CRelease _ _ | CCount _ | CFile _ => true | _ => false end.

Definition slot (s : Logger) (p : Z) : LogSlot := log_buffer_ s (slot_of p).
#[local] Arguments slot : simpl never.

(** What a call of [Enqueue] relies on. *)
Definition producer_ok (s : Logger) (q : producer) : Prop :=
  match q with
  | PSeq _ pos => 0 <= pos <= write_index_ s
  | PCas _ pos => 0 <= pos <= write_index_ s /\ (pos = write_index_ s -> pos < released s + N)
  | PWrite d pos =>
      read_index_ s <= pos < write_index_ s /\ seq (slot s pos) = pos /\ zlookup pos (accepted s) = Some d
  | PPublish pos =>
      read_index_ s <= pos < write_index_ s /\ seq (slot s pos) = pos /\
      zlookup pos (accepted s) = Some (data (slot s pos))
  | _ => True
  end.

(** What the writer relies on. *)
Definition writer_ok (s : Logger) : Prop :=
  match writer s with
  | CSeq pos => pos = read_index_ s
  | CCas pos => pos = read_index_ s /\ pos < write_index_ s /\ seq (slot s pos) = pos + 1
  | CTake pos =>
      read_index_ s = pos + 1 /\ seq (slot s pos) = pos + 1 /\
      zlookup pos (accepted s) = Some (data (slot s pos))
  | CRelease pos d =>
      read_index_ s = pos + 1 /\ seq (slot s pos) = pos + 1 /\ zlookup pos (accepted s) = Some d
  | CCount d | CFile d => zlookup (read_index_ s - 1) (accepted s) = Some d
  | _ => True
  end.

(** The slot of a position in the window of the ring. *)
Definition slot_ok (s : Logger) (p : Z) : Prop :=
  if p <? write_index_ s then
    (seq (slot s p) = p /\ read_index_ s <= p /\
     exists i q, producers s !! i = Some q /\ claim q = Some p) \/
    (seq (slot s p) = p + 1 /\ (read_index_ s <= p -> zlookup p (accepted s) = Some (data (slot s p))))
  else seq (slot s p) = p.

Record ring_ok (s : Logger) : Prop := {
  ring_accepted : write_index_ s = zlen (accepted s);
  ring_released : 0 <= released s;
  ring_read : read_index_ s <= write_index_ s;
  ring_write : write_index_ s <= released s + N;
  ring_bound : write_index_ s < 2 ^ 62;
  ring_slots : forall p, released s <= p < released s + N -> slot_ok s p;
  ring_producers : forall i q, producers s !! i = Some q -> producer_ok s q;
  ring_claims : forall i j q q' p, producers s !! i = Some q -> producers s !! j = Some q' ->
    claim q = Some p -> claim q' = Some p -> i = j;
  ring_writer : writer_ok s;
  ring_file : file s = ztake (read_index_ s - b2z (in_flight (writer s))) (accepted s);
}.

Lemma ring_new n : ring_ok (Logger_new n).
Proof using Hbits.
  pose proof N_range. assert (released (Logger_new n) = 0) as Hrel by done.
  split; simpl; rewrite ?Hrel; try lia; try done.
  - intros p Hp. unfold slot_ok, slot, Logger_new. simpl. rewrite (proj2 (Z.ltb_ge _ _)) by lia.
    rewrite slot_of_mod. apply Z.mod_small. lia.
  - intros i q [-> _]%lookup_replicate. done.
  - intros i j q q' p [-> _]%lookup_replicate. done.
Qed.

(** *** Steps that leave the ring alone *)

(** A call moves on without a position. *)
Lemma ring_set_producer i q q' s :
  ring_ok s -> producers s !! i = Some q -> claim q = None -> claim q' = None -> producer_ok s q' ->
  ring_ok (set_producer i q' s).
Proof.
  intros [] Hi Hq Hq' Hok. split; simpl; try done.
  - intros p Hp. specialize (ring_slots0 p Hp). unfold slot_ok in *. simpl.
    destruct (p <? write_index_ s); [|done].
    destruct ring_slots0 as [(Hs & Hr & j & r & Hj & Hc)|]; [left|by right].
    split; [done|]. split; [done|]. exists j, r. split; [|done].
    rewrite list_lookup_insert_ne; [done|]. intros ->. congruence.
  - intros j r. rewrite list_lookup_insert_Some. intros [(-> & <- & _)|[_ Hj]]; [done|].
    exact (ring_producers0 j r Hj).
  - intros j k r r' p. rewrite !list_lookup_insert_Some.
    intros [(-> & <- & _)|[_ Hj]] [(-> & <- & _)|[_ Hk]]; try congruence. by eauto.
Qed.

(** The writer moves on without a position. *)
Lemma ring_set_writer c s :
  ring_ok s -> released (set_writer c s) = released s -> in_flight c = in_flight (writer s) ->
  writer_ok (set_writer c s) -> ring_ok (set_writer c s).
Proof.
  intros [] Hrel Hfl Hok. split; simpl; try done; rewrite ?Hrel; try done.
  - intros i q Hi. specialize (ring_producers0 i q Hi). unfold producer_ok in *. by rewrite Hrel.
  - by rewrite Hfl.
Qed.

(** Fields the ring does not look at. *)
Lemma ring_irrelevant s s' :
  ring_ok s -> write_index_ s' = write_index_ s -> read_index_ s' = read_index_ s ->
  log_buffer_ s' = log_buffer_ s -> producers s' = producers s -> writer s' = writer s ->
  file s' = file s -> accepted s' = accepted s -> ring_ok s'.
Proof.
  intros [] HW HR HB HP Hw Hf Ha.
  assert (released s' = released s) as Hrel by (unfold released; by rewrite Hw, HR).
  assert (forall p, slot s' p = slot s p) as Hslot by (intros; unfold slot; by rewrite HB).
  split; rewrite ?Hrel, ?HW, ?HR, ?HP, ?Hw, ?Hf, ?Ha; try done.
  - intros p Hp. specialize (ring_slots0 p Hp). unfold slot_ok in *.
    by rewrite !HW, !Hslot, HR, HP, Ha.
  - intros i q Hi. specialize (ring_producers0 i q Hi). unfold producer_ok in *.
    destruct q; rewrite ?HW, ?HR, ?Hslot, ?Ha, ?Hrel; done.
  - unfold writer_ok in *. rewrite Hw. destruct (writer s); rewrite ?HW, ?HR, ?Hslot, ?Ha; done.
Qed.

(** *** Steps on the ring *)

Lemma slot_set_buffer s pos v p :
  - N < p - pos < N ->
  slot (set_buffer (slot_of pos) v s) p = if p =? pos then v else slot s p.
Proof using Hbits.
  intros Hd. unfold slot. simpl. destruct (Z.eqb_spec p pos) as [->|Hne]; [by rewrite Z.eqb_refl|].
  destruct (Z.eqb_spec (slot_of p) (slot_of pos)) as [Heq|]; [|done].
  by apply slot_of_inj in Heq.
Qed.

Lemma lookup_claim s i q p :
  ring_ok s -> producers s !! i = Some q -> claim q = Some p ->
  read_index_ s <= p < write_index_ s /\ seq (slot s p) = p.
Proof. intros Hs Hi Hc. pose proof (ring_producers s Hs i q Hi). destruct q; simplify_eq/=; tauto. Qed.

(** A slot of the window that says [p + 1] or [p] says which. *)
Lemma ring_published s p :
  ring_ok s -> released s <= p < released s + N -> seq (slot s p) = p + 1 -> p < write_index_ s.
Proof.
  intros Hs Hp Hseq. pose proof (ring_slots s Hs p Hp) as Hok. unfold slot_ok in Hok.
  destruct (Z.ltb_spec p (write_index_ s)); [done|lia].
Qed.

Lemma released_read s : ring_ok s -> released s <= read_index_ s <= released s + 1.
Proof.
  intros Hs. pose proof (ring_writer s Hs) as Hw. unfold writer_ok, released in *.
  destruct (writer s); lia.
Qed.

(** The exchange of [Enqueue] succeeds. *)
Lemma ring_take_position i d s :
  ring_ok s -> producers s !! i = Some (PCas d (write_index_ s)) -> write_index_ s + 1 < 2 ^ 62 ->
  ring_ok (set_producer i (PWrite d (write_index_ s)) (take_position d s)).
Proof using Hbits.
  intros Hs Hi Hmax. pose proof (released_read s Hs) as HRr. pose proof N_range.
  destruct (ring_producers s Hs i _ Hi) as [Hpos Hroom]. specialize (Hroom eq_refl).
  pose proof (ring_slots s Hs (write_index_ s) ltac:(pose proof (ring_read s Hs); lia)) as Hfree.
  unfold slot_ok in Hfree. rewrite Z.ltb_irrefl in Hfree.
  set (s' := set_producer _ _ _).
  assert (write_index_ s' = write_index_ s + 1) as HW by (simpl; apply u64_small; lia).
  assert (released s' = released s) as Hrel by done.
  pose proof (ring_read s Hs). destruct Hs. split; rewrite ?HW, ?Hrel; try done; try lia.
  - simpl. rewrite zlen_app, ring_accepted0. done.
  - simpl. lia.
  - intros p Hp. specialize (ring_slots0 p Hp). unfold slot_ok in *. rewrite HW. simpl.
    destruct (Z.ltb_spec p (write_index_ s)).
    + rewrite (proj2 (Z.ltb_lt p _)) by lia.
      destruct ring_slots0 as [(Hs & Hr & j & r & Hj & Hc)|[Hs Hd]]; [left|right].
      * split; [done|]. split; [done|]. exists j, r. split; [|done].
        rewrite list_lookup_insert_ne; [done|]. intros ->. by simplify_eq/=.
      * split; [done|]. intros Hr. by apply zlookup_app_old, Hd.
    + destruct (Z.ltb_spec p (write_index_ s + 1)); [|done]. left.
      assert (p = write_index_ s) as -> by lia. split; [done|]. split; [done|].
      exists i. eexists. split; [apply list_lookup_insert_eq; by eapply lookup_lt_Some|done].
  - intros j r. simpl. rewrite list_lookup_insert_Some. intros [(-> & <- & _)|[_ Hj]].
    + unfold producer_ok. rewrite HW. simpl. split_and!; [lia|lia|done|].
      rewrite ring_accepted0. apply zlookup_app_new.
    + specialize (ring_producers0 j r Hj). unfold producer_ok in *. rewrite ?HW, ?Hrel. simpl.
      destruct r; try done; try lia; (destruct ring_producers0 as (? & ? & ?);
        split_and!; [lia|lia|done|by apply zlookup_app_old]).
  - intros j k r r' p. simpl. rewrite !list_lookup_insert_Some.
    assert (forall j r, producers s !! j = Some r -> claim r <> Some (write_index_ s)) as Hno.
    { intros j' r1 Hj Hc. specialize (ring_producers0 j' r1 Hj). destruct r1; simplify_eq/=; lia. }
    intros [(-> & <- & _)|[_ Hj]] [(-> & <- & _)|[_ Hk]] Hc Hc'; simplify_eq/=; try done.
    + by apply Hno in Hk.
    + by apply Hno in Hj.
    + eauto.
  - unfold writer_ok in *. rewrite HW. simpl.
    destruct (writer s); try done; [| | |by apply zlookup_app_old..].
    + destruct ring_writer0 as (? & ? & ?). split_and!; [done|lia|done].
    + destruct ring_writer0 as (? & ? & ?). split_and!; [done|done|by apply zlookup_app_old].
    + destruct ring_writer0 as (? & ? & ?). split_and!; [done|done|by apply zlookup_app_old].
  - simpl. rewrite ring_file0. symmetry. apply ztake_app_l.
    destruct (in_flight (writer s)); simpl; lia.
Qed.

(** The record is stored in its slot, or the slot is published. *)
Lemma ring_fill i q q' pos v s :
  ring_ok s -> producers s !! i = Some q -> claim q = Some pos ->
  zlookup pos (accepted s) = Some (data v) ->
  (q' = PPublish pos /\ seq v = pos) \/ (q' = PCount /\ seq v = pos + 1) ->
  ring_ok (set_producer i q' (set_buffer (slot_of pos) v s)).
Proof using Hbits.
  intros Hs Hi Hq Hd Hv. pose proof (released_read s Hs). pose proof N_range.
  destruct (lookup_claim s i q pos Hs Hi Hq) as [Hpos Hseq].
  set (s' := set_producer _ _ _). assert (released s' = released s) as Hrel by done.
  assert (forall p, released s <= p < released s + N -> slot s' p = if p =? pos then v else slot s p)
    as Hslot by (intros; apply slot_set_buffer; pose proof (ring_write s Hs); lia).
  destruct Hs. split; rewrite ?Hrel; try done.
  - intros p Hp. specialize (ring_slots0 p Hp). unfold slot_ok in *. rewrite Hslot by done. simpl.
    destruct (Z.ltb_spec p (write_index_ s)), (Z.eqb_spec p pos) as [->|Hne]; try done; try lia.
    + destruct Hv as [[-> Hv]|[-> Hv]]; [left|right; done].
      split; [done|]. split; [lia|]. exists i, (PPublish pos). split; [|done].
      apply list_lookup_insert_eq. by eapply lookup_lt_Some.
    + destruct ring_slots0 as [(Hs & Hr & j & r & Hj & Hc)|]; [left|by right].
      split; [done|]. split; [done|]. exists j, r. split; [|done].
      rewrite list_lookup_insert_ne; [done|]. intros ->. congruence.
  - intros j r. simpl. rewrite list_lookup_insert_Some. intros [(-> & <- & _)|[Hne Hj]].
    + destruct Hv as [[-> Hv]|[-> Hv]]; [|done]. unfold producer_ok. rewrite Hslot by lia.
      rewrite Z.eqb_refl. done.
    + pose proof (ring_producers0 j r Hj) as Hr. unfold producer_ok in *.
      destruct r; try done; rewrite ?Hslot by lia.
      all: destruct (Z.eqb_spec pos0 pos) as [->|]; [|done].
      all: destruct Hne; by eapply (ring_claims0 _ _ _ _ pos Hi Hj).
  - intros j k r r' p. simpl. rewrite !list_lookup_insert_Some.
    assert (forall x, claim q' = Some x -> x = pos) as Hq'
      by (intros x; destruct Hv as [[-> _]|[-> _]]; simpl; congruence).
    intros [(<- & <- & _)|[Hne Hj]] [(<- & <- & _)|[Hne' Hk]] Hc Hc'; try done.
    + apply Hq' in Hc as ->. destruct Hne'. by eapply (ring_claims0 _ _ _ _ pos).
    + apply Hq' in Hc' as ->. destruct Hne. by eapply (ring_claims0 _ _ _ _ pos).
    + eauto.
  - unfold writer_ok, released in *. simpl. destruct (writer s); try done;
      rewrite Hslot by lia; destruct (Z.eqb_spec pos0 pos) as [->|]; done || lia.
Qed.

(** [Dequeue]'s exchange succeeds. *)
Lemma ring_advance pos s :
  ring_ok s -> writer s = CCas pos -> ring_ok (set_writer (CTake pos) (advance_read s)).
Proof using Hbits.
  intros Hs Hw. pose proof N_range. pose proof (ring_writer s Hs) as Hok. unfold writer_ok in Hok.
  rewrite Hw in Hok. destruct Hok as (-> & HltW & Hseq).
  pose proof (ring_released s Hs) as H0. pose proof (ring_slots s Hs (read_index_ s)) as Hslot.
  pose proof (ring_file s Hs) as Hfile. pose proof (ring_bound s Hs) as Hbound.
  assert (released s = read_index_ s) as Hrel by (unfold released; by rewrite Hw).
  rewrite Hw in Hfile. simpl in Hfile. rewrite Hrel in *. specialize (Hslot ltac:(lia)).
  unfold slot_ok in Hslot. rewrite (proj2 (Z.ltb_lt _ _) HltW) in Hslot.
  destruct Hslot as [(? & _)|[_ Hdata]]; [lia|]. specialize (Hdata ltac:(lia)).
  set (s' := set_writer _ _).
  assert (read_index_ s' = read_index_ s + 1) as HR by (simpl; apply u64_small; lia).
  assert (released s' = released s) as Hrel' by done.
  assert (forall p, slot s' p = slot s p) as Hsl by done.
  destruct Hs. rewrite Hrel in *. split; rewrite ?Hrel', ?Hrel, ?HR; try done; simpl.
  - lia.
  - intros p Hp. specialize (ring_slots0 p Hp). unfold slot_ok in *. rewrite HR, !Hsl. simpl.
    destruct (p <? write_index_ s); [|done].
    destruct ring_slots0 as [(Hs & Hr & Hex)|[Hs Hd]]; [left|right].
    + split; [done|]. split; [|done]. destruct (decide (p = read_index_ s)) as [->|]; lia.
    + split; [done|]. intros. apply Hd. lia.
  - intros i q Hi. pose proof (ring_producers0 i q Hi) as Hq. unfold producer_ok in *.
    rewrite ?Hrel', ?Hrel, ?HR. rewrite Hrel in Hq. simpl.
    destruct q; try done; destruct Hq as (? & Hqs & ?); rewrite Hsl; split_and!; try done; try lia.
    all: destruct (decide (pos = read_index_ s)) as [->|]; lia.
  - rewrite Hfile. f_equal. lia.
Qed.

(** The record leaves its slot. *)
Lemma ring_take pos s :
  ring_ok s -> writer s = CTake pos ->
  ring_ok (set_writer (CRelease pos (data (slot s pos)))
             (set_buffer (slot_of pos) (mkSlot (seq (slot s pos)) []) s)).
Proof using Hbits.
  intros Hs Hw. pose proof N_range. pose proof (ring_writer s Hs) as Hok. unfold writer_ok in Hok.
  rewrite Hw in Hok. destruct Hok as (HR & Hseq & Hdata).
  assert (released s = pos) as Hrel by (unfold released; by rewrite Hw).
  set (s' := set_writer _ _). assert (released s' = pos) as Hrel' by done.
  assert (forall p, pos <= p < pos + N ->
    slot s' p = if p =? pos then mkSlot (seq (slot s pos)) [] else slot s p) as Hsl
    by (intros; apply slot_set_buffer; lia).
  pose proof (ring_file s Hs) as Hfile. rewrite Hw in Hfile.
  destruct Hs. rewrite Hrel in *. split; rewrite ?Hrel'; try done.
  - intros p Hp. specialize (ring_slots0 p Hp). unfold slot_ok in *. rewrite Hsl by done. simpl.
    destruct (Z.eqb_spec p pos) as [->|]; [|done]. destruct (pos <? write_index_ s); [|done].
    destruct ring_slots0 as [(? & ? & _)|[? _]]; [lia|]. right. split; [done|]. lia.
  - intros i q Hi. pose proof (ring_producers0 i q Hi) as Hq. unfold producer_ok in *.
    rewrite Hrel in Hq. rewrite ?Hrel'. simpl.
    destruct q; try done; rewrite Hsl by lia; rewrite (proj2 (Z.eqb_neq _ _)) by lia; done.
  - unfold writer_ok. simpl. rewrite Hsl, Z.eqb_refl by lia. done.
Qed.

(** The slot is given back for the next round. *)
Lemma ring_release pos d s :
  ring_ok s -> writer s = CRelease pos d ->
  ring_ok (set_writer (CCount d)
             (set_buffer (slot_of pos) (mkSlot (u64 (pos + N)) (data (slot s pos))) s)).
Proof using Hbits.
  intros Hs Hw. pose proof N_range. pose proof (ring_writer s Hs) as Hok. unfold writer_ok in Hok.
  rewrite Hw in Hok. destruct Hok as (HR & Hseq & Hdata).
  assert (released s = pos) as Hrel by (unfold released; by rewrite Hw).
  set (s' := set_writer _ _). assert (released s' = pos + 1) as Hrel' by done.
  assert (forall p, pos < p < pos + N -> slot s' p = slot s p) as Hsl.
  { intros p Hp. unfold s'. etransitivity; [apply slot_set_buffer; lia|].
    by rewrite (proj2 (Z.eqb_neq _ _)) by lia. }
  pose proof (ring_file s Hs) as Hfile. rewrite Hw in Hfile. pose proof (ring_bound s Hs).
  assert (seq (slot s' (pos + N)) = pos + N) as Hnew.
  { unfold slot. rewrite slot_of_wrap. simpl. rewrite Z.eqb_refl. simpl. apply u64_small.
    pose proof (ring_released s Hs). pose proof (ring_read s Hs). lia. }
  destruct Hs. rewrite Hrel in *. split; rewrite ?Hrel'; try done.
  - lia.
  - simpl. lia.
  - intros p Hp. unfold slot_ok. destruct (decide (p = pos + N)) as [->|].
    { simpl. rewrite (proj2 (Z.ltb_ge _ _)) by lia. done. }
    specialize (ring_slots0 p ltac:(lia)). unfold slot_ok in *. rewrite Hsl by lia. done.
  - intros i q Hi. pose proof (ring_producers0 i q Hi) as Hq. unfold producer_ok in *.
    rewrite Hrel in Hq. rewrite ?Hrel'. simpl.
    destruct q; try done; [lia| |]; rewrite Hsl by lia; done.
  - unfold writer_ok. simpl. by replace (read_index_ s - 1) with pos by lia.
Qed.

(** The record is written down. *)
Lemma ring_file_step d s :
  ring_ok s -> writer s = CFile d -> ring_ok (set_writer CLoad (write_file d s)).
Proof.
  intros Hs Hw. pose proof (ring_writer s Hs) as Hok. unfold writer_ok in Hok. rewrite Hw in Hok.
  pose proof (ring_file s Hs) as Hfile. rewrite Hw in Hfile. simpl in Hfile.
  set (s' := set_writer _ _).
  assert (released s' = released s) as Hrel by (unfold released, s'; simpl; by rewrite Hw).
  destruct Hs. split; rewrite ?Hrel; try done.
  - intros i q Hi. specialize (ring_producers0 i q Hi). unfold producer_ok in *. by rewrite Hrel.
  - simpl. rewrite Hfile, <-(ztake_snoc _ _ _ Hok). f_equal. lia.
Qed.

(** *** Every step *)

Lemma window_slot s pos :
  ring_ok s -> exists p, released s <= p < released s + N /\ slot s pos = slot s p /\
    (exists k, pos = p + k * N) /\ (seq (slot s p) = p \/ seq (slot s p) = p + 1).
Proof using Hbits.
  intros Hs. pose proof N_range. set (k := (pos - released s) / N).
  pose proof (Z.div_mod (pos - released s) N ltac:(lia)) as Hdm. fold k in Hdm.
  pose proof (Z.mod_pos_bound (pos - released s) N ltac:(lia)) as Hb.
  exists (released s + (pos - released s) mod N). set (p := released s + _).
  assert (pos = p + k * N) as Hpos by (unfold p; lia).
  split_and!; [unfold p; lia|unfold p; lia| |by exists k|].
  - unfold slot. rewrite !slot_of_mod. rewrite Hpos at 1. rewrite Z.mod_add by lia. done.
  - pose proof (ring_slots s Hs p ltac:(unfold p; lia)) as Hok. unfold slot_ok in Hok.
    destruct (p <? write_index_ s); tauto.
Qed.

(** What [Enqueue] learns from the slot of a position up to [write_index_]. *)
Lemma enqueue_diff s pos :
  ring_ok s -> 0 <= pos <= write_index_ s ->
  let diff := s64 (s64 (seq (log_buffer_ s (slot_of pos))) - s64 pos) in
  diff = seq (slot s pos) - pos /\
  (diff = 0 -> pos = write_index_ s -> pos < released s + N) /\
  (diff < 0 -> pos = write_index_ s /\ write_index_ s = released s + N).
Proof using Hbits.
  intros Hs Hpos. pose proof N_range. pose proof (ring_bound s Hs). pose proof (ring_released s Hs).
  pose proof (ring_write s Hs). pose proof (ring_read s Hs). pose proof (released_read s Hs).
  change (log_buffer_ s (slot_of pos)) with (slot s pos).
  destruct (window_slot s pos Hs) as (p & Hp & -> & [k Hk] & Hseq).
  cbv zeta. rewrite diff_eq by lia. split; [done|].
  assert (forall a, k = a -> pos = p + a * N) as Hka by (intros; by subst).
  assert (k <= 1) as Hk1 by nia.
  destruct (decide (k = 1)) as [->|Hk1'].
  - split; intros; lia.
  - destruct (decide (k = 0)) as [->|]; [split; intros; lia|].
    assert (pos <= p - N) by nia. split; intros; lia.
Qed.

Lemma dequeue_diff s :
  ring_ok s -> released s = read_index_ s ->
  let pos := read_index_ s in
  let diff := s64 (s64 (seq (log_buffer_ s (slot_of pos))) - s64 (u64 (pos + 1))) in
  diff = seq (slot s pos) - (pos + 1) /\ (diff = 0 \/ diff = -1).
Proof using Hbits.
  intros Hs Hrel. pose proof N_range. pose proof (ring_bound s Hs). pose proof (ring_released s Hs).
  pose proof (ring_write s Hs). pose proof (ring_read s Hs). cbv zeta.
  change (log_buffer_ s (slot_of (read_index_ s))) with (slot s (read_index_ s)).
  pose proof (ring_slots s Hs (read_index_ s) ltac:(lia)) as Hok. unfold slot_ok in Hok.
  assert (seq (slot s (read_index_ s)) = read_index_ s \/
          seq (slot s (read_index_ s)) = read_index_ s + 1) as Hseq
    by (destruct (_ <? _); tauto).
  rewrite u64_small, diff_eq by lia. lia.
Qed.

Lemma Enqueue_step_ring i m s s' :
  ring_ok s -> write_index_ s + 1 < 2 ^ 62 -> Enqueue_step bits i m s = Some s' ->
  ring_ok s' /\ write_index_ s' <= write_index_ s + 1.
Proof using Hbits.
  intros Hs Hmax Hstep. pose proof (ring_read s Hs). pose proof (ring_released s Hs).
  pose proof (released_read s Hs).
  unfold Enqueue_step in Hstep. destruct (producers s !! i) as [q|] eqn:Hi; [|done].
  pose proof (ring_producers s Hs i q Hi) as Hq.
  assert (forall q', claim q = None -> claim q' = None -> producer_ok s q' ->
    ring_ok (set_producer i q' s)) as Hset by (intros; by eapply ring_set_producer).
  destruct q, m; simplify_eq/=; try (split; [apply Hset|]; simpl; (done || lia)).
  - destruct Hq as [Hpos0 Hpos]. destruct (enqueue_diff s pos Hs) as (Hd & Hroom & _); [done|].
    change (Logger.slot_of bits pos) with (slot_of pos). set (diff := s64 _) in *.
    destruct (Z.eqb_spec diff 0); [|destruct (diff <? 0)]; (split; [apply Hset|]; simpl; (done || lia || auto)).
  - destruct (Z.eqb_spec (write_index_ s) pos) as [<-|].
    + split; [by apply ring_take_position|]. simpl. rewrite u64_small; lia.
    + split; [apply Hset|]; simpl; (done || lia).
  - split; [|simpl; lia]. destruct Hq as (Hr & Hseq & Hacc).
    eapply ring_fill; [done|done|done|done|]. left. split; [done|]. exact Hseq.
  - split; [|simpl; lia]. destruct Hq as (Hr & Hseq & Hacc). pose proof (ring_bound s Hs).
    eapply ring_fill; [done|done|done|done|]. right. split; [done|]. simpl. apply u64_small. lia.
  - split; [|simpl; lia].
    apply (ring_irrelevant (set_producer i (if pending_ s =? 0 then PLock else PIdle) s)); try done.
    apply Hset; [done|by destruct (_ =? _)..].
  - destruct (log_mutex_ s); [done|]. simplify_eq. split; [|simpl; lia].
    apply (ring_irrelevant (set_producer i PHeld s)); try done. by apply Hset.
  - split; [|unfold notify_one; destruct (writer s); simpl; lia].
    assert (ring_ok (set_producer i PIdle s)) as Hs' by (by apply Hset).
    unfold notify_one. destruct (writer s) eqn:Hw; try (by eapply ring_irrelevant; [exact Hs'|..]).
    apply (ring_irrelevant (set_writer CRelock (set_producer i PIdle s))); try done.
    apply ring_set_writer; try done; unfold released; simpl; by rewrite Hw.
Qed.

Lemma WriteDownLogs_step_ring m s s' :
  ring_ok s -> WriteDownLogs_step bits m s = Some s' ->
  ring_ok s' /\ write_index_ s' = write_index_ s.
Proof using Hbits.
  intros Hs Hstep. pose proof (ring_writer s Hs) as Hok.
  assert (forall c, released (set_writer c s) = released s -> in_flight c = in_flight (writer s) ->
    writer_ok (set_writer c s) -> ring_ok (set_writer c s)) as Hset
    by (intros; by apply ring_set_writer).
  unfold WriteDownLogs_step, Dequeue_step, writer_ok, released in *.
  destruct (writer s) eqn:Hw, m; simplify_eq/=.
  all: try (split; [by apply Hset|done]).
  all: try (split; [|done]; match goal with
    | |- ring_ok (set_writer (if ?b then _ else _) _) => destruct b end; by apply Hset).
  - destruct (dequeue_diff s Hs) as [Hd Hcase]; [unfold released; by rewrite Hw|].
    split; [|done]. cbv zeta in Hd, Hcase.
    change (Logger.slot_of bits (read_index_ s)) with (slot_of (read_index_ s)).
    set (diff := s64 _) in *. destruct (Z.eqb_spec diff 0) as [H0|H0].
    + apply Hset; simpl; try done. assert (seq (slot s (read_index_ s)) = read_index_ s + 1) by lia.
      split_and!; [done| |done]. eapply ring_published; [done| |done].
      pose proof N_range. unfold released. rewrite Hw. lia.
    + destruct (diff <? 0); by apply Hset.
  - destruct Hok as (-> & _). rewrite Z.eqb_refl. split; [by apply ring_advance|done].
  - split; [by apply ring_take|done].
  - split; [by apply ring_release|done].
  - split; [|done]. apply (ring_irrelevant (set_writer (CFile d) s)); try done. by apply Hset.
  - split; [by apply ring_file_step|done].
  - destruct (log_mutex_ s); [done|]. simplify_eq. split; [|done].
    apply (ring_irrelevant (set_writer CTestStopLocked s)); try done. by apply Hset.
  - split; [|done]. apply (ring_irrelevant (set_writer CAsleep s)); try done. by apply Hset.
  - destruct (log_mutex_ s); [done|]. simplify_eq. split; [|done].
    apply (ring_irrelevant (set_writer CUnlock s)); try done. by apply Hset.
  - split; [|done]. apply (ring_irrelevant (set_writer CTestStop s)); try done. by apply Hset.
Qed.

Lemma EndLogger_step_ring m s s' :
  ring_ok s -> EndLogger_step m s = Some s' -> ring_ok s' /\ write_index_ s' = write_index_ s.
Proof.
  intros Hs Hstep. unfold EndLogger_step, notify_one in *.
  destruct (closer s), m; simplify_eq/=; try (split; [by eapply ring_irrelevant; [exact Hs|..]|done]).
  - destruct (writer s) eqn:Hw; (split; [|done]);
      try (by eapply ring_irrelevant; [exact Hs|try done..]).
    apply (ring_irrelevant (set_writer CRelock s)); try done.
    apply ring_set_writer; try done; unfold released; simpl; by rewrite Hw.
  - destruct (writer s); simplify_eq. split; [by eapply ring_irrelevant; [exact Hs|..]|done].
Qed.

Lemma step_ring a m s s' :
  ring_ok s -> write_index_ s + 1 < 2 ^ 62 -> step bits a m s = Some s' ->
  ring_ok s' /\ write_index_ s' <= write_index_ s + 1.
Proof using Hbits.
  intros Hs Hmax Hstep. destruct a as [i| |]; simpl in Hstep.
  - by eapply Enqueue_step_ring.
  - apply WriteDownLogs_step_ring in Hstep as [? ->]; [split; [done|lia]|done].
  - apply EndLogger_step_ring in Hstep as [? ->]; [split; [done|lia]|done].
Qed.

Lemma run_ring l s :
  ring_ok s -> write_index_ s + zlen l < 2 ^ 62 -> ring_ok (run bits l s).
Proof using Hbits.
  revert s. induction l as [|[a m] l IH]; intros s Hs Hmax; [done|].
  rewrite zlen_cons in Hmax. pose proof (zlen_nonneg l). simpl.
  destruct (step bits a m s) as [s'|] eqn:Hstep; simpl; [|apply IH; [done|lia]].
  destruct (step_ring a m s s' Hs ltac:(lia) Hstep). apply IH; [done|lia].
Qed.

(** ** The counter *)

(** A call that has a position and has not counted it. *)
Definition uncounted (q : producer) : bool :=
  match q with PWrite _ _ | PPublish _ | PCount => true | _ => false end.

(** The writer has taken a position and has not counted it off. *)
Definition uncounted_off (c : consumer) : bool :=
  match c with CTake _ | CRelease _ _ | CCount _ => true | _ => false end.

(** [pending_] is the number of records in the ring, up to the calls under way;
    it passes below zero while a record is taken before it is counted. *)
Definition pending_ok (s : Logger) : Prop :=
  pending_ s = u64 (write_index_ s - zcount uncounted (producers s)
                    - (read_index_ s - b2z (uncounted_off (writer s)))).

Lemma u64_succ a : u64 (u64 a + 1) = u64 (a + 1).
Proof. unfold u64. apply Zplus_mod_idemp_l. Qed.

Lemma u64_pred a : u64 (u64 a - 1) = u64 (a - 1).
Proof. unfold u64. apply Zminus_mod_idemp_l. Qed.

Lemma pending_new n : pending_ok (Logger_new n).
Proof.
  unfold pending_ok. simpl. rewrite zcount_zero; [done|]. apply Forall_replicate. done.
Qed.

Lemma notify_pending s : pending_ok s -> pending_ok (notify_one s).
Proof. unfold notify_one, pending_ok. destruct (writer s) eqn:Hw; simpl; rewrite ?Hw; done. Qed.

Lemma Enqueue_step_pending i m s s' :
  ring_ok s -> pending_ok s -> Enqueue_step bits i m s = Some s' -> pending_ok s'.
Proof.
  intros Hs Hp Hstep. unfold Enqueue_step in Hstep.
  destruct (producers s !! i) as [q|] eqn:Hi; [|done].
  pose proof (fun y => zcount_insert uncounted _ _ _ y Hi) as Hc.
  assert (forall q', uncounted q' = uncounted q -> pending_ok (set_producer i q' s)) as Hset.
  { intros q' Hq. unfold pending_ok in *. simpl. rewrite Hc, Hq, Hp. f_equal. lia. }
  destruct q, m; simplify_eq/=; try (by apply Hset).
  - destruct (_ =? 0); [|destruct (_ <? 0)]; by apply Hset.
  - destruct (_ =? _); [|by apply Hset]. unfold pending_ok in *. simpl. rewrite Hc, Hp. simpl.
    pose proof (ring_bound s Hs). pose proof (ring_read s Hs). pose proof (ring_released s Hs).
    pose proof (released_read s Hs). rewrite (u64_small (write_index_ s + 1)) by lia. f_equal. lia.
  - unfold pending_ok in *. simpl. rewrite Hp, u64_succ, Hc. simpl.
    f_equal. destruct (_ =? 0); simpl; lia.
  - destruct (log_mutex_ s); [done|]. simplify_eq. by apply Hset.
  - apply notify_pending in Hp. unfold pending_ok, notify_one in *. simpl.
    destruct (writer s); simpl in *; rewrite Hc; simpl; rewrite Hp; f_equal; lia.
Qed.

Lemma WriteDownLogs_step_pending m s s' :
  ring_ok s -> pending_ok s -> WriteDownLogs_step bits m s = Some s' -> pending_ok s'.
Proof.
  intros Hs Hp Hstep. unfold WriteDownLogs_step, Dequeue_step in Hstep.
  assert (forall c, uncounted_off c = uncounted_off (writer s) -> pending_ok (set_writer c s)) as Hset
    by (intros c Hc; unfold pending_ok in *; simpl; by rewrite Hc).
  destruct (writer s) eqn:Hw, m; simplify_eq/=; try (by apply Hset).
  all: try (match goal with
    | |- pending_ok (set_writer (if ?b then _ else _) _) => destruct b end; by apply Hset).
  all: try (destruct (log_mutex_ s); [done|]; simplify_eq; by apply Hset).
  - destruct (_ =? 0); [by apply Hset|]. destruct (_ <? 0); by apply Hset.
  - destruct (_ =? _); [|by apply Hset]. unfold pending_ok in *. rewrite Hw in Hp. simpl in *.
    pose proof (ring_bound s Hs). pose proof (ring_read s Hs). pose proof (ring_released s Hs).
    pose proof (released_read s Hs). rewrite (u64_small (read_index_ s + 1)) by lia.
    rewrite Hp. f_equal. lia.
  - unfold pending_ok in *. rewrite Hw in Hp. simpl in *. rewrite Hp, u64_pred. f_equal. lia.
Qed.

Lemma step_pending a m s s' :
  ring_ok s -> pending_ok s -> step bits a m s = Some s' -> pending_ok s'.
Proof.
  intros Hs Hp. destruct a as [i| |]; simpl.
  - by apply Enqueue_step_pending.
  - by apply WriteDownLogs_step_pending.
  - unfold EndLogger_step. destruct (closer s), m; intros; simplify_eq/=; try done.
    + by apply notify_pending in Hp.
    + destruct (writer s) eqn:Hw; simplify_eq. unfold pending_ok in *. simpl. done.
Qed.

(** ** Sleeping *)

(** A call that is about to notify. *)
Definition notifying (q : producer) : Prop := q = PLock \/ q = PHeld.

Definition sleepy (c : consumer) : Prop := c = CWait \/ c = CAsleep.

Definition holding (c : consumer) : bool :=
  match c with CTestStopLocked | CTestEmptyLocked | CWait | CUnlock => true | _ => false end.

Record wake_ok (s : Logger) : Prop := {
  wake_mutex_prod : forall i, producers s !! i = Some PHeld -> log_mutex_ s = Some (Prod i);
  wake_mutex_cons : holding (writer s) = true -> log_mutex_ s = Some Cons;
  wake_notify : sleepy (writer s) -> pending_ s <> 0 -> Exists notifying (producers s);
}.

Lemma wake_new n : wake_ok (Logger_new n).
Proof. split; simpl; try done. by intros i [? _]%lookup_replicate. Qed.

Lemma Exists_insert_keep {A} (P : A -> Prop) i x y (l : list A) :
  l !! i = Some x -> (P x -> P y) -> Exists P l -> Exists P (<[i := y]> l).
Proof.
  intros Hi Hxy. rewrite !Exists_exists. intros (z & [j Hj]%list_elem_of_lookup & Hz).
  destruct (decide (i = j)) as [<-|Hne].
  - exists y. split; [|naive_solver]. apply list_elem_of_lookup. exists i.
    apply list_lookup_insert_eq. by eapply lookup_lt_Some.
  - exists z. split; [|done]. apply list_elem_of_lookup. exists j. by rewrite list_lookup_insert_ne.
Qed.

Lemma Exists_insert_new {A} (P : A -> Prop) i x y (l : list A) :
  l !! i = Some x -> P y -> Exists P (<[i := y]> l).
Proof.
  intros Hi Hy. apply Exists_exists. exists y. split; [|done]. apply list_elem_of_lookup. exists i.
  apply list_lookup_insert_eq. by eapply lookup_lt_Some.
Qed.

(** A call moves on, and does not stop notifying. *)
Lemma wake_set_producer i q q' s :
  wake_ok s -> producers s !! i = Some q -> ~ notifying q -> q' <> PHeld -> wake_ok (set_producer i q' s).
Proof.
  intros [Hm Hc Hn] Hi Hq Hq'. split; simpl; [|done|].
  - intros j. rewrite list_lookup_insert_Some. intros [(_ & ? & _)|[_ Hj]]; [congruence|auto].
  - intros Hsl Hp. eapply Exists_insert_keep; [done|done|auto].
Qed.

Lemma wake_set_writer c s :
  wake_ok s -> ~ sleepy c -> (holding c = true -> log_mutex_ s = Some Cons) ->
  wake_ok (set_writer c s).
Proof. intros [Hm Hc Hn] Hs Hh. split; simpl; [done|done|]. by intros. Qed.

Lemma wake_irrelevant s s' :
  wake_ok s -> producers s' = producers s -> log_mutex_ s' = log_mutex_ s -> writer s' = writer s ->
  pending_ s' = pending_ s -> wake_ok s'.
Proof. intros [Hm Hc Hn] HP HM HW Hp. split; rewrite ?HP, ?HM, ?HW, ?Hp; done. Qed.

Lemma notifying_not q : match q with PLock | PHeld => False | _ => True end -> ~ notifying q.
Proof. intros Hq [->| ->]; done. Qed.

Lemma Enqueue_step_wake i m s s' :
  wake_ok s -> Enqueue_step bits i m s = Some s' -> wake_ok s'.
Proof.
  intros Hs Hstep. unfold Enqueue_step in Hstep.
  destruct (producers s !! i) as [q|] eqn:Hi; [|done].
  assert (forall q', match q with PLock | PHeld => False | _ => True end -> q' <> PHeld ->
    wake_ok (set_producer i q' s)) as Hset
    by (intros; eapply wake_set_producer; [done|done|by apply notifying_not|done]).
  destruct q, m; simplify_eq/=; try (by apply Hset).
  - destruct (_ =? 0); [|destruct (_ <? 0)]; by apply Hset.
  - destruct (_ =? _); [|by apply Hset].
    by eapply wake_irrelevant; [apply (Hset (PWrite d pos))|..].
  - by eapply wake_irrelevant; [apply (Hset (PPublish pos))|..].
  - by eapply wake_irrelevant; [apply (Hset PCount)|..].
  - (* counting: from zero, the call goes on to notify *)
    destruct Hs as [Hm Hc Hn]. split; simpl; [|done|].
    + intros j. rewrite list_lookup_insert_Some. intros [(_ & Heq & _)|[_ Hj]]; [|auto].
      by destruct (_ =? 0).
    + intros Hsl Hp. destruct (Z.eqb_spec (pending_ s) 0) as [H0|H0].
      * eapply Exists_insert_new; [done|by left].
      * eapply Exists_insert_keep; [done| |auto]. intros [?|?]; done.
  - destruct (log_mutex_ s) eqn:Hmx; [done|]. simplify_eq. destruct Hs as [Hm Hc Hn]. split; simpl.
    + intros j. rewrite list_lookup_insert_Some. intros [(-> & _)|[_ Hj]]; [done|].
      apply Hm in Hj. congruence.
    + intros Hh. apply Hc in Hh. congruence.
    + intros Hsl Hp. eapply Exists_insert_new; [done|by right].
  - pose proof (wake_mutex_prod s Hs i Hi) as Hmx. destruct Hs as [Hm Hc Hn].
    assert (writer (notify_one s) <> CAsleep /\ holding (writer (notify_one s)) = false) as [Hna Hnh].
    { unfold notify_one. destruct (writer s) eqn:Hw; simpl; rewrite ?Hw; (split; [done|]); try done;
        specialize (Hc eq_refl); congruence. }
    split; simpl.
    + intros j. rewrite list_lookup_insert_Some. intros [(_ & ? & _)|[Hne Hj]]; [done|].
      assert (producers (notify_one s) = producers s) as Hpr by (unfold notify_one; by destruct (writer s)).
      rewrite Hpr in Hj. apply Hm in Hj. congruence.
    + congruence.
    + intros [Hsl|Hsl]; [|done]. rewrite Hsl in Hnh. done.
Qed.

Lemma WriteDownLogs_step_wake m s s' :
  wake_ok s -> WriteDownLogs_step bits m s = Some s' -> wake_ok s'.
Proof.
  intros Hs Hstep. unfold WriteDownLogs_step, Dequeue_step in Hstep.
  pose proof (wake_mutex_cons s Hs) as Hcons.
  assert (forall c, ~ sleepy c -> (holding c = true -> log_mutex_ s = Some Cons) ->
    wake_ok (set_writer c s)) as Hset by (intros; by apply wake_set_writer).
  assert (forall c, c <> CWait -> c <> CAsleep -> ~ sleepy c) as Hns by (by intros c ? ? [?|?]).
  destruct (writer s) eqn:Hw, m; simplify_eq/=.
  all: try (apply Hset; [by apply Hns|done]).
  all: try (match goal with
    | |- wake_ok (set_writer (if ?b then _ else _) _) => destruct b end; (apply Hset; [by apply Hns|done])).
  all: destruct Hs as [Hm Hc Hn]; try (split; simpl; [done|done|by intros [?|?]]).
  - destruct (_ =? 0); [|destruct (_ <? 0)]; (apply Hset; [by apply Hns|done]).
  - destruct (_ =? _); split; simpl; try done; by intros [?|?].
  - destruct (log_mutex_ s) eqn:Hmx; [done|]. simplify_eq. split; simpl; [|done|by intros [?|?]].
    intros i Hi. apply Hm in Hi. congruence.
  - destruct (Z.eqb_spec (pending_ s) 0); split; simpl; try done. by intros [?|?].
  - split; simpl; [|done|].
    + intros i Hi. apply Hm in Hi. specialize (Hcons eq_refl). congruence.
    + intros _. apply Hn. rewrite Hw. by left.
  - destruct (log_mutex_ s) eqn:Hmx; [done|]. simplify_eq. split; simpl; [|done|by intros [?|?]].
    intros i Hi. apply Hm in Hi. congruence.
  - split; simpl; [|done|by intros [?|?]].
    intros i Hi. apply Hm in Hi. specialize (Hcons eq_refl). congruence.
Qed.

Lemma step_wake a m s s' : wake_ok s -> step bits a m s = Some s' -> wake_ok s'.
Proof.
  intros Hs. destruct a as [i| |]; simpl.
  - by apply Enqueue_step_wake.
  - by apply WriteDownLogs_step_wake.
  - unfold EndLogger_step. destruct (closer s), m; intros; simplify_eq/=;
      try (by eapply wake_irrelevant; [exact Hs|..]).
    + unfold notify_one. destruct (writer s) eqn:Hw; try (by eapply wake_irrelevant; [exact Hs|..]).
      eapply wake_irrelevant; [apply (wake_set_writer CRelock s Hs)|..]; try done. by intros [?|?].
    + destruct (writer s); simplify_eq. by eapply wake_irrelevant; [exact Hs|..].
Qed.

(** ** Runs *)

Lemma run_ok l s :
  ring_ok s /\ pending_ok s /\ wake_ok s -> write_index_ s + zlen l < 2 ^ 62 ->
  ring_ok (run bits l s) /\ pending_ok (run bits l s) /\ wake_ok (run bits l s).
Proof using Hbits.
  revert s. induction l as [|[a m] l IH]; intros s (Hr & Hp & Hw) Hmax; [done|].
  rewrite zlen_cons in Hmax. pose proof (zlen_nonneg l). simpl.
  destruct (step bits a m s) as [s'|] eqn:Hstep; simpl; [|apply IH; [done|lia]].
  destruct (step_ring a m s s' Hr ltac:(lia) Hstep). apply IH; [|lia]. split_and!; [done| |].
  - exact (step_pending _ _ _ _ Hr Hp Hstep).
  - exact (step_wake _ _ _ _ Hw Hstep).
Qed.

Lemma reached_ok n l :
  zlen l < 2 ^ 62 ->
  let s := run bits l (Logger_new n) in ring_ok s /\ pending_ok s /\ wake_ok s.
Proof using Hbits.
  intros Hl. apply run_ok; [|done]. split_and!; [apply ring_new|apply pending_new|apply wake_new].
Qed.

(** ** Properties *)

(** C9. First in, first out: after any interleaving of any number of threads that
    log, of the writer and of [EndLogger], what is in the file is a prefix of the
    records [Enqueue] took, in the order of their positions, complete up to the
    records still in the ring or in the writer's hands: none is lost, doubled,
    mixed up or overtaken. *)
Theorem log_fifo n l :
  zlen l < 2 ^ 62 ->
  let s := run bits l (Logger_new n) in
  file s = ztake (zlen (file s)) (accepted s) /\
  zlen (accepted s) - zlen (file s)
    = write_index_ s - read_index_ s + b2z (in_flight (writer s)) /\
  0 <= write_index_ s - read_index_ s <= N.
Proof using Hbits.
  intros Hl s. destruct (reached_ok n l Hl) as (Hr & _ & _). fold s in Hr.
  pose proof (ring_file s Hr) as Hf. pose proof (ring_accepted s Hr). pose proof (ring_read s Hr).
  pose proof (ring_released s Hr). pose proof (released_read s Hr). pose proof (ring_write s Hr).
  assert (0 <= read_index_ s - b2z (in_flight (writer s)) <= zlen (accepted s)) as Hrange.
  { pose proof (ring_writer s Hr) as Hw. unfold writer_ok, released in *.
    destruct (writer s); simpl; try lia; apply zlookup_Some in Hw as [? _]; lia. }
  assert (zlen (file s) = read_index_ s - b2z (in_flight (writer s))) as Hlen
    by (rewrite Hf, zlen_ztake by lia; lia).
  rewrite Hlen. split_and!; [done|lia|lia|lia].
Qed.

(** A record is refused only when the ring is full: a call of [Enqueue] gives
    up in a reachable state only if all the slots hold records that were not yet
    given back; otherwise the call goes on. *)
Theorem log_dropped_only_when_full n l i d pos s' :
  zlen l < 2 ^ 62 ->
  let s := run bits l (Logger_new n) in
  producers s !! i = Some (PSeq d pos) ->
  step bits (Prod i) Go s = Some s' ->
  producers s' !! i = Some PIdle ->
  write_index_ s = released s + N /\ forall p, released s <= p < released s + N -> seq (slot s p) <= p + 1.
Proof using Hbits.
  intros Hl s Hi Hstep Hidle. destruct (reached_ok n l Hl) as (Hr & _ & _). fold s in Hr.
  pose proof (ring_producers s Hr i _ Hi) as Hpos. simpl in Hpos.
  destruct (enqueue_diff s pos Hr Hpos) as (_ & _ & Hneg).
  unfold step, Enqueue_step in Hstep. rewrite Hi in Hstep. injection Hstep as <-.
  change (Logger.slot_of bits pos) with (slot_of pos) in Hidle. set (diff := s64 _) in *.
  pose proof (lookup_lt_Some _ _ _ Hi) as Hlt.
  destruct (Z.eqb_spec diff 0); [|destruct (Z.ltb_spec diff 0)]; simpl in Hidle;
    rewrite list_lookup_insert_eq in Hidle by done; try done.
  split; [by apply Hneg|]. intros p Hp. pose proof (ring_slots s Hr p Hp) as Hok.
  unfold slot_ok in Hok. destruct (p <? _); [destruct Hok as [[? _]|[? _]]|]; lia.
Qed.

(** With nothing pending and no call under way, everything is written down. *)
Lemma nothing_pending s :
  ring_ok s -> pending_ok s -> Forall (eq PIdle) (producers s) -> pending_ s = 0 ->
  in_flight (writer s) = false -> file s = accepted s.
Proof.
  intros Hr Hp Hidle H0 Hfl. unfold pending_ok in Hp. rewrite H0, zcount_zero in Hp
    by (eapply Forall_impl; [done|]; by intros q <-).
  assert (uncounted_off (writer s) = false) as Hoff by (by destruct (writer s)).
  rewrite Hoff in Hp. pose proof (ring_file s Hr) as Hf. pose proof (ring_accepted s Hr).
  pose proof (ring_read s Hr). pose proof (ring_bound s Hr). pose proof (ring_released s Hr).
  pose proof (released_read s Hr). simpl in Hp. rewrite u64_small in Hp by lia.
  rewrite Hf, Hfl. simpl. apply ztake_all. lia.
Qed.

(** C15. No record is left behind: whenever the writer sleeps (no wake-up was
    lost), or finds nothing pending after [EndLogger] and is about to end, and
    no call of [Enqueue] is under way, every record taken so far is in the
    file. *)
Theorem log_no_lost_wakeup n l :
  zlen l < 2 ^ 62 ->
  let s := run bits l (Logger_new n) in
  Forall (eq PIdle) (producers s) ->
  writer s = CAsleep \/ (writer s = CTestPending /\ pending_ s = 0) ->
  file s = accepted s.
Proof using Hbits.
  intros Hl s Hidle Hw. destruct (reached_ok n l Hl) as (Hr & Hp & Hwk). fold s in Hr, Hp, Hwk.
  apply nothing_pending; try done; [|destruct Hw as [->|[-> _]]; done].
  destruct Hw as [Hw|[_ H0]]; [|done].
  destruct (decide (pending_ s = 0)) as [|Hne]; [done|exfalso].
  pose proof (wake_notify s Hwk (or_intror Hw) Hne) as Hex.
  apply Exists_exists in Hex as (q & Hq & Hn). rewrite Forall_forall in Hidle.
  destruct (Hidle q Hq). by destruct Hn.
Qed.

End facts.

(** The run in which [EndLogger] comes between the writer's test of
    [is_stopping_] and its sleep: it does not take the mutex to notify. *)
Definition late_end : list (actor * move) :=
  replicate 7 (Cons, Go) ++ [(Ender, Call []); (Ender, Go); (Ender, Go)] ++ replicate 2 (Cons, Go).

(** The notification of [EndLogger] can be lost: there is a run, with the
    ring of the source and any number of threads, after which [EndLogger] waits
    for the writer and the writer sleeps for good: nobody can move but by a new
    log record or by a spurious wake-up. *)
Theorem end_logger_can_hang n :
  let s := run 24 late_end (Logger_new n) in
  is_stopping_ s = true /\ closer s = EJoin /\ writer s = CAsleep /\
  forall a m, step 24 a m s <> None -> m = WakeSpuriously \/ exists i d, a = Prod i /\ m = Call d.
Proof.
  assert (run 24 late_end (Logger_new n)
    = mkLogger 0 0 0 (fun i => mkSlot i []) true None (replicate n PIdle) CAsleep EJoin 0 0 [] [])
    as -> by reflexivity.
  split_and!; try done. intros [i| |] m; simpl; unfold Enqueue_step; simpl.
  - destruct (replicate n PIdle !! i) as [q|] eqn:Hi; [|done].
    apply lookup_replicate in Hi as [-> _]. destruct m; try done. right. by eexists i, _.
  - destruct m; try done. by left.
  - by destruct m.
Qed.

(** The line of a record is the time, a blank, the text and a line end. *)
Theorem record_line time_now_str log_info :
  zlen time_now_str + zlen log_info + 2 < 2 ^ 63 ->
  RecordLogs_line time_now_str log_info = Ok (time_now_str ++ [Byte.x20] ++ log_info ++ [Byte.x0a]).
Proof.
  intros Hl. pose proof (zlen_nonneg time_now_str). pose proof (zlen_nonneg log_info).
  unfold RecordLogs_line. rewrite !u64_small by (rewrite ?u64_small; lia).
  set (t := time_now_str) in *. set (x := log_info) in *.
  assert (replicate (Z.to_nat (zlen t + zlen x + 2)) Byte.x20
    = replicate (length t) Byte.x20 ++ [Byte.x20] ++ replicate (length x) Byte.x20 ++ [Byte.x20]) as ->.
  { unfold zlen.
    replace (Z.to_nat _) with (length t + (1 + (length x + 1)))%nat by lia.
    by rewrite !replicate_add. }
  assert (forall (a b c d : list byte), length a = length b ->
    mem_write (c ++ a ++ d) (zlen c) b = Ok (c ++ b ++ d)) as Hput.
  { intros a b c d Hab. rewrite mem_write_ok.
    - rewrite ztake_app_exact. do 2 f_equal. f_equal.
      rewrite app_assoc, <-(zlen_app c b). replace (zlen (c ++ b)) with (zlen (c ++ a))
        by (rewrite !zlen_app; unfold zlen; lia). by rewrite zdrop_app_exact.
    - apply zlen_nonneg.
    - rewrite !zlen_app. unfold zlen. lia. }
  pose proof (Hput (replicate (length t) Byte.x20) t [] ([Byte.x20] ++ replicate (length x) Byte.x20 ++ [Byte.x20]))
    as H1. rewrite length_replicate in H1. specialize (H1 eq_refl).
  simpl in H1. change (zlen (@nil byte)) with 0 in H1. simpl. rewrite H1.
  cbn [mbind result_bind].
  pose proof (Hput (replicate (length x) Byte.x20) x (t ++ [Byte.x20]) [Byte.x20]) as H2.
  rewrite length_replicate in H2. specialize (H2 eq_refl).
  rewrite <-!app_assoc in H2. rewrite zlen_app in H2. simpl in H2.
  change (zlen [Byte.x20]) with 1 in H2. rewrite H2. cbn [mbind result_bind].
  pose proof (Hput [Byte.x20] [Byte.x0a] (t ++ [Byte.x20] ++ x) [] eq_refl) as H3.
  rewrite <-!app_assoc in H3. simpl in H3.
  replace (zlen (t ++ Byte.x20 :: x ++ [Byte.x20]) - 1) with (zlen (t ++ Byte.x20 :: x)); [done|].
  rewrite !zlen_app, !zlen_cons, zlen_app, zlen_cons, zlen_nil. lia.
Qed.

(** ** A concrete run: two threads log, the writer drains the ring *)

Module Concrete.

Definition hello : list byte := [Byte.x68].
Definition world : list byte := [Byte.x77].

(** Both calls interleaved; the second takes its position first. *)
Definition busy : list (actor * move) :=
  [(Prod 0, Call hello); (Prod 1, Call world); (Prod 0, Go); (Prod 1, Go); (Prod 1, Go); (Prod 0, Go);
   (Prod 1, Go); (Prod 0, Go); (Prod 0, Go)]
  ++ replicate 8 (Prod 1, Go) ++ replicate 8 (Prod 0, Go) ++ replicate 40 (Cons, Go).

Lemma log_fifo_witness :
  file (run 1 busy (Logger_new 2)) = [world; hello] /\
  file (run 1 busy (Logger_new 2)) = ztake 2 (accepted (run 1 busy (Logger_new 2))).
Proof.
  split; [reflexivity|]. destruct (log_fifo 1 ltac:(lia) 2 busy eq_refl) as [H _]. exact H.
Defined.

Definition overfull : list (actor * move) :=
  [(Prod 0, Call hello)] ++ replicate 6 (Prod 0, Go) ++ replicate 3 (Prod 0, Go)
  ++ [(Prod 0, Call hello)] ++ replicate 6 (Prod 0, Go) ++ [(Prod 0, Call world); (Prod 0, Go)].

Lemma log_dropped_only_when_full_witness :
  let s := run 1 overfull (Logger_new 1) in write_index_ s = released s + kLogBufferSize 1.
Proof.
  set (s' := default (Logger_new 0) (step 1 (Prod 0) Go (run 1 overfull (Logger_new 1)))).
  assert (step 1 (Prod 0) Go (run 1 overfull (Logger_new 1)) = Some s') as Hs by (by vm_compute).
  assert (producers s' !! 0%nat = Some PIdle) as Hi by (by vm_compute).
  destruct (log_dropped_only_when_full 1 ltac:(lia) 1 overfull 0 world 2 s') as [H _].
  - by vm_compute.
  - by vm_compute.
  - exact Hs.
  - exact Hi.
  - exact H.
Defined.

Lemma log_no_lost_wakeup_witness :
  let s := run 1 busy (Logger_new 2) in writer s = CAsleep /\ file s = accepted s.
Proof.
  assert (zlen busy < 2 ^ 62) as Hl by (by vm_compute).
  assert (Forall (eq PIdle) (producers (run 1 busy (Logger_new 2)))) as Hidle
    by (vm_compute; repeat constructor).
  assert (writer (run 1 busy (Logger_new 2)) = CAsleep) as Hw by (by vm_compute).
  exact (conj Hw (log_no_lost_wakeup 1 ltac:(lia) 2 busy Hl Hidle (or_introl Hw))).
Defined.

Lemma record_line_witness :
  RecordLogs_line [Byte.x5b; Byte.x5d] hello = Ok [Byte.x5b; Byte.x5d; Byte.x20; Byte.x68; Byte.x0a].
Proof. apply (record_line [Byte.x5b; Byte.x5d] hello). reflexivity. Defined.

End Concrete.
