(* ===== verification/LogFiles.v ===== *)
(** * The log files

    Model of class [Logger] (src/logger.h, src/logger.cc) at the level of its
    calls: what [START_LOG], the [LOG] macros, [END_LOG] and the destructor do
    to the logger and to the files. The calls follow each other, and the writer
    thread writes records down in between; how concurrent calls and the writer
    interleave inside of the ring is the subject of Logger. The answers of
    [fopen] and of the clock are arguments of every call. The content of a file
    is what was handed to [fwrite]; flushing has no effect on it. *)

From Stdlib Require Import Strings.String.
From stdpp Require Import prelude gmap list.
From coqutil Require Import Byte.
From S2P Require Import Prelude.
From S2P Require Import Text.
From S2P Require Import Logger.
From S2P Require Import LoggerFacts.

Inductive LogLevel := kEmerg | kAlert | kCrit | kError | kWarn | kNotice | kInfo | kDebug.

Definition kLogName : text := txt "log.txt".

Definition Log_level_info_prefix (log_type : LogLevel) : text :=
  txt match log_type with
      | kEmerg => "Log(Emergency): "
      | kAlert => "Log(Alert): "
      | kCrit => "Log(Critical): "
      | kError => "Log(Error): "
      | kWarn => "Log(Warn): "
      | kNotice => "Log(Notice): "
      | kInfo => "Log(Info): "
      | kDebug => "Log(Debug): "
      end.

(** A [FILE] pointer: null, an open file, or one that was closed. *)
Inductive FilePtr := FNull | FOpen (name : text) | FClosed.

(** [thread_] tells whether it is joinable. [queue] are the records in the ring,
    [disk] the files by their names; [taken], the records accepted since the
    last start, is only observed. *)
Record LoggerState := mkLoggerState {
  is_initialized : bool;
  is_stopping : bool;
  thread_ : bool;
  queue : list text;
  file_byte : Z;
  file_seq : Z;
  log_file_name_ : text;
  log_file_ : FilePtr;
  time_now : Z * text;
  disk : gmap text text;
  taken : list text;
}.

Definition LoggerState_new (d : gmap text text) : LoggerState :=
  mkLoggerState false false false [] 0 0 [] FNull (0, []) d [].

Definition set_flags (init stopping thread : bool) (s : LoggerState) : LoggerState :=
  mkLoggerState init stopping thread (queue s) (file_byte s) (file_seq s) (log_file_name_ s) (log_file_ s)
    (time_now s) (disk s) (taken s).
Definition set_records (q t : list text) (s : LoggerState) : LoggerState :=
  mkLoggerState (is_initialized s) (is_stopping s) (thread_ s) q (file_byte s) (file_seq s) (log_file_name_ s)
    (log_file_ s) (time_now s) (disk s) t.
Definition set_counters (b n : Z) (s : LoggerState) : LoggerState :=
  mkLoggerState (is_initialized s) (is_stopping s) (thread_ s) (queue s) b n (log_file_name_ s)
    (log_file_ s) (time_now s) (disk s) (taken s).
Definition set_file (f : FilePtr) (d : gmap text text) (s : LoggerState) : LoggerState :=
  mkLoggerState (is_initialized s) (is_stopping s) (thread_ s) (queue s) (file_byte s) (file_seq s)
    (log_file_name_ s) f (time_now s) d (taken s).
Definition set_name (name : text) (s : LoggerState) : LoggerState :=
  mkLoggerState (is_initialized s) (is_stopping s) (thread_ s) (queue s) (file_byte s) (file_seq s)
    name (log_file_ s) (time_now s) (disk s) (taken s).
Definition set_time (t : Z * text) (s : LoggerState) : LoggerState :=
  mkLoggerState (is_initialized s) (is_stopping s) (thread_ s) (queue s) (file_byte s) (file_seq s)
    (log_file_name_ s) (log_file_ s) t (disk s) (taken s).

(** ** Files *)

(** [fopen(name, "wb")]: [openable] tells which files can be opened. *)
Definition fopen (openable : text -> bool) (name : text) (s : LoggerState) : LoggerState :=
  if openable (c_str name) then set_file (FOpen (c_str name)) (<[c_str name := []]> (disk s)) s
  else set_file FNull (disk s) s.

Definition fwrite (d : text) (s : LoggerState) : result LoggerState :=
  match log_file_ s with
  | FOpen name => Ok (set_file (FOpen name) (alter (.++ d) name (disk s)) s)
  | FNull => Fault NullPointer
  | FClosed => Fault OutOfBounds
  end.

Definition fclose (s : LoggerState) : result LoggerState :=
  match log_file_ s with
  | FOpen _ => Ok (set_file FClosed (disk s) s)
  | FNull => Fault NullPointer
  | FClosed => Fault OutOfBounds
  end.

(** The name of the file with sequence number [n], and its first line. *)
Definition numbered_name (n : Z) (name : text) : text :=
  txt "n" ++ dec (Z.land n 1) ++ txt "_" ++ name.
Definition file_header (n : Z) : text := txt "Current file sequence: " ++ dec n ++ [Byte.x0a].

(** ** Time *)

(** The text of [asctime] without its line end, in brackets. *)
Definition time_text (asctime : text) : text := txt "[ " ++ ztake (zlen asctime - 1) asctime ++ txt " ]".

(** A reading of the clock: the seconds and their text. *)
Definition tick (now : Z * text) (t : Z * text) : Z * text :=
  UpdateLoggerTime now.1 (time_text now.2) t.1 t.2.

Section logger.
(** The size from which a file is replaced and the number of slots; in the
    source [kStandardLogFileByte] and [2 ^ 24]. *)
Context (limit cap : Z).

(** ** The writer *)

(** One record of [WriteDownLogs]. *)
Definition write_one (openable : text -> bool) (s : LoggerState) : result LoggerState :=
  match queue s with
  | [] => Ok s
  | d :: q =>
      let s := set_records q (taken s) s in
      s ← (if limit <=? file_byte s then
             s ← fclose s;
             let n := s64 (file_seq s + 1) in
             let s := fopen openable (numbered_name n (log_file_name_ s)) (set_counters 0 n s) in
             fwrite (file_header n) s
           else Ok s);
      s ← fwrite d s;
      Ok (set_counters (s64 (file_byte s + zlen d)) (file_seq s) s)
  end.

Fixpoint write_down (openable : text -> bool) (k : nat) (s : LoggerState) : result LoggerState :=
  match k with O => Ok s | S k => s ← write_one openable s; write_down openable k s end.

(** ** Calls *)

(** The project's own file in place of one that cannot be opened. *)
Definition open_default (openable : text -> bool) (s : LoggerState) : LoggerState :=
  fopen openable (numbered_name (file_seq s) kLogName) (set_name kLogName s).

Definition open_log (openable : text -> bool) (name : text) (s : LoggerState) : LoggerState :=
  let s := set_name name s in
  match name with
  | [] => open_default openable s
  | _ =>
      let s := fopen openable name s in
      match log_file_ s with FNull => open_default openable s | _ => s end
  end.

(** Assigning to a joinable [thread_] would end the process. *)
Definition StartLogger (openable : text -> bool) (now : Z * text) (name : text) (s : LoggerState) :
    result LoggerState :=
  s ← (if is_initialized s then Ok s
       else
         let s := set_records [] [] (set_flags false false (thread_ s) s) in
         s ← fwrite (file_header 0) (open_log openable name s);
         if thread_ s then Fault ExitFailure else Ok (set_flags true false true s));
  Ok (set_time (tick now (time_now s)) s).

Definition GetLogger (should_start : bool) (openable : text -> bool) (now : Z * text) (s : LoggerState) :
    result LoggerState :=
  if should_start then StartLogger openable now kLogName s else Ok s.

(** [Enqueue]: a record that finds the ring full is dropped. *)
Definition push (d : text) (s : LoggerState) : LoggerState :=
  if zlen (queue s) <? cap then set_records (queue s ++ [d]) (taken s ++ [d]) s else s.

Definition RecordLogs (now : Z * text) (log_info : text) (s : LoggerState) : result LoggerState :=
  let s := set_time (tick now (time_now s)) s in
  log_data ← RecordLogs_line (time_now s).2 log_info;
  Ok (push log_data s).

(** A text with its level. A [LOG] with a format hands on a text of this form, made
    by [RecordLogs_format]. *)
Definition RecordLogs_level (now : Z * text) (log_type : LogLevel) (log_info : text) : LoggerState -> result LoggerState :=
  RecordLogs now (Log_level_info_prefix log_type ++ log_info).

(** The writer ends when it is told to stop and has written everything down. *)
Definition EndLogger (openable : text -> bool) (s : LoggerState) : result LoggerState :=
  let s := set_flags (is_initialized s) true (thread_ s) s in
  s ← (if thread_ s then
         s ← write_down openable (length (queue s)) s;
         Ok (set_flags (is_initialized s) true false s)
       else Ok s);
  s ← fclose s;
  Ok (set_flags false true (thread_ s) s).

(** The destructor does not tell the writer to stop: [None] when it waits for
    a writer that goes on. *)
Definition Logger_delete (openable : text -> bool) (s : LoggerState) : option (result LoggerState) :=
  if thread_ s then
    if is_stopping s then
      Some (s ← write_down openable (length (queue s)) s; Ok (set_flags false true false s))
    else None
  else Some (Ok (set_flags false (is_stopping s) false s)).

(** ** Formatted messages

    [RecordLogs] with a level and a format: [formatted] is what [snprintf] makes of it, [None]
    when it fails, and [junk] the memory [new] returns. *)
Definition RecordLogs_format (junk : nat -> byte) (log_type : LogLevel) (formatted : option text) : result text :=
  let prefix := Log_level_info_prefix log_type in
  let msg_len := match formatted with Some t => s32 (zlen t) | None => -1 end in
  let message := junk <$> List.seq 0 (Z.to_nat (zlen prefix +u u64 msg_len +u 1)) in
  message ← mem_write message 0 prefix;
  message ← (match formatted with
             | Some t => if u64 (msg_len + 1) =? 0 then Ok message
                         else mem_write message (zlen prefix) (ztake msg_len t ++ [Byte.x00])
             | None => Ok message
             end);
  if bool_decide (Byte.x00 ∈ message) then Ok (c_str message) else Fault OutOfBounds.

(** ** Programs *)

(** The macros: [START_LOG], [LOG] with a level and a text, and [END_LOG], and a
    record written down by the writer. [LOG] reads the clock in
    [GetLogger] and in [RecordLogs]. *)
Inductive op :=
| OStart (openable : text -> bool) (now : Z * text) (name : text)
| OLog (openable : text -> bool) (now now' : Z * text) (log_type : LogLevel) (log_info : text)
| OEnd (openable : text -> bool) (now : Z * text)
| OWrite (openable : text -> bool).

Definition perform (o : op) (s : LoggerState) : result LoggerState :=
  match o with
  | OStart openable now name => s ← GetLogger false openable now s; StartLogger openable now name s
  | OLog openable now now' log_type log_info =>
      s ← GetLogger true openable now s; RecordLogs_level now' log_type log_info s
  | OEnd openable now => s ← GetLogger true openable now s; EndLogger openable s
  | OWrite openable => if thread_ s then write_one openable s else Ok s
  end.

Fixpoint run (ops : list op) (s : LoggerState) : result LoggerState :=
  match ops with [] => Ok s | o :: ops => s ← perform o s; run ops s end.
End logger.

(** ** What the files hold *)

Section spec.
Context (limit : Z).

(** A file that starts with [b] bytes on the count takes a record while the
    count is below the limit. *)
Definition fits (b : Z) (seg : list text) : Prop :=
  forall pre r suf, seg = pre ++ r :: suf -> b + zlen (concat pre) < limit.

Definition start_of (b : Z) (i : nat) : Z := match i with O => b | S _ => 0 end.

(** The records of one session cut into files: each takes records while it can,
    the next one is begun only when it cannot, and with a record. *)
Definition cut (b : Z) (segs : list (list text)) : Prop :=
  forall i seg, segs !! i = Some seg ->
    fits (start_of b i) seg /\
    ((S i < length segs)%nat -> limit <= start_of b i + zlen (concat seg)) /\
    (i <> 0%nat -> seg <> []).
End spec.

(** The first file and the name the others are built from: [n] is the sequence
    number the session starts with. *)
Definition session_files (n : Z) (name : text) : text * text :=
  match name with [] => (c_str (numbered_name n kLogName), kLogName) | _ => (c_str name, name) end.

(** The file with index [i], and its first line. *)
Definition file_of (names : text * text) (n : Z) (i : nat) : text :=
  match i with
  | O => names.1
  | S _ => c_str (txt "n" ++ dec ((n + Z.of_nat i) mod 2) ++ txt "_" ++ names.2)
  end.
Definition header_of (n : Z) (i : nat) : text := file_header match i with O => 0 | S _ => n + Z.of_nat i end.

Definition write_files (names : text * text) (n : Z) (segs : list (list text)) (d : gmap text text) :
    gmap text text :=
  foldl (fun d x => <[file_of names n x.1 := header_of n x.1 ++ concat x.2]> d) d (imap pair segs).

(** The lines the calls make, [t] being the time last read. *)
Fixpoint lines (t : Z * text) (ops : list op) : list text :=
  match ops with
  | [] => []
  | OStart _ now _ :: ops | OEnd _ now :: ops => lines (tick now t) ops
  | OLog _ now now' log_type log_info :: ops =>
      let t := tick now' (tick now t) in
      (t.2 ++ [Byte.x20] ++ (Log_level_info_prefix log_type ++ log_info) ++ [Byte.x0a]) :: lines t ops
  | OWrite _ :: ops => lines t ops
  end.

Definition opens (o : op) : Prop :=
  match o with
  | OStart openable _ _ | OLog openable _ _ _ _ | OEnd openable _ | OWrite openable =>
      forall name, openable name = true
  end.

(** A call inside of a session. *)
Definition inner (o : op) : Prop := match o with OEnd _ _ => False | _ => opens o end.

(** The call that starts a session, with the name it asks for. *)
Definition session_name (o : op) : option text :=
  match o with OStart _ _ name => Some name | OLog _ _ _ _ _ => Some kLogName | _ => None end.

Section facts.
Context (limit cap : Z) (Hlimit : 0 < limit).

Lemma numbered_name_mod n name : numbered_name n name = txt "n" ++ dec (n mod 2) ++ txt "_" ++ name.
Proof.
  unfold numbered_name. assert (Z.land n 1 = n mod 2) as ->; [|done]. apply (Z.land_ones n 1). lia.
Qed.

Lemma write_files_snoc names n segs seg d :
  write_files names n (segs ++ [seg]) d =
  <[file_of names n (length segs) := header_of n (length segs) ++ concat seg]> (write_files names n segs d).
Proof. unfold write_files. rewrite imap_app, foldl_app. simpl. by rewrite Nat.add_0_r. Qed.

Lemma fits_nil b : fits limit b [].
Proof. intros [|r' pre] r suf Heq; discriminate. Qed.

Lemma fits_snoc b seg d : fits limit b seg -> b + zlen (concat seg) < limit -> fits limit b (seg ++ [d]).
Proof.
  intros Hf Hb pre r suf Heq. destruct suf as [|x suf] using rev_ind.
  - apply app_inj_tail in Heq as [-> _]. done.
  - clear IHsuf. rewrite app_comm_cons, app_assoc in Heq. apply app_inj_tail in Heq as [-> _].
    by eapply Hf.
Qed.

(** The last file takes one more record. *)
Lemma cut_more b segs seg d :
  cut limit b (segs ++ [seg]) -> start_of b (length segs) + zlen (concat seg) < limit ->
  cut limit b (segs ++ [seg ++ [d]]).
Proof.
  intros Hc Hlt i x Hi. apply lookup_snoc_Some in Hi as [[Hi Hx]|[-> <-]].
  - destruct (Hc i x) as (Hf & Hfull & Hne); [by rewrite lookup_app_l|].
    rewrite length_app in *. auto.
  - destruct (Hc (length segs) seg) as (Hf & _ & _); [by rewrite list_lookup_middle|].
    split; [by apply fits_snoc|]. split; [rewrite length_app; simpl; lia|].
    intros _ Hnil. by apply app_nil in Hnil as [_ ?].
Qed.

(** A full file is followed by a new one. *)
Lemma cut_next b segs seg d :
  cut limit b (segs ++ [seg]) -> limit <= start_of b (length segs) + zlen (concat seg) ->
  cut limit b ((segs ++ [seg]) ++ [[d]]).
Proof using Hlimit.
  intros Hc Hle i x Hi. apply lookup_snoc_Some in Hi as [[Hi Hx]|[-> <-]].
  - destruct (Hc i x Hx) as (Hf & Hfull & Hne). split; [done|]. split; [|done]. intros _.
    apply lookup_snoc_Some in Hx as [[Hi' Hx]|[-> <-]]; [|done]. apply Hfull. rewrite length_app. simpl. lia.
  - assert (start_of b (length (segs ++ [seg])) = 0) as -> by (by rewrite length_app, Nat.add_comm).
    split; [|split; [rewrite !length_app; simpl; lia|done]].
    apply (fits_snoc 0 [] d); [apply fits_nil|]. change (zlen (concat [])) with 0. lia.
Qed.

Lemma cut_one b : cut limit b [[]].
Proof.
  intros [|i] seg Hi; simplify_eq/=. split; [apply fits_nil|]. split; [lia|done].
Qed.
(** *** Which files are left *)

Lemma c_str_clean p m : Byte.x00 ∉ p -> c_str (p ++ m) = p ++ c_str m.
Proof.
  induction p as [|x p IH]; intros Hp; [done|]. apply not_elem_of_cons in Hp as [Hx Hp]. cbn [c_str app].
  destruct (Byte.eqb x Byte.x00) eqn:E; [by apply Byte.byte_dec_bl in E; subst|]. by rewrite IH.
Qed.

Definition number_prefix (n : Z) (i : nat) : text := txt "n" ++ dec ((n + Z.of_nat i) mod 2) ++ txt "_".

Lemma number_prefix_cases n i :
  number_prefix n i = txt "n0_" /\ number_prefix n (S i) = txt "n1_" \/
  number_prefix n i = txt "n1_" /\ number_prefix n (S i) = txt "n0_".
Proof.
  unfold number_prefix. replace (n + Z.of_nat (S i)) with (n + Z.of_nat i + 1) by lia.
  generalize (n + Z.of_nat i). intros m.
  assert (m mod 2 = 0 /\ (m + 1) mod 2 = 1 \/ m mod 2 = 1 /\ (m + 1) mod 2 = 0) as [[-> ->]|[-> ->]]; [|by left|by right].
  pose proof (Z.mod_pos_bound m 2 ltac:(lia)). rewrite (Z.add_mod m 1 2) by lia.
  assert (m mod 2 = 0 \/ m mod 2 = 1) as [E|E] by lia; rewrite E; [by left|by right].
Qed.

Lemma number_prefix_clean n i : (Byte.x00 ∉ number_prefix n i) /\ length (number_prefix n i) = 3%nat.
Proof.
  destruct (number_prefix_cases n i) as [[-> _]|[-> _]]; (split; [|done]);
    apply (bool_decide_eq_true_1 _); vm_compute; reflexivity.
Qed.

Lemma file_of_numbered names n i : file_of names n (S i) = number_prefix n (S i) ++ c_str names.2.
Proof.
  rewrite <-c_str_clean by apply number_prefix_clean. unfold file_of, number_prefix. by rewrite <-!app_assoc.
Qed.

(** One file is not the next, and the file a session was started with under a
    name of its own is none of the numbered ones. *)
Lemma file_of_next n name i :
  file_of (session_files n name) n (S i) <> file_of (session_files n name) n i.
Proof.
  rewrite file_of_numbered. destruct i as [|i].
  - unfold session_files, file_of. destruct name as [|x name]; cbn [fst snd]; intros Heq.
    + rewrite numbered_name_mod in Heq. replace (n mod 2) with ((n + Z.of_nat 0) mod 2) in Heq by (f_equal; lia).
      change (number_prefix n 1 ++ c_str kLogName = c_str (txt "n" ++ dec ((n + Z.of_nat 0) mod 2) ++ txt "_" ++ kLogName)) in Heq.
      replace (txt "n" ++ dec ((n + Z.of_nat 0) mod 2) ++ txt "_" ++ kLogName)
        with (number_prefix n 0 ++ kLogName) in Heq by (unfold number_prefix; by rewrite <-!app_assoc).
      rewrite c_str_clean in Heq by apply number_prefix_clean. apply app_inv_tail in Heq.
      destruct (number_prefix_cases n 0) as [[H0 H1]|[H0 H1]]; rewrite H0, H1 in Heq; discriminate Heq.
    + apply (f_equal length) in Heq. rewrite length_app, (proj2 (number_prefix_clean n 1)) in Heq. lia.
  - rewrite file_of_numbered. intros Heq%app_inv_tail.
    destruct (number_prefix_cases n (S i)) as [[H0 H1]|[H0 H1]]; rewrite H0, H1 in Heq; discriminate Heq.
Qed.

Lemma file_of_first n x name i :
  file_of (session_files n (x :: name)) n (S i) <> file_of (session_files n (x :: name)) n 0.
Proof.
  rewrite file_of_numbered. cbn [session_files file_of fst snd]. intros Heq%(f_equal length).
  rewrite length_app, (proj2 (number_prefix_clean n (S i))) in Heq. lia.
Qed.

Lemma write_files_kept names n segs d i seg :
  segs !! i = Some seg -> (forall j, (i < j < length segs)%nat -> file_of names n j <> file_of names n i) ->
  write_files names n segs d !! file_of names n i = Some (header_of n i ++ concat seg).
Proof.
  induction segs as [|segs last IH] using rev_ind; intros Hi Hne; [done|]. rewrite write_files_snoc.
  apply lookup_snoc_Some in Hi as [[Hlt Hi]|[-> <-]]; [|by rewrite lookup_insert_eq].
  rewrite lookup_insert_ne by (apply Hne; rewrite length_app; simpl; lia). apply IH; [done|].
  intros j Hj. apply Hne. rewrite length_app. simpl. lia.
Qed.

Lemma write_files_others names n segs d f :
  (forall i, (i < length segs)%nat -> f <> file_of names n i) -> write_files names n segs d !! f = d !! f.
Proof.
  induction segs as [|segs last IH] using rev_ind; intros Hf; [done|]. rewrite write_files_snoc, length_app in *.
  simpl in Hf. rewrite lookup_insert_ne by (symmetry; apply Hf; lia). apply IH. intros i Hi. apply Hf. lia.
Qed.

(** *** Writing down *)

(** The files after the records [written] of a session that started with [b]
    bytes and number [n] on a disk [d]. *)
Definition layout (names : text * text) (n b : Z) (d : gmap text text) (written : list text)
    (s : LoggerState) : Prop :=
  exists segs seg,
    concat (segs ++ [seg]) = written /\ cut limit b (segs ++ [seg]) /\
    disk s = write_files names n (segs ++ [seg]) d /\
    log_file_ s = FOpen (file_of names n (length segs)) /\ log_file_name_ s = names.2 /\
    file_byte s = start_of b (length segs) + zlen (concat seg) /\
    file_seq s = n + Z.of_nat (length segs) /\ (length segs <= length written)%nat.

(** What writing down leaves alone. *)
Definition same_front (s s' : LoggerState) : Prop :=
  is_initialized s' = is_initialized s /\ is_stopping s' = is_stopping s /\ thread_ s' = thread_ s /\
  time_now s' = time_now s /\ taken s' = taken s.

(** Counters that do not overflow. *)
Definition bounded (n b : Z) (ls : list text) : Prop :=
  0 <= n /\ 0 <= b /\ zlen ls <= cap /\ b + zlen (concat ls) < 2 ^ 63 /\ n + zlen ls < 2 ^ 63.

Lemma bounded_app n b ls ls' : bounded n b (ls ++ ls') -> bounded n b ls.
Proof.
  intros (Hn & Hb & Hc & Hs & Hq). rewrite concat_app, zlen_app in Hs. rewrite zlen_app in Hc, Hq.
  pose proof (zlen_nonneg ls'). pose proof (zlen_nonneg (concat ls')). split_and!; lia.
Qed.

Lemma concat_one {A} (r : list A) : concat [r] = r.
Proof. apply app_nil_r. Qed.

Lemma s64_nonneg_small z : 0 <= z < 2 ^ 63 -> s64 z = z.
Proof. intros. apply sext_small; lia. Qed.

Lemma layout_bytes names n b d written s :
  0 <= b -> layout names n b d written s -> 0 <= file_byte s <= b + zlen (concat written).
Proof.
  intros Hb (segs & seg & <- & _ & _ & _ & _ & -> & _). rewrite !concat_app. simpl. rewrite app_nil_r, zlen_app.
  pose proof (zlen_nonneg (concat seg)). pose proof (zlen_nonneg (concat (concat segs))).
  destruct segs; simpl start_of; lia.
Qed.

Lemma write_one_layout openable names n b d written r q s :
  (forall f, openable f = true) -> layout names n b d written s -> queue s = r :: q ->
  bounded n b (written ++ [r]) ->
  exists s', write_one limit openable s = Ok s' /\ layout names n b d (written ++ [r]) s' /\
    queue s' = q /\ same_front s s'.
Proof using Hlimit.
  intros Hop Hla Hq (Hn & Hb & _ & Hbytes & Hseq).
  pose proof (layout_bytes _ _ _ _ _ _ Hb Hla) as Hfb.
  destruct Hla as (segs & seg & Hw & Hc & Hd & Hf & Hname & Hbyte & Hfs & Hlen).
  rewrite concat_app, concat_one, zlen_app in Hbytes. rewrite zlen_app in Hseq.
  pose proof (zlen_nonneg r). change (zlen [r]) with 1 in Hseq.
  unfold write_one. rewrite Hq. cbn [file_byte set_records]. destruct (limit <=? file_byte s) eqn:Efull.
  - apply Z.leb_le in Efull. unfold fclose. cbn [log_file_ set_records]. rewrite Hf.
    cbn [mbind result_bind file_seq set_file set_records]. rewrite s64_nonneg_small by (unfold zlen in *; lia).
    unfold fopen. rewrite Hop. unfold fwrite.
    cbn [log_file_ disk log_file_name_ set_file set_counters set_records mbind result_bind].
    assert (c_str (numbered_name (file_seq s + 1) (log_file_name_ s)) = file_of names n (length (segs ++ [seg]))) as ->.
    { rewrite numbered_name_mod, Hname, Hfs, length_app, Nat.add_comm. cbn [file_of length Nat.add]. do 5 f_equal. lia. }
    eexists. split; [done|]. split; [|done]. exists (segs ++ [seg]), [r].
    cbn [disk log_file_ log_file_name_ file_byte file_seq set_file set_counters set_records]. split_and!.
    + rewrite concat_app, Hw. done.
    + apply cut_next; [done|]. by rewrite <- Hbyte.
    + rewrite write_files_snoc, Hd, !alter_insert_eq, concat_one. f_equal.
      unfold header_of. rewrite length_app, Nat.add_comm. cbn [length Nat.add]. rewrite Hfs.
      rewrite app_nil_l. do 2 f_equal. lia.
    + done.
    + done.
    + rewrite s64_nonneg_small by lia. by rewrite length_app, Nat.add_comm, concat_one.
    + rewrite Hfs, length_app. simpl. lia.
    + rewrite !length_app. simpl. lia.
  - apply Z.leb_gt in Efull. cbn [mbind result_bind]. unfold fwrite. cbn [log_file_ set_records]. rewrite Hf.
    cbn [mbind result_bind]. eexists. split; [done|]. split; [|done]. exists segs, (seg ++ [r]).
    cbn [disk log_file_ log_file_name_ file_byte file_seq set_file set_counters set_records].
    split_and!; try done.
    + by rewrite <- Hw, !concat_app, !concat_one, app_assoc.
    + apply cut_more; [done|]. by rewrite <- Hbyte.
    + by rewrite Hd, !write_files_snoc, alter_insert_eq, concat_app, concat_one, app_assoc.
    + rewrite s64_nonneg_small by lia. rewrite concat_app, concat_one, zlen_app, Hbyte. lia.
    + rewrite length_app. lia.
Qed.

Lemma same_front_trans s1 s2 s3 : same_front s1 s2 -> same_front s2 s3 -> same_front s1 s3.
Proof. intros (?&?&?&?&?) (?&?&?&?&?). split_and!; congruence. Qed.

Lemma write_down_layout openable names n b d k s :
  (forall f, openable f = true) -> (k <= length (queue s))%nat ->
  forall written, layout names n b d written s -> bounded n b (written ++ queue s) ->
  exists s', write_down limit openable k s = Ok s' /\ layout names n b d (written ++ take k (queue s)) s' /\
    queue s' = drop k (queue s) /\ same_front s s'.
Proof using Hlimit.
  intros Hop. revert s. induction k as [|k IH]; intros s Hk written Hla Hb.
  { exists s. rewrite take_0, app_nil_r. done. }
  destruct (queue s) as [|r q] eqn:Eq; simpl in Hk; [lia|].
  rewrite (cons_middle r written q), app_assoc in Hb.
  destruct (write_one_layout openable names n b d written r q s) as (s1 & H1 & Hla1 & Hq1 & Hf1);
    [done..|by eapply bounded_app|].
  destruct (IH s1 ltac:(rewrite Hq1; lia) (written ++ [r])) as (s2 & H2 & Hla2 & Hq2 & Hf2);
    [done|by rewrite Hq1|].
  exists s2. cbn [write_down]. rewrite H1. cbn [mbind result_bind]. rewrite Hq1 in *. split; [done|].
  split; [|split; [done|by eapply same_front_trans]]. simpl. by rewrite <- app_assoc in Hla2.
Qed.

(** *** Sessions *)

(** A session in which the lines [ls] were recorded. *)
Record session (names : text * text) (n b : Z) (d : gmap text text) (ls : list text) (s : LoggerState) : Prop := {
  se_init : is_initialized s = true;
  se_thread : thread_ s = true;
  se_stopping : is_stopping s = false;
  se_taken : taken s = ls;
  se_files : exists written, layout names n b d written s /\ written ++ queue s = ls;
}.

Lemma session_time names n b d ls t s :
  session names n b d ls s -> session names n b d ls (set_time t s).
Proof. intros [H1 H2 H3 H4 H5]. by split. Qed.

Lemma start_again openable now name s :
  is_initialized s = true -> StartLogger openable now name s = Ok (set_time (tick now (time_now s)) s).
Proof. intros Hi. unfold StartLogger. by rewrite Hi. Qed.

Lemma open_log_ok openable name s :
  (forall f, openable f = true) ->
  exists s', open_log openable name s = s' /\ log_file_ s' = FOpen (session_files (file_seq s) name).1 /\
    log_file_name_ s' = (session_files (file_seq s) name).2 /\
    disk s' = <[(session_files (file_seq s) name).1 := []]> (disk s) /\
    file_byte s' = file_byte s /\ file_seq s' = file_seq s /\ queue s' = queue s /\ same_front s s'.
Proof.
  intros Hop. eexists. split; [done|]. unfold open_log, open_default, fopen.
  destruct name as [|x name]; cbn [file_seq set_name disk log_file_]; rewrite Hop; by split_and!.
Qed.

Lemma StartLogger_session openable now name s :
  (forall f, openable f = true) -> is_initialized s = false -> thread_ s = false ->
  exists s', StartLogger openable now name s = Ok s' /\ time_now s' = tick now (time_now s) /\
    session (session_files (file_seq s) name) (file_seq s) (file_byte s) (disk s) [] s'.
Proof.
  intros Hop Hi Ht. unfold StartLogger. rewrite Hi.
  destruct (open_log_ok openable name (set_records [] [] (set_flags false false (thread_ s) s)) Hop)
    as (s1 & -> & Hf & Hnm & Hd & Hby & Hsq & Hq & (_ & _ & Hth & Htm & Htk)). cbn in Hth, Htm, Htk, Hq.
  unfold fwrite. rewrite Hf. cbn [mbind result_bind thread_ set_file]. rewrite Hth, Ht. cbn [mbind result_bind].
  eexists. split; [done|]. split; [by cbn; rewrite Htm|]. split; try done. exists []. split; [|done].
  exists [], []. cbn [disk log_file_ log_file_name_ file_byte file_seq set_time set_flags set_file].
  split_and!; try done.
  - apply cut_one.
  - rewrite (write_files_snoc _ _ [] []), Hd, alter_insert_eq, app_nil_r. done.
  - by rewrite Hby, Z.add_0_r.
  - by rewrite Hsq, Z.add_0_r.
Qed.

Lemma RecordLogs_session names n b d ls now log_info s :
  let t := tick now (time_now s) in
  let l := t.2 ++ [Byte.x20] ++ log_info ++ [Byte.x0a] in
  session names n b d ls s -> bounded n b (ls ++ [l]) ->
  exists s', RecordLogs cap now log_info s = Ok s' /\ time_now s' = t /\ session names n b d (ls ++ [l]) s'.
Proof.
  intros t l [Hi Ht Hs Htk (written & Hla & Hls)] (Hn & Hb & Hcap & Hbytes & _).
  rewrite concat_app, concat_one, zlen_app in Hbytes. rewrite zlen_app in Hcap. change (zlen [l]) with 1 in Hcap.
  pose proof (zlen_nonneg (concat ls)). unfold RecordLogs. cbn [time_now set_time].
  fold t. rewrite record_line.
  2:{ unfold l in Hbytes. rewrite !zlen_app in Hbytes. change (zlen [Byte.x20]) with 1 in Hbytes.
      change (zlen [Byte.x0a]) with 1 in Hbytes. lia. }
  cbn [mbind result_bind]. unfold push. cbn [queue set_time]. pose proof (zlen_nonneg written).
  rewrite <- Hls, zlen_app in Hcap. case_cmp; [|lia]. eexists. split; [done|]. split; [done|].
  split; try done.
  - cbn. by rewrite Htk.
  - exists written. split; [done|]. cbn. by rewrite app_assoc, Hls.
Qed.

Lemma inner_session names n b d ls o ops s :
  session names n b d ls s -> inner o -> bounded n b (ls ++ lines (time_now s) (o :: ops)) ->
  exists s' new, perform limit cap o s = Ok s' /\ session names n b d (ls ++ new) s' /\
    lines (time_now s) (o :: ops) = new ++ lines (time_now s') ops.
Proof using Hlimit.
  intros Hse Ho Hbd. destruct o as [openable now name|openable now now' log_type log_info| |openable]; [| |done|].
  - exists (set_time (tick now (time_now s)) s), []. rewrite app_nil_r. cbn [perform GetLogger mbind result_bind].
    rewrite start_again by apply Hse. split; [done|]. split; [by apply session_time|done].
  - cbn [perform GetLogger]. rewrite start_again by apply Hse. cbn [mbind result_bind].
    set (s1 := set_time (tick now (time_now s)) s). cbn [lines] in Hbd.
    set (l := (tick now' (tick now (time_now s))).2 ++ [Byte.x20] ++ (Log_level_info_prefix log_type ++ log_info) ++ [Byte.x0a]) in *.
    rewrite cons_middle, app_assoc in Hbd.
    destruct (RecordLogs_session names n b d ls now' (Log_level_info_prefix log_type ++ log_info) s1) as (s' & H1 & Ht & Hse').
    + by apply session_time.
    + by eapply bounded_app.
    + exists s', [l]. split; [done|]. split; [done|]. cbn [lines]. by rewrite Ht.
  - cbn [perform lines] in *. rewrite (se_thread _ _ _ _ _ _ Hse). destruct Hse as [Hi Ht Hs Htk (written & Hla & Hls)].
    destruct (queue s) as [|r q] eqn:Eq.
    + exists s, []. rewrite app_nil_r. unfold write_one. rewrite Eq. split; [done|]. split; [|done].
      split; try done. exists written. by rewrite Eq.
    + destruct (write_one_layout openable names n b d written r q s) as (s' & H1 & Hla' & Hq' & (Hi' & Hs' & Ht' & Htm' & Htk'));
        [done..| |].
      { apply bounded_app in Hbd. rewrite <- Hls, cons_middle, app_assoc in Hbd. by eapply bounded_app. }
      exists s', []. rewrite app_nil_r. split; [done|]. split; [|by rewrite Htm'].
      split; try congruence. exists (written ++ [r]). split; [done|]. rewrite Hq', <- Hls.
      by rewrite <- app_assoc.
Qed.

Lemma inner_run names n b d ops ls s :
  Forall inner ops -> session names n b d ls s -> bounded n b (ls ++ lines (time_now s) ops) ->
  exists s', run limit cap ops s = Ok s' /\ session names n b d (ls ++ lines (time_now s) ops) s'.
Proof using Hlimit.
  intros Hops. revert ls s. induction Hops as [|o ops Ho _ IH]; intros ls s Hse Hbd.
  { exists s. by rewrite app_nil_r. }
  destruct (inner_session names n b d ls o ops s Hse Ho Hbd) as (s1 & new & H1 & Hse1 & Hl).
  rewrite Hl in *. rewrite app_assoc in Hbd |- *. destruct (IH _ _ Hse1 Hbd) as (s2 & H2 & Hse2).
  exists s2. cbn [run]. by rewrite H1.
Qed.

Lemma run_app ops ops' s : run limit cap (ops ++ ops') s = (s ← run limit cap ops s; run limit cap ops' s).
Proof.
  revert s. induction ops as [|o ops IH]; intros s; [done|]. cbn [run app].
  destruct (perform limit cap o s) as [s1|f]; [apply IH|done].
Qed.

(** The state between sessions. *)
Definition ended (s : LoggerState) : Prop :=
  is_initialized s = false /\ thread_ s = false /\ 0 <= file_byte s /\ 0 <= file_seq s.

Lemma EndLogger_session names n b d openable ls s :
  (forall f, openable f = true) -> session names n b d ls s -> bounded n b ls ->
  exists s' segs, EndLogger limit openable s = Ok s' /\ ended s' /\
    concat segs = ls /\ segs <> [] /\ cut limit b segs /\ disk s' = write_files names n segs d.
Proof using Hlimit.
  intros Hop [Hi Ht Hs Htk (written & Hla & Hls)] Hbd. unfold EndLogger. cbn [thread_ set_flags]. rewrite Ht.
  destruct (write_down_layout openable names n b d (length (queue s)) (set_flags (is_initialized s) true (thread_ s) s)
    Hop ltac:(done) written Hla) as (s1 & H1 & Hla1 & _ & _); [cbn; by rewrite Hls|].
  rewrite Ht in H1. cbn [queue set_flags] in H1, Hla1 |- *. rewrite H1. rewrite firstn_all, Hls in Hla1.
  destruct Hbd as (Hn & Hb & _). pose proof (layout_bytes _ _ _ _ _ _ Hb Hla1) as Hby.
  destruct Hla1 as (segs & seg & Hw & Hc & Hd & Hf & _ & _ & Hsq & _).
  cbn [mbind result_bind]. unfold fclose. cbn [log_file_ set_flags]. rewrite Hf. cbn [mbind result_bind].
  eexists _, (segs ++ [seg]). split; [done|]. split; [split_and!; cbn; try done; lia|]. split_and!; try done.
  intros Hnil. by apply app_nil in Hnil as [_ ?].
Qed.

(** ** Properties *)

(** C25. One session of the logger, whatever happened before it, in which no more
    lines are recorded than the ring has slots, so that it never fills up, and
    in which every file can be opened. The first call that finds the
    logger stopped opens the files: [START_LOG] with its name, a [LOG] with the
    project's. Further starts change nothing. The lines, in order and each with
    its time, are cut into files: one takes lines until it has reached the limit,
    then the next is begun under the project's numbering. The numbers are taken
    modulo 2, so that a file is written over by the second after it: when
    [END_LOG] returns, what is left are the last two files, and the first one
    if the session was started with a name, each with all its lines; the lines of
    files in between are lost. No other file of the disk has changed.
    The writer may run at any time between the calls. *)
Theorem log_session o name ops openable now s :
  ended s -> session_name o = Some name -> opens o -> Forall inner ops -> opens (OEnd openable now) ->
  let ls := lines (time_now s) (o :: ops) in
  bounded (file_seq s) (file_byte s) ls ->
  exists s' segs, run limit cap (o :: ops ++ [OEnd openable now]) s = Ok s' /\ ended s' /\
    concat segs = ls /\ segs <> [] /\ cut limit (file_byte s) segs /\
    disk s' = write_files (session_files (file_seq s) name) (file_seq s) segs (disk s) /\
    let file := file_of (session_files (file_seq s) name) (file_seq s) in
    (forall i seg, segs !! i = Some seg -> (length segs <= i + 2)%nat \/ i = 0%nat /\ name <> [] ->
     disk s' !! file i = Some (header_of (file_seq s) i ++ concat seg)) /\
    (forall f, (forall i, (i < length segs)%nat -> f <> file i) -> disk s' !! f = disk s !! f).
Proof using Hlimit.
  intros (Hi & Ht & _ & _) Hname Ho Hops Hend ls Hbd.
  assert (exists s1 new, perform limit cap o s = Ok s1 /\
    session (session_files (file_seq s) name) (file_seq s) (file_byte s) (disk s) new s1 /\
    ls = new ++ lines (time_now s1) ops) as (s1 & new & H1 & Hse & Hl).
  { destruct o as [op now0 name0|op now0 now' log_type log_info| |]; simplify_eq/=.
    - destruct (StartLogger_session op now0 name s) as (s1 & H1 & Htm & Hse); [done..|].
      exists s1, []. split; [done|]. split; [done|]. unfold ls. cbn [lines]. by rewrite Htm.
    - destruct (StartLogger_session op now0 kLogName s) as (s1 & H1 & Htm & Hse); [done..|].
      destruct (RecordLogs_session _ _ _ _ [] now' (Log_level_info_prefix log_type ++ log_info) s1 Hse) as (s2 & H2 & Htm2 & Hse2).
      + subst ls. rewrite Htm. eapply (bounded_app _ _ [_]). exact Hbd.
      + eexists s2, [_]. rewrite H1. cbn [mbind result_bind]. split; [done|]. split; [exact Hse2|].
        unfold ls. cbn [lines]. by rewrite Htm2, Htm. }
  rewrite Hl in *. destruct (inner_run _ _ _ _ ops new s1 Hops Hse Hbd) as (s2 & H2 & Hse2).
  cbn [run]. rewrite H1. cbn [mbind result_bind]. rewrite run_app, H2. cbn [mbind result_bind run perform GetLogger].
  rewrite start_again by apply Hse2. cbn [mbind result_bind].
  destruct (EndLogger_session _ _ _ _ openable _ (set_time (tick now (time_now s2)) s2) Hend
    (session_time _ _ _ _ _ _ _ Hse2) Hbd) as (s3 & segs & H3 & Hend3 & Hcat & Hne & Hcut & Hdisk).
  exists s3, segs. rewrite H3. split_and!; [done..| |].
  - intros i seg Hseg Hkept. rewrite Hdisk. apply write_files_kept; [done|]. intros j Hj.
    destruct Hkept as [Hlast|[-> Hnamed]].
    + assert (j = S i) as -> by lia. apply file_of_next.
    + destruct name as [|x name']; [done|]. destruct j as [|j]; [lia|]. apply file_of_first.
  - intros f Hf. rewrite Hdisk. by apply write_files_others.
Qed.

(** Whether the logger is left running by a sequence of calls. *)
Definition left_running (ops : list op) : bool :=
  foldl (fun running o => match o with
                          | OStart _ _ _ | OLog _ _ _ _ _ => true
                          | OEnd _ _ => false
                          | OWrite _ => running
                          end) false ops.

Definition flags (s : LoggerState) : bool * bool * bool := (is_initialized s, thread_ s, is_stopping s).

(** The flags go together. *)
Definition flags_ok (running : bool) (s : LoggerState) : Prop :=
  is_initialized s = running /\ thread_ s = running /\ (running = true -> is_stopping s = false).

Lemma flags_ok_same running s s' : flags s' = flags s -> flags_ok running s -> flags_ok running s'.
Proof. unfold flags, flags_ok. intros [= -> -> ->]. done. Qed.

Lemma fwrite_flags x s s' : fwrite x s = Ok s' -> flags s' = flags s.
Proof. unfold fwrite. destruct (log_file_ s); intros; by simplify_eq. Qed.

Lemma fclose_flags s s' : fclose s = Ok s' -> flags s' = flags s.
Proof. unfold fclose. destruct (log_file_ s); intros; by simplify_eq. Qed.

Lemma fopen_flags openable name s : flags (fopen openable name s) = flags s.
Proof. unfold fopen. by destruct (openable _). Qed.

Lemma open_log_flags openable name s : flags (open_log openable name s) = flags s.
Proof.
  unfold open_log, open_default. destruct name as [|x name]; [by rewrite fopen_flags|].
  destruct (log_file_ _); rewrite fopen_flags; [|done..]. apply (fopen_flags _ _ (set_name (x :: name) s)).
Qed.

Lemma write_one_flags openable s s' : write_one limit openable s = Ok s' -> flags s' = flags s.
Proof.
  unfold write_one. destruct (queue s) as [|r q]; [intros; by simplify_eq|].
  destruct (limit <=? _); intros Hw; bind_ok;
    repeat match goal with
    | H : fwrite _ _ = Ok _ |- _ => apply fwrite_flags in H
    | H : fclose _ = Ok _ |- _ => apply fclose_flags in H
    end; rewrite ?fopen_flags in *; unfold flags in *; simpl in *; congruence.
Qed.

Lemma write_down_flags openable k s s' : write_down limit openable k s = Ok s' -> flags s' = flags s.
Proof.
  revert s. induction k as [|k IH]; intros s Hw; cbn [write_down] in Hw; bind_ok; [done|].
  apply IH in Hok0. apply write_one_flags in Hok. congruence.
Qed.

Lemma StartLogger_flags running openable now name s s' :
  flags_ok running s -> StartLogger openable now name s = Ok s' -> flags_ok true s'.
Proof.
  intros (Hi & Ht & Hs) Hst. unfold StartLogger in Hst. rewrite Hi in Hst. destruct running; bind_ok.
  - by split_and!.
  - by destruct (thread_ a0); bind_ok.
Qed.

Lemma perform_flags o running s s' :
  flags_ok running s -> perform limit cap o s = Ok s' ->
  flags_ok (match o with OStart _ _ _ | OLog _ _ _ _ _ => true | OEnd _ _ => false | OWrite _ => running end) s'.
Proof.
  intros Hf Hp. destruct o as [op now name|op now now' log_type log_info|op now|op]; cbn [perform GetLogger] in Hp; bind_ok.
  - by eapply StartLogger_flags.
  - apply (StartLogger_flags _ _ _ _ _ _ Hf) in Hok. unfold RecordLogs_level, RecordLogs in Hok0. bind_ok.
    apply (flags_ok_same _ a); [|done]. unfold push. by destruct (_ <? _).
  - apply (StartLogger_flags _ _ _ _ _ _ Hf) in Hok as (Hi & Ht & Hs). unfold EndLogger in Hok0.
    cbn [thread_ set_flags] in Hok0. rewrite Ht in Hok0. bind_ok.
    match goal with H : fclose _ = Ok _ |- _ => apply fclose_flags in H as [= _ -> _] end. by split_and!.
  - destruct (thread_ s) eqn:Et; bind_ok; [|done]. apply write_one_flags in Hp. by eapply flags_ok_same.
Qed.

Lemma run_flags ops running s s' :
  flags_ok running s -> run limit cap ops s = Ok s' ->
  flags_ok (foldl (fun running o => match o with
                                    | OStart _ _ _ | OLog _ _ _ _ _ => true
                                    | OEnd _ _ => false
                                    | OWrite _ => running
                                    end) running ops) s'.
Proof.
  revert running s. induction ops as [|o ops IH]; intros running s Hf Hr; cbn [run] in Hr; bind_ok; [done|].
  cbn [foldl]. eapply IH; [|done]. by eapply perform_flags.
Qed.

(** C37. A program that leaves the logger running does not end. Whatever calls it
    made, the destructor of the logger, which runs when the program exits,
    waits forever exactly when a [START_LOG] or a [LOG] came behind the last
    [END_LOG]: a [LOG] from a destructor that runs after [END_LOG] is enough.
    Otherwise it returns. *)
Theorem exit_needs_end_log ops d s openable :
  run limit cap ops (LoggerState_new d) = Ok s ->
  if left_running ops then Logger_delete limit openable s = None
  else Logger_delete limit openable s = Some (Ok (set_flags false (is_stopping s) false s)).
Proof.
  intros Hr. assert (flags_ok (left_running ops) s) as (Hi & Ht & Hs)
    by (by apply (run_flags ops false (LoggerState_new d))).
  unfold Logger_delete. rewrite Ht. destruct (left_running ops); [|done]. by rewrite Hs.
Qed.

(** What the synchronous client of the RPC demo logs: its channel logs when it is
    made (and when it cannot connect) and, being a local of [main], again when
    it is destroyed behind [END_LOG]. [during] is what the call itself logs. *)
Definition sync_client_main (openable : text -> bool) (now : Z * text) (this : text) (connected : bool)
    (during : list op) : list op :=
  [OStart openable now (txt "time_service_sync_client_log.txt");
   OLog openable now now kInfo (txt "RpcSyncChannel::RpcSyncChannel - " ++ this)] ++
  (if connected then [] else [OLog openable now now kError (txt "RpcSyncChannel cannot connect")]) ++
  during ++
  [OEnd openable now; OLog openable now now kInfo (txt "RpcSyncChannel::~RpcSyncChannel - " ++ this)].

(** The demo does not end: the logger is running again when it is destroyed. *)
Lemma sync_client_hangs openable now this connected during d s :
  run limit cap (sync_client_main openable now this connected during) (LoggerState_new d) = Ok s ->
  Logger_delete limit openable s = None.
Proof.
  intros Hr. apply (run_flags _ false) in Hr as (_ & Ht & Hs); [|done].
  unfold sync_client_main in Ht, Hs. rewrite !app_assoc, foldl_app in Ht, Hs. cbn [foldl] in Ht, Hs.
  unfold Logger_delete. by rewrite Ht, Hs.
Qed.

End facts.

(** *** Formatted messages *)

Lemma prefix_clean log_type : Byte.x00 ∉ Log_level_info_prefix log_type.
Proof. apply (bool_decide_unpack _ : bool_decide (Byte.x00 ∉ _) -> _). by destruct log_type. Qed.

Lemma prefix_short log_type : zlen (Log_level_info_prefix log_type) <= 16.
Proof. by destruct log_type. Qed.

Lemma c_str_cut t m : c_str (t ++ Byte.x00 :: m) = c_str t.
Proof. induction t as [|x t IH]; [done|]. cbn [c_str app]. by rewrite IH. Qed.

(** The message of a [LOG] with a format is the prefix of its level and the
    formatted text up to its first zero byte. When [snprintf] fails, the length
    -1 makes the array too short for the end of the string, and it is read past
    its end. *)
Theorem format_message junk log_type t :
  zlen t < 2 ^ 31 - 1 ->
  RecordLogs_format junk log_type (Some t) = Ok (Log_level_info_prefix log_type ++ c_str t) /\
  RecordLogs_format junk log_type None = Fault OutOfBounds.
Proof.
  intros Ht. pose proof (zlen_nonneg t). pose proof (prefix_short log_type). pose proof (prefix_clean log_type) as Hp.
  pose proof (zlen_nonneg (Log_level_info_prefix log_type)). unfold RecordLogs_format.
  set (p := Log_level_info_prefix log_type) in *. split.
  - assert (s32 (zlen t) = zlen t) as -> by (apply sext_small; lia).
    assert (zlen p +u u64 (zlen t) +u 1 = zlen p + zlen t + 1) as ->
      by (rewrite (u64_small (zlen t)), (u64_small (zlen p + zlen t)), u64_small; lia).
    rewrite (u64_small (zlen t + 1)) by lia. set (mem := junk <$> _).
    assert (zlen mem = zlen p + zlen t + 1) as Hmem
      by (unfold mem, zlen in *; rewrite length_fmap, length_seq; lia).
    rewrite mem_write_ok by lia. cbn [mbind result_bind]. rewrite ztake_0, app_nil_l, Z.add_0_l.
    case_cmp; [lia|]. rewrite ztake_all by lia. rewrite mem_write_ok.
    2:{ lia. }
    2:{ rewrite !zlen_app, zlen_zdrop by lia. change (zlen [Byte.x00]) with 1. lia. }
    cbn [mbind result_bind]. rewrite ztake_app_exact, <- !app_assoc, c_str_clean by done. simpl app. rewrite c_str_cut.
    rewrite bool_decide_true; [done|]. set_solver.
  - assert (zlen p +u u64 (-1) +u 1 = zlen p) as ->.
    { unfold u64. rewrite Zplus_mod_idemp_r, Zplus_mod_idemp_l. rewrite Z.mod_small; lia. }
    set (mem := junk <$> _).
    assert (zlen mem = zlen p) as Hmem by (unfold mem, zlen; rewrite length_fmap, length_seq; lia).
    rewrite mem_write_ok by lia. rewrite ztake_0, zdrop_all, app_nil_l, app_nil_r by lia.
    cbn [mbind result_bind]. by rewrite bool_decide_false.
Qed.

(** ** Evaluations *)

Module Concrete.
Definition yes (_ : text) : bool := true.
Definition noon : Z * text := (43200, txt "noon" ++ [Byte.x0a]).
Definition later : Z * text := (43201, txt "later" ++ [Byte.x0a]).
Definition nl : text := [Byte.x0a].

Definition or_new (r : result LoggerState) : LoggerState :=
  match r with Ok s => s | Fault _ => LoggerState_new ∅ end.

(** Three records with a limit of 30 bytes for a file. *)
Definition calls : list op :=
  [OLog yes noon noon kInfo (txt "one"); OWrite yes; OStart yes noon (txt "ignored"); OLog yes later later kInfo (txt "two");
   OLog yes noon noon kInfo (txt "three")].

Lemma log_session_witness :
  exists s' segs, run 30 8 (OStart yes noon (txt "a") :: calls ++ [OEnd yes later]) (LoggerState_new ∅) = Ok s' /\
    ended s' /\ concat segs = lines (0, []) (OStart yes noon (txt "a") :: calls) /\ segs <> [] /\ cut 30 0 segs /\
    disk s' = write_files (session_files 0 (txt "a")) 0 segs ∅.
Proof.
  destruct (log_session 30 8 ltac:(reflexivity) (OStart yes noon (txt "a")) (txt "a") calls yes later (LoggerState_new ∅))
    as (s' & segs & Hrun & Hended & Hlines & Hne & Hcut & Hdisk & _).
  - by split_and!.
  - reflexivity.
  - done.
  - by repeat constructor.
  - done.
  - split_and!; vm_compute; congruence.
  - exists s', segs. split_and!; [exact Hrun|exact Hended|exact Hlines|exact Hne|exact Hcut|exact Hdisk].
Defined.

(** The same, evaluated: the file asked for, then [n1_a] and [n0_a]. *)
Lemma three_files :
  let s := or_new (run 30 8 (OStart yes noon (txt "a") :: calls ++ [OLog yes noon noon kInfo (txt "four");
                                                        OLog yes noon noon kInfo (txt "five"); OEnd yes later])
                     (LoggerState_new ∅)) in
  disk s !! txt "a" =
    Some (txt "Current file sequence: 0" ++ nl ++ txt "[ noon ] Log(Info): one" ++ nl ++ txt "[ later ] Log(Info): two" ++ nl) /\
  disk s !! txt "n1_a" =
    Some (txt "Current file sequence: 1" ++ nl ++ txt "[ later ] Log(Info): three" ++ nl ++ txt "[ later ] Log(Info): four" ++ nl) /\
  disk s !! txt "n0_a" = Some (txt "Current file sequence: 2" ++ nl ++ txt "[ later ] Log(Info): five" ++ nl).
Proof. by vm_compute. Qed.

(** A message recorded after [END_LOG]. *)
Definition late : list op := [OStart yes noon (txt "a"); OEnd yes noon; OLog yes noon noon kInfo (txt "late")].
Definition succeeds (r : result LoggerState) : bool := match r with Ok _ => true | Fault _ => false end.

Lemma exit_needs_end_log_witness :
  exists s, run 30 8 late (LoggerState_new ∅) = Ok s /\ Logger_delete 30 yes s = None.
Proof.
  assert (succeeds (run 30 8 late (LoggerState_new ∅)) = true) as Hok by (vm_compute; reflexivity).
  destruct (run 30 8 late (LoggerState_new ∅)) as [s|f] eqn:Hrun; [|discriminate Hok].
  exists s. exact (conj eq_refl (exit_needs_end_log 30 8 late ∅ s yes Hrun)).
Defined.

(** A second [END_LOG] starts a session of its own: it truncates [log.txt]. *)
Lemma end_log_twice :
  let s := or_new (run 30 8 [OLog yes noon noon kInfo (txt "one"); OEnd yes noon] (LoggerState_new ∅)) in
  disk s !! kLogName = Some (txt "Current file sequence: 0" ++ nl ++ txt "[ noon ] Log(Info): one" ++ nl) /\
  disk (or_new (run 30 8 [OEnd yes noon] s)) !! kLogName = Some (txt "Current file sequence: 0" ++ nl).
Proof. by vm_compute. Qed.

(** When the next file cannot be opened, the writer uses a null pointer. *)
Lemma next_file_missing :
  run 30 8 [OStart yes noon (txt "a"); OLog yes noon noon kInfo (txt "twelve and more"); OLog yes noon noon kInfo (txt "x");
            OWrite yes; OWrite (fun _ => false)] (LoggerState_new ∅) = Fault NullPointer.
Proof. by vm_compute. Qed.

Lemma format_message_witness :
  RecordLogs_format (fun _ => Byte.x55) kWarn (Some (txt "x = 1")) = Ok (txt "Log(Warn): x = 1") /\
  RecordLogs_format (fun _ => Byte.x55) kWarn None = Fault OutOfBounds.
Proof. apply (format_message (fun _ => Byte.x55) kWarn (txt "x = 1")). reflexivity. Defined.
End Concrete.
