(* ===== verification/ConnApi.v ===== *)
(** * A connection as an application sees it

    The example programs use a connection ([Connecting]) through few methods
    inside their callbacks. [ConnApi] names them and [ConnSpec] states what they
    promise there; the applications are proved against the class, and the model
    of [Connecting] is its instance. [c_accepted] is the history of the bytes
    [Send] took over, which leave in this order
    ([ConnectingFacts.output_stream_in_order]). *)

From stdpp Require Import prelude gmap list.
From S2P Require Import Prelude.
From S2P Require Import IoBuffer.
From S2P Require Import Poller.
From S2P Require Import PollerFacts.
From S2P Require Import Connecting.
From S2P Require Import ConnectingFacts.

Class ConnApi (C : Type) := {
  c_Fd : C -> Z;
  c_IsConnected : C -> bool;
  c_Send : list Byte.byte -> C -> result C;
  c_ShutDownWrite : C -> C;
  c_accepted : C -> list Byte.byte;
}.

(** [c_room n c]: the connection can take [n] more bytes before anything it has
    taken is written. *)
Class ConnSpec (C : Type) `{!ConnApi C} := {
  c_room : Z -> C -> Prop;
  c_room_le : forall n k c, c_room n c -> 0 <= k <= n -> c_room k c;
  send_connected : forall n m c, c_IsConnected c = true -> 0 <= n -> c_room (n + zlen m) c ->
    exists c', c_Send m c = Ok c' /\ c_accepted c' = c_accepted c ++ m /\ c_IsConnected c' = true /\
      c_Fd c' = c_Fd c /\ c_room n c';
  send_unconnected : forall m c, c_IsConnected c = false -> c_Send m c = Ok c;
  shut_spec : forall c, c_IsConnected (c_ShutDownWrite c) = false /\
    c_Fd (c_ShutDownWrite c) = c_Fd c /\ c_accepted (c_ShutDownWrite c) = c_accepted c;
}.

(** ** The instance *)

Section instance.
Context {P E : Type} `{!PollerApi P, !BuildConfig, !ConnCallbacks (World P E)}.
Abbreviation W := (World P E).

#[export] Instance connecting_api : ConnApi W := {|
  c_Fd w := fd_ (conn w);
  c_IsConnected w := IsConnected (conn w);
  c_Send := Send;
  c_ShutDownWrite := ShutDownWrite;
  c_accepted := accepted;
|}.

(** Nothing was consumed from the front of the buffer and [n] bytes fit. *)
Definition buffer_room (n : Z) (b : IoBuffer) : Prop :=
  IoBuffer.wf b /\ reading_index_ b = kReservedCapacity /\ writing_index_ b + n <= vector_max_size.

(** The buffer [Send] would append to, and the one after that. *)
Definition conn_room (n : Z) (w : W) : Prop :=
  0 <= n /\ buffer_room n (pending_output_buffer_ (conn w)) /\
  (write_in_flight_ (conn w) = true \/ buffer_room n (output_buffer_ (conn w))).

Lemma buffer_room_append n m b :
  0 <= n -> buffer_room (n + zlen m) b -> exists b', Append m b = Ok b' /\ buffer_room n b'.
Proof.
  intros Hn (Hwf & Hr & Hmax). destruct (Append_fresh b m) as (b' & HA & Hwf' & _ & Hr' & Hw');
    [done | done | lia|]. exists b'. split; [done|]. split; [done|]. split; [done|]. lia.
Qed.

Lemma buffer_room_le n k b : buffer_room n b -> k <= n -> buffer_room k b.
Proof. intros (? & ? & ?) ?. split; [done|]. split; [done | lia]. Qed.

Lemma SubmitWriteOnce_same (w : W) :
  let w' := SubmitWriteOnce w in
  accepted w' = accepted w /\ state_ (conn w') = state_ (conn w) /\ fd_ (conn w') = fd_ (conn w) /\
  output_buffer_ (conn w') = output_buffer_ (conn w) /\
  pending_output_buffer_ (conn w') = pending_output_buffer_ (conn w).
Proof.
  unfold SubmitWriteOnce. destruct (_ || _); [done|].
  destruct (pa_SubmitWrite _ _ _ _ _) as [k p]. by destruct (k =? 0).
Qed.

Definition connecting_spec (quiet_mark : HighWaterMarkCallback_ = None) : ConnSpec W.
Proof.
  refine {| c_room := conn_room |}.
  - intros n k w (_ & Hp & Ho) Hk. split; [lia|]. split; [apply (buffer_room_le n); [done|lia]|].
    destruct Ho as [Ho|Ho]; [by left | right; apply (buffer_room_le n); [done|lia]].
  - intros n m w Hst Hn (_ & Hp & Ho). pose proof (zlen_nonneg m).
    unfold c_IsConnected, connecting_api, IsConnected in *. apply bool_decide_eq_true in Hst.
    cbn [c_Send]. unfold Send. rewrite Hst, quiet_mark. cbn [mbind result_bind bool_decide].
    rewrite bool_decide_false, bool_decide_true by done. cbn [mbind result_bind].
    destruct (write_in_flight_ (conn w)) eqn:Hf.
    + destruct (buffer_room_append n m _ Hn Hp) as (b & -> & Hb). cbn [mbind result_bind].
      eexists. split; [done|]. cbn. rewrite Hst. split; [done|]. split; [done|]. split; [done|].
      split; [done|]. split; [done|]. left. done.
    + destruct Ho as [?|Ho]; [done|]. destruct (buffer_room_append n m _ Hn Ho) as (b & -> & Hb).
      cbn [mbind result_bind]. eexists. split; [done|].
      destruct (SubmitWriteOnce_same (accept m (upd_conn (set_outputs b (pending_output_buffer_ (conn w))) w)))
        as (Ha & Hs & Hfd & Hout & Hpend). cbn [c_accepted c_Fd].
      rewrite Ha, Hs, Hfd. cbn. rewrite Hst. split; [done|]. split; [done|]. split; [done|].
      split; [done|]. rewrite Hout, Hpend. split; [by apply (buffer_room_le (n + zlen m)); [|lia]|].
      right. done.
  - intros m w Hst. cbn in *. unfold IsConnected in Hst. apply bool_decide_eq_false in Hst. unfold Send.
    destruct (bool_decide (state_ (conn w) = kDisconnected)); [done|]. by rewrite bool_decide_false.
  - intros w. cbn. unfold IsConnected, ShutDownWrite.
    destruct (bool_decide_reflect (state_ (conn w) = kConnected)) as [Hc|Hc].
    + by destruct (negb _).
    + by rewrite bool_decide_false.
Defined.
End instance.

(** ** Established connections *)

Module Concrete.
#[local] Existing Instance PollerFacts.Concrete.endless_ring.
#[local] Existing Instance PollerFacts.Concrete.old_headers.
#[local] Existing Instance ConnectingFacts.Concrete.quiet.

Abbreviation Conn := ConnectingFacts.Concrete.W.

#[export] Instance conn_api : ConnApi Conn := connecting_api.
#[export] Instance conn_spec : ConnSpec Conn := connecting_spec eq_refl.

(** A connection on the descriptor [fd] after [OnEstablishing]. *)
Definition opened (fd : Z) : Conn :=
  ConnectingFacts.Concrete.or_new (OnEstablishing
    (mkWorld (Connecting_new (100 + fd) fd) (Poller_new [] None (0, 0)) 0 [] [] [] 0 [] tt)).

Lemma opened_state fd :
  c_Fd (opened fd) = fd /\ c_IsConnected (opened fd) = true /\ c_accepted (opened fd) = [] /\
  write_in_flight_ (conn (opened fd)) = false /\
  output_buffer_ (conn (opened fd)) = IoBuffer_new kInitialCapacity /\
  pending_output_buffer_ (conn (opened fd)) = IoBuffer_new kInitialCapacity.
Proof. vm_compute. done. Qed.

Lemma opened_room fd n : 0 <= n < 2 ^ 62 -> c_room n (opened fd).
Proof.
  intros Hn. destruct (opened_state fd) as (_ & _ & _ & _ & Ho & Hp).
  assert (buffer_room n (IoBuffer_new kInitialCapacity)) as Hb.
  { split; [by apply IoBuffer_new_wf|]. split; [done|].
    change (writing_index_ (IoBuffer_new kInitialCapacity)) with kReservedCapacity.
    unfold kReservedCapacity, vector_max_size. lia. }
  split; [lia|]. rewrite Ho, Hp. auto.
Qed.
End Concrete.
