(* ===== verification/ChatRoom.v ===== *)
(** * The chat room

    Model of example/chat_room: class [Codec] (message_codec.cc), which frames
    messages by a big-endian length, [ChatServer] (chat_server.cc), which sends
    every message to all other members, and [ChatClient] (chat_client.cc).
    Connections are reached through [ConnApi]. *)

From stdpp Require Import prelude gmap list sorting.
From coqutil Require Import Byte Word.LittleEndianList.
From S2P Require Import Prelude.
From S2P Require Import IoBuffer.
From S2P Require Import Framing.
From S2P Require Import ConnApi.

Definition kHeadLength : Z := 4.

(** ** The codec *)

Module Codec.
Section codec.
Context {E : Type} `{!HostOrder}.
(** What the codec's owner does with a message, and [connection.ShutDownWrite]. *)
Context (MessageCallback_ : list byte -> E -> result E) (ShutDownWrite_ : E -> E).

Fixpoint OnMessage_loop (fuel : nat) (b : IoBuffer) (e : E) : result (IoBuffer * E) :=
  match fuel with
  | O => Ok (b, e)
  | S fuel =>
      if kHeadLength <=? GetReadableBytes b then
        msg_len ← GetReadableInt32 b;
        if (65536 <? msg_len) || (msg_len <? 0) then Ok (b, ShutDownWrite_ e)
        else if msg_len + kHeadLength <=? s32 (GetReadableBytes b) then
          let b := Refresh kHeadLength b in
          message ← mem_read (buffer_ b) (GetReadablePosition b) msg_len;
          e ← MessageCallback_ message e;
          OnMessage_loop fuel (Refresh (u64 msg_len) b) e
        else Ok (b, e)
      else Ok (b, e)
  end.

(** Every round takes at least the header off the buffer. *)
Definition OnMessage (b : IoBuffer) (e : E) : result (IoBuffer * E) :=
  OnMessage_loop (S (Z.to_nat (GetReadableBytes b))) b e.
End codec.

Section sending.
Context `{!HostOrder}.

(** The buffer [Send] fills; its contents are what the connection gets. *)
Definition encode (message : list byte) : result (list byte) :=
  b ← Append message (IoBuffer_new kInitialCapacity);
  b ← SetHeadContentInt32 (s32 (zlen message)) b;
  mem_read (buffer_ b) (GetReadablePosition b) (GetReadableBytes b).

Definition Send {C} `{!ConnApi C} (message : list byte) (c : C) : result C :=
  bytes ← encode message; c_Send bytes c.
End sending.
End Codec.

(** ** The terminal *)

(** What [printf("<<< %s\n", message.c_str())] writes. *)
Definition line (m : list byte) : list byte :=
  [Byte.x3c; Byte.x3c; Byte.x3c; Byte.x20] ++ c_str m ++ [Byte.x0a].

(** ** The server *)

Module Server.
(** [store] has the connection objects by address; the server keeps a set of
    pointers to them. [printed] is what it wrote to the terminal. *)
Record ChatServer (C : Type) := mkChatServer {
  store : gmap Z C;
  connections_ : gset Z;
  printed : list byte;
}.
Arguments mkChatServer {_}.
Arguments store {_}.
Arguments connections_ {_}.
Arguments printed {_}.

Section server.
Context {C : Type} `{!ConnApi C, !HostOrder}.
Abbreviation S := (ChatServer C).

Definition deref (p : Z) (s : S) : result C :=
  match store s !! p with Some c => Ok c | None => Fault OutOfBounds end.

Definition OnConnectionCallback (p : Z) (s : S) : result S :=
  c ← deref p s;
  Ok (mkChatServer (store s)
        (if c_IsConnected c then {[p]} ∪ connections_ s else connections_ s ∖ {[p]}) (printed s)).

Fixpoint send_others (conn_fd : Z) (message : list byte) (qs : list Z) (s : S) : result S :=
  match qs with
  | [] => Ok s
  | q :: qs =>
      c ← deref q s;
      s ← (if negb (conn_fd =? c_Fd c) then
             c ← Codec.Send message c;
             Ok (mkChatServer (<[q := c]> (store s)) (connections_ s) (printed s))
           else Ok s);
      send_others conn_fd message qs s
  end.

(** A [std::set] is walked in the order of its elements. *)
Definition in_order (X : gset Z) : list Z := merge_sort Z.le (elements X).

Definition OnCodecMessage (p : Z) (message : list byte) (s : S) : result S :=
  let s := mkChatServer (store s) (connections_ s) (printed s ++ line message) in
  c ← deref p s;
  send_others (c_Fd c) message (in_order (connections_ s)) s.

Definition shut_down (p : Z) (s : S) : S :=
  mkChatServer (alter c_ShutDownWrite p (store s)) (connections_ s) (printed s).

(** The message callback of the connection at [p], whose input buffer is [b]. *)
Definition OnMessage (p : Z) (b : IoBuffer) (s : S) : result (IoBuffer * S) :=
  Codec.OnMessage (OnCodecMessage p) (shut_down p) b s.
End server.
End Server.

(** ** The client *)

Module Client.
Section client.
Context {C : Type} `{!ConnApi C, !HostOrder}.

(** [connection_] has no initialiser: its first value is arbitrary. [printed]
    is what the client wrote to the terminal. *)
Record ChatClient := mkChatClient {
  store : gmap Z C;
  connection_ : Z;
  printed : list byte;
}.

Definition Write (message : list byte) (s : ChatClient) : result ChatClient :=
  if connection_ s =? 0 then Ok s
  else
    match store s !! connection_ s with
    | Some c =>
        c ← Codec.Send message c;
        Ok (mkChatClient (<[connection_ s := c]> (store s)) (connection_ s) (printed s))
    | None => Fault OutOfBounds
    end.

Definition OnConnectionCallback (p : Z) (s : ChatClient) : result ChatClient :=
  match store s !! p with
  | Some c => Ok (mkChatClient (store s) (if c_IsConnected c then p else 0) (printed s))
  | None => Fault OutOfBounds
  end.

Definition OnCodecMessage (message : list byte) (s : ChatClient) : result ChatClient :=
  Ok (mkChatClient (store s) (connection_ s) (printed s ++ line message)).

Definition OnMessage (p : Z) (b : IoBuffer) (s : ChatClient) : result (IoBuffer * ChatClient) :=
  Codec.OnMessage OnCodecMessage
    (fun s => mkChatClient (alter c_ShutDownWrite p (store s)) (connection_ s) (printed s)) b s.
End client.
End Client.

(** ** Frames *)

Definition frame (m : list byte) : list byte := be_bytes 4 (zlen m) ++ m.
Abbreviation frames := (Framing.frames frame).

(** What a receiver accepts. *)
Definition fits (m : list byte) : Prop := zlen m <= 65536.

Abbreviation incomplete := (Framing.incomplete frame fits).

Section frames.
Context `{!HostOrder}.

Lemma chat_zlen_frame m : zlen (frame m) = 4 + zlen m.
Proof. unfold frame. rewrite zlen_app, zlen_be_bytes. lia. Qed.

Lemma encode_frame m : zlen m < 2 ^ 31 -> Codec.encode m = Ok (frame m).
Proof.
  intros Hm. pose proof (zlen_nonneg m). unfold Codec.encode.
  pose proof (IoBuffer_new_wf kInitialCapacity ltac:(done)) as Hwf0.
  destruct (Append_fresh (IoBuffer_new kInitialCapacity) m) as (b1 & -> & Hwf1 & Hr1 & Hi1 & Hj1);
    [done|done|unfold vector_max_size; simpl; unfold kReservedCapacity; lia|].
  cbn [mbind result_bind]. rewrite SetHeadContentInt32_bytes.
  destruct (SetHeadContent_ok b1 (be_bytes 4 (s32 (zlen m)))) as (b2 & -> & Hwf2 & Hr2 & _);
    [done|rewrite zlen_be_bytes, Hi1; unfold kReservedCapacity; lia|].
  cbn [mbind result_bind]. unfold GetReadablePosition. rewrite readable_read_all by done.
  rewrite Hr2, Hr1, IoBuffer_new_readable. unfold frame, s32. by rewrite sext_small by lia.
Qed.

Lemma chat_frame_head m rest : ztake 4 (frame m ++ rest) = be_bytes 4 (zlen m).
Proof.
  unfold frame. rewrite <- app_assoc. change 4 with (Z.of_nat 4) at 1.
  rewrite <- (zlen_be_bytes 4 (zlen m)) at 1. apply ztake_app_exact.
Qed.

Lemma chat_frame_head_value m rest :
  zlen m < 2 ^ 31 -> s32 (be_value (ztake 4 (frame m ++ rest))) = zlen m.
Proof.
  intros Hlen. pose proof (zlen_nonneg m). rewrite chat_frame_head. unfold s32.
  rewrite (signed_be_roundtrip 4). change (Z.of_nat 4 * 8) with 32. apply sext_small; lia.
Qed.

Lemma frame_payload m rest : zslice 4 (zlen m) (frame m ++ rest) = m.
Proof.
  unfold zslice, frame. rewrite <- app_assoc.
  change 4 with (Z.of_nat 4) at 1. rewrite <- (zlen_be_bytes 4 (zlen m)) at 1.
  by rewrite zdrop_app_exact, ztake_app_exact.
Qed.

Lemma frame_drop m rest : zdrop (4 + zlen m) (frame m ++ rest) = rest.
Proof. rewrite <- chat_zlen_frame. apply zdrop_app_exact. Qed.

Section decode.
Context {E : Type} (cb : list byte -> E -> result E) (shut : E -> E).

(** The codec on the bytes that are there: what is left, and the state. *)
Fixpoint decode (fuel : nat) (bs : list byte) (e : E) : result (list byte * E) :=
  match fuel with
  | O => Ok (bs, e)
  | S fuel =>
      if zlen bs <? 4 then Ok (bs, e)
      else
        let len := s32 (be_value (ztake 4 bs)) in
        if (65536 <? len) || (len <? 0) then Ok (bs, shut e)
        else if zlen bs <? len + 4 then Ok (bs, e)
        else e ← cb (zslice 4 len bs) e; decode fuel (zdrop (4 + len) bs) e
  end.

(** The loop on a buffer is [decode] on its readable bytes. *)
Lemma chat_OnMessage_loop_decode fuel b e :
  wf b -> zlen (readable b) < 2 ^ 31 ->
  match decode fuel (readable b) e with
  | Ok (rest, e') => exists b', Codec.OnMessage_loop cb shut fuel b e = Ok (b', e') /\ wf b' /\ readable b' = rest
  | Fault f => Codec.OnMessage_loop cb shut fuel b e = Fault f
  end.
Proof.
  revert b e. induction fuel as [|fuel IH]; intros b e Hwf Hmax; [by exists b|].
  pose proof (zlen_nonneg (readable b)) as Hnn. cbn [Codec.OnMessage_loop decode]. unfold kHeadLength.
  rewrite (readable_bytes_zlen b Hwf). rewrite Z.leb_antisym.
  destruct (Z.ltb_spec (zlen (readable b)) 4) as [Hs|Hs]; cbn [negb]; [by exists b|].
  rewrite GetReadableInt32_ok by (done || lia). cbn [mbind result_bind]. cbv zeta.
  set (len := s32 (be_value (ztake 4 (readable b)))).
  destruct ((65536 <? len) || (len <? 0)) eqn:Elen; [by exists b|].
  apply orb_false_iff in Elen as [Hlo%Z.ltb_ge Hhi%Z.ltb_ge].
  assert (s32 (zlen (readable b)) = zlen (readable b)) as -> by (apply sext_small; lia).
  rewrite (Z.leb_antisym (zlen (readable b))).
  destruct (Z.ltb_spec (zlen (readable b)) (len + 4)) as [Hp|Hp]; cbn [negb]; [by exists b|].
  destruct (Refresh_spec b 4 Hwf ltac:(lia)) as (Hwf1 & Hr1 & _).
  assert (zlen (readable (Refresh 4 b)) = zlen (readable b) - 4) as Hl1
    by (rewrite Hr1, zlen_zdrop by lia; lia).
  unfold GetReadablePosition. rewrite readable_read by (done || lia). cbn [mbind result_bind].
  rewrite Hr1. change (ztake len (zdrop 4 (readable b))) with (zslice 4 len (readable b)).
  destruct (cb (zslice 4 len (readable b)) e) as [e1|f]; cbn [mbind result_bind]; [|done].
  rewrite (u64_small len) by lia.
  destruct (Refresh_spec (Refresh 4 b) len Hwf1 ltac:(lia)) as (Hwf2 & Hr2 & _).
  rewrite Hr1, zdrop_zdrop in Hr2 by lia. rewrite <- Hr2. apply IH; [done|].
  rewrite Hr2, zlen_zdrop by lia. lia.
Qed.

Lemma decode_incomplete fuel rest e : incomplete rest -> decode fuel rest e = Ok (rest, e).
Proof.
  intros (m & more & Hm & Heq & Hne). destruct fuel as [|fuel]; [done|]. simpl.
  pose proof (f_equal zlen Heq) as Hl. rewrite zlen_app, chat_zlen_frame in Hl.
  pose proof (zlen_nonneg more). destruct (Z.ltb_spec (zlen rest) 4) as [|H4]; [done|].
  assert (s32 (be_value (ztake 4 rest)) = zlen m) as ->.
  { rewrite <- (chat_frame_head_value m []) by (unfold fits in Hm; lia). rewrite app_nil_r, <- Heq.
    by rewrite ztake_app_l by lia. }
  pose proof (zlen_nonneg m). rewrite (proj2 (Z.ltb_ge 65536 _)) by done.
  rewrite (proj2 (Z.ltb_ge _ 0)) by lia. cbn [orb].
  destruct (Z.ltb_spec (zlen rest) (zlen m + 4)) as [|Hge]; [done|].
  destruct Hne. apply zlen_zero. lia.
Qed.

Lemma chat_decode_frames ms rest e fuel :
  Forall fits ms -> incomplete rest -> (length ms < fuel)%nat ->
  decode fuel (frames ms ++ rest) e = (e ← deliver cb ms e; Ok (rest, e)).
Proof.
  intros Hf Hr. revert e fuel. induction ms as [|m ms IH]; intros e fuel Hfuel.
  { simpl. by apply decode_incomplete. }
  apply Forall_cons in Hf as [Hm Hf]. destruct fuel as [|fuel]; [simpl in Hfuel; lia|].
  rewrite framed_cons, <- app_assoc. cbn [decode deliver]. unfold fits in Hm.
  rewrite chat_frame_head_value by lia. pose proof (zlen_nonneg m). pose proof (zlen_nonneg (frames ms ++ rest)).
  rewrite zlen_app, chat_zlen_frame.
  rewrite (proj2 (Z.ltb_ge _ 4)), (proj2 (Z.ltb_ge 65536 _)), (proj2 (Z.ltb_ge _ 0)) by lia. cbn [orb].
  rewrite (proj2 (Z.ltb_ge _ (zlen m + 4))) by lia. rewrite frame_payload, frame_drop.
  destruct (cb m e) as [e1|f]; cbn [mbind result_bind]; [|done]. apply IH; [done|].
  simpl in Hfuel. lia.
Qed.

Lemma length_frames ms : 4 * Z.of_nat (length ms) <= zlen (frames ms).
Proof.
  induction ms as [|m ms IH]; [done|]. rewrite framed_cons, zlen_app, chat_zlen_frame.
  pose proof (zlen_nonneg m). simpl length. lia.
Qed.

Lemma OnMessage_frames b e ms rest :
  wf b -> readable b = frames ms ++ rest -> zlen (readable b) < 2 ^ 31 ->
  Forall fits ms -> incomplete rest ->
  match deliver cb ms e with
  | Ok e' => exists b', Codec.OnMessage cb shut b e = Ok (b', e') /\ wf b' /\ readable b' = rest
  | Fault f => Codec.OnMessage cb shut b e = Fault f
  end.
Proof.
  intros Hwf Hb Hmax Hf Hr. unfold Codec.OnMessage. rewrite readable_bytes_zlen by done.
  pose proof (chat_OnMessage_loop_decode (S (Z.to_nat (zlen (readable b)))) b e Hwf Hmax) as Hd.
  rewrite Hb, chat_decode_frames in Hd; [|done|done|].
  - rewrite <- Hb in Hd. destruct (deliver cb ms e) as [e'|f]; exact Hd.
  - pose proof (length_frames ms). rewrite zlen_app. pose proof (zlen_nonneg rest). lia.
Qed.
End decode.
End frames.

(** ** The server sends to the others *)

Section broadcast.
Context {C : Type} `{!ConnApi C, !ConnSpec C, !HostOrder}.
Import Server.
Abbreviation S := (ChatServer C).

(** Every member is a connection that exists, is connected and has room for [n]
    more bytes. *)
Definition members_ok (n : Z) (s : S) : Prop :=
  forall q, q ∈ connections_ s ->
    exists c, store s !! q = Some c /\ c_IsConnected c = true /\ c_room n c.

(** The only change from [s] to [s'] is that the connections in [qs] with a
    descriptor other than [fd] took over [bs]. *)
Definition sent_to (fd : Z) (qs : list Z) (bs : list byte) (s s' : S) : Prop :=
  connections_ s' = connections_ s /\
  forall q, match store s !! q with
            | None => store s' !! q = None
            | Some c => exists c', store s' !! q = Some c' /\ c_Fd c' = c_Fd c /\
                c_IsConnected c' = c_IsConnected c /\
                c_accepted c' = c_accepted c ++
                  (if bool_decide (q ∈ qs) && negb (fd =? c_Fd c) then bs else [])
            end.

Lemma sent_to_refl fd bs s : sent_to fd [] bs s s.
Proof.
  split; [done|]. intros q. destruct (store s !! q) as [c|]; [|done].
  exists c. by rewrite bool_decide_false, app_nil_r by (apply not_elem_of_nil).
Qed.

Lemma sent_to_nothing fd qs s : sent_to fd qs [] s s.
Proof.
  split; [done|]. intros q. destruct (store s !! q) as [c|]; [|done].
  exists c. destruct (_ && _); by rewrite app_nil_r.
Qed.

(** Two messages to the same receivers. *)
Lemma sent_to_app fd qs bs bs' s1 s2 s3 :
  sent_to fd qs bs s1 s2 -> sent_to fd qs bs' s2 s3 -> sent_to fd qs (bs ++ bs') s1 s3.
Proof.
  intros [Hc1 H1] [Hc2 H2]. split; [congruence|]. intros q. specialize (H1 q). specialize (H2 q).
  destruct (store s1 !! q) as [c1|].
  - destruct H1 as (c2 & Hq & Hfd & Hco & Hac). rewrite Hq in H2.
    destruct H2 as (c3 & Hq3 & Hfd3 & Hco3 & Hac3). exists c3. rewrite Hq3, Hfd3, Hco3, Hac3, Hfd, Hac.
    split; [done|]. split; [done|]. split; [done|].
    destruct (_ && _); by rewrite <- ?app_assoc, ?app_nil_r.
  - by rewrite H1 in H2.
Qed.

(** One message to one more receiver. *)
Lemma sent_to_cons fd q qs bs s s' s'' c c' :
  q ∉ qs -> store s !! q = Some c ->
  s' = (if negb (fd =? c_Fd c) then mkChatServer (<[q := c']> (store s)) (connections_ s) (printed s) else s) ->
  c_Fd c' = c_Fd c -> c_IsConnected c' = c_IsConnected c -> c_accepted c' = c_accepted c ++ bs ->
  sent_to fd qs bs s' s'' -> sent_to fd (q :: qs) bs s s''.
Proof.
  intros Hni Hq -> Hfd Hco Hac [Hc H2].
  split; [by destruct (negb (fd =? c_Fd c))|]. intros r. specialize (H2 r).
  destruct (decide (r = q)) as [->|Hne].
  - rewrite Hq. rewrite (bool_decide_true (q ∈ q :: qs)) by by left. cbn [andb].
    rewrite (bool_decide_false (q ∈ qs)) in H2 by done. cbn [andb] in H2.
    destruct (negb (fd =? c_Fd c)); cbn [store] in H2; [rewrite lookup_insert_eq in H2 | rewrite Hq in H2];
      destruct H2 as (d & Hd & Hfd' & Hco' & Hac'); exists d; rewrite app_nil_r in Hac'; cbn [negb];
      rewrite ?app_nil_r; split_and!; congruence.
  - assert (store (if negb (fd =? c_Fd c) then mkChatServer (<[q := c']> (store s)) (connections_ s) (printed s) else s) !! r
            = store s !! r) as Hr by (destruct (negb _); [by apply lookup_insert_ne | done]).
    rewrite Hr in H2. destruct (store s !! r) as [d|]; [|done].
    assert (bool_decide (r ∈ q :: qs) = bool_decide (r ∈ qs)) as ->; [|done].
    apply bool_decide_ext. rewrite elem_of_cons. split; [by intros [?|?] | by right].
Qed.

Lemma send_others_ok fd m n qs s :
  NoDup qs -> zlen m < 2 ^ 31 -> 0 <= n ->
  (forall q, q ∈ qs -> exists c, store s !! q = Some c /\ c_IsConnected c = true /\
    c_room (n + zlen (frame m)) c) ->
  exists s', send_others fd m qs s = Ok s' /\ sent_to fd qs (frame m) s s' /\ printed s' = printed s /\
    (forall q, q ∉ qs -> store s' !! q = store s !! q) /\
    (forall q c', q ∈ qs -> store s' !! q = Some c' -> c_room n c').
Proof.
  intros Hnd Hm Hn. revert s. induction Hnd as [|q qs Hni Hnd IH]; intros s Hok.
  { exists s. split; [done|]. split; [apply sent_to_refl|]. split; [done|]. split; [done|].
    by intros q c' ?%elem_of_nil. }
  destruct (Hok q) as (c & Hq & Hco & Hroom); [by left|].
  destruct (send_connected n (frame m) c Hco Hn Hroom) as (c' & Hsend & Hac & Hco' & Hfd & Hroom').
  cbn [send_others]. unfold deref. rewrite Hq. cbn [mbind result_bind].
  set (s1 := if negb (fd =? c_Fd c) then mkChatServer (<[q := c']> (store s)) (connections_ s) (printed s) else s).
  assert ((if negb (fd =? c_Fd c) then c ← Codec.Send m c;
             Ok (mkChatServer (<[q := c]> (store s)) (connections_ s) (printed s)) else Ok s) = Ok s1) as ->.
  { unfold s1, Codec.Send. rewrite encode_frame by done. cbn [mbind result_bind]. rewrite Hsend.
    by destruct (negb _). }
  cbn [mbind result_bind].
  assert (forall r, r <> q -> store s1 !! r = store s !! r) as Hother.
  { intros r Hr. unfold s1. destruct (negb _); [|done]. by apply lookup_insert_ne. }
  destruct (IH s1) as (s2 & Hrun & Hst & Hpr & Hkeep & Hr2).
  { intros r Hr. rewrite Hother by (intros ->; done). apply Hok. by right. }
  exists s2. split; [done|]. split; [|split; [|split]].
  - eapply (sent_to_cons fd q qs); [done|done|reflexivity|done|congruence|done|done].
  - rewrite Hpr. unfold s1. by destruct (negb _).
  - intros r [Hrq Hr]%not_elem_of_cons. by rewrite Hkeep, Hother.
  - intros r d [->|Hr]%elem_of_cons Hd; [|by apply (Hr2 r)].
    rewrite (Hkeep q Hni) in Hd. unfold s1 in Hd. destruct (Z.eqb_spec fd (c_Fd c)) as [He|He]; cbn in Hd.
    + rewrite Hq in Hd. injection Hd as <-. apply (c_room_le _ _ _ Hroom).
      pose proof (zlen_nonneg (frame m)). lia.
    + rewrite lookup_insert_eq in Hd. by injection Hd as <-.
Qed.

Lemma in_order_NoDup X : NoDup (in_order X).
Proof. unfold in_order. rewrite merge_sort_Permutation. apply NoDup_elements. Qed.

Lemma elem_of_in_order q X : q ∈ in_order X <-> q ∈ X.
Proof. unfold in_order. rewrite merge_sort_Permutation. apply elem_of_elements. Qed.

Lemma OnCodecMessage_ok p c m n s :
  store s !! p = Some c -> zlen m < 2 ^ 31 -> 0 <= n -> members_ok (n + zlen (frame m)) s ->
  exists s', OnCodecMessage p m s = Ok s' /\
    sent_to (c_Fd c) (in_order (connections_ s)) (frame m) s s' /\
    printed s' = printed s ++ line m /\ members_ok n s'.
Proof.
  intros Hp Hm Hn Hok. unfold OnCodecMessage, deref. cbn [store connections_ printed].
  rewrite Hp. cbn [mbind result_bind].
  destruct (send_others_ok (c_Fd c) m n (in_order (connections_ s))
              (mkChatServer (store s) (connections_ s) (printed s ++ line m)))
    as (s' & Hrun & Hst & Hpr & Hkeep & Hroom); [apply in_order_NoDup | done | done | |].
  { intros q Hq%elem_of_in_order. by apply Hok. }
  exists s'. split; [done|]. split; [done|]. split; [done|]. destruct Hst as [Hconn Hst]. intros q Hq.
  rewrite Hconn in Hq. destruct (Hok q Hq) as (d & Hd & Hco & Hrd). specialize (Hst q).
  cbn [store connections_] in Hst, Hq. rewrite Hd in Hst.
  destruct Hst as (d' & Hd' & Hfd' & Hco' & _). exists d'. split; [done|]. split; [congruence|].
  by apply (Hroom q); [apply elem_of_in_order|].
Qed.

Lemma deliver_ok p c ms n s :
  store s !! p = Some c -> Forall fits ms -> 0 <= n -> members_ok (n + zlen (frames ms)) s ->
  exists s', deliver (OnCodecMessage p) ms s = Ok s' /\
    sent_to (c_Fd c) (in_order (connections_ s)) (frames ms) s s' /\
    printed s' = printed s ++ mjoin (line <$> ms) /\ members_ok n s'.
Proof.
  intros Hp Hf Hn. revert s c Hp. induction Hf as [|m ms Hm Hf IH]; intros s c Hp Hok.
  { exists s. split; [done|]. split; [apply sent_to_nothing|]. rewrite Z.add_0_r in Hok.
    by rewrite app_nil_r. }
  pose proof (zlen_nonneg (frames ms)). unfold fits in Hm.
  rewrite framed_cons, zlen_app, (Z.add_comm (zlen (frame m))), Z.add_assoc in Hok.
  destruct (OnCodecMessage_ok p c m (n + zlen (frames ms)) s Hp ltac:(lia) ltac:(lia) Hok)
    as (s1 & Hrun & Hst & Hpr1 & Hok1).
  cbn [deliver]. rewrite Hrun. cbn [mbind result_bind].
  destruct Hst as [Hconn Hst]. pose proof (Hst p) as Hst'. rewrite Hp in Hst'.
  destruct Hst' as (c1 & Hp1 & Hfd1 & _).
  destruct (IH s1 c1 Hp1 Hok1) as (s2 & Hrun2 & Hst2 & Hpr2 & Hok2). exists s2. split; [done|].
  split; [|split; [|done]].
  - rewrite Hconn, Hfd1 in Hst2. eapply sent_to_app; [|done]. done.
  - rewrite Hpr2, Hpr1, <- app_assoc. done.
Qed.

(** The chat room. When the input of one member holds complete frames and
    the beginning of another, the server hands every message to all members
    with another descriptor, as the same frames in the same order; it sends
    nothing to the member itself or to connections that are no members, keeps
    the set of members, prints a line for each message, and leaves exactly the
    incomplete frame in the buffer. *)
Theorem chat_room_delivery p c b s ms rest :
  store s !! p = Some c -> members_ok (zlen (frames ms)) s ->
  wf b -> readable b = frames ms ++ rest -> zlen (readable b) < 2 ^ 31 ->
  Forall fits ms -> incomplete rest ->
  exists b' s', Server.OnMessage p b s = Ok (b', s') /\ wf b' /\ readable b' = rest /\
    sent_to (c_Fd c) (in_order (connections_ s)) (frames ms) s s' /\
    printed s' = printed s ++ mjoin (line <$> ms).
Proof.
  intros Hp Hok Hwf Hb Hmax Hf Hr.
  destruct (deliver_ok p c ms 0 s Hp Hf ltac:(lia) Hok) as (s' & Hd & Hst & Hpr & _).
  pose proof (OnMessage_frames (OnCodecMessage p) (shut_down p) b s ms rest Hwf Hb Hmax Hf Hr) as Hon.
  rewrite Hd in Hon. destruct Hon as (b' & Hrun & Hwf' & Hb'). exists b', s'. auto.
Qed.

(** Membership. The connection callback, called when a connection is
    established and when it is closed, makes it a member exactly when it is
    connected and changes no other membership. *)
Theorem chat_membership p c s :
  store s !! p = Some c ->
  exists s', Server.OnConnectionCallback p s = Ok s' /\ store s' = store s /\
    (p ∈ connections_ s' <-> c_IsConnected c = true) /\
    (forall q, q <> p -> q ∈ connections_ s' <-> q ∈ connections_ s).
Proof.
  intros Hp. unfold Server.OnConnectionCallback, deref. rewrite Hp. cbn [mbind result_bind].
  eexists. split; [done|]. split; [done|]. cbn [connections_].
  split; [|intros q Hne]; destruct (c_IsConnected c);
    rewrite ?elem_of_union, ?elem_of_difference, ?elem_of_singleton; split; try done; tauto.
Qed.
End broadcast.

(** ** Streams that arrive in pieces *)

Section pieces.
Context `{!HostOrder} {E : Type} (cb : list byte -> E -> result E) (shut : E -> E).

(** The pieces arrive one after the other; after each of them the codec looks at
    what is there. *)
Fixpoint feed (pieces : list (list byte)) (left : list byte) (e : E) : result (list byte * E) :=
  match pieces with
  | [] => Ok (left, e)
  | c :: pieces =>
      '(left, e) ← decode cb shut (S (length (left ++ c))) (left ++ c) e;
      feed pieces left e
  end.

Lemma incomplete_nil : incomplete [].
Proof. exists [], (frame []). by repeat split. Qed.

(** However the stream is cut into pieces by the network, the codec delivers
    the messages that were sent, each once and in order, and keeps the
    incomplete one. *)
Theorem chat_any_split pieces ms rest left e :
  Forall fits ms -> incomplete rest -> incomplete left ->
  left ++ mjoin pieces = frames ms ++ rest ->
  feed pieces left e = (e ← deliver cb ms e; Ok (rest, e)).
Proof.
  intros Hf Hr. revert ms left e Hf. induction pieces as [|c pieces IH]; intros ms left e Hf Hl Heq.
  - simpl in Heq. rewrite app_nil_r in Heq. subst left.
    pose proof (chat_decode_frames cb shut ms rest e (S (length ms)) Hf Hr ltac:(lia)) as Hd.
    rewrite decode_incomplete in Hd by done. rewrite <- Hd. simpl.
    rewrite <- decode_incomplete with (cb := cb) (shut := shut) (fuel := 0%nat); done.
  - simpl in Heq. rewrite app_assoc in Heq.
    destruct (prefix_frames frame fits _ _ _ _ Hf Hr Heq) as (ms1 & ms2 & r & -> & Hbs & Hi & Hrest).
    apply Forall_app in Hf as [Hf1 Hf2]. cbn [feed]. rewrite deliver_app.
    rewrite Hbs at 2. rewrite chat_decode_frames; [|done|done|].
    + destruct (deliver cb ms1 e) as [e1|f]; cbn [mbind result_bind]; [|done]. by apply IH.
    + pose proof (length_frames ms1). rewrite Hbs. rewrite length_app. unfold zlen in *. lia.
Qed.

Lemma receives_frames ms pieces e e' :
  mjoin pieces = frames ms -> zlen (frames ms) < 2 ^ 31 -> Forall fits ms -> deliver cb ms e = Ok e' ->
  outcome (Codec.OnMessage cb shut) pieces [] e [] e'.
Proof.
  intros Hp Hmax Hf Hd. apply (framed_outcome frame fits cb _ _ ms); try done.
  - intros b e0 e1 ms' rest Hwf Hb Hlen Hf' Hr Hd'.
    pose proof (OnMessage_frames cb shut b e0 ms' rest Hwf Hb Hlen Hf' Hr) as Hon. by rewrite Hd' in Hon.
  - apply incomplete_nil.
  - apply incomplete_nil.
  - by rewrite app_nil_r.
  - by rewrite zlen_nil, Hp.
Qed.

(** The header of the next frame announces more than the receiver accepts. *)
Definition invalid_head (bs : list byte) : Prop :=
  4 <= zlen bs /\ (65536 < s32 (be_value (ztake 4 bs)) \/ s32 (be_value (ztake 4 bs)) < 0).

Lemma invalid_stays b e :
  wf b -> zlen (readable b) < 2 ^ 31 -> invalid_head (readable b) ->
  exists b', Codec.OnMessage cb shut b e = Ok (b', shut e) /\ wf b' /\ readable b' = readable b.
Proof.
  intros Hwf Hmax [H4 Hinv]. unfold Codec.OnMessage. rewrite readable_bytes_zlen by done.
  pose proof (chat_OnMessage_loop_decode cb shut (S (Z.to_nat (zlen (readable b)))) b e Hwf Hmax) as Hd.
  cbn [decode] in Hd. rewrite (proj2 (Z.ltb_ge _ 4)) in Hd by lia. cbv zeta in Hd.
  assert ((65536 <? s32 (be_value (ztake 4 (readable b)))) || (s32 (be_value (ztake 4 (readable b))) <? 0) = true)
    as Hbad by (apply orb_true_iff; rewrite !Z.ltb_lt; done).
  rewrite Hbad in Hd. exact Hd.
Qed.

(** An invalid length is final: the codec shuts the connection down for
    writing, delivers nothing, keeps the bytes, and does the same again however
    many bytes follow. *)
Theorem chat_invalid_length b e more :
  wf b -> zlen (readable b) + zlen more < 2 ^ 31 -> invalid_head (readable b) ->
  exists b', Codec.OnMessage cb shut b e = Ok (b', shut e) /\ wf b' /\ readable b' = readable b /\
    invalid_head (readable b' ++ more).
Proof.
  intros Hwf Hmax Hinv. pose proof (zlen_nonneg more).
  destruct (invalid_stays b e Hwf ltac:(lia) Hinv) as (b' & Hrun & Hwf' & Hr'). exists b'.
  split; [done|]. split; [done|]. split; [done|]. destruct Hinv as [H4 Hinv].
  rewrite Hr'. unfold invalid_head. rewrite zlen_app, ztake_app_l by lia. split; [lia|done].
Qed.
End pieces.

(** ** From one client to the others *)

Section end_to_end.
Context {C : Type} `{!ConnApi C, !ConnSpec C, !HostOrder}.
Abbreviation ChatClient := (@Client.ChatClient C).

Fixpoint writes (ms : list (list byte)) (s : ChatClient) : result ChatClient :=
  match ms with [] => Ok s | m :: ms => s ← Client.Write m s; writes ms s end.

(** [std::getline] until it fails; a last line need not be ended. *)
Fixpoint getlines (cur stdin : list byte) : list (list byte) :=
  match stdin with
  | [] => match cur with [] => [] | _ => [cur] end
  | c :: stdin => if Byte.eqb c Byte.x0a then cur :: getlines [] stdin else getlines (cur ++ [c]) stdin
  end.

(** The loop of the client's [main]. *)
Definition input_loop (stdin : list byte) (s : ChatClient) : result ChatClient := writes (getlines [] stdin) s.

(** What a user types to send [ms]. *)
Definition typed (ms : list (list byte)) : list byte := mjoin ((fun m => m ++ [Byte.x0a]) <$> ms).

Lemma getlines_line m : forall cur stdin,
  Byte.x0a ∉ m -> getlines cur (m ++ Byte.x0a :: stdin) = (cur ++ m) :: getlines [] stdin.
Proof.
  induction m as [|c m IH]; intros cur stdin Hm; cbn [app getlines].
  - change (Byte.eqb Byte.x0a Byte.x0a) with true. by rewrite app_nil_r.
  - apply not_elem_of_cons in Hm as [Hc Hm]. destruct (Byte.eqb c Byte.x0a) eqn:E.
    + apply Byte.byte_dec_bl in E. congruence.
    + rewrite IH by done. by rewrite <- app_assoc.
Qed.

Lemma getlines_typed ms : Forall (fun m => Byte.x0a ∉ m) ms -> getlines [] (typed ms) = ms.
Proof.
  induction 1 as [|m ms Hm Hms IH]; [done|].
  change (typed (m :: ms)) with ((m ++ [Byte.x0a]) ++ typed ms). rewrite <- app_assoc. cbn [app].
  rewrite getlines_line by done. by rewrite IH.
Qed.

(** The client has a connection that is connected and has room for [n] bytes. *)
Definition client_ready (n : Z) (k : C) (s : ChatClient) : Prop :=
  Client.connection_ s <> 0 /\ Client.store s !! Client.connection_ s = Some k /\
  c_IsConnected k = true /\ c_room n k.

Lemma writes_ok ms n k s :
  Forall fits ms -> 0 <= n -> client_ready (n + zlen (frames ms)) k s ->
  exists s' k', writes ms s = Ok s' /\ client_ready n k' s' /\
    c_accepted k' = c_accepted k ++ frames ms.
Proof.
  intros Hf Hn. revert k s. induction Hf as [|m ms Hm Hf IH]; intros k s (Hnz & Hk & Hco & Hr).
  { exists s, k. rewrite Z.add_0_r in Hr. by rewrite app_nil_r. }
  pose proof (zlen_nonneg (frames ms)). unfold fits in Hm.
  rewrite framed_cons, zlen_app, (Z.add_comm (zlen (frame m))), Z.add_assoc in Hr.
  destruct (send_connected (n + zlen (frames ms)) (frame m) k Hco ltac:(lia) Hr)
    as (k1 & Hsend & Hac & Hco1 & _ & Hr1).
  cbn [writes]. unfold Client.Write. destruct (Z.eqb_spec (Client.connection_ s) 0); [done|].
  rewrite Hk. unfold Codec.Send. rewrite encode_frame by lia. cbn [mbind result_bind].
  rewrite Hsend. cbn [mbind result_bind].
  match goal with |- context [writes ms ?x] => destruct (IH k1 x) as (s' & k' & Hrun & Hready & Hac') end.
  { split; [done|]. split; [by apply lookup_insert_eq|]. done. }
  exists s', k'. split; [done|]. split; [done|]. by rewrite Hac', Hac, framed_cons, app_assoc.
Qed.

Lemma deliver_prints ms (s : ChatClient) :
  exists s', deliver Client.OnCodecMessage ms s = Ok s' /\
    Client.printed s' = Client.printed s ++ mjoin (line <$> ms).
Proof.
  revert s. induction ms as [|m ms IH]; intros s; [exists s; by rewrite app_nil_r|].
  destruct (IH (Client.mkChatClient (Client.store s) (Client.connection_ s) (Client.printed s ++ line m)))
    as (s' & Hrun & Hp).
  exists s'. split; [exact Hrun|]. rewrite Hp. simpl. by rewrite <- app_assoc.
Qed.


(** A message above 65536 bytes is sent, and its receiver closes the
    connection for writing. *)
Lemma oversize_chat_message {E} (cb : list byte -> E -> result E) shut m b e :
  65536 < zlen m < 2 ^ 31 - 4 -> Codec.encode m = Ok (frame m) /\
  (wf b -> readable b = frame m ->
   exists b', Codec.OnMessage cb shut b e = Ok (b', shut e) /\ readable b' = frame m).
Proof.
  intros Hm. split; [apply encode_frame; lia|]. intros Hwf Hb.
  destruct (invalid_stays cb shut b e Hwf) as (b' & Hrun & _ & Hr).
  - rewrite Hb, chat_zlen_frame. lia.
  - split; rewrite Hb; [rewrite chat_zlen_frame; lia|]. left. rewrite <- (app_nil_r (frame m)).
    rewrite chat_frame_head_value; lia.
  - exists b'. split; [done | congruence].
Qed.
End end_to_end.

(** ** Evaluations *)

Module Concrete.
Import ConnApi.Concrete.
#[local] Existing Instance x86_host.

Definition hello : list byte := [Byte.x68; Byte.x69].
Definition words : list (list byte) := [hello; []; [Byte.x21]].

(** Three members at the addresses 16, 32 and 48, a connection that is none. *)
Definition room : Server.ChatServer Conn :=
  Server.mkChatServer {[16 := opened 5; 32 := opened 6; 48 := opened 7; 64 := opened 8]} {[16; 32; 48]} [].

Definition writer : @Client.ChatClient Conn := Client.mkChatClient {[80 := opened 9]} 80 [].
Definition reader : @Client.ChatClient Conn := Client.mkChatClient {[96 := opened 9]} 96 [].

Lemma room_ok n : 0 <= n < 2 ^ 62 -> members_ok n room.
Proof.
  intros Hn q Hq. unfold room in Hq. cbn [Server.connections_] in Hq.
  rewrite !elem_of_union, !elem_of_singleton in Hq.
  destruct Hq as [[->| ->]| ->];
    (eexists; split; [reflexivity|]; split; [apply opened_state | by apply opened_room]).
Qed.

Lemma words_fit : Forall fits words.
Proof. repeat constructor; vm_compute; discriminate. Qed.

Lemma chat_room_delivery_witness :
  exists b' s', Server.OnMessage 16 (holding (frames words ++ take 5 (frame hello))) room = Ok (b', s') /\
    wf b' /\ readable b' = take 5 (frame hello) /\
    sent_to (c_Fd (opened 5)) (Server.in_order (Server.connections_ room)) (frames words) room s' /\
    Server.printed s' = mjoin (line <$> words).
Proof.
  destruct (holding_ok (frames words ++ take 5 (frame hello))) as [Hwf Hr]; [by vm_compute|].
  apply (chat_room_delivery 16 (opened 5) _ room words (take 5 (frame hello))); try done.
  - by apply room_ok.
  - apply words_fit.
  - exists hello, (drop 5 (frame hello)). by repeat split.
Defined.

Lemma chat_membership_witness :
  exists s', Server.OnConnectionCallback 64 room = Ok s' /\ Server.store s' = Server.store room /\
    (64 ∈ Server.connections_ s' <-> c_IsConnected (opened 8) = true) /\
    (forall q, q <> 64 -> q ∈ Server.connections_ s' <-> q ∈ Server.connections_ room).
Proof. apply (chat_membership 64 (opened 8) room). reflexivity. Defined.

(** Messages collected in a list. *)
Definition collect (m : list byte) (e : list (list byte)) : result (list (list byte)) := Ok (e ++ [m]).

Lemma chat_any_split_witness :
  feed collect id [take 3 (frames words); drop 3 (frames words) ++ take 2 (frame hello)] [] []
  = Ok (take 2 (frame hello), words).
Proof.
  rewrite (chat_any_split collect id _ words (take 2 (frame hello)) [] []).
  - reflexivity.
  - apply words_fit.
  - exists hello, (drop 2 (frame hello)). by repeat split.
  - apply incomplete_nil.
  - reflexivity.
Defined.

Lemma chat_invalid_length_witness :
  exists b', Codec.OnMessage collect (fun e => e ++ [hello]) (holding (be_bytes 4 65537 ++ hello)) []
    = Ok (b', [hello]) /\ wf b' /\ readable b' = readable (holding (be_bytes 4 65537 ++ hello)) /\
    invalid_head (readable b' ++ hello).
Proof.
  destruct (holding_ok (be_bytes 4 65537 ++ hello)) as [Hwf Hr]; [by vm_compute|].
  apply (chat_invalid_length collect (fun e => e ++ [hello])); [done | by rewrite Hr|].
  rewrite Hr. vm_compute. split; [discriminate|]. left. reflexivity.
Defined.


(** [connection_] is read before it is written when a message is typed before
    the connection is established. *)
Lemma write_before_connected :
  Client.Write hello (Client.mkChatClient (C := Conn) ∅ 12345 []) = Fault OutOfBounds.
Proof. reflexivity. Qed.
End Concrete.
