(* ===== verification/Http.v ===== *)
(** * The HTTP example

    Model of example/http_server: [HttpParser] (http_parser.cc), which collects
    what llhttp reports, [HttpResponse] (http_response.cc), which is rendered
    into an [IoBuffer], [HttpServer] (http_server.cc) and the request handler of
    main.cc. llhttp is not part of the sources: one call of [llhttp_execute] is
    the list of callbacks it makes (which all return 0), its error number and
    its next state, the class [Llhttp]. Strings are lists of bytes. *)

From Stdlib Require Import Strings.String.
From stdpp Require Import prelude gmap list.
From coqutil Require Import Byte Word.LittleEndianList.
From S2P Require Import Prelude.
From S2P Require Import Text.
From S2P Require Import IoBuffer.
From S2P Require Import ConnApi.

Definition crlf : text := [Byte.x0d; Byte.x0a].

(** [snprintf] into an array of [size] bytes: the text is cut, a NUL follows. *)
Definition snprintf (size : Z) (t : text) : text := ztake (size - 1) t.

(** ** Ordered maps

    [std::map<std::string, std::string>] as the list of its elements. *)

Fixpoint text_cmp (a b : text) : comparison :=
  match a, b with
  | [], [] => Eq
  | [], _ :: _ => Lt
  | _ :: _, [] => Gt
  | x :: a, y :: b =>
      match byte.unsigned x ?= byte.unsigned y with Eq => text_cmp a b | c => c end
  end.

Fixpoint map_set (k v : text) (l : list (text * text)) : list (text * text) :=
  match l with
  | [] => [(k, v)]
  | (k', v') :: l' =>
      match text_cmp k k' with
      | Lt => (k, v) :: l
      | Eq => (k, v) :: l'
      | Gt => (k', v') :: map_set k v l'
      end
  end.

(** ** The response *)

Record HttpResponse := mkResponse {
  r_major_version_ : Z;
  r_minor_version_ : Z;
  r_status_ : Z;
  status_message_ : text;
  r_header_fields_ : list (text * text);
  should_close_ : bool;
  r_body_ : text;
  include_body_ : bool;
  has_content_length_override_ : bool;
  content_length_override_ : Z;
}.

Definition HttpResponse_new (should_close : bool) : HttpResponse :=
  mkResponse 1 1 200 (txt "OK") [] should_close [] true false 0.

Definition SetVersion (major_version minor_version : Z) (r : HttpResponse) : HttpResponse :=
  mkResponse major_version minor_version (r_status_ r) (status_message_ r) (r_header_fields_ r)
    (should_close_ r) (r_body_ r) (include_body_ r) (has_content_length_override_ r)
    (content_length_override_ r).
Definition SetStatus (status : Z) (status_message : text) (r : HttpResponse) : HttpResponse :=
  mkResponse (r_major_version_ r) (r_minor_version_ r) status status_message (r_header_fields_ r)
    (should_close_ r) (r_body_ r) (include_body_ r) (has_content_length_override_ r)
    (content_length_override_ r).
Definition AddHeaderField (field_name field_content : text) (r : HttpResponse) : HttpResponse :=
  mkResponse (r_major_version_ r) (r_minor_version_ r) (r_status_ r) (status_message_ r)
    (map_set field_name field_content (r_header_fields_ r))
    (should_close_ r) (r_body_ r) (include_body_ r) (has_content_length_override_ r)
    (content_length_override_ r).
Definition SetContentType (content_type : text) (r : HttpResponse) : HttpResponse :=
  AddHeaderField (txt "Content-Type") content_type r.
Definition SetBody (body : text) (r : HttpResponse) : HttpResponse :=
  mkResponse (r_major_version_ r) (r_minor_version_ r) (r_status_ r) (status_message_ r)
    (r_header_fields_ r) (should_close_ r) body true false (content_length_override_ r).
Definition SetBodyLength (length : Z) (r : HttpResponse) : HttpResponse :=
  mkResponse (r_major_version_ r) (r_minor_version_ r) (r_status_ r) (status_message_ r)
    (r_header_fields_ r) (should_close_ r) (r_body_ r) (include_body_ r) true length.
Definition SetIncludeBody (include : bool) (r : HttpResponse) : HttpResponse :=
  mkResponse (r_major_version_ r) (r_minor_version_ r) (r_status_ r) (status_message_ r)
    (r_header_fields_ r) (should_close_ r) (r_body_ r) include (has_content_length_override_ r)
    (content_length_override_ r).
Definition SetClose (on : bool) (r : HttpResponse) : HttpResponse :=
  mkResponse (r_major_version_ r) (r_minor_version_ r) (r_status_ r) (status_message_ r)
    (r_header_fields_ r) on (r_body_ r) (include_body_ r) (has_content_length_override_ r)
    (content_length_override_ r).
Definition ShouldClose (r : HttpResponse) : bool := should_close_ r.

Fixpoint append_fields (fields : list (text * text)) (b : IoBuffer) : result IoBuffer :=
  match fields with
  | [] => Ok b
  | (first, second) :: fields =>
      b ← Append first b;
      b ← Append (txt ": ") b;
      b ← Append second b;
      b ← Append crlf b;
      append_fields fields b
  end.

Definition AppendToIoBuffer (r : HttpResponse) (b : IoBuffer) : result IoBuffer :=
  b ← Append (snprintf 32 (txt "HTTP/" ++ dec (r_major_version_ r) ++ txt "." ++ dec (r_minor_version_ r)
                             ++ txt " " ++ dec (r_status_ r) ++ txt " ")) b;
  b ← Append (status_message_ r) b;
  b ← Append crlf b;
  b ← (if should_close_ r then Append (txt "Connection: close" ++ crlf) b
       else
         let content_length :=
           if has_content_length_override_ r then content_length_override_ r else zlen (r_body_ r) in
         b ← Append (snprintf 32 (txt "Content-Length: " ++ dec (s64 content_length) ++ crlf)) b;
         Append (txt "Connection: keep-alive" ++ crlf) b);
  b ← append_fields (r_header_fields_ r) b;
  b ← Append crlf b;
  if include_body_ r then Append (r_body_ r) b else Ok b.

(** ** The parser *)

(** The callbacks of llhttp, with what [OnHeadersComplete] reads from its
    state: the name of the method, the version, [upgrade] and the answer of
    [llhttp_should_keep_alive]. *)
Inductive event :=
| EvMessageBegin
| EvUrl (str : text)
| EvStatus (str : text)
| EvHeaderField (str : text)
| EvHeaderValue (str : text)
| EvHeadersComplete (method : text) (major minor upgrade keep_alive : Z)
| EvBody (str : text)
| EvMessageComplete.

Class Llhttp (L : Type) := llhttp_execute : text -> L -> list event * Z * L.
Definition HPE_OK : Z := 0.

Record HttpParser := mkParser {
  major_version_ : Z;
  minor_version_ : Z;
  upgrade_ : Z;
  keep_alive_ : Z;
  start_parsing_time_ : Z;
  header_end_time_ : Z;
  message_end_time_ : Z;
  method_ : text;
  url_ : text;
  status_ : text;
  key_value_pairs_ : list (text * text);
  body_ : text;
  header_fields_ : gmap text text;
}.

(** The constructor leaves the numbers as they happen to be in memory: they are
    arguments. *)
Definition HttpParser_new (major minor upgrade keep_alive start_time header_time message_time : Z)
  : HttpParser :=
  mkParser major minor upgrade keep_alive start_time header_time message_time [] [] [] [] [] ∅.

Section parser.
(** The reading of [time]. *)
Context (now : Z).

Definition cleared (p : HttpParser) : HttpParser :=
  mkParser 0 0 0 0 now 0 0 [] [] [] [] [] (header_fields_ p).

Definition OnMessageBegin (p : HttpParser) : HttpParser := cleared p.
Definition OnStatus (str : text) (p : HttpParser) : HttpParser :=
  mkParser (major_version_ p) (minor_version_ p) (upgrade_ p) (keep_alive_ p) (start_parsing_time_ p)
    (header_end_time_ p) (message_end_time_ p) (method_ p) (url_ p) (status_ p ++ str)
    (key_value_pairs_ p) (body_ p) (header_fields_ p).
Definition OnUrl (str : text) (p : HttpParser) : HttpParser :=
  mkParser (major_version_ p) (minor_version_ p) (upgrade_ p) (keep_alive_ p) (start_parsing_time_ p)
    (header_end_time_ p) (message_end_time_ p) (method_ p) (url_ p ++ str) (status_ p)
    (key_value_pairs_ p) (body_ p) (header_fields_ p).
Definition set_pairs (l : list (text * text)) (p : HttpParser) : HttpParser :=
  mkParser (major_version_ p) (minor_version_ p) (upgrade_ p) (keep_alive_ p) (start_parsing_time_ p)
    (header_end_time_ p) (message_end_time_ p) (method_ p) (url_ p) (status_ p)
    l (body_ p) (header_fields_ p).
Definition OnHeaderField (str : text) (p : HttpParser) : HttpParser :=
  set_pairs (key_value_pairs_ p ++ [(str, [])]) p.
(** [back()] of an empty vector is undefined. *)
Definition OnHeaderValue (str : text) (p : HttpParser) : result HttpParser :=
  match last (key_value_pairs_ p) with
  | Some (key, _) => Ok (set_pairs (removelast (key_value_pairs_ p) ++ [(key, str)]) p)
  | None => Fault OutOfBounds
  end.
Definition OnHeadersComplete (method : text) (major minor upgrade keep_alive : Z) (p : HttpParser)
  : HttpParser :=
  mkParser major minor upgrade keep_alive (start_parsing_time_ p) now (message_end_time_ p)
    method (url_ p) (status_ p) (key_value_pairs_ p) (body_ p) (header_fields_ p).
Definition OnBody (str : text) (p : HttpParser) : HttpParser :=
  mkParser (major_version_ p) (minor_version_ p) (upgrade_ p) (keep_alive_ p) (start_parsing_time_ p)
    (header_end_time_ p) (message_end_time_ p) (method_ p) (url_ p) (status_ p)
    (key_value_pairs_ p) (body_ p ++ str) (header_fields_ p).
Definition OnMessageComplete (p : HttpParser) : HttpParser :=
  mkParser (major_version_ p) (minor_version_ p) (upgrade_ p) (keep_alive_ p) (start_parsing_time_ p)
    (header_end_time_ p) now (method_ p) (url_ p) (status_ p) (key_value_pairs_ p) (body_ p)
    (header_fields_ p).

(** The functions the constructor registers with llhttp. *)
Definition parsing_settings_ (ev : event) (p : HttpParser) : result HttpParser :=
  match ev with
  | EvMessageBegin => Ok (OnMessageBegin p)
  | EvUrl str => Ok (OnUrl str p)
  | EvStatus str => Ok (OnStatus str p)
  | EvHeaderField str => Ok (OnHeaderField str p)
  | EvHeaderValue str => OnHeaderValue str p
  | EvHeadersComplete method major minor upgrade keep_alive =>
      Ok (OnHeadersComplete method major minor upgrade keep_alive p)
  | EvBody str => Ok (OnBody str p)
  | EvMessageComplete => Ok (OnMessageComplete p)
  end.

Fixpoint run_events (evs : list event) (p : HttpParser) : result HttpParser :=
  match evs with
  | [] => Ok p
  | ev :: evs => p ← parsing_settings_ ev p; run_events evs p
  end.

Definition Parse `{!Llhttp L} (data : text) (l : L) (p : HttpParser) : result (bool * L * HttpParser) :=
  let '(evs, error, l) := llhttp_execute data l in
  p ← run_events evs p;
  if negb (error =? HPE_OK) then Ok (false, l, p)
  else
    Ok (true, l,
      mkParser (major_version_ p) (minor_version_ p) (upgrade_ p) (keep_alive_ p) (start_parsing_time_ p)
        (header_end_time_ p) (message_end_time_ p) (method_ p) (url_ p) (status_ p)
        (key_value_pairs_ p) (body_ p)
        (foldl (fun m '(key, value) => <[key := value]> m) (header_fields_ p) (key_value_pairs_ p))).

Definition GetVersionPair (p : HttpParser) : Z * Z := (major_version_ p, minor_version_ p).
Definition ShouldUpgrade (p : HttpParser) : bool := upgrade_ p =? 1.
Definition ShouldKeepAlive (p : HttpParser) : bool := keep_alive_ p =? 1.
Definition GetMethod (p : HttpParser) : text := method_ p.
Definition GetUrl (p : HttpParser) : text := url_ p.
Definition GetBody (p : HttpParser) : text := body_ p.
Definition GetHeader (key : text) (p : HttpParser) : option text := header_fields_ p !! key.

(** The map of header fields is kept. *)
Definition Reset (p : HttpParser) : HttpParser := cleared p.
End parser.

(** ** The server *)

Section server.
Context {C L : Type} `{!ConnApi C, !Llhttp L, !HostOrder}.
Context (now : Z) (HttpCallback_ : HttpParser -> HttpResponse -> HttpResponse).

Definition bad_request : text := txt "HTTP/1.1 400 Bad Request" ++ crlf ++ crlf.

Definition OnRequest (p : HttpParser) (c : C) : result C :=
  let connection_info := default [] (GetHeader (txt "Connection") p) in
  let '(major, minor) := GetVersionPair p in
  let should_close :=
    bool_decide (txt "close" = connection_info) ||
    ((1 =? major) && (0 =? minor) && negb (bool_decide (connection_info = txt "keep-alive"))) in
  let http_response := HttpCallback_ p (HttpResponse_new should_close) in
  b ← AppendToIoBuffer http_response (IoBuffer_new kInitialCapacity);
  bytes ← mem_read (buffer_ b) (GetReadablePosition b) (GetReadableBytes b);
  c ← c_Send bytes c;
  Ok (if ShouldClose http_response then c_ShutDownWrite c else c).

(** On a connection with the parser [p] (and llhttp's state [l]) as its context
    and [b] as its input buffer. *)
Definition OnMessageCallback (b : IoBuffer) (l : L) (p : HttpParser) (c : C)
  : result (IoBuffer * L * HttpParser * C) :=
  '(message, b) ← RetrieveAllAsString b;
  '(ok, l, p) ← Parse now message l p;
  c ← (if negb ok then c ← c_Send bad_request c; Ok (c_ShutDownWrite c) else Ok c);
  c ← OnRequest p c;
  Ok (b, l, Reset now p, c).

(** The context of a connection: nothing, or the parser with llhttp's state.
    [l] is what [llhttp_init] makes, [p] what the constructor leaves. *)
Definition OnConnectionCallback (l : L) (p : HttpParser) (context_ : option (L * HttpParser)) (c : C)
  : option (L * HttpParser) :=
  if c_IsConnected c then Some (l, p) else context_.

(** The message callback as the server runs it: [any_cast] throws on a context
    that holds no parser, and nothing catches it. *)
Definition OnMessageAny (b : IoBuffer) (context_ : option (L * HttpParser)) (c : C)
  : result (IoBuffer * option (L * HttpParser) * C) :=
  match context_ with
  | None => Fault ExitFailure
  | Some (l, p) => '(b, l, p, c) ← OnMessageCallback b l p c; Ok (b, Some (l, p), c)
  end.
End server.

(** The reads of one connection, each with the time it is handled at. *)
Fixpoint read_all `{!ConnApi C, !Llhttp L, !HostOrder} (cb : HttpParser -> HttpResponse -> HttpResponse)
  (reads : list (Z * text)) (b : IoBuffer) (context_ : option (L * HttpParser)) (c : C)
  : result (IoBuffer * option (L * HttpParser) * C) :=
  match reads with
  | [] => Ok (b, context_, c)
  | (now, data) :: reads =>
      b ← Append data b;
      '(b, context_, c) ← OnMessageAny now cb b context_ c;
      read_all cb reads b context_ c
  end.

(** ** The handler of main.cc *)

Definition page_root : text :=
  txt "<!DOCTYPE html><html><head><title>taotu</title></head><body><h1>Hello</h1>Welcome to taotu!</body></html>".
Definition page_hello : text :=
  txt "<!DOCTYPE html><html><head><title>taotu</title></head><body><h1>Hello</h1>Hello, taotu!</body></html>".
Definition page_404 : text :=
  txt "<!DOCTYPE html><html><head><title>404</title></head><body><h1>Not Found</h1></body></html>".
Definition page_405 : text :=
  txt "<!DOCTYPE html><html><head><title>405</title></head><body><h1>Method Not Allowed</h1></body></html>".

Definition text_html : text := txt "text/html;charset=UTF-8".

(** [date] is the text [strftime] makes of the current time. *)
Definition main_OnRequest (date : text) (p : HttpParser) (r : HttpResponse) : HttpResponse :=
  let r := SetVersion 1 1 r in
  let r := AddHeaderField (txt "Date") date r in
  let r := AddHeaderField (txt "Server") (txt "taotu-http-server") r in
  let method := GetMethod p in
  let is_head := bool_decide (method = txt "HEAD") in
  if bool_decide (method = txt "GET") || is_head then
    let '(r, body) :=
      if bool_decide (GetUrl p = txt "/") then
        (SetContentType text_html (SetStatus 200 (txt "OK") r), page_root)
      else if bool_decide (GetUrl p = txt "/hello") then
        (SetContentType text_html (SetStatus 200 (txt "OK") r), page_hello)
      else
        (SetContentType text_html (SetStatus 404 (txt "Not Found") r), page_404) in
    if is_head then SetIncludeBody false (SetBodyLength (zlen body) r) else SetBody body r
  else SetBody page_405 (SetContentType text_html (SetStatus 405 (txt "Method Not Allowed") r)).
