(* ===== verification/HttpFacts.v ===== *)
(** * Properties of the HTTP example

    Rendering a response is appending its reference text; a request is answered
    by the text its method and target ask for; a parse error by the 400 text
    alone. *)

From Stdlib Require Import Strings.String.
From stdpp Require Import prelude gmap list.
From coqutil Require Import Byte Word.LittleEndianList.
From S2P Require Import Prelude.
From S2P Require Import Text.
From S2P Require Import IoBuffer.
From S2P Require Import ConnApi.
From S2P Require Import Http.

(** ** Decimal numbers *)

Lemma digit_value n : 0 <= n < 10 -> byte.unsigned (digit n) - 48 = n.
Proof.
  intros Hn. unfold digit. rewrite byte.unsigned_of_Z. unfold byte.wrap.
  rewrite Z.mod_small; lia.
Qed.

Lemma dec_value_snoc t b : dec_value (t ++ [b]) = dec_value t * 10 + (byte.unsigned b - 48).
Proof. unfold dec_value. by rewrite foldl_app. Qed.

Lemma dec_loop_value fuel n : 0 <= n < 10 ^ Z.of_nat fuel -> dec_value (dec_loop fuel n) = n.
Proof.
  revert n. induction fuel as [|fuel IH]; intros n Hn; [simpl in *; unfold dec_value; simpl; lia|].
  cbn [dec_loop]. destruct (Z.ltb_spec n 10) as [Hlt|Hge].
  - unfold dec_value. cbn [foldl]. pose proof (digit_value n ltac:(lia)). lia.
  - rewrite dec_value_snoc, digit_value by (apply Z.mod_pos_bound; lia).
    rewrite IH; [pose proof (Z.div_mod n 10 ltac:(lia)); lia|].
    rewrite Nat2Z.inj_succ, Z.pow_succ_r in Hn by lia.
    split; [apply Z.div_pos; lia | apply Z.div_lt_upper_bound; lia].
Qed.

Lemma dec_loop_length fuel k n :
  0 <= n < 10 ^ Z.of_nat (S k) -> (length (dec_loop fuel n) <= S k)%nat.
Proof.
  revert k n. induction fuel as [|fuel IH]; intros k n Hn; simpl; [lia|].
  destruct (Z.ltb_spec n 10) as [Hlt|Hge]; [simpl; lia|].
  rewrite length_app. simpl. destruct k as [|k]; [simpl in Hn; lia|].
  rewrite Nat2Z.inj_succ, Z.pow_succ_r in Hn by lia.
  assert (length (dec_loop fuel (n / 10)) <= S k)%nat; [|lia].
  apply IH. split; [apply Z.div_pos; lia | apply Z.div_lt_upper_bound; lia].
Qed.

Lemma dec_value_dec n : 0 <= n < 10 ^ 20 -> dec_value (dec n) = n.
Proof.
  intros Hn. unfold dec. rewrite (proj2 (Z.ltb_ge _ _)) by lia. by apply dec_loop_value.
Qed.

Lemma zlen_dec k n : 0 <= n < 10 ^ Z.of_nat (S k) -> zlen (dec n) <= Z.of_nat (S k).
Proof.
  intros Hn. unfold dec. rewrite (proj2 (Z.ltb_ge _ _)) by lia.
  pose proof (dec_loop_length 20 k n Hn). unfold zlen. lia.
Qed.

(** ** Rendering *)

Section rendering.
Implicit Types r : HttpResponse.

Definition content_length r : Z :=
  if has_content_length_override_ r then content_length_override_ r else zlen (r_body_ r).

Definition field_line (f : text * text) : text := f.1 ++ txt ": " ++ f.2 ++ crlf.

(** The reference: the response as one text, nothing cut. *)
Definition render r : text :=
  txt "HTTP/" ++ dec (r_major_version_ r) ++ txt "." ++ dec (r_minor_version_ r) ++ txt " "
  ++ dec (r_status_ r) ++ txt " " ++ status_message_ r ++ crlf
  ++ (if should_close_ r then txt "Connection: close" ++ crlf
      else txt "Content-Length: " ++ dec (content_length r) ++ crlf ++ txt "Connection: keep-alive" ++ crlf)
  ++ mjoin (field_line <$> r_header_fields_ r) ++ crlf
  ++ (if include_body_ r then r_body_ r else []).

(** What the setters keep: the values of the types of the members. *)
Definition response_ok r : Prop :=
  0 <= r_major_version_ r < 2 ^ 8 /\ 0 <= r_minor_version_ r < 2 ^ 8 /\ 0 <= r_status_ r < 2 ^ 16.

Fixpoint append_all (ts : list text) (b : IoBuffer) : result IoBuffer :=
  match ts with [] => Ok b | t :: ts => b ← Append t b; append_all ts b end.

Lemma append_all_app ts ts' b : append_all (ts ++ ts') b = (b ← append_all ts b; append_all ts' b).
Proof. revert b. induction ts as [|t ts IH]; intros b; [done|]. simpl. destruct (Append t b); simpl; [apply IH|done]. Qed.

Lemma append_all_ok ts b :
  wf b -> reading_index_ b = kReservedCapacity -> writing_index_ b + zlen (mjoin ts) <= vector_max_size ->
  exists b', append_all ts b = Ok b' /\ wf b' /\ readable b' = readable b ++ mjoin ts.
Proof.
  revert b. induction ts as [|t ts IH]; intros b Hwf Hr Hmax.
  { exists b. by rewrite app_nil_r. }
  change (mjoin (t :: ts)) with (t ++ mjoin ts) in *. rewrite zlen_app in Hmax.
  pose proof (zlen_nonneg (mjoin ts)).
  destruct (Append_fresh b t) as (b1 & HA & Hwf1 & Hr1 & Hi1 & Hj1); [done|done|lia|].
  destruct (IH b1 Hwf1 Hi1 ltac:(lia)) as (b2 & Hrun & Hwf2 & Hr2).
  exists b2. cbn [append_all]. rewrite HA. cbn [mbind result_bind]. split; [done|]. split; [done|].
  by rewrite Hr2, Hr1, app_assoc.
Qed.

Definition field_pieces (fs : list (text * text)) : list text :=
  fs ≫= (fun f => [f.1; txt ": "; f.2; crlf]).

Lemma append_fields_all fs b : append_fields fs b = append_all (field_pieces fs) b.
Proof.
  revert b. induction fs as [|[k v] fs IH]; intros b; [done|]. simpl.
  repeat (match goal with |- context [Append ?t ?b] => destruct (Append t b); simpl; [|done] end). apply IH.
Qed.

Lemma mjoin_field_pieces fs : mjoin (field_pieces fs) = mjoin (field_line <$> fs).
Proof.
  induction fs as [|[k v] fs IH]; [done|].
  change (field_pieces ((k, v) :: fs)) with ([k; txt ": "; v; crlf] ++ field_pieces fs).
  rewrite join_app, IH. unfold field_line. cbn [fmap list_fmap mjoin list_join fst snd].
  by rewrite app_nil_r, <- !app_assoc.
Qed.

Definition status_line r : text :=
  txt "HTTP/" ++ dec (r_major_version_ r) ++ txt "." ++ dec (r_minor_version_ r) ++ txt " "
  ++ dec (r_status_ r) ++ txt " ".

Definition pieces r : list text :=
  [snprintf 32 (status_line r); status_message_ r; crlf]
  ++ (if should_close_ r then [txt "Connection: close" ++ crlf]
      else [snprintf 32 (txt "Content-Length: " ++ dec (s64 (content_length r)) ++ crlf);
            txt "Connection: keep-alive" ++ crlf])
  ++ field_pieces (r_header_fields_ r) ++ [crlf] ++ (if include_body_ r then [r_body_ r] else []).

Lemma AppendToIoBuffer_pieces r b : AppendToIoBuffer r b = append_all (pieces r) b.
Proof.
  unfold AppendToIoBuffer, pieces. fold (status_line r). cbn [app append_all].
  destruct (Append _ b) as [b1|]; cbn [mbind result_bind]; [|done].
  destruct (Append (status_message_ r) b1) as [b2|]; cbn [mbind result_bind]; [|done].
  destruct (Append crlf b2) as [b3|]; cbn [mbind result_bind]; [|done].
  rewrite append_all_app.
  assert (forall b, (b ← append_fields (r_header_fields_ r) b; b ← Append crlf b;
            if include_body_ r then Append (r_body_ r) b else Ok b)
          = append_all (field_pieces (r_header_fields_ r) ++ crlf ::
              (if include_body_ r then [r_body_ r] else [])) b) as Htail.
  { intros b4. rewrite append_fields_all, append_all_app. destruct (append_all _ b4) as [b5|]; [|done].
    cbn [mbind result_bind append_all]. destruct (Append crlf b5) as [b6|]; [|done]. cbn [mbind result_bind].
    destruct (include_body_ r); [|done]. cbn [append_all]. by destruct (Append (r_body_ r) b6). }
  destruct (should_close_ r); cbn [append_all].
  - destruct (Append _ b3) as [b4|]; [|done]. cbn [mbind result_bind]. apply Htail.
  - cbv zeta. fold (content_length r). destruct (Append _ b3) as [b4|]; [|done]. cbn [mbind result_bind].
    destruct (Append _ b4) as [b5|]; [|done]. cbn [mbind result_bind]. apply Htail.
Qed.

Lemma snprintf_fits size t : zlen t < size -> snprintf size t = t.
Proof. intros Ht. unfold snprintf. apply ztake_all. lia. Qed.

(** The status line always fits into the array. *)
Lemma status_line_fits r : response_ok r -> zlen (status_line r) < 32.
Proof.
  intros (H1 & H2 & H3). unfold status_line. rewrite !zlen_app.
  pose proof (zlen_dec 2 (r_major_version_ r) ltac:(simpl; lia)).
  pose proof (zlen_dec 2 (r_minor_version_ r) ltac:(simpl; lia)).
  pose proof (zlen_dec 4 (r_status_ r) ltac:(simpl; lia)).
  change (zlen (txt "HTTP/")) with 5. change (zlen (txt ".")) with 1. change (zlen (txt " ")) with 1. lia.
Qed.

Lemma pieces_render r :
  response_ok r -> 0 <= content_length r < 10 ^ 13 -> mjoin (pieces r) = render r.
Proof.
  intros Hok Hlen. unfold pieces, render. rewrite !join_app, mjoin_field_pieces.
  rewrite snprintf_fits by by apply status_line_fits.
  assert (s64 (content_length r) = content_length r) as -> by (apply sext_small; lia).
  rewrite (snprintf_fits 32 (txt "Content-Length: " ++ _)).
  2:{ rewrite !zlen_app. pose proof (zlen_dec 12 (content_length r) ltac:(simpl; lia)).
      change (zlen (txt "Content-Length: ")) with 16. change (zlen crlf) with 2. lia. }
  unfold status_line.
  destruct (should_close_ r), (include_body_ r); cbn [mjoin list_join]; rewrite ?app_nil_r, <- ?app_assoc; done.
Qed.

(** C26. Rendering is equivalent to its reference text: with the buffers of 32
    bytes, the cut off [snprintf] and one [Append] per piece,
    [AppendToIoBuffer] puts exactly [render r] behind what is in a buffer from
    whose front nothing was consumed, for bodies (or announced lengths) below
    10^13 bytes. *)
Theorem http_render_equivalence r b :
  response_ok r -> 0 <= content_length r < 10 ^ 13 ->
  wf b -> reading_index_ b = kReservedCapacity -> writing_index_ b + zlen (render r) <= vector_max_size ->
  exists b', AppendToIoBuffer r b = Ok b' /\ wf b' /\ readable b' = readable b ++ render r.
Proof.
  intros Hok Hlen Hwf Hr Hmax. rewrite AppendToIoBuffer_pieces, <- (pieces_render r) in * by done.
  by apply append_all_ok.
Qed.
End rendering.

(** ** Requests and their answers *)

Section serving.
Context {C L : Type} `{!ConnApi C, !ConnSpec C, !Llhttp L, !HostOrder}.
Context (now : Z) (date : text).

(** The server's answer as one text. *)
Definition answer (method url : text) : text * text :=
  if bool_decide (method = txt "GET") || bool_decide (method = txt "HEAD") then
    if bool_decide (url = txt "/") then (txt "200 OK", page_root)
    else if bool_decide (url = txt "/hello") then (txt "200 OK", page_hello)
    else (txt "404 Not Found", page_404)
  else (txt "405 Method Not Allowed", page_405).

Definition reply (close : bool) (method url : text) : text :=
  let '(status, page) := answer method url in
  txt "HTTP/1.1 " ++ status ++ crlf
  ++ (if close then txt "Connection: close" ++ crlf
      else txt "Content-Length: " ++ dec (zlen page) ++ crlf ++ txt "Connection: keep-alive" ++ crlf)
  ++ txt "Content-Type: text/html;charset=UTF-8" ++ crlf
  ++ txt "Date: " ++ date ++ crlf ++ txt "Server: taotu-http-server" ++ crlf ++ crlf
  ++ (if bool_decide (method = txt "HEAD") then [] else page).

(** The header fields seen so far and the version decide whether the connection
    is kept. *)
Definition wants_close (fields : gmap text text) (major minor : Z) : bool :=
  let info := default [] (fields !! txt "Connection") in
  bool_decide (txt "close" = info) || ((1 =? major) && (0 =? minor) && negb (bool_decide (info = txt "keep-alive"))).

Lemma handler_fields close p :
  mjoin (field_line <$> r_header_fields_ (main_OnRequest date p (HttpResponse_new close)))
  = txt "Content-Type: text/html;charset=UTF-8" ++ crlf ++ txt "Date: " ++ date ++ crlf
    ++ txt "Server: taotu-http-server" ++ crlf.
Proof.
  assert (r_header_fields_ (main_OnRequest date p (HttpResponse_new close))
    = [(txt "Content-Type", text_html); (txt "Date", date); (txt "Server", txt "taotu-http-server")]) as ->.
  { unfold main_OnRequest. destruct (bool_decide (GetMethod p = txt "GET") || _); [|reflexivity].
    destruct (bool_decide (GetUrl p = txt "/")), (bool_decide (GetUrl p = txt "/hello")),
      (bool_decide (GetMethod p = txt "HEAD")); reflexivity. }
  cbn [fmap list_fmap mjoin list_join]. unfold field_line. cbn [fst snd]. rewrite <- !app_assoc.
  vm_compute. reflexivity.
Qed.

Lemma handler_render close p :
  let r := main_OnRequest date p (HttpResponse_new close) in
  render r = reply close (method_ p) (url_ p) /\ response_ok r /\ should_close_ r = close /\
  0 <= content_length r < 10 ^ 13.
Proof.
  cbv zeta. unfold render, reply, answer. rewrite handler_fields, <- !app_assoc.
  unfold main_OnRequest, GetMethod, GetUrl.
  destruct (bool_decide_reflect (method_ p = txt "GET")) as [Hg|Hg];
    [rewrite (bool_decide_false (method_ p = txt "HEAD")) by (rewrite Hg; done)|
     destruct (bool_decide (method_ p = txt "HEAD"))];
    cbn [orb]; destruct (bool_decide (url_ p = txt "/")), (bool_decide (url_ p = txt "/hello")), close;
    rewrite <- ?app_assoc; (split; [vm_compute; reflexivity|]); vm_compute; repeat split; discriminate.
Qed.

Ltac zlen_txt := repeat match goal with
  | |- context [zlen (txt ?s)] => let v := eval vm_compute in (zlen (txt s)) in change (zlen (txt s)) with v
  end; change (zlen crlf) with 2.

Lemma reply_length close method url : zlen date < 100 -> zlen (reply close method url) < 1000.
Proof.
  intros Hd. unfold reply, answer.
  destruct (bool_decide (method = txt "GET") || bool_decide (method = txt "HEAD"));
    destruct (bool_decide (url = txt "/")), (bool_decide (url = txt "/hello")), (bool_decide (method = txt "HEAD")), close;
    cbn zeta; rewrite !zlen_app; zlen_txt; unfold page_root, page_hello, page_404, page_405; zlen_txt;
    rewrite ?zlen_nil; try lia; vm_compute (zlen (dec _)); lia.
Qed.

Context (Hdate : zlen date < 100).

(** [OnRequest] sends the reply; on a connection that is not connected nothing
    is sent. *)
Lemma OnRequest_reply p (c : C) :
  OnRequest (main_OnRequest date) p c
  = (c ← c_Send (reply (wants_close (header_fields_ p) (major_version_ p) (minor_version_ p))
                   (method_ p) (url_ p)) c;
     Ok (if wants_close (header_fields_ p) (major_version_ p) (minor_version_ p)
         then c_ShutDownWrite c else c)).
Proof.
  unfold OnRequest, GetHeader, GetVersionPair. fold (wants_close (header_fields_ p) (major_version_ p) (minor_version_ p)).
  set (close := wants_close _ _ _). cbv zeta.
  destruct (handler_render close p) as (Hr & Hok & Hc & Hlen).
  set (r := main_OnRequest date p (HttpResponse_new close)) in *.
  pose proof (reply_length close (method_ p) (url_ p) Hdate) as Hl. rewrite <- Hr in *.
  pose proof (IoBuffer_new_wf kInitialCapacity ltac:(done)) as Hwf0.
  rewrite AppendToIoBuffer_pieces, <- (pieces_render r) in * by done.
  destruct (append_all_ok (pieces r) (IoBuffer_new kInitialCapacity)) as (b & Hrun & Hwf & Hb);
    [done | done | change (writing_index_ _) with kReservedCapacity;
       unfold kReservedCapacity, vector_max_size; lia|].
  rewrite Hrun. cbn [mbind result_bind]. unfold GetReadablePosition. rewrite readable_read_all by done.
  rewrite Hb, IoBuffer_new_readable. cbn [mbind result_bind app]. unfold ShouldClose. by rewrite Hc.
Qed.

(** A request and the callbacks llhttp makes for it when it gets it in one piece. *)
Record request := mkRequest {
  q_method : text; q_url : text; q_major : Z; q_minor : Z; q_upgrade : Z; q_keep_alive : Z;
  q_fields : list (text * text); q_body : text;
}.

Definition field_events (fs : list (text * text)) : list event :=
  fs ≫= (fun '(k, v) => [EvHeaderField k; EvHeaderValue v]).

Definition request_events (q : request) : list event :=
  [EvMessageBegin; EvUrl (q_url q)] ++ field_events (q_fields q)
  ++ [EvHeadersComplete (q_method q) (q_major q) (q_minor q) (q_upgrade q) (q_keep_alive q)]
  ++ (if bool_decide (q_body q = []) then [] else [EvBody (q_body q)]) ++ [EvMessageComplete].

Lemma run_events_app evs evs' p :
  run_events now (evs ++ evs') p = (p ← run_events now evs p; run_events now evs' p).
Proof.
  revert p. induction evs as [|ev evs IH]; intros p; [done|]. cbn [app run_events].
  destruct (parsing_settings_ now ev p); cbn [mbind result_bind]; [apply IH | done].
Qed.

Lemma run_field_events fs p :
  run_events now (field_events fs) p = Ok (set_pairs (key_value_pairs_ p ++ fs) p).
Proof.
  revert p. induction fs as [|[k v] fs IH]; intros p.
  { simpl. rewrite app_nil_r. by destruct p. }
  change (field_events ((k, v) :: fs)) with ([EvHeaderField k; EvHeaderValue v] ++ field_events fs).
  rewrite run_events_app. cbn [run_events parsing_settings_ mbind result_bind].
  unfold OnHeaderValue, OnHeaderField. cbn [key_value_pairs_ set_pairs].
  rewrite last_snoc. cbn [mbind result_bind]. rewrite removelast_last, IH. cbn [key_value_pairs_ set_pairs].
  by rewrite <- app_assoc.
Qed.

(** The parser after the callbacks of a request. *)
Lemma run_request_events q p :
  run_events now (request_events q) p
  = Ok (mkParser (q_major q) (q_minor q) (q_upgrade q) (q_keep_alive q) now now now (q_method q) (q_url q)
          [] (q_fields q) (q_body q) (header_fields_ p)).
Proof.
  unfold request_events. rewrite run_events_app. cbn [run_events parsing_settings_ mbind result_bind].
  rewrite run_events_app, run_field_events. cbn [mbind result_bind].
  destruct (bool_decide_reflect (q_body q = [])) as [->|Hne]; reflexivity.
Qed.

(** An input buffer after everything was taken out of it. *)
Definition emptied (b : IoBuffer) : Prop := wf b /\ readable b = [] /\ reading_index_ b = kReservedCapacity.

Definition merged (fields : gmap text text) (fs : list (text * text)) : gmap text text :=
  foldl (fun m '(key, value) => <[key := value]> m) fields fs.

(** When llhttp reports one complete request for the bytes that arrived, the
    reply for its method and target is sent, the input is consumed, and the
    connection is shut down for writing exactly when the header fields seen so
    far and the version ask for it. *)
Lemma http_request_served n b l l' p q (c : C) :
  let fields := merged (header_fields_ p) (q_fields q) in
  let close := wants_close fields (q_major q) (q_minor q) in
  wf b -> llhttp_execute (readable b) l = (request_events q, HPE_OK, l') ->
  c_IsConnected c = true -> 0 <= n -> c_room (n + zlen (reply close (q_method q) (q_url q))) c ->
  exists b' p' c', OnMessageCallback now (main_OnRequest date) b l p c = Ok (b', l', p', c') /\
    emptied b' /\ header_fields_ p' = fields /\
    c_accepted c' = c_accepted c ++ reply close (q_method q) (q_url q) /\
    c_IsConnected c' = negb close /\ (close = false -> c_room n c').
Proof.
  intros fields close Hwf Hex Hco Hn Hroom. unfold OnMessageCallback.
  destruct (RetrieveAllAsString_ok b Hwf) as (b1 & -> & Hb1). cbn [mbind result_bind].
  unfold Parse. rewrite Hex, run_request_events. cbn [mbind result_bind Z.eqb negb HPE_OK].
  rewrite OnRequest_reply. cbn [header_fields_ major_version_ minor_version_ method_ url_ key_value_pairs_].
  fold (merged (header_fields_ p) (q_fields q)). fold fields. fold close.
  destruct (send_connected n _ c Hco Hn Hroom) as (c1 & Hsend & Hac & Hco1 & _ & Hroom1).
  rewrite Hsend. cbn [mbind result_bind]. eexists _, _, _. split; [done|]. split; [done|]. split; [done|].
  destruct close; [|done]. destruct (shut_spec c1) as (Hs & _ & Ha). by rewrite Hs, Ha.
Qed.

(** After the connection was shut down for writing requests are still parsed
    and handled, and nothing is sent. *)
Lemma http_request_unanswered b l l' p q (c : C) :
  wf b -> llhttp_execute (readable b) l = (request_events q, HPE_OK, l') -> c_IsConnected c = false ->
  exists b' p' c', OnMessageCallback now (main_OnRequest date) b l p c = Ok (b', l', p', c') /\
    emptied b' /\ c_accepted c' = c_accepted c /\ c_IsConnected c' = false.
Proof.
  intros Hwf Hex Hco. unfold OnMessageCallback.
  destruct (RetrieveAllAsString_ok b Hwf) as (b1 & -> & Hb1). cbn [mbind result_bind].
  unfold Parse. rewrite Hex, run_request_events. cbn [mbind result_bind Z.eqb negb HPE_OK].
  rewrite OnRequest_reply, send_unconnected by done. cbn [mbind result_bind].
  eexists _, _, _. split; [done|]. split; [done|].
  destruct (wants_close _ _ _); [|done]. destruct (shut_spec c) as (Hs & _ & Ha). by rewrite Hs, Ha.
Qed.

(** A parse error is answered by the 400 text and nothing else: the handler
    still runs on what was parsed, but the connection was shut down for writing
    before and takes nothing more. *)
Theorem http_bad_request b l evs err l' p p1 (c : C) :
  wf b -> llhttp_execute (readable b) l = (evs, err, l') -> err <> HPE_OK ->
  run_events now evs p = Ok p1 -> c_IsConnected c = true -> c_room (zlen bad_request) c ->
  exists b' c', OnMessageCallback now (main_OnRequest date) b l p c = Ok (b', l', Reset now p1, c') /\
    readable b' = [] /\ c_accepted c' = c_accepted c ++ bad_request /\ c_IsConnected c' = false.
Proof.
  intros Hwf Hex Herr Hrun Hco Hroom. unfold OnMessageCallback.
  destruct (RetrieveAllAsString_ok b Hwf) as (b1 & -> & _ & Hb1 & _). cbn [mbind result_bind].
  unfold Parse. rewrite Hex, Hrun. cbn [mbind result_bind].
  destruct (Z.eqb_spec err HPE_OK); [done|]. cbn [mbind result_bind negb].
  rewrite <- (Z.add_0_l (zlen bad_request)) in Hroom.
  destruct (send_connected 0 _ c Hco ltac:(lia) Hroom) as (c1 & Hsend & Hac & _).
  rewrite Hsend. cbn [mbind result_bind]. rewrite OnRequest_reply.
  destruct (shut_spec c1) as (Hs & _ & Ha). rewrite send_unconnected by done. cbn [mbind result_bind].
  eexists _, _. split; [done|]. split; [done|].
  destruct (wants_close _ _ _); [|by rewrite Ha, Hac].
  destruct (shut_spec (c_ShutDownWrite c1)) as (Hs2 & _ & Ha2). by rewrite Hs2, Ha2, Ha, Hac.
Qed.
End serving.

(** ** A whole connection *)

Section session.
Context {C L : Type} `{!ConnApi C, !ConnSpec C, !Llhttp L, !HostOrder}.
Context (date : text) (Hdate : zlen date < 100).

(** llhttp, in the state [l], reports each read as one whole request. *)
Fixpoint reads_as (l : L) (reads : list (Z * text)) (qs : list request) : Prop :=
  match reads, qs with
  | [], [] => True
  | (_, data) :: reads, q :: qs =>
      zlen data < 2 ^ 62 /\
      exists l', llhttp_execute data l = (request_events q, HPE_OK, l') /\ reads_as l' reads qs
  | _, _ => False
  end.

(** What a client is sent for the requests, and whether the connection is still
    open for writing after them. *)
Fixpoint replies (fields : gmap text text) (qs : list request) : text * bool :=
  match qs with
  | [] => ([], true)
  | q :: qs =>
      let fields := merged fields (q_fields q) in
      let close := wants_close fields (q_major q) (q_minor q) in
      let rest := if close then ([], false) else replies fields qs in
      (reply date close (q_method q) (q_url q) ++ rest.1, rest.2)
  end.

Lemma emptied_append b data :
  emptied b -> zlen data < 2 ^ 62 -> exists b', Append data b = Ok b' /\ wf b' /\ readable b' = data.
Proof.
  intros (Hwf & Hb & Hr) Hd. pose proof (readable_bytes_zlen b Hwf) as Hz. rewrite Hb in Hz.
  destruct (Append_fresh b data) as (b' & HA & Hwf' & Hb' & _); [done | done | |].
  - destruct Hwf. unfold GetReadableBytes, kReservedCapacity, vector_max_size in *.
    rewrite zlen_nil in Hz. rewrite u64_small in Hz by lia. lia.
  - exists b'. by rewrite Hb', Hb.
Qed.

Lemma session_closed reads qs b l p (c : C) :
  emptied b -> reads_as l reads qs -> c_IsConnected c = false ->
  exists b' l' p' c', read_all (main_OnRequest date) reads b (Some (l, p)) c = Ok (b', Some (l', p'), c') /\
    emptied b' /\ c_accepted c' = c_accepted c /\ c_IsConnected c' = false.
Proof.
  revert qs b l p c. induction reads as [|[now data] reads IH]; intros [|q qs] b l p c Hb Hrs Hc; try done.
  { by exists b, l, p, c. }
  destruct Hrs as (Hd & l1 & Hex & Hrs). cbn [read_all].
  destruct (emptied_append b data Hb Hd) as (b1 & -> & Hwf1 & Hr1). cbn [mbind result_bind OnMessageAny].
  rewrite <- Hr1 in Hex.
  destruct (http_request_unanswered now date Hdate b1 l l1 p q c) as (b2 & p2 & c2 & -> & Hb2 & Ha2 & Hc2);
    [done..|]. cbn [mbind result_bind].
  destruct (IH qs b2 l1 p2 c2) as (b3 & l3 & p3 & c3 & -> & Hb3 & Ha3 & Hc3); [done..|].
  exists b3, l3, p3, c3. by rewrite Ha3.
Qed.

Lemma session_open reads qs b l p (c : C) :
  emptied b -> reads_as l reads qs -> c_IsConnected c = true ->
  c_room (zlen (replies (header_fields_ p) qs).1) c ->
  exists b' l' p' c', read_all (main_OnRequest date) reads b (Some (l, p)) c = Ok (b', Some (l', p'), c') /\
    emptied b' /\ c_accepted c' = c_accepted c ++ (replies (header_fields_ p) qs).1 /\
    c_IsConnected c' = (replies (header_fields_ p) qs).2.
Proof.
  revert qs b l p c. induction reads as [|[now data] reads IH]; intros [|q qs] b l p c Hb Hrs Hc Hroom; try done.
  { exists b, l, p, c. cbn [replies fst snd]. by rewrite app_nil_r. }
  destruct Hrs as (Hd & l1 & Hex & Hrs). cbn [read_all].
  destruct (emptied_append b data Hb Hd) as (b1 & -> & Hwf1 & Hr1). cbn [mbind result_bind OnMessageAny].
  rewrite <- Hr1 in Hex. cbn [replies fst snd] in *. rewrite zlen_app, Z.add_comm in Hroom.
  destruct (http_request_served now date Hdate _ b1 l l1 p q c Hwf1 Hex Hc (zlen_nonneg _) Hroom)
    as (b2 & p2 & c2 & -> & Hb2 & Hf2 & Ha2 & Hc2 & Hroom2). cbn [mbind result_bind].
  destruct (wants_close _ _ _) eqn:Hclose.
  - destruct (session_closed reads qs b2 l1 p2 c2 Hb2 Hrs Hc2) as (b3 & l3 & p3 & c3 & -> & Hb3 & Ha3 & Hc3).
    exists b3, l3, p3, c3. cbn [fst snd]. by rewrite app_nil_r, Ha3.
  - specialize (Hroom2 eq_refl). rewrite <- Hf2 in *.
    destruct (IH qs b2 l1 p2 c2 Hb2 Hrs Hc2 Hroom2) as (b3 & l3 & p3 & c3 & -> & Hb3 & Ha3 & Hc3).
    exists b3, l3, p3, c3. by rewrite Ha3, Ha2, app_assoc.
Qed.

(** C14. A connection is served whose reads are whole requests. From the moment a
    connection is established, and whatever the constructor of its parser left in
    memory, if every read delivers exactly one whole request in which llhttp
    finds no error ([reads_as]), then the requests are answered one by one and in
    order: the page for GET, its head with the page's length for HEAD, 404 for
    other targets, 405 for other methods, until the header fields seen so far and
    the version ask to close: that reply is the last one, the connection is shut
    down for writing, and what still arrives is parsed and not answered. No
    callback faults, and all input is consumed. Nothing is said here of requests
    that are split over reads, that share a read, or that llhttp rejects. *)
Theorem http_session_served reads qs l context_ m n u k t1 t2 t3 (c : C) :
  let context' := OnConnectionCallback l (HttpParser_new m n u k t1 t2 t3) context_ c in
  let '(sent, open) := replies ∅ qs in
  c_IsConnected c = true -> reads_as l reads qs -> c_room (zlen sent) c ->
  exists b' context'' c',
    read_all (main_OnRequest date) reads (IoBuffer_new kInitialCapacity) context' c
    = Ok (b', context'', c') /\
    readable b' = [] /\ c_accepted c' = c_accepted c ++ sent /\ c_IsConnected c' = open.
Proof.
  cbv zeta. destruct (replies ∅ qs) as [sent open] eqn:Hreplies. intros Hc Hrs Hroom.
  unfold OnConnectionCallback. rewrite Hc.
  set (p := HttpParser_new m n u k t1 t2 t3).
  change (∅ : gmap text text) with (header_fields_ p) in Hreplies.
  assert (emptied (IoBuffer_new kInitialCapacity)) as Hb.
  { split; [by apply IoBuffer_new_wf|]. split; [apply IoBuffer_new_readable | done]. }
  destruct (session_open reads qs _ l p c Hb Hrs Hc) as (b' & l' & p' & c' & Hrun & (_ & Hb' & _) & Ha & Ho);
    [by rewrite Hreplies|].
  exists b', (Some (l', p')), c'. by rewrite Ha, Ho, Hreplies.
Qed.
End session.

(** ** Evaluations *)

Module Concrete.
Import ConnApi.Concrete.
#[local] Existing Instance x86_host.

(** An llhttp whose next reports are given. *)
#[local] Instance scripted : Llhttp (list (list event * Z)) :=
  fun _ l => match l with (evs, err) :: l => (evs, err, l) | [] => ([], HPE_OK, []) end.

Definition date : text := txt "Thu, 28 Apr 2022 10:00:00 GMT".
Definition no_parser : HttpParser := mkParser 0 0 0 0 0 0 0 [] [] [] [] [] ∅.
Definition get (url : string) (fields : list (text * text)) : request :=
  mkRequest (txt "GET") (txt url) 1 1 0 1 fields [].
Definition old_get (url : string) (fields : list (text * text)) : request :=
  mkRequest (txt "GET") (txt url) 1 0 0 0 fields [].

Definition example_response : HttpResponse :=
  main_OnRequest date (mkParser 1 1 0 1 0 0 0 (txt "GET") (txt "/") [] [] [] ∅) (HttpResponse_new false).

Lemma http_render_equivalence_witness :
  exists b', AppendToIoBuffer example_response (IoBuffer_new 64) = Ok b' /\ wf b' /\
    readable b' = readable (IoBuffer_new 64) ++ render example_response.
Proof.
  apply (http_render_equivalence example_response (IoBuffer_new 64)).
  - vm_compute. repeat split; discriminate.
  - vm_compute. split; [discriminate | reflexivity].
  - apply IoBuffer_new_wf. vm_compute. split; discriminate.
  - reflexivity.
  - vm_compute. discriminate.
Defined.

Definition two_requests : list request := [get "/hello" []; get "/" [(txt "Connection", txt "close")]].

Lemma http_session_served_witness :
  exists b' context' c',
    read_all (main_OnRequest date) [(1, txt "GET /hello HTTP/1.1"); (2, txt "GET / HTTP/1.1")]
      (IoBuffer_new kInitialCapacity)
      (OnConnectionCallback ((fun q => (request_events q, HPE_OK)) <$> two_requests)
         (HttpParser_new 7 7 7 7 7 7 7) None (opened 5)) (opened 5)
    = Ok (b', context', c') /\
    readable b' = [] /\
    c_accepted c' = c_accepted (opened 5)
      ++ (reply date false (txt "GET") (txt "/hello") ++ reply date true (txt "GET") (txt "/") ++ []) /\
    c_IsConnected c' = false.
Proof.
  apply (http_session_served date ltac:(done)
    [(1, txt "GET /hello HTTP/1.1"); (2, txt "GET / HTTP/1.1")] two_requests
    ((fun q => (request_events q, HPE_OK)) <$> two_requests) None 7 7 7 7 7 7 7 (opened 5)).
  - apply opened_state.
  - repeat (split; [reflexivity|]; eexists; split; [reflexivity|]). exact I.
  - apply opened_room. vm_compute. split; [discriminate | reflexivity].
Defined.

(** When llhttp rejects the first bytes before it reports the begin of a message,
    the handler decides on members the constructor did not set: whether the
    connection is asked to be closed a second time depends on what was in
    memory. *)
Lemma version_read_uninitialised :
  wants_close (header_fields_ (HttpParser_new 1 0 0 0 0 0 0)) 1 0 = true /\
  wants_close (header_fields_ (HttpParser_new 1 1 0 0 0 0 0)) 1 1 = false /\
  forall m n u k t1 t2 t3,
    run_events 0 [] (HttpParser_new m n u k t1 t2 t3) = Ok (HttpParser_new m n u k t1 t2 t3) /\
    GetVersionPair (HttpParser_new m n u k t1 t2 t3) = (m, n).
Proof. split; [reflexivity|]. split; [reflexivity|]. done. Qed.

Lemma http_bad_request_witness :
  exists b' c', OnMessageCallback 0 (main_OnRequest date) (holding (txt "GARBAGE"))
      [([EvMessageBegin], 1)] no_parser (opened 5)
    = Ok (b', [], Reset 0 no_parser, c') /\
    readable b' = [] /\ c_accepted c' = c_accepted (opened 5) ++ bad_request /\ c_IsConnected c' = false.
Proof.
  apply (http_bad_request 0 date ltac:(done) (holding (txt "GARBAGE")) [([EvMessageBegin], 1)]
    [EvMessageBegin] 1 [] no_parser no_parser (opened 5)).
  - apply holding_ok. reflexivity.
  - reflexivity.
  - discriminate.
  - reflexivity.
  - apply opened_state.
  - apply opened_room. vm_compute. split; [discriminate | reflexivity].
Defined.

(** What a client got after some reads on one connection. *)
Fixpoint served (reports : list (list event * Z)) (p : HttpParser) (c : Conn) : result Conn :=
  match reports with
  | [] => Ok c
  | report :: reports =>
      '(_, _, p, c) ← OnMessageCallback 0 (main_OnRequest date) (holding (txt "bytes")) [report] p c;
      served reports p c
  end.

(** A field of an earlier request decides over a later one: an HTTP/1.0 request
    without Connection is closed on a new connection and kept open after one
    with keep-alive. *)
Lemma stale_header_field :
  wants_close ∅ 1 0 = true /\
  (c ← served [(request_events (old_get "/" [(txt "Connection", txt "keep-alive")]), HPE_OK);
               (request_events (old_get "/" []), HPE_OK)] no_parser (opened 5);
   Ok (c_accepted c, c_IsConnected c))
  = Ok (reply date false (txt "GET") (txt "/") ++ reply date false (txt "GET") (txt "/"), true).
Proof. split; vm_compute; reflexivity. Qed.

(** A request that arrives in two pieces is answered twice: the first piece,
    whose method is not known yet, by 405. *)
Lemma split_request_answered_early :
  (c ← served [([EvMessageBegin; EvUrl (txt "/")], HPE_OK);
               ([EvHeadersComplete (txt "GET") 1 1 0 1; EvMessageComplete], HPE_OK)] no_parser (opened 5);
   Ok (c_accepted c))
  = Ok (reply date false [] (txt "/") ++ reply date false (txt "GET") []).
Proof. vm_compute. reflexivity. Qed.

(** A field name that llhttp reports in two parts becomes two fields. *)
Lemma split_field_name :
  (p ← run_events 0 [EvMessageBegin; EvHeaderField (txt "Connec"); EvHeaderField (txt "tion");
                     EvHeaderValue (txt "close")] no_parser;
   Ok (key_value_pairs_ p))
  = Ok [(txt "Connec", []); (txt "tion", txt "close")].
Proof. vm_compute. reflexivity. Qed.
End Concrete.
