(* ===== verification/RpcStack.v ===== *)
(** * RPC over connections

    The layers of the RPC part put together: [RpcAsyncChannel] (RpcChannel) with
    its codec (RpcCodec) on a connection ([ConnApi]), the connection callback of
    [RpcServer] (src/rpc_server.cc), and the default error callbacks of the
    codec. Calls travel as bytes here, in whatever pieces they arrive. *)

From Stdlib Require Import Strings.String.
From stdpp Require Import prelude gmap list strings.
From coqutil Require Import Byte.
From S2P Require Import Prelude.
From S2P Require Import IoBuffer.
From S2P Require Import Framing.
From S2P Require Import ConnApi.
From S2P Require Import RpcCodec.
From S2P Require Import RpcChannel.

(** "RPC0". *)
Definition kRpcTag : list byte := [Byte.x52; Byte.x50; Byte.x43; Byte.x30].

Definition ErrorCode2String (error_code : ErrorCode) : string :=
  match error_code with
  | kNoError => "NoError"
  | kInvalidLength => "InvalidLength"
  | kChecksumError => "CheckSumError"
  | kInvalidNameLength => "InvalidNameLen"
  | kUnknownMessageType => "UnknownMessageType"
  | kParseError => "ParseError"
  end.

(** [ret] and [error] are the answers of [getsockopt(SO_ERROR)]. *)
Definition CheckSocketStatusValid (sock_fd ret error : Z) : bool :=
  if sock_fd <? 0 then false
  else if ret <? 0 then false
  else negb (negb (error =? 0)).

Section stack.
Context {C S : Type} `{!ConnApi C, !Service S, !HostOrder, !Wire RpcMessage}.

(** A channel and the connection it is on; [ep_logged] are the errors it
    logged. *)
Record Endpoint := mkEndpoint {
  ep_conn : C;
  ep_channel : Channel S;
  ep_logged : list string;
}.

(** [codec_.Send] on the connection of the channel. *)
Definition codec_Send (m : RpcMessage) (ep : Endpoint) : result Endpoint :=
  bytes ← RpcCodec.Send kRpcTag m;
  c ← c_Send bytes (ep_conn ep);
  Ok (mkEndpoint c (ep_channel ep) (ep_logged ep)).

Definition sends (es : list (event S)) : list RpcMessage :=
  es ≫= fun e => match e with EvSend m => [m] | _ => [] end.

Fixpoint send_all (ms : list RpcMessage) (ep : Endpoint) : result Endpoint :=
  match ms with [] => Ok ep | m :: ms => ep ← codec_Send m ep; send_all ms ep end.

(** An operation of the channel: the messages it hands to the codec are sent. *)
Definition perform (f : Channel S -> Channel S) (ep : Endpoint) : result Endpoint :=
  let ch := f (ep_channel ep) in
  send_all (sends (drop (length (log (ep_channel ep))) (log ch))) (mkEndpoint (ep_conn ep) ch (ep_logged ep)).

Definition ep_CallMethod (svc meth : string) (req : list byte) (resp done : Z) : Endpoint -> result Endpoint :=
  perform (CallMethod svc meth req (Some resp) (Some done)).
Definition ep_DoneCallback (bytes : list byte) (id : Z) : Endpoint -> result Endpoint :=
  perform (DoneCallback bytes id).
Definition ep_OnRpcMessage (m : RpcMessage) : Endpoint -> result Endpoint := perform (OnRpcMessage m).

Definition AsyncDefaultErrorCallback (error_code : ErrorCode) (ep : Endpoint) : Endpoint :=
  mkEndpoint (if c_IsConnected (ep_conn ep) then c_ShutDownWrite (ep_conn ep) else ep_conn ep)
    (ep_channel ep) (ep_logged ep ++ [ErrorCode2String error_code]).

(** The blocking channel's: it only logs, the second line when the socket is
    not valid. *)
Definition SyncDefaultErrorCallback (valid : bool) (error_code : ErrorCode) (logged : list string) : list string :=
  logged ++ [ErrorCode2String error_code] ++ (if negb valid then ["socket invalid"] else []).

(** The codec of a channel. A fault inside of a callback is a fault of the
    whole: nothing that comes later makes it good. *)
#[export] Instance channel_callbacks : CodecCallbacks RpcMessage (result Endpoint) := {|
  RawCallback_ := None;
  MessageCallback_ m e := ep ← e; ep_OnRpcMessage m ep;
  ErrCallback_ code e := ep ← e; Ok (AsyncDefaultErrorCallback code ep);
|}.

(** [RpcAsyncChannel::OnMessage]. *)
Definition ep_OnMessage (b : IoBuffer) (ep : Endpoint) : result (IoBuffer * Endpoint) :=
  '(b, e) ← RpcCodec.OnMessage (E := result Endpoint) kRpcTag b (Ok ep);
  ep ← e;
  Ok (b, ep).

(** [RpcServer::OnConnectionCallback]: the context of the connection. [id0] is
    what the memory of [id_] happens to hold. *)
Definition RpcServer_OnConnectionCallback (id0 : Z) (services : gmap string S) (c : C) : option Endpoint :=
  if c_IsConnected c
  then Some (mkEndpoint c (SetServices services (RpcAsyncChannel_new id0)) [])
  else None.
End stack.
Arguments Endpoint : clear implicits.

(** ** Endpoints *)

Section facts.
Context {C S : Type} `{!ConnApi C, !ConnSpec C, !Service S, !HostOrder, !Wire RpcMessage, !WireOk RpcMessage}.
Abbreviation EP := (Endpoint C S).
Abbreviation wire_frame := (RpcCodec.frame kRpcTag).
Abbreviation msg_fits := (RpcCodec.fits kRpcTag).

(** The connection is up and has room for [n] more bytes. *)
Definition ready (n : Z) (ep : EP) : Prop := c_IsConnected (ep_conn ep) = true /\ c_room n (ep_conn ep).

(** [ms] were sent, and the channel is [ch] now. *)
Definition sent (ms : list RpcMessage) (ch : Channel S) (ep ep' : EP) : Prop :=
  c_accepted (ep_conn ep') = c_accepted (ep_conn ep) ++ frames wire_frame ms /\
  ep_channel ep' = ch /\ ep_logged ep' = ep_logged ep.

Lemma send_all_ok n ms ep :
  Forall msg_fits ms -> 0 <= n -> ready (n + zlen (frames wire_frame ms)) ep ->
  exists ep', send_all ms ep = Ok ep' /\ ready n ep' /\ sent ms (ep_channel ep) ep ep'.
Proof using ConnSpec0.
  intros Hf Hn. revert ep. induction Hf as [|m ms Hm Hf IH]; intros ep [Hco Hroom].
  { exists ep. rewrite Z.add_0_r in Hroom. split; [done|]. split; [done|].
    split; [by rewrite app_nil_r|done]. }
  rewrite framed_cons, zlen_app, (Z.add_comm (zlen (wire_frame m))), Z.add_assoc in Hroom.
  assert (0 <= n + zlen (frames wire_frame ms)) as Hnn by (pose proof (zlen_nonneg (frames wire_frame ms)); lia).
  destruct (send_connected _ (wire_frame m) (ep_conn ep) Hco Hnn Hroom)
    as (c & Hsend & Hac & Hco' & _ & Hroom').
  cbn [send_all]. unfold codec_Send. rewrite (Send_frame kRpcTag ltac:(done) m Hm).
  cbn [mbind result_bind]. rewrite Hsend. cbn [mbind result_bind].
  destruct (IH (mkEndpoint c (ep_channel ep) (ep_logged ep))) as (ep' & Hrun & Hr & Ha & Hch & Hlg); [done|].
  exists ep'. split; [done|]. split; [done|]. split; [|done].
  simpl in Ha. by rewrite Ha, Hac, framed_cons, app_assoc.
Qed.

(** An operation of the channel that logs [es]. *)
Lemma perform_ok n f es ep :
  log (f (ep_channel ep)) = log (ep_channel ep) ++ es ->
  Forall msg_fits (sends es) -> 0 <= n -> ready (n + zlen (frames wire_frame (sends es))) ep ->
  exists ep', perform f ep = Ok ep' /\ ready n ep' /\ sent (sends es) (f (ep_channel ep)) ep ep'.
Proof using ConnSpec0.
  intros Hlog Hf Hn Hr. unfold perform. rewrite Hlog, drop_app_length.
  by apply (send_all_ok n (sends es) (mkEndpoint (ep_conn ep) (f (ep_channel ep)) (ep_logged ep))).
Qed.

Lemma foldl_deliver ms (e : result EP) :
  foldl (fun e m => MessageCallback_ m e) e ms = (ep ← e; deliver ep_OnRpcMessage ms ep).
Proof.
  revert e. induction ms as [|m ms IH]; intros e; simpl; [by destruct e|].
  rewrite IH. by destruct e as [ep|f].
Qed.

(** The channel's codec takes complete messages off its input buffer. *)
Lemma ep_decodes : decodes wire_frame msg_fits ep_OnRpcMessage (ep_OnMessage (C := C) (S := S)).
Proof using WireOk0.
  intros b ep ep' ms rest Hwf Hb _ Hf (m & more & Hm & Heq & Hne) Hd.
  destruct (OnMessage_complete (E := result EP) kRpcTag ltac:(done) ms m b rest more (Ok ep))
    as (b' & Hon & Hwf' & Hr'); try done.
  exists b'. split; [|done]. unfold ep_OnMessage. rewrite Hon. cbn [mbind result_bind].
  rewrite foldl_deliver. cbn [mbind result_bind]. by rewrite Hd.
Qed.

Lemma wire_frame_incomplete (m : RpcMessage) : msg_fits m -> incomplete wire_frame msg_fits [].
Proof.
  intros Hm. exists m, (wire_frame m). split; [done|]. split; [done|]. intros Hnil.
  pose proof (zlen_frame kRpcTag m) as Hl. rewrite Hnil, zlen_nil in Hl.
  pose proof (frame_len_range kRpcTag m) as Hge. pose proof (zlen_nonneg kRpcTag).
  unfold kHeaderLength, kChecksumLength in *. lia.
Qed.

(** *** Sequences of operations *)

(** Operations of a channel add to its log. *)
Definition appends {X} (F : X -> Channel S -> Channel S) : Prop :=
  forall x ch, exists es, log (F x ch) = log ch ++ es.

Definition fold_channel {X} (F : X -> Channel S -> Channel S) (xs : list X) (ch : Channel S) : Channel S :=
  foldl (fun ch x => F x ch) ch xs.

Lemma sends_app (es es' : list (event S)) : sends (es ++ es') = sends es ++ sends es'.
Proof. apply bind_app. Qed.

Lemma sends_EvSend (ms : list RpcMessage) : sends (EvSend (S := S) <$> ms) = ms.
Proof. induction ms as [|m ms IH]; [done|]. by apply (f_equal (cons m)). Qed.

Lemma fold_appends {X} (F : X -> Channel S -> Channel S) xs ch :
  appends F -> exists es, log (fold_channel F xs ch) = log ch ++ es.
Proof.
  intros HF. revert ch. induction xs as [|x xs IH]; intros ch; [exists []; by rewrite app_nil_r|].
  destruct (HF x ch) as [es He]. destruct (IH (F x ch)) as [es' He'].
  exists (es ++ es'). simpl. by rewrite He', He, app_assoc.
Qed.

(** On an endpoint they do what they do on the channel, and send what it
    logged as sent. *)
Lemma perform_all {X} (F : X -> Channel S -> Channel S) n xs es ep :
  appends F -> log (fold_channel F xs (ep_channel ep)) = log (ep_channel ep) ++ es ->
  Forall msg_fits (sends es) -> 0 <= n -> ready (n + zlen (frames wire_frame (sends es))) ep ->
  exists ep', deliver (fun x => perform (F x)) xs ep = Ok ep' /\ ready n ep' /\
    sent (sends es) (fold_channel F xs (ep_channel ep)) ep ep'.
Proof using ConnSpec0.
  intros HF. revert es ep. induction xs as [|x xs IH]; intros es ep Hlog Hf Hn Hr.
  { simpl in Hlog. rewrite <- (app_nil_r (log (ep_channel ep))) in Hlog at 1.
    apply app_inv_head in Hlog as <-. rewrite Z.add_0_r in Hr.
    exists ep. split; [done|]. split; [done|]. split; [by rewrite app_nil_r|done]. }
  destruct (HF x (ep_channel ep)) as [es1 H1].
  destruct (fold_appends F xs (F x (ep_channel ep)) HF) as [es2 H2].
  assert (es = es1 ++ es2) as ->.
  { apply (app_inv_head (log (ep_channel ep))). rewrite <- Hlog, app_assoc, <- H1, <- H2. done. }
  rewrite sends_app in Hf, Hr. apply Forall_app in Hf as [Hf1 Hf2].
  rewrite frames_app, zlen_app, (Z.add_comm (zlen _)), Z.add_assoc in Hr.
  assert (0 <= n + zlen (frames wire_frame (sends es2))) as Hnn
    by (pose proof (zlen_nonneg (frames wire_frame (sends es2))); lia).
  destruct (perform_ok _ (F x) es1 ep H1 Hf1 Hnn Hr) as (ep1 & Hp & Hr1 & Ha1 & Hc1 & Hl1).
  cbn [deliver]. rewrite Hp. cbn [mbind result_bind].
  destruct (IH es2 ep1) as (ep' & Hd & Hr' & Ha & Hc & Hl); [by rewrite Hc1|done..|].
  exists ep'. split; [done|]. split; [done|]. split; [|split; [by rewrite Hc, Hc1|congruence]].
  by rewrite Ha, Ha1, sends_app, frames_app, app_assoc.
Qed.

Lemma OnRpcMessage_appends : appends OnRpcMessage.
Proof.
  intros m ch. assert (exists es, log ch = log ch ++ es) as Hnil by (exists []; by rewrite app_nil_r).
  unfold OnRpcMessage. destruct (type m); [done| | |done].
  - destruct (route m ch); by eexists.
  - unfold OnResponse. destruct (outstanding_calls_ ch !! s64 (id m)) as [c|]; [|done].
    destruct (response_message_ c); [by eexists|]. by exists []; rewrite app_nil_r.
Qed.

(** *** A batch of calls *)

Record Call := mkCall { svc : string; meth : string; req : list byte; resp : Z; done : Z }.

(** The calls with the ids they get from a channel whose counter is [id]. *)
Fixpoint numbered (id : Z) (calls : list Call) : list (Z * Call) :=
  match calls with
  | [] => []
  | c :: calls => (s64 (id + 1), c) :: numbered (s64 (id + 1)) calls
  end.

Definition request_of (ic : Z * Call) : RpcMessage :=
  mkRpcMessage REQUEST (u64 ic.1) (Some (svc ic.2)) (Some (meth ic.2)) (Some (req ic.2)) None None.
Definition response_of (a : Z * list byte) : RpcMessage :=
  mkRpcMessage RESPONSE (u64 a.1) None None None (Some a.2) None.

Definition call (c : Call) : Channel S -> Channel S :=
  CallMethod (svc c) (meth c) (req c) (Some (resp c)) (Some (done c)).
Definition answer (a : Z * list byte) : Channel S -> Channel S := DoneCallback a.2 a.1.

(** What the callee is asked to do, what happens to the caller's objects. *)
Definition dispatched (services : gmap string S) (ic : Z * Call) : list (event S) :=
  match services !! svc ic.2 with
  | Some s => [EvDispatch s (meth ic.2) (req ic.2) ic.1]
  | None => []
  end.
Definition finished (table : gmap Z Call) (a : Z * list byte) : list (event S) :=
  match table !! a.1 with
  | Some c => [EvParse (resp c) a.2; EvRun (done c); EvDelete (resp c)]
  | None => []
  end.

Definition servable (services : gmap string S) (c : Call) : Prop :=
  exists s, services !! svc c = Some s /\ FindMethodByName s (meth c) = true /\
    ParseRequest s (meth c) (req c) = true.

Definition waits_for (c : Call) : OutstandingCall := mkOutstandingCall (Some (resp c)) (Some (done c)).

(** Numbers count up, modulo 2^64. *)
Lemma numbered_ids id calls i :
  i ∈ (numbered id calls).*1 -> exists k, 1 <= k <= zlen calls /\ i = s64 (id + k).
Proof.
  revert id. induction calls as [|c calls IH]; intros id; [by intros ?%elem_of_nil|].
  rewrite zlen_cons. intros [->|Hi]%elem_of_cons; simpl.
  - exists 1. pose proof (zlen_nonneg calls). split; [lia|done].
  - destruct (IH _ Hi) as (k & Hk & ->). exists (k + 1). split; [lia|]. rewrite s64_add. f_equal. lia.
Qed.

Lemma numbered_NoDup id calls : zlen calls < 2 ^ 64 -> NoDup (numbered id calls).*1.
Proof.
  revert id. induction calls as [|c calls IH]; intros id; simpl; [constructor|].
  rewrite zlen_cons. intros Hlen. constructor; [|apply IH; lia].
  intros (k & Hk & Heq)%numbered_ids.
  rewrite s64_add in Heq. apply s64_inj in Heq; lia.
Qed.

(** The caller: requests go out, calls wait. *)
Lemma fold_call calls ch :
  log (fold_channel call calls ch) = log ch ++ (EvSend <$> (request_of <$> numbered (id_ ch) calls)) /\
  (zlen calls < 2 ^ 64 ->
   outstanding_calls_ (fold_channel call calls ch)
   = (waits_for <$> (list_to_map (numbered (id_ ch) calls) : gmap Z Call)) ∪ outstanding_calls_ ch).
Proof.
  revert ch. induction calls as [|c calls IH]; intros ch.
  { simpl. rewrite app_nil_r. split; [done|]. by rewrite fmap_empty, (left_id_L ∅ (∪)). }
  destruct (IH (call c ch)) as [Hlog Hout]. split.
  - etransitivity; [exact Hlog|]. simpl. by rewrite <- app_assoc.
  - intros Hlen. pose proof (numbered_NoDup (id_ ch) (c :: calls) Hlen) as Hnd. simpl in Hnd.
    apply NoDup_cons in Hnd as [Hni _]. rewrite zlen_cons in Hlen.
    etransitivity; [apply Hout; lia|]. simpl. rewrite fmap_insert.
    rewrite <- insert_union_l. symmetry. apply insert_union_r.
    rewrite lookup_fmap. by rewrite not_elem_of_list_to_map_1.
Qed.

(** The callee: every request is handed to its service. *)
Lemma fold_requests services ics ch :
  services_ ch = Some services -> Forall (fun ic => servable services ic.2 /\ s64 ic.1 = ic.1) ics ->
  log (fold_channel OnRpcMessage (request_of <$> ics) ch) = log ch ++ (ics ≫= dispatched services).
Proof.
  intros Hs Hf. revert ch Hs. induction Hf as [|[i c] ics [(s & Hl & Hm & Hp) Hi] Hf IH]; intros ch Hs.
  { by rewrite app_nil_r. }
  simpl in *. assert (OnRpcMessage (request_of (i, c)) ch = emit [EvDispatch s (meth c) (req c) i] ch) as Heq.
  { unfold OnRpcMessage, route. simpl. rewrite Hs, Hl, Hm, Hp. simpl.
    by rewrite <- Hi, s64_u64_s64. }
  rewrite Heq. rewrite IH by done. unfold dispatched at 2. simpl. rewrite Hl. by rewrite <- app_assoc.
Qed.

Lemma fold_answers (answers : list (Z * list byte)) ch :
  log (fold_channel answer answers ch) = log ch ++ (EvSend <$> (response_of <$> answers)).
Proof.
  revert ch. induction answers as [|a answers IH]; intros ch; [by rewrite app_nil_r|].
  simpl. rewrite IH. simpl. by rewrite <- app_assoc.
Qed.

(** The caller again: every response finishes the call with its id. *)
Lemma fold_responses table (answers : list (Z * list byte)) ch :
  NoDup answers.*1 ->
  Forall (fun a => s64 a.1 = a.1 /\ exists c, table !! a.1 = Some c /\
    outstanding_calls_ ch !! a.1 = Some (waits_for c)) answers ->
  log (fold_channel OnRpcMessage (response_of <$> answers) ch) = log ch ++ (answers ≫= finished table) /\
  (forall k, outstanding_calls_ (fold_channel OnRpcMessage (response_of <$> answers) ch) !! k
    = if bool_decide (k ∈ answers.*1) then None else outstanding_calls_ ch !! k).
Proof.
  revert ch. induction answers as [|[i bytes] answers IH]; intros ch Hnd Hf.
  { split; [by rewrite app_nil_r|done]. }
  apply NoDup_cons in Hnd as [Hni Hnd]. apply Forall_cons in Hf as [(Hi & c & Ht & Ho) Hf]. simpl in Hi, Ht, Ho, Hni.
  assert (OnRpcMessage (response_of (i, bytes)) ch
    = emit [EvParse (resp c) bytes; EvRun (done c); EvDelete (resp c)]
        (set_outstanding (delete i (outstanding_calls_ ch)) ch)) as Heq.
  { unfold OnRpcMessage, OnResponse. simpl. rewrite <- Hi at 1. rewrite s64_u64_s64, Hi, Ho. simpl.
    rewrite <- Hi at 1. by rewrite s64_u64_s64, Hi. }
  cbn [fmap list_fmap fold_channel foldl]. rewrite Heq. set (ch1 := emit _ _).
  destruct (IH ch1 Hnd) as [Hlog Hout]; swap 1 2.
  - split.
    + etransitivity; [exact Hlog|]. simpl. unfold finished at 2. simpl. rewrite Ht. by rewrite <- app_assoc.
    + intros k. etransitivity; [exact (Hout k)|]. simpl.
      destruct (decide (k = i)) as [->|Hne].
      * rewrite (bool_decide_true (i ∈ i :: _)) by by left. rewrite lookup_delete_eq. by destruct (bool_decide _).
      * rewrite lookup_delete_ne by done.
        rewrite (bool_decide_ext (k ∈ i :: answers.*1) (k ∈ answers.*1)); [done|].
        rewrite elem_of_cons. split; [by intros [?|?]|by right].
  - apply Forall_forall. intros [j bs] Hin. pose proof Hf as Hall. rewrite Forall_forall in Hall.
    destruct (Hall _ Hin) as (Hj & c' & Ht' & Ho').
    split; [done|]. exists c'. split; [done|]. simpl in *. rewrite lookup_delete_ne; [done|].
    intros ->. apply Hni. apply list_elem_of_fmap. by exists (j, bs).
Qed.

(** What the two ends of a batch agree on: the numbered calls, the answers in
    any order, and messages within the limits of the codec. *)
Record batch_ok (ics : list (Z * Call)) (answers : list (Z * list byte)) : Prop := {
  batch_some : ics <> [];
  batch_answers : answers.*1 ≡ₚ ics.*1;
  batch_requests : Forall msg_fits (request_of <$> ics);
  batch_responses : Forall msg_fits (response_of <$> answers);
  batch_up : zlen (frames wire_frame (request_of <$> ics)) < 2 ^ 31;
  batch_down : zlen (frames wire_frame (response_of <$> answers)) < 2 ^ 31;
}.

(** A stream of messages in pieces, at an endpoint that sends nothing itself. *)
Lemma ep_receives_quietly ms pieces es ep :
  ms <> [] -> Forall msg_fits ms -> zlen (frames wire_frame ms) < 2 ^ 31 ->
  mjoin pieces = frames wire_frame ms ->
  log (fold_channel OnRpcMessage ms (ep_channel ep)) = log (ep_channel ep) ++ es -> sends es = [] ->
  forall n, 0 <= n -> ready n ep ->
  exists ep', outcome ep_OnMessage pieces [] ep [] ep' /\ ready n ep' /\
    c_accepted (ep_conn ep') = c_accepted (ep_conn ep) /\
    ep_channel ep' = fold_channel OnRpcMessage ms (ep_channel ep) /\ ep_logged ep' = ep_logged ep.
Proof using ConnSpec0 WireOk0.
  intros Hne Hf Hmax Hp Hlog Hs n Hn Hr.
  destruct (perform_all OnRpcMessage n ms es ep OnRpcMessage_appends Hlog) as (ep' & Hd & Hr' & Ha & Hc & Hl);
    rewrite ?Hs; [done|done|by rewrite Z.add_0_r|].
  rewrite Hs in Ha. change (frames wire_frame []) with (@nil byte) in Ha. rewrite app_nil_r in Ha.
  exists ep'. split; [|done].
  assert (incomplete wire_frame msg_fits []) as Hinc.
  { destruct Hf as [|m ms Hm Hf]; [done|]. by apply (wire_frame_incomplete m). }
  apply (framed_outcome wire_frame msg_fits ep_OnRpcMessage _ _ ms); try done.
  - apply ep_decodes.
  - by rewrite app_nil_r.
  - by rewrite zlen_nil, Hp.
Qed.

Lemma ids_signed id calls : Forall (fun ic => s64 ic.1 = ic.1) (numbered id calls).
Proof.
  apply Forall_forall. intros [i c] Hin. simpl.
  destruct (numbered_ids id calls i) as (k & _ & ->); [apply list_elem_of_fmap; by exists (i, c)|].
  pose proof (s64_add (id + k) 0) as Hs. by rewrite !Z.add_0_r in Hs.
Qed.

Lemma servable_numbered services id calls :
  Forall (servable services) calls ->
  Forall (fun ic => servable services ic.2 /\ s64 ic.1 = ic.1) (numbered id calls).
Proof.
  intros Hf. apply Forall_and. split; [|apply ids_signed]. revert id.
  induction Hf as [|c calls Hc Hf IH]; intros id; constructor; [done|apply IH].
Qed.

Lemma sends_dispatched services (ics : list (Z * Call)) : sends (ics ≫= dispatched services) = [].
Proof.
  induction ics as [|ic ics IH]; [done|]. rewrite bind_cons, sends_app, IH, app_nil_r.
  unfold dispatched. by destruct (services !! svc ic.2).
Qed.

Lemma sends_finished table (answers : list (Z * list byte)) : sends (answers ≫= finished table) = [].
Proof.
  induction answers as [|a answers IH]; [done|]. rewrite bind_cons, sends_app, IH, app_nil_r.
  unfold finished. by destruct (table !! a.1).
Qed.

(** The answers belong to calls that wait. *)
Lemma answers_wait id calls answers (out : gmap Z OutstandingCall) :
  zlen calls < 2 ^ 64 -> answers.*1 ≡ₚ (numbered id calls).*1 ->
  let table := list_to_map (numbered id calls) : gmap Z Call in
  out = waits_for <$> table ->
  NoDup answers.*1 /\
  Forall (fun a : Z * list byte => s64 a.1 = a.1 /\ exists c, table !! a.1 = Some c /\
    out !! a.1 = Some (waits_for c)) answers.
Proof.
  intros Hlen Hperm table Hout. pose proof (numbered_NoDup id calls Hlen) as Hnd.
  split; [by rewrite Hperm|]. apply Forall_forall. intros [i bytes] Hin. simpl.
  assert (i ∈ (numbered id calls).*1) as Hi.
  { rewrite <- Hperm. apply list_elem_of_fmap. by exists (i, bytes). }
  apply list_elem_of_fmap in Hi as ([i' c] & -> & Hic). simpl.
  pose proof (ids_signed id calls) as Hs. rewrite Forall_forall in Hs. split; [apply (Hs _ Hic)|].
  exists c. assert (table !! i' = Some c) as Ht by by apply elem_of_list_to_map_1.
  split; [done|]. by rewrite Hout, lookup_fmap, Ht.
Qed.

(** The server's part: requests in, one dispatch each, answers out. *)
Lemma server_phase services ics answers pieces server :
  ics <> [] -> Forall msg_fits (request_of <$> ics) -> zlen (frames wire_frame (request_of <$> ics)) < 2 ^ 31 ->
  Forall (fun ic => servable services ic.2 /\ s64 ic.1 = ic.1) ics ->
  Forall msg_fits (response_of <$> answers) ->
  services_ (ep_channel server) = Some services -> c_accepted (ep_conn server) = [] ->
  ready (zlen (frames wire_frame (response_of <$> answers))) server ->
  mjoin pieces = frames wire_frame (request_of <$> ics) ->
  exists server1 server2,
    outcome ep_OnMessage pieces [] server [] server1 /\
    log (ep_channel server1) = log (ep_channel server) ++ (ics ≫= dispatched services) /\
    deliver (fun a => ep_DoneCallback a.2 a.1) answers server1 = Ok server2 /\
    c_accepted (ep_conn server2) = frames wire_frame (response_of <$> answers).
Proof using ConnSpec0 WireOk0.
  intros Hne Hfq Hup Hcan Hfr Hserv Has Hr Hp.
  pose proof (fold_requests services ics (ep_channel server) Hserv Hcan) as Hlogs.
  destruct (ep_receives_quietly (request_of <$> ics) pieces (ics ≫= dispatched services) server)
    with (n := zlen (frames wire_frame (response_of <$> answers)))
    as (server1 & Hrecv & Hr1 & Ha1 & Hc1 & _); try done.
  { by intros ?%fmap_nil_inv. }
  { apply sends_dispatched. }
  { apply zlen_nonneg. }
  destruct (perform_all answer 0 answers (EvSend <$> (response_of <$> answers)) server1)
    as (server2 & Hd & _ & Ha2 & _); rewrite ?sends_EvSend; try done;
    [by intros a ch; eexists|apply fold_answers|].
  rewrite sends_EvSend, Ha1, Has in Ha2. exists server1, server2.
  split; [done|]. split; [by rewrite Hc1|]. split; [exact Hd|done].
Qed.

(** The client's part when the answers come in. *)
Lemma client_phase id calls answers pieces client :
  let table := list_to_map (numbered id calls) : gmap Z Call in
  zlen calls < 2 ^ 64 -> batch_ok (numbered id calls) answers -> ready 0 client ->
  outstanding_calls_ (ep_channel client) = waits_for <$> table ->
  mjoin pieces = frames wire_frame (response_of <$> answers) ->
  exists client', outcome ep_OnMessage pieces [] client [] client' /\
    log (ep_channel client') = log (ep_channel client) ++ (answers ≫= finished table) /\
    outstanding_calls_ (ep_channel client') = ∅.
Proof using ConnSpec0 WireOk0.
  intros table Hlen [Hne Hperm _ Hfr _ Hdown] Hr Hout Hp.
  destruct (answers_wait _ calls answers (outstanding_calls_ (ep_channel client)) Hlen Hperm Hout) as [Hnd Hwait].
  destruct (fold_responses table answers (ep_channel client) Hnd Hwait) as [Hlog Hout'].
  destruct (ep_receives_quietly (response_of <$> answers) pieces (answers ≫= finished table) client)
    with (n := 0) as (client' & Hrecv & _ & _ & Hc & _); try done.
  { intros ->%fmap_nil_inv. apply Hne, (fmap_nil_inv fst), Permutation_nil_r. by symmetry. }
  { apply sends_finished. }
  exists client'. split; [done|]. split; [by rewrite Hc|]. apply map_eq. intros k.
  rewrite Hc, Hout', lookup_empty. destruct (bool_decide_reflect (k ∈ answers.*1)) as [|Hnot]; [done|].
  rewrite Hout, lookup_fmap. unfold table. rewrite not_elem_of_list_to_map_1; [done|]. by rewrite <- Hperm.
Qed.


(** C36. A bad frame ends the sending side. When what is in the buffer starts with
    a frame the codec rejects, the channel logs the error by its name, shuts the
    connection down for writing, keeps the bytes, and leaves its calls alone;
    a call made afterwards is accepted and numbered, but nothing is sent for it,
    so that it waits for ever. *)
Theorem rpc_bad_frame_shuts_down b ep code :
  IoBuffer.wf b -> rejected kRpcTag (readable b) code -> c_IsConnected (ep_conn ep) = true ->
  exists ep', ep_OnMessage b ep = Ok (b, ep') /\ c_IsConnected (ep_conn ep') = false /\
    ep_channel ep' = ep_channel ep /\ ep_logged ep' = ep_logged ep ++ [ErrorCode2String code] /\
    forall c, msg_fits (request_of (s64 (id_ (ep_channel ep) + 1), c)) ->
    exists ep'', ep_CallMethod (svc c) (meth c) (req c) (resp c) (done c) ep' = Ok ep'' /\
      c_accepted (ep_conn ep'') = c_accepted (ep_conn ep) /\
      outstanding_calls_ (ep_channel ep'') !! s64 (id_ (ep_channel ep) + 1) = Some (waits_for c).
Proof using ConnSpec0.
  intros Hwf Hrej Hco. unfold ep_OnMessage.
  rewrite (rejected_frame (E := result EP) kRpcTag ltac:(done) b (Ok ep) code) by done.
  cbn [mbind result_bind ErrCallback_ channel_callbacks]. eexists. split; [done|].
  unfold AsyncDefaultErrorCallback. rewrite Hco. cbn [ep_conn ep_channel ep_logged].
  destruct (shut_spec (ep_conn ep)) as (Hdown & _ & Hac). split; [done|]. split; [done|]. split; [done|].
  intros c Hfit. unfold ep_CallMethod, perform. simpl. rewrite drop_app_length. simpl.
  unfold codec_Send. pose proof (Send_frame kRpcTag ltac:(done) _ Hfit) as Hsf. unfold request_of in Hsf.
  simpl in Hsf. rewrite Hsf. cbn [mbind result_bind ep_conn]. rewrite send_unconnected by done.
  cbn [mbind result_bind]. eexists. split; [done|]. split; [done|]. simpl. by rewrite lookup_insert_eq.
Qed.
End facts.

(** ** An evaluation *)

Module Concrete.
Import ConnApi.Concrete.
Import RpcChannel.Concrete.
#[local] Existing Instance x86_host.
#[local] Existing Instance echo_service.

(** A stand-in for protobuf: messages are numbered, a number is written as its
    bits. *)
#[local] Instance byte_countable : Countable byte := inj_countable Byte.to_N Byte.of_N Byte.of_to_N.

Definition type_number (t : MessageType) : Z :=
  match t with OTHER => 0 | REQUEST => 1 | RESPONSE => 2 | ERROR => 3 end.
Definition type_of_number (n : Z) : MessageType :=
  match n with 1 => REQUEST | 2 => RESPONSE | 3 => ERROR | _ => OTHER end.
Definition error_number (e : RpcError) : Z :=
  match e with
  | NO_ERROR => 0 | WRONG_PROTO => 1 | NO_SERVICE => 2 | NO_METHOD => 3
  | INVALID_REQUEST => 4 | INVALID_RESPONSE => 5 | TIMEOUT => 6
  end.
Definition error_of_number (n : Z) : RpcError :=
  match n with
  | 0 => NO_ERROR | 1 => WRONG_PROTO | 2 => NO_SERVICE | 3 => NO_METHOD
  | 4 => INVALID_REQUEST | 5 => INVALID_RESPONSE | _ => TIMEOUT
  end.

Definition fields (m : RpcMessage) :=
  (type_number (type m), id m, service m, method m, request m, response m, error_number <$> error m).
Definition of_fields (t : Z * Z * option string * option string * option (list byte) * option (list byte) * option Z)
  : RpcMessage :=
  let '(ty, i, s, me, rq, rs, er) := t in
  mkRpcMessage (type_of_number ty) i s me rq rs (error_of_number <$> er).

Lemma of_fields_fields m : of_fields (fields m) = m.
Proof. destruct m as [ty i s me rq rs [er|]]; destruct ty; try destruct er; done. Qed.

Fixpoint bits (p : positive) : list byte :=
  match p with xH => [] | xO p => Byte.x00 :: bits p | xI p => Byte.x01 :: bits p end.
Fixpoint of_bits (bs : list byte) : positive :=
  match bs with
  | [] => xH
  | b :: bs => if Byte.eqb b Byte.x00 then xO (of_bits bs) else xI (of_bits bs)
  end.

Lemma of_bits_bits p : of_bits (bits p) = p.
Proof. induction p as [p IH|p IH|]; simpl; [by rewrite IH|by rewrite IH|done]. Qed.

#[local] Instance rpc_wire : Wire RpcMessage := {|
  adler32 := RpcCodec.Concrete.rfc1950;
  serialize m := bits (countable.encode (fields m));
  parse bs := of_fields <$> countable.decode (of_bits bs);
|}.

#[local] Instance rpc_wire_ok : WireOk RpcMessage.
Proof. split. intros m. simpl. rewrite of_bits_bits, decode_encode. apply (f_equal Some), of_fields_fields. Qed.

Definition two_calls : list Call := [mkCall "Echo" "Say" [Byte.x01] 100 200; mkCall "Echo" "Say" [Byte.x02] 101 201].
Definition two_answers : list (Z * list byte) := [(8, [Byte.x02]); (7, [Byte.x01])].
Definition caller : Endpoint Conn echo := mkEndpoint (opened 5) client [].
Definition callee : Endpoint Conn echo := mkEndpoint (opened 6) server [].

Lemma two_ok : batch_ok (numbered 6 two_calls) two_answers.
Proof.
  split; [done| | | | |].
  - change ([8; 7] ≡ₚ [7; 8]). apply Permutation_swap.
  - repeat constructor; vm_compute; discriminate.
  - repeat constructor; vm_compute; discriminate.
  - vm_compute. reflexivity.
  - vm_compute. reflexivity.
Qed.

Lemma ready_opened fd ch n : 0 <= n < 2 ^ 62 -> ready n (mkEndpoint (opened fd) ch [] : Endpoint Conn echo).
Proof. intros Hn. split; [apply opened_state|by apply opened_room]. Qed.

Definition two_dispatches : list (event echo) := numbered 6 two_calls ≫= dispatched (RegisterService Echo ∅).
Definition two_finishes : list (event echo) := two_answers ≫= finished (list_to_map (numbered 6 two_calls)).

Lemma two_events :
  two_dispatches = [EvDispatch Echo "Say" [Byte.x01] 7; EvDispatch Echo "Say" [Byte.x02] 8] /\
  two_finishes = [EvParse 101 [Byte.x02]; EvRun 201; EvDelete 101; EvParse 100 [Byte.x01]; EvRun 200; EvDelete 100].
Proof. split; vm_compute; reflexivity. Qed.


Lemma rpc_bad_frame_shuts_down_witness :
  exists ep', ep_OnMessage (holding (replicate 12 Byte.xff)) caller = Ok (holding (replicate 12 Byte.xff), ep') /\
    c_IsConnected (ep_conn ep') = false /\ ep_logged ep' = ["InvalidLength"%string].
Proof.
  destruct (holding_ok (replicate 12 Byte.xff)) as [Hwf Hr]; [by vm_compute|].
  destruct (rpc_bad_frame_shuts_down (holding (replicate 12 Byte.xff)) caller kInvalidLength Hwf)
    as (ep' & H1 & H2 & _ & H4 & _).
  - rewrite Hr. split; [vm_compute; discriminate|]. left. split; [right; vm_compute; reflexivity|reflexivity].
  - apply opened_state.
  - exists ep'. auto.
Defined.
End Concrete.
