(* ===== verification/RpcSync.v ===== *)
(** * The blocking RPC client

    [RpcSyncChannel] (src/rpc_channel.cc) with its codec on a descriptor, byte by
    byte, and the composition with a server's channel: a call is sent, served and
    answered before it returns. The service is that of the RPC demo
    (example/rpc_demo/time_service/server_main.cc). *)

From Stdlib Require Import Strings.String.
From stdpp Require Import prelude gmap list strings.
From coqutil Require Import Byte.
From S2P Require Import Prelude.
From S2P Require Import IoBuffer.
From S2P Require Import Framing.
From S2P Require Import ConnApi.
From S2P Require Import RpcCodec.
From S2P Require Import RpcChannel.
From S2P Require Import RpcStack.

(** ** The channel *)

Section channel.
Context {S : Type} `{!Service S, !HostOrder, !Wire RpcMessage}.

(** [sc_logged] are the errors logged. *)
Record SyncChannel := mkSyncChannel {
  socket_fd_ : Z;
  io_buffer_ : IoBuffer;
  sc_channel : Channel S;
  sc_logged : list string;
}.

(** What the kernel says during a call: whether [CheckSocketStatusValid] holds
    before sending, before receiving and in the error callback, and the answers
    of [send] and [recv]. *)
Record Kernel := mkKernel {
  valid_send : bool;
  sends_ : list Z;
  valid_receive : bool;
  receives_ : list recv_answer;
  valid_error : bool;
}.

(** [RpcSyncChannel::OnRpcMessage]: other messages than responses are logged. *)
Definition sync_OnRpcMessage (m : RpcMessage) (e : Channel S * list string) : Channel S * list string :=
  (OnRpcMessage_sync m e.1,
   match type m with RESPONSE => e.2 | _ => e.2 ++ ["Rpc message type is not RESPONSE"%string] end).

#[export] Instance sync_callbacks (k : Kernel) : CodecCallbacks RpcMessage (Channel S * list string) := {|
  RawCallback_ := None;
  MessageCallback_ := sync_OnRpcMessage;
  ErrCallback_ code e := (e.1, SyncDefaultErrorCallback (valid_error k) code e.2);
|}.

(** [RpcSyncChannel::OnMessage]; [None] while it waits. *)
Definition sync_OnMessage (k : Kernel) (s : SyncChannel) : result (option SyncChannel) :=
  r ← OnMessage_sync (CodecCallbacks0 := sync_callbacks k) kRpcTag (valid_receive k) false (receives_ k)
        (io_buffer_ s) (sc_channel s, sc_logged s);
  Ok (option_map (fun r : IoBuffer * (Channel S * list string) =>
        mkSyncChannel (socket_fd_ s) r.1 r.2.1 r.2.2) r).

(** [RpcSyncChannel::CallMethod]: the bytes written and the channel afterwards;
    [None] when it does not return. *)
Definition sync_CallMethod (k : Kernel) (svc meth : string) (req : list byte) (resp done : option Z)
    (s : SyncChannel) : result (option (list byte * SyncChannel)) :=
  let '(m, ch) := begin_call svc meth req resp done (sc_channel s) in
  if socket_fd_ s <? 0 then Ok (Some ([], mkSyncChannel (socket_fd_ s) (io_buffer_ s) ch (sc_logged s)))
  else
    sent ← RpcCodec.Send_sync kRpcTag (valid_send k) (sends_ k) m;
    match sent with
    | None => Ok None
    | Some bytes =>
        r ← sync_OnMessage k (mkSyncChannel (socket_fd_ s) (io_buffer_ s) (emit [EvSend m] ch) (sc_logged s));
        Ok (option_map (pair bytes) r)
    end.
End channel.
Arguments SyncChannel : clear implicits.

(** ** The service of the demo *)

(** [TimeServiceImpl::GetTime]; [ctime] is what [std::ctime] answers ([None]: a
    null pointer, of which no string can be made). *)
Definition GetTime (ctime : option (list byte)) : result (list byte) :=
  match ctime with
  | None => Fault NullPointer
  | Some current_time =>
      let last := zlen current_time - 1 in
      cut ← mem_write current_time last [Byte.x00];
      Ok (ztake last cut)
  end.

(** ** One call *)

Section facts.
Context {C S : Type} `{!ConnApi C, !ConnSpec C, !Service S, !HostOrder, !Wire RpcMessage, !WireOk RpcMessage}.
Abbreviation EP := (Endpoint C S).
Abbreviation wire_frame := (RpcCodec.frame kRpcTag).
Abbreviation msg_fits := (RpcCodec.fits kRpcTag).

(** Between calls the input buffer is empty. *)
Record resting (s : SyncChannel S) : Prop := {
  rs_fd : 0 <= socket_fd_ s;
  rs_wf : IoBuffer.wf (io_buffer_ s);
  rs_index : reading_index_ (io_buffer_ s) = kReservedCapacity;
  rs_empty : readable (io_buffer_ s) = [];
}.

(** A server's part of one call: the request in any pieces, the answer. *)
Lemma serve_one n services ic bytes pieces (server : EP) :
  msg_fits (request_of ic) -> msg_fits (response_of (ic.1, bytes)) -> 0 <= n ->
  servable services ic.2 -> s64 ic.1 = ic.1 -> services_ (ep_channel server) = Some services ->
  ready (n + zlen (wire_frame (response_of (ic.1, bytes)))) server -> mjoin pieces = wire_frame (request_of ic) ->
  exists server1 server2,
    outcome ep_OnMessage pieces [] server [] server1 /\
    log (ep_channel server1) = log (ep_channel server) ++ dispatched services ic /\
    ep_DoneCallback bytes ic.1 server1 = Ok server2 /\
    c_accepted (ep_conn server2) = c_accepted (ep_conn server) ++ wire_frame (response_of (ic.1, bytes)) /\
    services_ (ep_channel server2) = Some services /\ ready n server2.
Proof using ConnSpec0 WireOk0.
  intros Hq Ha Hn Hcan Hid Hserv Hr Hp.
  assert (zlen (wire_frame (request_of ic)) < 2 ^ 31) as Hup.
  { rewrite zlen_frame. unfold msg_fits, kMaxMessageLength, kHeaderLength in *. lia. }
  pose proof (fold_requests services [ic] (ep_channel server) Hserv ltac:(by apply Forall_singleton)) as Hlog.
  cbn [fmap list_fmap] in Hlog.
  assert (services_ (OnRpcMessage (request_of ic) (ep_channel server)) = Some services) as Hs1.
  { unfold OnRpcMessage. simpl. by destruct (route _ _). }
  destruct (ep_receives_quietly [request_of ic] pieces ([ic] ≫= dispatched services) server)
    with (n := n + zlen (wire_frame (response_of (ic.1, bytes))))
    as (server1 & Hrecv & Hr1 & Ha1 & Hc1 & _); try done.
  - apply Forall_singleton. exact Hq.
  - unfold frames. simpl. by rewrite app_nil_r.
  - unfold frames. simpl. by rewrite app_nil_r.
  - apply sends_dispatched.
  - pose proof (zlen_nonneg (wire_frame (response_of (ic.1, bytes)))). lia.
  - destruct (perform_ok n (answer (ic.1, bytes)) [EvSend (response_of (ic.1, bytes))] server1)
      as (server2 & Hd & Hr2 & Ha2 & Hc2 & _); try done.
    + apply Forall_singleton. exact Ha.
    + cbn [sends mbind list_bind app]. unfold frames. cbn [fmap list_fmap mjoin list_join].
      by rewrite app_nil_r.
    + exists server1, server2. split; [done|]. split; [rewrite Hc1, Hlog; simpl; by rewrite app_nil_r|].
      split; [exact Hd|]. split; [|split; [|done]].
      * rewrite Ha2, Ha1. cbn [sends mbind list_bind app]. unfold frames. simpl. by rewrite app_nil_r.
      * rewrite Hc2. simpl. by rewrite Hc1.
Qed.

(** The client's part, when the kernel takes and gives bytes as it likes. *)
Lemma sync_call_ok c bytes d ns chunks1 chunks2 rest v (client : SyncChannel S) :
  let id := s64 (id_ (sc_channel client) + 1) in
  resting client -> msg_fits (request_of (id, c)) -> msg_fits (response_of (id, bytes)) ->
  Forall (fun n => 0 < n) ns -> total ns = zlen (wire_frame (request_of (id, c))) ->
  Forall (fun c => 0 < zlen c) chunks1 -> Forall (fun c => 0 < zlen c) chunks2 ->
  concat chunks1 = ztake 12 (wire_frame (response_of (id, bytes))) ->
  concat chunks2 = zdrop 12 (wire_frame (response_of (id, bytes))) ->
  exists client',
    sync_CallMethod (mkKernel true ns true (map RecvBytes chunks1 ++ map RecvBytes chunks2 ++ rest) v)
      (svc c) (meth c) (req c) (Some (resp c)) d client
    = Ok (Some (wire_frame (request_of (id, c)), client')) /\
    log (sc_channel client') = log (sc_channel client) ++ [EvSend (request_of (id, c)); EvParse (resp c) bytes]
      ++ (match d with Some d => [EvRun d] | None => [] end) /\
    outstanding_calls_ (sc_channel client') = delete id (outstanding_calls_ (sc_channel client)) /\
    sc_logged client' = sc_logged client /\ resting client'.
Proof using WireOk0.
  intros id [Hfd Hwf Hri Hem] Hq Ha Hns Ht Hc1 Hc2 H1 H2. unfold sync_CallMethod.
  unfold begin_call. cbn [sends_ valid_send]. rewrite (proj2 (Z.ltb_ge _ _)) by done.
  change (mkRpcMessage REQUEST _ _ _ _ None None) with (request_of (id, c)). fold id.
  destruct (FillEmptyBuffer_frame kRpcTag ltac:(done) (request_of (id, c))) as (b & Hfill & Hbwf & Hb).
  { unfold msg_fits, kMaxMessageLength in Hq. lia. }
  unfold RpcCodec.Send_sync. cbn [negb]. rewrite Hfill. cbn [mbind result_bind].
  rewrite readable_bytes_zlen, send_loop_all by (done || congruence). rewrite Hb.
  unfold sync_OnMessage. cbn [valid_receive receives_ io_buffer_ sc_channel sc_logged socket_fd_].
  set (k := mkKernel _ _ _ _ _). set (ch := emit _ _).
  destruct (sync_receives (CodecCallbacks0 := sync_callbacks k) kRpcTag ltac:(done) (response_of (id, bytes))
    chunks1 chunks2 rest (io_buffer_ client) (ch, sc_logged client)) as (b' & Hon & Hwf' & Hri' & Hem'); try done.
  rewrite Hon. cbn [mbind result_bind option_map fst snd]. eexists. split; [done|].
  cbn [sc_channel sc_logged MessageCallback_ sync_callbacks sync_OnRpcMessage fst snd].
  unfold OnRpcMessage_sync, OnResponse. cbn [response_of type].
  change (RpcChannel.id (response_of (id, bytes))) with (u64 id).
  change (response (response_of (id, bytes))) with (Some bytes).
  assert (s64 (u64 id) = id) as Hid by apply s64_u64_s64. rewrite Hid.
  assert (outstanding_calls_ ch = <[id := mkOutstandingCall (Some (resp c)) d]> (outstanding_calls_ (sc_channel client)))
    as Hout by done.
  rewrite Hout, lookup_insert_eq. cbn [response_message_ DoneCallback_ set_outstanding outstanding_calls_ log emit].
  split; [|split; [|by split]].
  - unfold ch. cbn [log emit]. rewrite <-app_assoc. f_equal. by destruct d.
  - by rewrite delete_insert_eq.
Qed.

(** C7. A blocking RPC call from end to end, over bytes: however the kernel cuts
    the request when it is sent and read and the answer when it comes back, the
    server hands the request once to the method of its service, and the call
    returns with its response filled and its closure run, nothing left waiting
    and the channel ready for the next call. *)
Theorem rpc_sync_end_to_end c bytes d ns chunks1 chunks2 rest v n client (server : EP) services :
  let id := s64 (id_ (sc_channel client) + 1) in
  let answer := wire_frame (response_of (id, bytes)) in
  resting client -> services_ (ep_channel server) = Some services -> servable services c ->
  msg_fits (request_of (id, c)) -> msg_fits (response_of (id, bytes)) -> 0 <= n -> ready (n + zlen answer) server ->
  Forall (fun n => 0 < n) ns -> total ns = zlen (wire_frame (request_of (id, c))) ->
  Forall (fun c => 0 < zlen c) chunks1 -> Forall (fun c => 0 < zlen c) chunks2 ->
  concat chunks1 = ztake 12 answer -> concat chunks2 = zdrop 12 answer ->
  exists sent client',
    sync_CallMethod (mkKernel true ns true (map RecvBytes chunks1 ++ map RecvBytes chunks2 ++ rest) v)
      (svc c) (meth c) (req c) (Some (resp c)) d client = Ok (Some (sent, client')) /\
    (forall pieces, mjoin pieces = sent -> exists server1 server2,
      outcome ep_OnMessage pieces [] server [] server1 /\
      log (ep_channel server1) = log (ep_channel server) ++ dispatched services (id, c) /\
      ep_DoneCallback bytes id server1 = Ok server2 /\
      c_accepted (ep_conn server2) = c_accepted (ep_conn server) ++ concat (chunks1 ++ chunks2) /\
      services_ (ep_channel server2) = Some services /\ ready n server2) /\
    log (sc_channel client') = log (sc_channel client) ++ [EvSend (request_of (id, c)); EvParse (resp c) bytes]
      ++ (match d with Some d => [EvRun d] | None => [] end) /\
    outstanding_calls_ (sc_channel client') = delete id (outstanding_calls_ (sc_channel client)) /\
    sc_logged client' = sc_logged client /\ resting client'.
Proof using ConnSpec0 WireOk0.
  intros id answer Hrest Hserv Hcan Hq Ha Hn Hr Hns Ht Hc1 Hc2 H1 H2.
  destruct (sync_call_ok c bytes d ns chunks1 chunks2 rest v client Hrest Hq Ha Hns Ht Hc1 Hc2 H1 H2)
    as (client' & Hcall & Hlog & Hout & Hlg & Hrest').
  exists (wire_frame (request_of (id, c))), client'. split; [exact Hcall|]. split; [|done]. intros pieces Hp.
  assert (s64 id = id) as Hid.
  { pose proof (s64_add (id_ (sc_channel client) + 1) 0) as Hs. by rewrite !Z.add_0_r in Hs. }
  destruct (serve_one n services (id, c) bytes pieces server Hq Ha Hn Hcan Hid Hserv Hr Hp)
    as (s1 & s2 & Ho & Hl & Hd & Hac & Hs2 & Hr2).
  exists s1, s2. split; [done|]. split; [done|]. split; [done|]. split; [|done].
  rewrite Hac, concat_app, H1, H2, ztake_zdrop. done.
Qed.
End facts.

(** The text of [std::ctime] comes without its line break. *)
Lemma GetTime_text t : GetTime (Some (t ++ [Byte.x0a])) = Ok t.
Proof.
  unfold GetTime. rewrite zlen_app. change (zlen [Byte.x0a]) with 1. pose proof (zlen_nonneg t).
  replace (zlen t + 1 - 1) with (zlen t) by lia. unfold mem_write.
  rewrite zlen_app. change (zlen [Byte.x0a]) with 1. change (zlen [Byte.x00]) with 1.
  repeat (rewrite (proj2 (Z.leb_le _ _)) by lia). cbn [andb mbind result_bind].
  by rewrite !ztake_app_exact.
Qed.

(** ** The demo *)

Module Concrete.
Import ConnApi.Concrete.
#[local] Existing Instance x86_host.
#[local] Existing Instance RpcStack.Concrete.rpc_wire.
#[local] Existing Instance RpcStack.Concrete.rpc_wire_ok.

Inductive time := TimeService.

#[local] Instance time_service : Service time := {|
  service_name _ := "TimeService"%string;
  FindMethodByName _ name := bool_decide (name = "GetTime"%string);
  ParseRequest _ _ bytes := true;
|}.

(** Client "1234", the response object 1, no closure. *)
Definition get_time : Call := mkCall "TimeService" "GetTime" [Byte.x31; Byte.x32; Byte.x33; Byte.x34] 1 0.
Definition noon : list byte := [Byte.x31; Byte.x32; Byte.x3a; Byte.x30; Byte.x30].
Definition stub : SyncChannel time :=
  mkSyncChannel 3 (IoBuffer_new kInitialCapacity) (RpcAsyncChannel_new 0) [].
Definition time_server : Endpoint Conn time :=
  mkEndpoint (opened 6) (SetServices (RegisterService TimeService ∅) (RpcAsyncChannel_new 0)) [].

Definition answer_frame : list byte := RpcCodec.frame kRpcTag (response_of (1, noon)).
Definition request_size : Z := zlen (RpcCodec.frame kRpcTag (request_of (1, get_time))).

(** The request is taken in two steps, the answer comes in three. *)
Definition three_chunks : list (list byte) := [ztake 5 answer_frame; zslice 5 7 answer_frame].

Lemma rpc_sync_end_to_end_witness :
  exists sent client',
    sync_CallMethod (mkKernel true [10; request_size - 10] true
        (map RecvBytes three_chunks ++ map RecvBytes [zdrop 12 answer_frame] ++ []) true)
      "TimeService" "GetTime" (req get_time) (Some 1) None stub = Ok (Some (sent, client')) /\
    log (sc_channel client') = [EvSend (request_of (1, get_time)); EvParse 1 noon] /\ resting client'.
Proof.
  destruct (rpc_sync_end_to_end get_time noon None [10; request_size - 10] three_chunks [zdrop 12 answer_frame] []
    true 0 stub time_server (RegisterService TimeService ∅)) as (sent & client' & Hcall & _ & Hlog & _ & _ & Hrest).
  - split; [vm_compute; discriminate|apply IoBuffer_new_wf; vm_compute; split; discriminate|reflexivity|reflexivity].
  - reflexivity.
  - exists TimeService. vm_compute. done.
  - vm_compute. discriminate.
  - vm_compute. discriminate.
  - lia.
  - split; [apply opened_state|]. apply opened_room. vm_compute. split; [discriminate|reflexivity].
  - repeat constructor.
  - vm_compute. reflexivity.
  - repeat constructor.
  - repeat constructor.
  - vm_compute. reflexivity.
  - vm_compute. reflexivity.
  - exists sent, client'. split; [exact Hcall|]. split; [exact Hlog|exact Hrest].
Defined.
End Concrete.
