(* ===== verification/SimpleServers.v ===== *)
(** * The small servers

    Model of the message callbacks of example/simple_echo/echo.cc,
    example/simple_discard/discard.cc, example/simple_time/time.cc and
    example/pingpong/pingpong_server.cc, of the default callbacks of
    src/server.cc, and of the vector of event managers all servers of the
    examples build and delete. Connections are reached through [ConnApi]. *)

From Stdlib Require Import Strings.String.
From stdpp Require Import prelude gmap list.
From coqutil Require Import Byte Word.LittleEndianList.
From S2P Require Import Prelude.
From S2P Require Import Text.
From S2P Require Import IoBuffer.
From S2P Require Import ConnApi.
From S2P Require Import Http.
From S2P Require Import HttpFacts.

(** ** Event managers *)

Module Managers.
(** [event_managers_(io_thread_amount, new EventManager)]: the manager is
    created once, at [p]. *)
Definition shared (io_thread_amount : nat) (p : Z) : list Z := replicate io_thread_amount p.

(** The destructor's loop over [event_managers_]; [live] are the managers that
    exist. *)
Fixpoint delete_all (ems : list Z) (live : gset Z) : result (gset Z) :=
  match ems with
  | [] => Ok live
  | p :: ems => if bool_decide (p ∈ live) then delete_all ems (live ∖ {[p]}) else Fault OutOfBounds
  end.
End Managers.

(** ** Message callbacks *)

Section callbacks.
Context {C : Type} `{!ConnApi C}.

(** [EchoServer::OnMessageCallback]. *)
Definition Echo_OnMessage (b : IoBuffer) (c : C) : result (IoBuffer * C) :=
  '(message, b) ← RetrieveAllAsString b;
  c ← c_Send message c;
  Ok (b, c).

(** [DiscardServer::OnMessageCallback]; [out] is what it printed. *)
Definition Discard_OnMessage (b : IoBuffer) (out : list byte) (c : C) : result (IoBuffer * list byte * C) :=
  '(message, b) ← RetrieveAllAsString b;
  c ← c_Send [] c;
  Ok (b, out ++ c_str message, c).

(** [PingpongServer::OnMessageCallback]: [Send] of the input buffer, which comes
    out empty. *)
Definition Pingpong_OnMessage (b : IoBuffer) (c : C) : result (IoBuffer * C) :=
  message ← mem_read (buffer_ b) (GetReadablePosition b) (GetReadableBytes b);
  c ← c_Send message c;
  Ok (RefreshRW b, c).

(** [PingpongServer::OnConnectionCallback]; [set_nodelay] is
    [Connecting::SetTcpNoDelay]. *)
Definition Pingpong_OnConnection (set_nodelay : bool -> C -> C) (c : C) : C :=
  if c_IsConnected c then set_nodelay true c else c.

(** [Server::DefaultOnMessageCallback]. *)
Definition DefaultOnMessageCallback (b : IoBuffer) (c : C) : IoBuffer * C := (RefreshRW b, c).
End callbacks.

(** ** The time server *)

Module Time.
(** The date of a day after 1970-01-01, as [gmtime_r] computes it: years start in
    March, eras have 400 years. *)
Definition civil_of_doe (doe : Z) : Z * Z * Z :=
  let yoe := (doe - doe / 1460 + doe / 36524 - doe / 146096) / 365 in
  let doy := doe - (365 * yoe + yoe / 4 - yoe / 100) in
  let mp := (5 * doy + 2) / 153 in
  let d := doy - (153 * mp + 2) / 5 + 1 in
  let m := if mp <? 10 then mp + 3 else mp - 9 in
  ((if m <=? 2 then yoe + 1 else yoe), m, d).

Record tm := mkTm {
  tm_year : Z; tm_mon : Z; tm_mday : Z; tm_hour : Z; tm_min : Z; tm_sec : Z;
}.

Definition gmtime_r (seconds : Z) : tm :=
  let days := seconds / 86400 in
  let sod := seconds mod 86400 in
  let z := days + 719468 in
  let '(y, m, d) := civil_of_doe (z mod 146097) in
  mkTm (y + 400 * (z / 146097) - 1900) (m - 1) d (sod / 3600) (sod / 60 mod 60) (sod mod 60).

(** [%0wd] and [%wd] for numbers that are not negative. *)
Definition pad (fill : byte) (w : Z) (t : text) : text := replicate (Z.to_nat (w - zlen t)) fill ++ t.
Definition zero_dec (w n : Z) : text := pad Byte.x30 w (dec n).

Definition time_text (now_time : Z) : text :=
  let t := gmtime_r (Z.quot now_time (1000 * 1000)) in
  snprintf 64 (pad Byte.x20 4 (dec (tm_year t + 1900)) ++ zero_dec 2 (tm_mon t + 1) ++ zero_dec 2 (tm_mday t)
    ++ txt " " ++ zero_dec 2 (tm_hour t) ++ txt ":" ++ zero_dec 2 (tm_min t) ++ txt ":"
    ++ zero_dec 2 (tm_sec t) ++ txt "." ++ zero_dec 6 (Z.rem now_time (1000 * 1000))).

(** [TimeServer::OnMessageCallback]; the text the log gets is left out. *)
Definition OnMessage {C} `{!ConnApi C} (now_time : Z) (b : IoBuffer) (c : C) : result (IoBuffer * C) :=
  '(_, b) ← RetrieveAllAsString b;
  c ← c_Send (time_text now_time ++ [Byte.x0a]) c;
  Ok (b, c).
End Time.

(** ** Properties of the callbacks *)

Section echo.
Context {C : Type} `{!ConnApi C, !ConnSpec C}.

(** The pieces of a stream that arrive one after the other, each in a buffer
    filled by a read; what the server's callback does with each. *)
Fixpoint serve (on : IoBuffer -> C -> result (IoBuffer * C)) (bs : list IoBuffer) (c : C) : result C :=
  match bs with [] => Ok c | b :: bs => '(_, c) ← on b c; serve on bs c end.

Definition echoes (on : IoBuffer -> C -> result (IoBuffer * C)) : Prop :=
  forall n b c, wf b -> c_IsConnected c = true -> 0 <= n -> c_room (n + zlen (readable b)) c ->
    exists b' c', on b c = Ok (b', c') /\ readable b' = [] /\ c_accepted c' = c_accepted c ++ readable b /\
      c_IsConnected c' = true /\ c_room n c'.

Lemma Echo_echoes : echoes Echo_OnMessage.
Proof.
  intros n b c Hwf Hco Hn Hr. unfold Echo_OnMessage.
  destruct (RetrieveAllAsString_ok b Hwf) as (b1 & -> & _ & Hb1 & _). cbn [mbind result_bind].
  destruct (send_connected n (readable b) c Hco Hn Hr) as (c1 & -> & Hac & Hco1 & _ & Hr1). eauto 10.
Qed.

Lemma Pingpong_echoes : echoes Pingpong_OnMessage.
Proof.
  intros n b c Hwf Hco Hn Hr. unfold Pingpong_OnMessage, GetReadablePosition.
  rewrite readable_read_all by done. cbn [mbind result_bind].
  destruct (send_connected n (readable b) c Hco Hn Hr) as (c1 & -> & Hac & Hco1 & _ & Hr1).
  eexists _, c1. split; [done|]. split; [|auto]. unfold readable, RefreshRW. simpl. by rewrite Z.sub_diag.
Qed.

Lemma serve_echoes on bs n c :
  echoes on -> Forall wf bs -> c_IsConnected c = true -> 0 <= n ->
  c_room (n + zlen (mjoin (readable <$> bs))) c ->
  exists c', serve on bs c = Ok c' /\ c_accepted c' = c_accepted c ++ mjoin (readable <$> bs).
Proof.
  intros He Hwf. revert c. induction Hwf as [|b bs Hb Hbs IH]; intros c Hco Hn Hr.
  { exists c. by rewrite app_nil_r. }
  change (mjoin (readable <$> b :: bs)) with (readable b ++ mjoin (readable <$> bs)) in *.
  rewrite zlen_app, (Z.add_comm (zlen (readable b))), Z.add_assoc in Hr.
  set (rest := mjoin (readable <$> bs)) in *. pose proof (zlen_nonneg rest).
  destruct (He (n + zlen rest) b c Hb Hco ltac:(lia) Hr)
    as (b' & c1 & Hon & _ & Hac & Hco1 & Hr1).
  destruct (IH c1 Hco1 Hn Hr1) as (c2 & Hs & Hac2). exists c2. cbn [serve]. rewrite Hon.
  cbn [mbind result_bind]. split; [done|]. by rewrite Hac2, Hac, app_assoc.
Qed.

(** The echo server and the ping-pong server return the stream they get:
    however it is cut into reads, the bytes sent are the bytes received, in
    order. *)
Theorem echo_stream bs c :
  Forall wf bs -> c_IsConnected c = true -> c_room (zlen (mjoin (readable <$> bs))) c ->
  (exists c', serve Echo_OnMessage bs c = Ok c' /\ c_accepted c' = c_accepted c ++ mjoin (readable <$> bs)) /\
  (exists c', serve Pingpong_OnMessage bs c = Ok c' /\ c_accepted c' = c_accepted c ++ mjoin (readable <$> bs)).
Proof.
  intros Hwf Hco Hr. split.
  - apply (serve_echoes _ bs 0); [apply Echo_echoes | done | done | lia | done].
  - apply (serve_echoes _ bs 0); [apply Pingpong_echoes | done | done | lia | done].
Qed.

(** The discard server consumes its input, prints it up to the first zero byte
    and sends nothing. *)
Lemma discard_outcome b out c :
  wf b -> c_IsConnected c = true -> c_room 0 c ->
  exists b' c', Discard_OnMessage b out c = Ok (b', out ++ c_str (readable b), c') /\ readable b' = [] /\
    c_accepted c' = c_accepted c.
Proof.
  intros Hwf Hco Hr. unfold Discard_OnMessage.
  destruct (RetrieveAllAsString_ok b Hwf) as (b1 & -> & _ & Hb1 & _). cbn [mbind result_bind].
  destruct (send_connected 0 [] c Hco ltac:(lia) Hr) as (c1 & -> & Hac & _).
  rewrite app_nil_r in Hac. eauto.
Qed.
End echo.

(** ** Deleting the managers *)

(** A vector of different managers is deleted, each once. *)
Lemma delete_separate ems live :
  NoDup ems -> list_to_set ems ⊆ live -> Managers.delete_all ems live = Ok (live ∖ list_to_set ems).
Proof.
  intros Hnd. revert live. induction Hnd as [|p ems Hp Hnd IH]; intros live Hsub; simpl.
  { f_equal. set_solver. }
  rewrite bool_decide_true by set_solver. rewrite IH by set_solver. f_equal. set_solver.
Qed.

(** The vector the echo, discard, time, chat and HTTP servers build holds one
    manager several times: with two or more threads it is deleted twice. *)
Lemma delete_shared n p live :
  (2 <= n)%nat -> p ∈ live -> Managers.delete_all (Managers.shared n p) live = Fault OutOfBounds.
Proof.
  intros Hn Hp. destruct n as [|[|n]]; [lia | lia|]. unfold Managers.shared. simpl.
  rewrite bool_decide_true by done. rewrite bool_decide_false by set_solver. done.
Qed.

(** ** The text of the time server reads back *)

Module TimeFacts.
Import Time.

(** The day number of a date of the proleptic Gregorian calendar. *)
Definition days_of_civil (y m d : Z) : Z :=
  let y' := if m <=? 2 then y - 1 else y in
  let yoe := y' mod 400 in
  let doy := (153 * (if 2 <? m then m - 3 else m + 9) + 2) / 5 + d - 1 in
  y' / 400 * 146097 + (yoe * 365 + yoe / 4 - yoe / 100 + doy) - 719468.

Lemma doe_bounds doe :
  0 <= doe < 146097 ->
  let yoe := (doe - doe / 1460 + doe / 36524 - doe / 146096) / 365 in
  let doy := doe - (365 * yoe + yoe / 4 - yoe / 100) in
  0 <= yoe < 400 /\ 0 <= doy <= 365.
Proof. intros Hdoe yoe doy. subst yoe doy. Z.to_euclidean_division_equations. lia. Qed.

Lemma doy_bounds doy :
  0 <= doy <= 365 ->
  let mp := (5 * doy + 2) / 153 in
  let d := doy - (153 * mp + 2) / 5 + 1 in
  0 <= mp <= 11 /\ 1 <= d <= 31.
Proof. intros Hdoy mp d. subst mp d. Z.to_euclidean_division_equations. lia. Qed.

(** Dates and day numbers correspond. *)
Lemma civil_days z y m d :
  civil_of_doe (z mod 146097) = (y, m, d) ->
  days_of_civil (y + 400 * (z / 146097)) m d = z - 719468 /\ 1 <= m <= 12 /\ 1 <= d <= 31 /\ 0 <= y <= 400.
Proof.
  unfold civil_of_doe. pose proof (Z.mod_pos_bound z 146097 ltac:(lia)) as Hdoe.
  destruct (doe_bounds _ Hdoe) as [Hyoe Hdoy]. cbv zeta in *.
  set (yoe := (z mod 146097 - _ + _ - _) / 365) in *.
  set (doy := z mod 146097 - (365 * yoe + yoe / 4 - yoe / 100)) in *.
  destruct (doy_bounds doy Hdoy) as [Hmp Hd]. cbv zeta in *.
  set (mp := (5 * doy + 2) / 153) in *. intros [= <- <- <-].
  set (m := if mp <? 10 then mp + 3 else mp - 9).
  assert (1 <= m <= 12 /\ (if 2 <? m then m - 3 else m + 9) = mp) as [Hm Hmp'] by (unfold m; repeat case_cmp; lia).
  split; [|repeat case_cmp; lia]. unfold days_of_civil. cbv zeta. rewrite Hmp'.
  assert ((if m <=? 2 then (if m <=? 2 then yoe + 1 else yoe) + 400 * (z / 146097) - 1
           else (if m <=? 2 then yoe + 1 else yoe) + 400 * (z / 146097)) = yoe + z / 146097 * 400) as ->
    by (destruct (m <=? 2); lia).
  rewrite Z.mod_add, Z.div_add, (Z.mod_small yoe), (Z.div_small yoe) by lia.
  pose proof (Z.div_mod z 146097 ltac:(lia)). unfold doy. lia.
Qed.

(** *** Fixed-width numbers *)

Lemma dec_value_zeros k t : dec_value (replicate k Byte.x30 ++ t) = dec_value t.
Proof.
  unfold dec_value. rewrite foldl_app. f_equal. induction k as [|k IH]; [done|]. exact IH.
Qed.

Lemma zero_dec_ok k n :
  0 <= n < 10 ^ Z.of_nat (S k) -> (S k <= 20)%nat ->
  zlen (zero_dec (Z.of_nat (S k)) n) = Z.of_nat (S k) /\ dec_value (zero_dec (Z.of_nat (S k)) n) = n.
Proof.
  intros Hn Hk. pose proof (zlen_dec k n Hn) as Hl. unfold zero_dec, pad. split.
  - rewrite zlen_app, zlen_replicate by lia. lia.
  - rewrite dec_value_zeros. apply dec_value_dec. split; [lia|].
    apply (Z.lt_le_trans _ _ _ (proj2 Hn)). apply (Z.pow_le_mono_r 10); lia.
Qed.

Lemma dec_loop_long fuel k n :
  10 ^ Z.of_nat k <= n -> (k < fuel)%nat -> (k < length (dec_loop fuel n))%nat.
Proof.
  revert k n. induction fuel as [|fuel IH]; intros k n Hn Hk; [lia|]. cbn [dec_loop].
  destruct k as [|k].
  - destruct (n <? 10); [simpl; lia|]. rewrite length_app. simpl. lia.
  - rewrite Nat2Z.inj_succ, Z.pow_succ_r in Hn by lia.
    assert (0 < 10 ^ Z.of_nat k) by (apply Z.pow_pos_nonneg; lia).
    rewrite (proj2 (Z.ltb_ge _ _)) by lia. rewrite length_app. simpl.
    assert (k < length (dec_loop fuel (n / 10)))%nat; [|lia].
    apply IH; [|lia]. apply Z.div_le_lower_bound; lia.
Qed.

Lemma year_text y :
  1000 <= y < 10000 -> zlen (pad Byte.x20 4 (dec y)) = 4 /\ dec_value (pad Byte.x20 4 (dec y)) = y.
Proof.
  intros Hy. pose proof (zlen_dec 3 y ltac:(simpl; lia)) as Hl.
  assert (zlen (dec y) = 4) as H4.
  { unfold dec in *. rewrite (proj2 (Z.ltb_ge _ _)) in * by lia.
    pose proof (dec_loop_long 20 3 y ltac:(simpl; lia) ltac:(lia)). unfold zlen in *. lia. }
  unfold pad. rewrite H4. simpl. split; [done|]. apply dec_value_dec. lia.
Qed.

(** *** Reading the text *)

(** A number of [w] characters and the [skip] characters behind it. *)
Definition read_num (w skip : Z) (t : text) : Z * text := (dec_value (ztake w t), zdrop (w + skip) t).

Definition read_time (t : text) : Z :=
  let '(y, t) := read_num 4 0 t in let '(m, t) := read_num 2 0 t in let '(d, t) := read_num 2 1 t in
  let '(h, t) := read_num 2 1 t in let '(mi, t) := read_num 2 1 t in let '(s, t) := read_num 2 1 t in
  let '(us, t) := read_num 6 0 t in
  (days_of_civil y m d * 86400 + h * 3600 + mi * 60 + s) * 1000000 + us.

Lemma read_num_sep w k p sep rest :
  zlen p = w -> zlen sep = k -> read_num w k (p ++ sep ++ rest) = (dec_value p, rest).
Proof.
  intros <- <-. unfold read_num. rewrite ztake_app_exact. f_equal.
  rewrite <- (zdrop_zdrop (zlen sep)) by apply zlen_nonneg. by rewrite !zdrop_app_exact.
Qed.

Lemma read_num_next w p rest : zlen p = w -> read_num w 0 (p ++ rest) = (dec_value p, rest).
Proof. intros Hp. exact (read_num_sep w 0 p [] rest Hp eq_refl). Qed.

(** Four digits are enough until the end of the year 9999. *)
Lemma year_bounds y m d :
  1 <= m <= 12 -> 1 <= d <= 31 -> 0 <= days_of_civil y m d < 2932897 -> 1000 <= y < 10000.
Proof.
  intros Hm Hd. unfold days_of_civil. cbv zeta.
  destruct (Z.leb_spec m 2), (Z.ltb_spec 2 m); try lia; Z.to_euclidean_division_equations; lia.
Qed.

Lemma gmtime_fields now :
  0 <= now < 253402300800000000 ->
  let t := gmtime_r (Z.quot now 1000000) in
  1000 <= tm_year t + 1900 < 10000 /\ 1 <= tm_mon t + 1 <= 12 /\ 1 <= tm_mday t <= 31 /\
  0 <= tm_hour t < 24 /\ 0 <= tm_min t < 60 /\ 0 <= tm_sec t < 60 /\ 0 <= Z.rem now 1000000 < 1000000 /\
  (days_of_civil (tm_year t + 1900) (tm_mon t + 1) (tm_mday t) * 86400 + tm_hour t * 3600
   + tm_min t * 60 + tm_sec t) * 1000000 + Z.rem now 1000000 = now.
Proof.
  intros Hnow. unfold gmtime_r. rewrite Z.quot_div_nonneg, Z.rem_mod_nonneg by lia. cbv zeta.
  set (s := now / 1000000). assert (0 <= s < 253402300800) as Hs
    by (unfold s; split; [apply Z.div_pos; lia | apply Z.div_lt_upper_bound; lia]).
  assert (0 <= s / 86400 < 2932897) as Hdays by (split; [apply Z.div_pos; lia | apply Z.div_lt_upper_bound; lia]).
  destruct (civil_of_doe ((s / 86400 + 719468) mod 146097)) as [[y m] d] eqn:Hc.
  destruct (civil_days _ y m d Hc) as (Hz & Hm & Hd & _).
  replace (s / 86400 + 719468 - 719468) with (s / 86400) in Hz by lia.
  cbn [tm_year tm_mon tm_mday tm_hour tm_min tm_sec].
  set (Y := y + 400 * ((s / 86400 + 719468) / 146097)) in *.
  replace (Y - 1900 + 1900) with Y by lia. replace (m - 1 + 1) with m by lia.
  assert (1000 <= Y < 10000) as HY by (apply (year_bounds Y m d); lia).
  rewrite Hz. pose proof (Z.mod_pos_bound s 86400 ltac:(lia)). pose proof (Z.mod_pos_bound now 1000000 ltac:(lia)).
  split_and!; try lia; unfold s in *; Z.to_euclidean_division_equations; lia.
Qed.

(** The text the time server sends reads back as the time it was made from,
    to the microsecond, for every time until the end of the year 9999, and is
    never cut by the buffer of 64 bytes. *)
Theorem time_text_roundtrip now :
  0 <= now < 253402300800000000 -> read_time (time_text now) = now /\ zlen (time_text now) = 24.
Proof.
  intros Hnow. destruct (gmtime_fields now Hnow) as (Hy & Hm & Hd & Hh & Hmi & Hs & Hus & Heq).
  unfold time_text. change (1000 * 1000) with 1000000. set (t := gmtime_r (Z.quot now 1000000)) in *.
  destruct (year_text (tm_year t + 1900) Hy) as [Ly Vy].
  destruct (zero_dec_ok 1 (tm_mon t + 1) ltac:(change (10 ^ _) with 100; lia) ltac:(lia)) as [Lm Vm].
  destruct (zero_dec_ok 1 (tm_mday t) ltac:(change (10 ^ _) with 100; lia) ltac:(lia)) as [Ld Vd].
  destruct (zero_dec_ok 1 (tm_hour t) ltac:(change (10 ^ _) with 100; lia) ltac:(lia)) as [Lh Vh].
  destruct (zero_dec_ok 1 (tm_min t) ltac:(change (10 ^ _) with 100; lia) ltac:(lia)) as [Lmi Vmi].
  destruct (zero_dec_ok 1 (tm_sec t) ltac:(change (10 ^ _) with 100; lia) ltac:(lia)) as [Ls Vs].
  destruct (zero_dec_ok 5 (Z.rem now 1000000) ltac:(change (10 ^ _) with 1000000; lia) ltac:(lia)) as [Lus Vus].
  change (Z.of_nat 2) with 2 in *. change (Z.of_nat 6) with 6 in *.
  set (py := pad _ _ _) in *. set (pm := zero_dec 2 (tm_mon t + 1)) in *. set (pd := zero_dec 2 (tm_mday t)) in *.
  set (ph := zero_dec 2 (tm_hour t)) in *. set (pmi := zero_dec 2 (tm_min t)) in *.
  set (ps := zero_dec 2 (tm_sec t)) in *. set (pus := zero_dec 6 _) in *.
  set (whole := py ++ _). assert (zlen whole = 24) as Lw.
  { unfold whole. rewrite !zlen_app, Ly, Lm, Ld, Lh, Lmi, Ls, Lus.
    change (zlen (txt " ")) with 1. change (zlen (txt ":")) with 1. change (zlen (txt ".")) with 1. lia. }
  rewrite snprintf_fits by lia. split; [|done]. unfold whole, read_time. clear whole Lw.
  rewrite (read_num_next 4 py _ Ly), (read_num_next 2 pm _ Lm), (read_num_sep 2 1 pd (txt " ") _ Ld),
    (read_num_sep 2 1 ph (txt ":") _ Lh), (read_num_sep 2 1 pmi (txt ":") _ Lmi),
    (read_num_sep 2 1 ps (txt ".") _ Ls) by done.
  rewrite <- (app_nil_r pus), (read_num_next 6 pus [] Lus). congruence.
Qed.
End TimeFacts.

(** ** Evaluations *)

Module Concrete.
Import ConnApi.Concrete.

Lemma echo_stream_witness :
  (exists c', serve Echo_OnMessage [holding (txt "ab"); holding (txt "c")] (opened 5) = Ok c' /\
     c_accepted c' = c_accepted (opened 5)
       ++ mjoin (readable <$> [holding (txt "ab"); holding (txt "c")])) /\
  (exists c', serve Pingpong_OnMessage [holding (txt "ab"); holding (txt "c")] (opened 5) = Ok c' /\
     c_accepted c' = c_accepted (opened 5)
       ++ mjoin (readable <$> [holding (txt "ab"); holding (txt "c")])).
Proof.
  apply (echo_stream [holding (txt "ab"); holding (txt "c")] (opened 5)).
  - repeat (constructor; [by apply holding_ok|]). constructor.
  - apply opened_state.
  - apply opened_room. vm_compute. split; [discriminate | reflexivity].
Defined.

Lemma time_text_roundtrip_witness :
  TimeFacts.read_time (Time.time_text 1650967200123456) = 1650967200123456 /\
  zlen (Time.time_text 1650967200123456) = 24.
Proof. apply (TimeFacts.time_text_roundtrip 1650967200123456). lia. Defined.

Lemma time_text_example : Time.time_text 1650967200123456 = txt "20220426 10:00:00.123456".
Proof. vm_compute. reflexivity. Qed.
End Concrete.
