(* ===== verification/Pingpong.v ===== *)
(** * The ping-pong benchmark

    Model of [PingpongClient] and [Session] (example/pingpong/pingpong_client.cc).
    The event managers are represented by what the client asks of them; the
    callbacks of the sessions and the timer, which the managers run, are events
    in any order. [Exchange] puts one session and the server's callback
    ([SimpleServers.Pingpong_OnMessage]) at the two ends of a connection. *)

From stdpp Require Import prelude gmap list.
From coqutil Require Import Byte Word.LittleEndianList.
From S2P Require Import Prelude.
From S2P Require Import IoBuffer.
From S2P Require Import Balancer.
From S2P Require Import ConnApi.
From S2P Require Import SimpleServers.

(** What was asked of an event manager: [Loop], [Quit], [WakeUp], [Join], and the
    delays given to [RunAfter]. *)
Record Manager := mkManager {
  m_looping : bool;
  m_quit : bool;
  m_woken : bool;
  m_joined : bool;
  m_after : list Z;
}.
Definition Manager_new : Manager := mkManager false false false false [].
Definition m_Loop (m : Manager) : Manager := mkManager true (m_quit m) (m_woken m) (m_joined m) (m_after m).
Definition m_Quit (m : Manager) : Manager := mkManager (m_looping m) true true (m_joined m) (m_after m).
Definition m_WakeUp (m : Manager) : Manager := mkManager (m_looping m) (m_quit m) true (m_joined m) (m_after m).
Definition m_Join (m : Manager) : Manager := mkManager (m_looping m) (m_quit m) (m_woken m) true (m_after m).
Definition m_RunAfter (delay : Z) (m : Manager) : Manager :=
  mkManager (m_looping m) (m_quit m) (m_woken m) (m_joined m) (m_after m ++ [delay]).

(** ** Sessions *)

Record Session (C : Type) := mkSession {
  s_manager : Z;
  s_connecting : bool;
  s_stopped : bool;
  s_conn : option C;
  bytes_read_ : Z;
  messages_read_ : Z;
}.
Arguments mkSession {_}.
Arguments s_manager {_}.
Arguments s_connecting {_}.
Arguments s_stopped {_}.
Arguments s_conn {_}.
Arguments bytes_read_ {_}.
Arguments messages_read_ {_}.

(** ** The client *)

(** [printed] are the totals of bytes and messages the client printed. *)
Record PingpongClient (C : Type) := mkClient {
  event_managers_ : list (option Manager);
  session_count_ : Z;
  timeout_ : Z;
  sessions_ : list (Session C);
  message_ : list byte;
  conn_num_ : Z;
  stats_reported_ : bool;
  quit_requested_ : bool;
  balancer_ : Balancer;
  printed : list (Z * Z);
}.
Arguments mkClient {_}.
Arguments event_managers_ {_}.
Arguments session_count_ {_}.
Arguments timeout_ {_}.
Arguments sessions_ {_}.
Arguments message_ {_}.
Arguments conn_num_ {_}.
Arguments stats_reported_ {_}.
Arguments quit_requested_ {_}.
Arguments balancer_ {_}.
Arguments printed {_}.

Section client.
Context {C : Type} `{!ConnApi C}.
Abbreviation Client := (PingpongClient C).
Abbreviation Session := (Session C).

Definition set_managers (ems : list (option Manager)) (c : Client) : Client :=
  mkClient ems (session_count_ c) (timeout_ c) (sessions_ c) (message_ c) (conn_num_ c)
    (stats_reported_ c) (quit_requested_ c) (balancer_ c) (printed c).
Definition set_sessions (ss : list Session) (c : Client) : Client :=
  mkClient (event_managers_ c) (session_count_ c) (timeout_ c) ss (message_ c) (conn_num_ c)
    (stats_reported_ c) (quit_requested_ c) (balancer_ c) (printed c).
Definition set_balancer (b : Balancer) (c : Client) : Client :=
  mkClient (event_managers_ c) (session_count_ c) (timeout_ c) (sessions_ c) (message_ c) (conn_num_ c)
    (stats_reported_ c) (quit_requested_ c) b (printed c).
Definition set_conn_num (n : Z) (c : Client) : Client :=
  mkClient (event_managers_ c) (session_count_ c) (timeout_ c) (sessions_ c) (message_ c) n
    (stats_reported_ c) (quit_requested_ c) (balancer_ c) (printed c).

(** The block: the characters [i % 128] for [i] from 1. *)
Definition block (block_size : Z) : list byte := (fun i => byte.of_Z (i mod 128)) <$> seqZ 1 block_size.

(** The vector gets [thread_count] null pointers and one more; its element 1 is
    written even when there is none. *)
Definition PingpongClient_new (block_size session_count timeout : Z) (thread_count : nat) : result Client :=
  let ems : list (option Manager) := replicate thread_count None ++ [None] in
  if (length ems <=? 1)%nat then Fault OutOfBounds
  else
    let ems := <[1%nat := Some Manager_new]> ems in
    let ems := foldl (fun ems i => <[i := Some (m_Loop Manager_new)]> ems) ems (seq 2 (thread_count - 1)) in
    Ok (mkClient ems session_count timeout [] (block block_size) 0 false false (Balancer_new 0) []).

(** [event_managers_[i]->f()]. *)
Definition on_manager (i : nat) (f : Manager -> Manager) (c : Client) : result Client :=
  match event_managers_ c !! i with
  | Some (Some m) => Ok (set_managers (<[i := Some (f m)]> (event_managers_ c)) c)
  | Some None => Fault NullPointer
  | None => Fault OutOfBounds
  end.

(** [if (event_managers_[i]) event_managers_[i]->f()] for all [i] from [from]. *)
Definition on_managers (from : nat) (f : Manager -> Manager) (c : Client) : Client :=
  set_managers (take from (event_managers_ c) ++ (option_map f <$> drop from (event_managers_ c))) c.

(** The loop of [Start] that makes the sessions; a session's manager must exist. *)
Fixpoint start_sessions (n : nat) (c : Client) : result Client :=
  match n with
  | O => Ok c
  | S n =>
      '(i, b) ← PickOneEventManager (replicate (length (event_managers_ c)) 0) (balancer_ c);
      match event_managers_ c !! Z.to_nat i with
      | Some (Some _) =>
          start_sessions n
            (set_sessions (sessions_ c ++ [mkSession i true false None 0 0]) (set_balancer b c))
      | _ => Fault NullPointer
      end
  end.

(** [Start] up to [event_managers_[1]->Work()], which runs the loop, and behind
    it. *)
Definition Start_before (c : Client) : result Client :=
  c ← on_manager 1 (m_RunAfter (s32 (s32 (timeout_ c * 1000) * 1000))) c;
  start_sessions (Z.to_nat (session_count_ c)) c.
Definition Start_after (c : Client) : Client :=
  on_managers 2 m_Join (on_managers 2 (fun m => m_WakeUp (m_Quit m)) c).

(** [~PingpongClient]: the sessions go first, every manager from 1 on is asked to
    quit, then they are deleted from the last to the first. *)
Definition PingpongClient_delete (c : Client) : result Client :=
  if bool_decide (Exists (fun m : option Manager => m = None) (drop 1 (event_managers_ c))) then Fault NullPointer
  else Ok (set_managers (take 1 (event_managers_ c) ++ ((fun _ => None) <$> drop 1 (event_managers_ c)))
             (set_sessions [] c)).

Definition total_bytes (c : Client) : Z := foldl (fun acc s => s64 (acc + bytes_read_ s)) 0 (sessions_ c).
Definition total_messages (c : Client) : Z := foldl (fun acc s => s64 (acc + messages_read_ s)) 0 (sessions_ c).

Definition ReportStatsOnce (c : Client) : Client :=
  if stats_reported_ c then c
  else mkClient (event_managers_ c) (session_count_ c) (timeout_ c) (sessions_ c) (message_ c) (conn_num_ c)
         true (quit_requested_ c) (balancer_ c) (printed c ++ [(total_bytes c, total_messages c)]).

Definition RequestQuit (c : Client) : Client :=
  if quit_requested_ c then c
  else on_managers 1 (fun m => m_WakeUp (m_Quit m))
         (mkClient (event_managers_ c) (session_count_ c) (timeout_ c) (sessions_ c) (message_ c) (conn_num_ c)
            (stats_reported_ c) true (balancer_ c) (printed c)).

(** The message logged when all sessions are connected is left out. *)
Definition OnConnecting (c : Client) : Client := set_conn_num (conn_num_ c +u 1) c.

Definition OnDisconnecting (c : Client) : Client :=
  let n := conn_num_ c in
  let c := set_conn_num (n -u 1) c in
  if (n -u 1) =? 0 then RequestQuit (ReportStatsOnce c) else c.

Definition DoWithTimeout (c : Client) : Client :=
  let c := ReportStatsOnce c in
  let c := set_sessions
    ((fun s => mkSession (s_manager s) (s_connecting s) true (s_conn s) (bytes_read_ s) (messages_read_ s))
       <$> sessions_ c) c in
  RequestQuit c.

(** [Session::OnConnectionCallback] of session [i] with its connection [k];
    taking the address of the first element of an empty vector is undefined. *)
Definition with_session (i : nat) (f : Session -> Client -> result Client) (c : Client) : result Client :=
  match sessions_ c !! i with Some s => f s c | None => Fault OutOfBounds end.

Definition Session_OnConnection (i : nat) (k : C) : Client -> result Client :=
  with_session i (fun s c =>
    if c_IsConnected k then
      if bool_decide (message_ c = []) then Fault OutOfBounds
      else
        k ← c_Send (message_ c) k;
        Ok (OnConnecting (set_sessions (<[i := mkSession (s_manager s) (s_connecting s) (s_stopped s) (Some k)
                                                 (bytes_read_ s) (messages_read_ s)]> (sessions_ c)) c))
    else
      Ok (OnDisconnecting (set_sessions (<[i := mkSession (s_manager s) (s_connecting s) (s_stopped s) None
                                                 (bytes_read_ s) (messages_read_ s)]> (sessions_ c)) c))).

(** The counters and the answer of [Session::OnMessageCallback]. *)
Definition Session_OnMessage (b : IoBuffer) (s : Session) (k : C) : result (IoBuffer * Session * C) :=
  let readable := GetReadableBytes b in
  message ← mem_read (buffer_ b) (GetReadablePosition b) readable;
  k ← c_Send message k;
  Ok (RefreshRW b, mkSession (s_manager s) (s_connecting s) (s_stopped s) (Some k)
                     (s64 (bytes_read_ s + readable)) (s64 (messages_read_ s + 1)), k).

(** ** Events *)

Inductive event :=
| EConnection (i : nat) (k : C)
| EMessage (i : nat) (b : IoBuffer)
| ETimeout.

Definition handle (e : event) (c : Client) : result Client :=
  match e with
  | EConnection i k => Session_OnConnection i k c
  | EMessage i b =>
      with_session i (fun s c =>
        match s_conn s with
        | Some k => '(_, s, _) ← Session_OnMessage b s k; Ok (set_sessions (<[i := s]> (sessions_ c)) c)
        | None => Ok c
        end) c
  | ETimeout => Ok (DoWithTimeout c)
  end.

Fixpoint handle_all (es : list event) (c : Client) : result Client :=
  match es with [] => Ok c | e :: es => c ← handle e c; handle_all es c end.
End client.

(** ** Reporting and quitting happen once *)

Section once.
Context {C : Type} `{!ConnApi C, !ConnSpec C}.
Abbreviation Client := (PingpongClient C).
Abbreviation Session := (Session C).

Definition is_open (s : Session) : Z := match s_conn s with Some _ => 1 | None => 0 end.
Definition open_sessions (ss : list Session) : Z := foldr (fun s n => is_open s + n) 0 ss.

Lemma is_open_range s : 0 <= is_open s <= 1.
Proof. unfold is_open. destruct (s_conn s); lia. Qed.

Lemma open_sessions_range ss : 0 <= open_sessions ss <= zlen ss.
Proof.
  induction ss as [|s ss IH]; [done|]. rewrite zlen_cons. simpl. pose proof (is_open_range s). lia.
Qed.

Lemma open_sessions_insert ss i s s' :
  ss !! i = Some s -> open_sessions (<[i := s']> ss) = open_sessions ss - is_open s + is_open s'.
Proof.
  revert i. induction ss as [|t ss IH]; intros [|i] Hi; simplify_eq/=; [lia|]. rewrite IH by done. lia.
Qed.

Definition quit_all (c : Client) : Prop :=
  Forall (fun em => match em with Some m => m_quit m = true /\ m_woken m = true | None => True end)
    (drop 1 (event_managers_ c)).

Record client_ok (c : Client) : Prop := {
  ok_printed : if stats_reported_ c then exists t, printed c = [t] else printed c = [];
  ok_quit : quit_requested_ c = true -> quit_all c;
  ok_open : conn_num_ c = open_sessions (sessions_ c);
  ok_few : zlen (sessions_ c) < 2 ^ 63;
}.

Lemma client_ok_sessions c ss :
  client_ok c -> open_sessions ss = open_sessions (sessions_ c) -> length ss = length (sessions_ c) ->
  client_ok (set_sessions ss c).
Proof.
  intros [Hp Hq Ho Hf] Hs Hl. constructor; simpl; [done | done | by rewrite Hs | unfold zlen in *; by rewrite Hl].
Qed.

Lemma ReportStatsOnce_ok c :
  client_ok c -> client_ok (ReportStatsOnce c) /\ stats_reported_ (ReportStatsOnce c) = true.
Proof.
  intros [Hp Hq Ho Hf]. unfold ReportStatsOnce. destruct (stats_reported_ c) eqn:Hs.
  - split; [|done]. constructor; try done. by rewrite Hs.
  - split; [|done]. constructor; simpl; try done. rewrite Hp. eauto.
Qed.

Lemma RequestQuit_ok c :
  client_ok c -> client_ok (RequestQuit c) /\ quit_requested_ (RequestQuit c) = true /\
  stats_reported_ (RequestQuit c) = stats_reported_ c.
Proof.
  intros Hok. unfold RequestQuit. destruct (quit_requested_ c) eqn:Hs; [done|].
  destruct Hok as [Hp Hq Ho Hf].
  split; [|done]. constructor; simpl; try done. intros _. unfold quit_all. simpl.
  assert (drop 1 (take 1 (event_managers_ c) ++ (option_map (fun m => m_WakeUp (m_Quit m)) <$> drop 1 (event_managers_ c)))
          = option_map (fun m => m_WakeUp (m_Quit m)) <$> drop 1 (event_managers_ c)) as ->
    by (destruct (event_managers_ c); done).
  apply Forall_fmap, Forall_true. by intros [m|].
Qed.

(** Once requested, quitting and reporting stay so. *)
Definition monotone (c c' : Client) : Prop :=
  (stats_reported_ c = true -> stats_reported_ c' = true /\ printed c' = printed c) /\
  (quit_requested_ c = true -> quit_requested_ c' = true).

Lemma monotone_trans c1 c2 c3 : monotone c1 c2 -> monotone c2 c3 -> monotone c1 c3.
Proof.
  intros [Ha Hb] [Hc Hd]. split; [|auto]. intros H1. destruct (Ha H1) as [H2 E2].
  destruct (Hc H2) as [H3 E3]. split; [done|congruence].
Qed.

Lemma ReportStatsOnce_monotone c : monotone c (ReportStatsOnce c).
Proof. unfold ReportStatsOnce. split; [by intros Hs; rewrite Hs | by destruct (stats_reported_ c)]. Qed.

Lemma RequestQuit_monotone c : monotone c (RequestQuit c).
Proof. unfold RequestQuit. split; [by destruct (quit_requested_ c) | by intros Hq; rewrite Hq]. Qed.

Lemma finish_ok c :
  client_ok c ->
  let c' := RequestQuit (ReportStatsOnce c) in
  client_ok c' /\ stats_reported_ c' = true /\ quit_requested_ c' = true /\ monotone c c'.
Proof.
  intros Hok. destruct (ReportStatsOnce_ok c Hok) as [Hok1 Hs1].
  destruct (RequestQuit_ok _ Hok1) as (Hok2 & Hq2 & Hs2). split; [done|]. split; [congruence|].
  split; [done|]. eapply monotone_trans; [apply ReportStatsOnce_monotone | apply RequestQuit_monotone].
Qed.

(** ** Events that can happen *)

(** A session is told of its connection when it is established and, later, when
    it is closed; reads have the room they need. *)
Definition legal (e : event) (c : Client) : Prop :=
  match e with
  | EConnection i k => exists s, sessions_ c !! i = Some s /\
      if c_IsConnected k then s_conn s = None /\ message_ c <> [] /\ c_room (zlen (message_ c)) k
      else is_Some (s_conn s)
  | EMessage i b => exists s k, sessions_ c !! i = Some s /\ s_conn s = Some k /\ wf b /\
      c_IsConnected k = true /\ c_room (zlen (readable b)) k
  | ETimeout => True
  end.

Fixpoint legal_all (es : list event) (c : Client) : Prop :=
  match es with
  | [] => True
  | e :: es => legal e c /\ match handle e c with Ok c => legal_all es c | Fault _ => True end
  end.

Definition finished (c : Client) : Prop := stats_reported_ c = true /\ quit_requested_ c = true.

Lemma handle_connected i k c s :
  client_ok c -> sessions_ c !! i = Some s -> c_IsConnected k = true -> s_conn s = None ->
  message_ c <> [] -> c_room (zlen (message_ c)) k ->
  exists c', handle (EConnection i k) c = Ok c' /\ client_ok c' /\ monotone c c'.
Proof.
  intros Hok Hi Hk Hs Hm Hr. simpl. unfold Session_OnConnection, with_session. rewrite Hi, Hk.
  rewrite bool_decide_false by done. rewrite <- (Z.add_0_l (zlen _)) in Hr.
  destruct (send_connected 0 _ k Hk ltac:(lia) Hr) as (k' & -> & _). cbn [mbind result_bind].
  eexists. split; [done|]. split; [|done]. destruct Hok as [Hp Hq Ho Hf].
  pose proof (open_sessions_range (sessions_ c)) as Hrange.
  constructor; simpl; try done; [|unfold zlen in *; by rewrite length_insert].
  rewrite (open_sessions_insert _ i s) by done. unfold is_open. rewrite Hs. simpl.
  rewrite Ho, u64_small by lia. lia.
Qed.

Lemma handle_disconnected i k c s :
  client_ok c -> sessions_ c !! i = Some s -> c_IsConnected k = false -> is_Some (s_conn s) ->
  exists c', handle (EConnection i k) c = Ok c' /\ client_ok c' /\ monotone c c' /\
    (open_sessions (sessions_ c) = 1 -> finished c').
Proof.
  intros Hok Hi Hk [k0 Hs]. simpl. unfold Session_OnConnection, with_session. rewrite Hi, Hk.
  eexists. split; [done|]. unfold OnDisconnecting. cbn [conn_num_ set_sessions].
  set (ss := <[i := _]> (sessions_ c)).
  pose proof (ok_open _ Hok) as Ho. pose proof (open_sessions_range (sessions_ c)) as Hrange.
  pose proof (ok_few _ Hok) as Hfew. pose proof (open_sessions_range ss) as Hrange'.
  assert (open_sessions ss = open_sessions (sessions_ c) - 1) as Hss.
  { unfold ss. rewrite (open_sessions_insert _ i s) by done. unfold is_open. rewrite Hs. simpl. lia. }
  assert (client_ok (set_conn_num (conn_num_ c -u 1) (set_sessions ss c))) as Hok1.
  { destruct Hok as [Hp Hq _ Hf]. constructor; simpl; try done.
    - rewrite Hss, Ho, u64_small by lia. done.
    - unfold ss, zlen in *. by rewrite length_insert. }
  rewrite u64_small in * by lia. destruct (Z.eqb_spec (conn_num_ c - 1) 0) as [H0|H0].
  - destruct (finish_ok _ Hok1) as (Hok2 & Hst & Hq & Hmono). split; [done|]. split; [exact Hmono|].
    by intros _.
  - split; [done|]. split; [done|]. lia.
Qed.

Lemma handle_message i b c s k :
  client_ok c -> sessions_ c !! i = Some s -> s_conn s = Some k -> wf b -> c_IsConnected k = true ->
  c_room (zlen (readable b)) k ->
  exists c', handle (EMessage i b) c = Ok c' /\ client_ok c' /\ monotone c c'.
Proof.
  intros Hok Hi Hs Hwf Hk Hr. simpl. unfold with_session. rewrite Hi, Hs. unfold Session_OnMessage.
  unfold GetReadablePosition. rewrite readable_read_all by done. cbn [mbind result_bind].
  rewrite <- (Z.add_0_l (zlen _)) in Hr.
  destruct (send_connected 0 _ k Hk ltac:(lia) Hr) as (k' & -> & _). cbn [mbind result_bind].
  eexists. split; [done|]. split; [|done]. apply client_ok_sessions; [done | | by rewrite length_insert].
  rewrite (open_sessions_insert _ i s) by done. unfold is_open. rewrite Hs. simpl. lia.
Qed.

Lemma handle_timeout c : client_ok c -> client_ok (DoWithTimeout c) /\ monotone c (DoWithTimeout c) /\
  finished (DoWithTimeout c).
Proof.
  intros Hok. unfold DoWithTimeout. destruct (ReportStatsOnce_ok c Hok) as [Hok1 Hs1].
  set (c1 := ReportStatsOnce c) in *. set (stop := fun s : Session => mkSession _ _ true _ _ _).
  assert (client_ok (set_sessions (stop <$> sessions_ c1) c1)) as Hok2.
  { apply client_ok_sessions; [done | | by rewrite length_fmap].
    unfold open_sessions. rewrite foldr_fmap. done. }
  destruct (RequestQuit_ok _ Hok2) as (Hok3 & Hq3 & Hs3). split; [done|]. split.
  - eapply monotone_trans; [apply ReportStatsOnce_monotone|]. fold c1.
    pose proof (RequestQuit_monotone (set_sessions (stop <$> sessions_ c1) c1)) as Hm. exact Hm.
  - split; [|done]. rewrite Hs3. exact Hs1.
Qed.

Lemma pingpong_handle_ok e c :
  client_ok c -> legal e c ->
  exists c', handle e c = Ok c' /\ client_ok c' /\ monotone c c' /\ (e = ETimeout -> finished c').
Proof.
  intros Hok Hl. destruct e as [i k|i b|].
  - destruct Hl as (s & Hi & Hl). destruct (c_IsConnected k) eqn:Hk.
    + destruct Hl as (Hs & Hm & Hr).
      destruct (handle_connected i k c s Hok Hi Hk Hs Hm Hr) as (c' & ? & ? & ?). by exists c'.
    + destruct (handle_disconnected i k c s Hok Hi Hk Hl) as (c' & ? & ? & ? & _). by exists c'.
  - destruct Hl as (s & k & Hi & Hs & Hwf & Hk & Hr).
    destruct (handle_message i b c s k Hok Hi Hs Hwf Hk Hr) as (c' & ? & ? & ?). by exists c'.
  - destruct (handle_timeout c Hok) as (? & ? & ?). by exists (DoWithTimeout c).
Qed.

Lemma monotone_finished c c' : monotone c c' -> finished c -> finished c'.
Proof. intros [Ha Hb] [Hs Hq]. split; [by apply Ha | by apply Hb]. Qed.

(** The benchmark's client under any order of its callbacks: no callback
    faults, the connection counter is the number of open sessions, the results
    are printed at most once and exactly once as soon as they are reported,
    every event manager is told to quit once that was requested, and after the
    time-out both have happened. *)
Theorem pingpong_reports_once es c :
  client_ok c -> legal_all es c ->
  exists c', handle_all es c = Ok c' /\ client_ok c' /\ monotone c c' /\ (ETimeout ∈ es -> finished c').
Proof.
  revert c. induction es as [|e es IH]; intros c Hok Hl.
  { exists c. split; [done|]. split; [done|]. split; [done|]. by intros ?%elem_of_nil. }
  destruct Hl as [Hl Hrest]. destruct (pingpong_handle_ok e c Hok Hl) as (c1 & Hrun & Hok1 & Hm1 & Ht).
  cbn [handle_all]. rewrite Hrun in *. cbn [mbind result_bind].
  destruct (IH c1 Hok1 Hrest) as (c2 & Hrun2 & Hok2 & Hm2 & Ht2). exists c2. split; [done|].
  split; [done|]. split; [by eapply monotone_trans|].
  intros [He|Hin]%elem_of_cons; [|by apply Ht2]. eapply monotone_finished; [done|]. by apply Ht.
Qed.
End once.

(** ** Starting *)

Section starting.
Context {C : Type} `{!ConnApi C, !ConnSpec C}.
Abbreviation Client := (PingpongClient C).

(** Element 0 is null, all others are managers. *)
Definition managers_ok (n : nat) (ems : list (option Manager)) : Prop :=
  length ems = S n /\ forall i, (1 <= i <= n)%nat -> exists m, ems !! i = Some (Some m).

Lemma fill_lookup (v : option Manager) (l : list nat) (ems : list (option Manager)) i :
  (i < length ems)%nat ->
  foldl (fun ems i => <[i := v]> ems) ems l !! i = if bool_decide (i ∈ l) then Some v else ems !! i.
Proof.
  revert ems. induction l as [|j l IH]; intros ems Hi; simpl; [done|].
  rewrite IH by (by rewrite length_insert). destruct (decide (i = j)) as [->|Hne].
  - rewrite list_lookup_insert_eq by done. rewrite (bool_decide_true (j ∈ j :: l)) by by left.
    by destruct (bool_decide _).
  - rewrite list_lookup_insert_ne by done.
    rewrite (bool_decide_ext (i ∈ j :: l) (i ∈ l)); [done|]. rewrite elem_of_cons. tauto.
Qed.

Lemma fill_length (v : option Manager) (l : list nat) (ems : list (option Manager)) :
  length (foldl (fun ems i => <[i := v]> ems) ems l) = length ems.
Proof. revert ems. induction l as [|j l IH]; intros ems; simpl; [done|]. by rewrite IH, length_insert. Qed.

Lemma PingpongClient_new_ok bs sc timeout n :
  (1 <= n)%nat ->
  exists c : Client, PingpongClient_new bs sc timeout n = Ok c /\ managers_ok n (event_managers_ c) /\
    session_count_ c = sc /\ timeout_ c = timeout /\ sessions_ c = [] /\ message_ c = block bs /\ conn_num_ c = 0 /\
    stats_reported_ c = false /\ quit_requested_ c = false /\ balancer_ c = mkBalancer 0 0 /\ printed c = [].
Proof.
  intros Hn. unfold PingpongClient_new. cbv zeta. rewrite length_app, length_replicate. simpl (length [_]).
  rewrite (proj2 (Nat.leb_gt (n + 1) 1)) by lia. eexists. split; [done|]. split; [|done]. simpl.
  set (ems0 := <[1%nat := Some Manager_new]> (replicate n None ++ [None])).
  assert (length ems0 = S n) as Hl by (unfold ems0; rewrite length_insert, length_app, length_replicate; simpl; lia).
  split; [by rewrite fill_length|]. intros i Hi. rewrite fill_lookup by lia.
  destruct (bool_decide_reflect (i ∈ seq 2 (n - 1))) as [Hin|Hni]; [by eexists|].
  rewrite elem_of_seq in Hni. assert (i = 1%nat) as -> by lia. exists Manager_new.
  unfold ems0. apply list_lookup_insert_eq. rewrite length_app, length_replicate. simpl. lia.
Qed.

(** The destructor finds every manager and leaves none. *)
Lemma PingpongClient_delete_ok n (c : Client) :
  managers_ok n (event_managers_ c) ->
  exists c', PingpongClient_delete c = Ok c' /\ sessions_ c' = [] /\
    forall i m, (1 <= i)%nat -> event_managers_ c' !! i = Some m -> m = None.
Proof.
  intros [Hlen Hall]. unfold PingpongClient_delete. rewrite bool_decide_false.
  - eexists. split; [done|]. split; [done|]. intros i m Hi. simpl. rewrite lookup_app_r.
    + by intros (? & -> & _)%list_lookup_fmap_Some.
    + rewrite length_take. lia.
  - intros (m & Hm & ->)%Exists_exists. apply list_elem_of_lookup in Hm as [i Hi].
    rewrite lookup_drop in Hi. destruct (Hall (1 + i)%nat) as [m Hm]; [|congruence].
    apply lookup_lt_Some in Hi. lia.
Qed.

(** The manager of every session is one of the managers that exist. *)
Definition placed (n : nat) (c : Client) : Prop :=
  Forall (fun s => 1 <= s_manager s <= Z.of_nat n /\ s_conn s = None) (sessions_ c).

Lemma next_io_range n c : 1 <= n -> 0 <= c -> 1 <= next_io (n + 1) c <= n.
Proof. intros Hn Hc. unfold next_io. case_cmp; lia. Qed.

Lemma start_sessions_ok n k c cur :
  (1 <= n)%nat -> Z.of_nat (S n) < 2 ^ 64 -> managers_ok n (event_managers_ c) ->
  balancer_ c = mkBalancer 0 cur -> 0 <= cur <= Z.of_nat n -> placed n c ->
  exists c', start_sessions k c = Ok c' /\ placed n c' /\ event_managers_ c' = event_managers_ c /\
    length (sessions_ c') = (length (sessions_ c) + k)%nat /\ message_ c' = message_ c /\
    conn_num_ c' = conn_num_ c /\ stats_reported_ c' = stats_reported_ c /\
    quit_requested_ c' = quit_requested_ c /\ printed c' = printed c.
Proof.
  intros Hn Hmax. revert c cur. induction k as [|k IH]; intros c cur Hems Hb Hcur Hpl.
  { exists c. split; [done|]. split; [done|]. split; [done|]. split; [lia|done]. }
  destruct Hems as [Hlen Hget]. cbn [start_sessions]. rewrite Hlen, Hb.
  assert (zlen (replicate (S n) 0) = Z.of_nat n + 1) as Hz by (unfold zlen; rewrite length_replicate; lia).
  change (mkBalancer 0 cur) with (mkBalancer kRoundRobin cur).
  rewrite pick_round_robin by lia. rewrite Hz. cbn [mbind result_bind].
  pose proof (next_io_range (Z.of_nat n) cur ltac:(lia) ltac:(lia)) as Hio.
  set (i := next_io (Z.of_nat n + 1) cur) in *.
  destruct (Hget (Z.to_nat i) ltac:(lia)) as [m ->].
  destruct (IH (set_sessions (sessions_ c ++ [mkSession i true false None 0 0])
    (set_balancer (mkBalancer kRoundRobin i) c)) i) as (c' & Hrun & Hpl' & He & Hl & Hrest).
  - done.
  - done.
  - lia.
  - apply Forall_app. split; [done|]. constructor; [|constructor]. simpl. split; [lia|done].
  - exists c'. split; [done|]. split; [done|]. split; [done|]. split; [|done].
    rewrite Hl. simpl. rewrite length_app. simpl. lia.
Qed.

Lemma placed_open n c : placed n c -> open_sessions (sessions_ c) = 0.
Proof.
  unfold placed. induction 1 as [|s ss [_ Hs] Hss IH]; [done|]. simpl. rewrite IH. unfold is_open. by rewrite Hs.
Qed.

(** Starting the client with at least one thread: construction and [Start]
    reach the event loop without a fault, with the requested number of sessions,
    each on an event manager that exists (never the null one at index 0), and
    in a state from which the callbacks behave. *)
Theorem pingpong_starts bs sc timeout n :
  (1 <= n)%nat -> Z.of_nat n < 2 ^ 62 -> 0 <= sc < 2 ^ 62 ->
  exists (c0 c : Client), PingpongClient_new bs sc timeout n = Ok c0 /\ Start_before c0 = Ok c /\
    zlen (sessions_ c) = sc /\ Forall (fun s => 1 <= s_manager s <= Z.of_nat n) (sessions_ c) /\
    message_ c = block bs /\ client_ok c.
Proof.
  intros Hn Hmax Hsc.
  destruct (PingpongClient_new_ok bs sc timeout n Hn)
    as (c0 & Hnew & Hems & Hs & Ht & Hss & Hm & Hcn & Hst & Hq & Hb & Hpr).
  exists c0. unfold Start_before, on_manager. destruct (proj2 Hems 1%nat ltac:(lia)) as [m1 Hm1].
  rewrite Hm1. cbn [mbind result_bind]. set (c1 := set_managers _ c0).
  destruct (start_sessions_ok n (Z.to_nat (session_count_ c1)) c1 0) as (c & Hrun & Hpl & _ & Hl & Hrest).
  - done.
  - lia.
  - unfold c1. simpl. destruct Hems as [Hlen Hget]. split; [by rewrite length_insert|]. intros i Hi.
    destruct (decide (i = 1%nat)) as [->|Hne].
    + rewrite list_lookup_insert_eq by lia. by eexists.
    + rewrite list_lookup_insert_ne by done. by apply Hget.
  - exact Hb.
  - lia.
  - unfold placed, c1. simpl. by rewrite Hss.
  - exists c. split; [done|]. split; [exact Hrun|]. destruct Hrest as (Hm' & Hcn' & Hst' & Hq' & Hpr').
    assert (length (sessions_ c) = Z.to_nat sc) as Hlen by (rewrite Hl; simpl; rewrite Hss, Hs; done).
    split; [unfold zlen; rewrite Hlen; lia|].
    split; [eapply Forall_impl; [exact Hpl | by intros s [? _]]|]. split; [rewrite Hm'; exact Hm|].
    constructor.
    + rewrite Hst'. simpl. by rewrite Hst, Hpr'.
    + rewrite Hq'. simpl. by rewrite Hq.
    + rewrite Hcn', (placed_open n c Hpl). exact Hcn.
    + unfold zlen. rewrite Hlen. lia.
Qed.
End starting.

(** ** One session and the server *)

Module Exchange.
Section exchange.
Context {C : Type} `{!ConnApi C, !ConnSpec C}.

(** The two ends of a connection, each with its input buffer, and what each side
    has read of the bytes the other one sent. *)
Record State := mkState {
  cl : C;
  cl_in : IoBuffer;
  sess : Session C;
  cl_read : Z;
  sv : C;
  sv_in : IoBuffer;
  sv_read : Z;
}.

(** A completed read appends the bytes to what is still in the input buffer, as
    [Transport.take_input_arrives] shows of [Connecting]. *)
Definition received (bs : list byte) (b b' : IoBuffer) : Prop := wf b' /\ readable b' = readable b ++ bs.

(** Between the reads the kernel takes bytes out of the output buffers. *)
Definition drained (c c' : C) : Prop := c_accepted c' = c_accepted c /\ c_IsConnected c' = c_IsConnected c.

(** A read hands over the next [k] bytes; the callback leaves its input buffer to
    the next read. *)
Inductive step : State -> State -> Prop :=
| step_server x b k b' sv' :
    0 < k -> sv_read x + k <= zlen (c_accepted (cl x)) ->
    received (zslice (sv_read x) k (c_accepted (cl x))) (sv_in x) b -> c_room (zlen (readable b)) (sv x) ->
    Pingpong_OnMessage b (sv x) = Ok (b', sv') ->
    step x (mkState (cl x) (cl_in x) (sess x) (cl_read x) sv' b' (sv_read x + k))
| step_client x b k b' s' cl' :
    0 < k -> cl_read x + k <= zlen (c_accepted (sv x)) ->
    received (zslice (cl_read x) k (c_accepted (sv x))) (cl_in x) b -> c_room (zlen (readable b)) (cl x) ->
    Session_OnMessage b (sess x) (cl x) = Ok (b', s', cl') ->
    step x (mkState cl' b' s' (cl_read x + k) (sv x) (sv_in x) (sv_read x))
| step_drain x cl' sv' :
    drained (cl x) cl' -> drained (sv x) sv' ->
    step x (mkState cl' (cl_in x) (sess x) (cl_read x) sv' (sv_in x) (sv_read x)).

Inductive steps : State -> State -> Prop :=
| steps_refl x : steps x x
| steps_step x y z : steps x y -> step y z -> steps x z.

(** The client has just sent [message], nothing was read. *)
Definition start (message : list byte) (x : State) : Prop :=
  c_accepted (cl x) = message /\ c_accepted (sv x) = [] /\ cl_read x = 0 /\ sv_read x = 0 /\
  readable (cl_in x) = [] /\ readable (sv_in x) = [] /\
  bytes_read_ (sess x) = 0 /\ c_IsConnected (cl x) = true /\ c_IsConnected (sv x) = true.

Record in_play (message : list byte) (x : State) : Prop := {
  ip_cl : c_accepted (cl x) = message ++ ztake (cl_read x) (c_accepted (sv x));
  ip_sv : c_accepted (sv x) = ztake (sv_read x) (c_accepted (cl x));
  ip_cl_read : 0 <= cl_read x <= zlen (c_accepted (sv x));
  ip_sv_read : 0 <= sv_read x <= zlen (c_accepted (cl x));
  ip_cl_in : readable (cl_in x) = [];
  ip_sv_in : readable (sv_in x) = [];
  ip_count : bytes_read_ (sess x) = s64 (cl_read x);
  ip_cl_conn : c_IsConnected (cl x) = true;
  ip_sv_conn : c_IsConnected (sv x) = true;
}.

Lemma ztake_more (l : list byte) n k : 0 <= n -> 0 <= k -> ztake (n + k) l = ztake n l ++ zslice n k l.
Proof.
  intros Hn Hk. unfold zslice, ztake, zdrop. rewrite Z2Nat.inj_add by lia.
  by rewrite take_take_drop.
Qed.

(** What the session's callback does with an input buffer. *)
Lemma Session_echoes b (s : Session C) (k : C) :
  wf b -> c_IsConnected k = true -> c_room (zlen (readable b)) k ->
  exists k', Session_OnMessage b s k
    = Ok (RefreshRW b, mkSession (s_manager s) (s_connecting s) (s_stopped s) (Some k')
            (s64 (bytes_read_ s + zlen (readable b))) (s64 (messages_read_ s + 1)), k') /\
    c_accepted k' = c_accepted k ++ readable b /\ c_IsConnected k' = true.
Proof.
  intros Hwf Hc Hroom. unfold Session_OnMessage, GetReadablePosition. rewrite readable_read_all by done.
  cbn [mbind result_bind].
  destruct (send_connected 0 (readable b) k Hc ltac:(lia)) as (k' & -> & Hac & Hco & _); [by rewrite Z.add_0_l|].
  exists k'. by rewrite readable_bytes_zlen.
Qed.

Lemma step_in_play message x y : in_play message x -> step x y -> in_play message y.
Proof.
  intros [Hcl Hsv Hcr Hsr Hci Hsi Hcnt Hcc Hsc] Hst.
  destruct Hst as [x b k b' sv' Hk Hle [Hwf Hb] Hroom Hrun|x b k b' s' cl' Hk Hle [Hwf Hb] Hroom Hrun
                  |x cl' sv' [Hd1 Hd2] [Hd3 Hd4]].
  - rewrite Hsi, app_nil_l in Hb.
    destruct (Pingpong_echoes 0 b (sv x) Hwf Hsc ltac:(lia)) as (b1 & sv1 & Hon & Hb1 & Hac & Hco & _);
      [by rewrite Z.add_0_l|].
    rewrite Hrun in Hon. simplify_eq. constructor; simpl; try done; try lia.
    + rewrite Hac, ztake_app_l by lia. exact Hcl.
    + rewrite Hac, ztake_more, <- Hb by lia. by rewrite <- Hsv.
    + rewrite Hac, zlen_app. pose proof (zlen_nonneg (readable b)). lia.
  - rewrite Hci, app_nil_l in Hb. assert (zlen (readable b) = k) as Hlen by (rewrite Hb; apply zlen_zslice; lia).
    destruct (Session_echoes b (sess x) (cl x) Hwf Hcc Hroom) as (c1 & Hon & Hac & Hco).
    rewrite Hrun in Hon. simplify_eq. constructor; simpl; try done; try lia.
    + rewrite Hac, Hcl at 1. rewrite ztake_more, <- Hb by lia. by rewrite <- app_assoc.
    + rewrite Hac, ztake_app_l by lia. exact Hsv.
    + rewrite Hac, zlen_app. lia.
    + by rewrite Hcnt, s64_add.
  - constructor; simpl; rewrite ?Hd1, ?Hd2, ?Hd3, ?Hd4; done.
Qed.

(** C40. The block stays in play: whatever the sizes and the order of the reads on
    both sides, each appended to what the callback left in the input buffer of
    its connection, what the session has sent is the block followed by what it
    has read, the server has sent what it has read, both input buffers are empty
    between the reads, the bytes on their way are always as many as the block
    has, so that somebody can read on, and the session's counter is the number
    of bytes it read. Neither callback faults on a read for whose answer the
    connection has room. *)
Theorem pingpong_in_play message x y :
  start message x -> steps x y ->
  in_play message y /\
  (zlen (c_accepted (cl y)) - sv_read y) + (zlen (c_accepted (sv y)) - cl_read y) = zlen message /\
  (forall bs b, received bs (sv_in y) b -> c_room (zlen bs) (sv y) ->
   exists b' sv', Pingpong_OnMessage b (sv y) = Ok (b', sv')) /\
  (forall bs b, received bs (cl_in y) b -> c_room (zlen bs) (cl y) ->
   exists b' s' cl', Session_OnMessage b (sess y) (cl y) = Ok (b', s', cl')).
Proof.
  intros (Hcl & Hsv & Hcr & Hsr & Hci & Hsi & Hcnt & Hcc & Hsc) Hst.
  assert (in_play message y) as Hip.
  { induction Hst as [x|x y z Hxy IH Hyz]; [|by eapply step_in_play; [apply IH|]].
    constructor; rewrite ?Hcl, ?Hsv, ?Hcr, ?Hsr; try done; try lia.
    - by rewrite app_nil_r.
    - pose proof (zlen_nonneg message). lia. }
  split; [done|]. destruct Hip as [H1 H2 H3 H4 H5 H6 _ Hc1 Hc2]. split_and!.
  - apply (f_equal zlen) in H1, H2. rewrite zlen_app, zlen_ztake in H1 by lia. rewrite zlen_ztake in H2 by lia. lia.
  - intros bs b [Hwf Hb] Hroom. rewrite H6, app_nil_l in Hb. subst bs.
    destruct (Pingpong_echoes 0 b (sv y) Hwf Hc2 ltac:(lia)) as (b1 & sv1 & Hon & _); [by rewrite Z.add_0_l|].
    by exists b1, sv1.
  - intros bs b [Hwf Hb] Hroom. rewrite H5, app_nil_l in Hb. subst bs.
    destruct (Session_echoes b (sess y) (cl y) Hwf Hc1 Hroom) as (c1 & Hon & _). by eexists _, _, _.
Qed.
End exchange.
End Exchange.

(** ** Evaluations *)

Module Concrete.
Import ConnApi.Concrete.

Abbreviation Client := (PingpongClient Conn).

(** Two threads, three sessions, blocks of four bytes. *)
Definition started : Client :=
  match c ← PingpongClient_new 4 3 10 2; Start_before c with
  | Ok c => c
  | Fault _ => mkClient [] 0 0 [] [] 0 false false (Balancer_new 0) []
  end.

Lemma pingpong_starts_witness :
  exists c0 c : Client, PingpongClient_new 4 3 10 2 = Ok c0 /\ Start_before c0 = Ok c /\
    zlen (sessions_ c) = 3 /\ Forall (fun s => 1 <= s_manager s <= 2) (sessions_ c) /\
    message_ c = block 4 /\ client_ok c.
Proof. apply (pingpong_starts 4 3 10 2); lia. Defined.

Lemma started_ok : client_ok started.
Proof. constructor; vm_compute; done. Qed.

(** A session connects, the time is over, its connection is closed. *)
Definition closed_conn (fd : Z) : Conn := c_ShutDownWrite (opened fd).
Definition story : list (event (C := Conn)) := [EConnection 0 (opened 5); ETimeout; EConnection 0 (closed_conn 5)].

Definition or_started (r : result Client) : Client := match r with Ok c => c | Fault _ => started end.
Definition connected : Client := or_started (handle (EConnection 0 (opened 5)) started).

Lemma connected_eq : handle (EConnection 0 (opened 5)) started = Ok connected.
Proof. vm_compute. reflexivity. Qed.

Lemma story_legal : legal_all story started.
Proof.
  split.
  - eexists. split; [reflexivity|]. rewrite (proj1 (proj2 (opened_state 5))). split; [reflexivity|].
    split; [vm_compute; discriminate|]. apply opened_room. vm_compute. split; [discriminate | reflexivity].
  - rewrite connected_eq. split; [exact I|]. cbn [handle]. split; [|by destruct (handle _ _)].
    assert (c_IsConnected (closed_conn 5) = false) as Hc by (vm_compute; reflexivity).
    destruct (sessions_ (DoWithTimeout connected) !! 0%nat) as [s|] eqn:Hs; [|by vm_compute in Hs].
    exists s. split; [exact Hs|]. rewrite Hc. vm_compute in Hs. injection Hs as <-. by eexists.
Qed.

Lemma pingpong_reports_once_witness :
  exists c', handle_all story started = Ok c' /\ client_ok c' /\ monotone started c' /\
    (ETimeout ∈ story -> finished c').
Proof. exact (pingpong_reports_once story started started_ok story_legal). Defined.

(** The server answers two of the four bytes. *)
Definition sent (bs : list byte) (c : Conn) : Conn := match c_Send bs c with Ok c => c | Fault _ => c end.
Definition begin_x : Exchange.State :=
  Exchange.mkState (sent (block 4) (opened 5)) (IoBuffer_new kInitialCapacity) (mkSession 1 true false None 0 0) 0
    (opened 6) (IoBuffer_new kInitialCapacity) 0.
Definition then_x : Exchange.State :=
  Exchange.mkState (Exchange.cl begin_x) (Exchange.cl_in begin_x) (Exchange.sess begin_x) 0
    (sent (take 2 (block 4)) (opened 6)) (RefreshRW (holding (take 2 (block 4)))) (0 + 2).

Lemma begin_start : Exchange.start (block 4) begin_x.
Proof. vm_compute. repeat split. Qed.

Lemma begin_step : Exchange.step begin_x then_x.
Proof.
  destruct (holding_ok (take 2 (block 4))) as [Hwf Hr]; [by vm_compute|].
  apply (Exchange.step_server begin_x (holding (take 2 (block 4))) 2 (RefreshRW (holding (take 2 (block 4))))
    (sent (take 2 (block 4)) (opened 6))).
  - lia.
  - vm_compute. discriminate.
  - split; [done|]. rewrite Hr. vm_compute. reflexivity.
  - rewrite Hr. apply opened_room. vm_compute. split; [discriminate | reflexivity].
  - vm_compute. reflexivity.
Qed.

Lemma pingpong_in_play_witness :
  Exchange.in_play (block 4) then_x /\
  (zlen (c_accepted (Exchange.cl then_x)) - Exchange.sv_read then_x)
  + (zlen (c_accepted (Exchange.sv then_x)) - Exchange.cl_read then_x) = zlen (block 4).
Proof.
  destruct (Exchange.pingpong_in_play (block 4) begin_x then_x begin_start
    (Exchange.steps_step _ _ _ (Exchange.steps_refl begin_x) begin_step)) as (Hplay & Hsum & _).
  exact (conj Hplay Hsum).
Defined.

(** Without threads the constructor writes behind the vector. *)
Lemma no_threads : (PingpongClient_new 4 3 10 0 : result Client) = Fault OutOfBounds.
Proof. reflexivity. Qed.

(** The time-out of 2148 seconds or more does not fit an int: the delay becomes
    negative. *)
Lemma timeout_overflow : s32 (s32 (2148 * 1000) * 1000) = -2146967296.
Proof. reflexivity. Qed.

(** The first session to connect and close ends the benchmark before the other
    two connect. *)
Lemma early_report :
  (c ← handle_all [EConnection 0 (opened 5); EConnection 0 (closed_conn 5)] started;
   Ok (stats_reported_ c, quit_requested_ c, printed c))
  = Ok (true, true, [(0, 0)]).
Proof. vm_compute. reflexivity. Qed.
End Concrete.
