(* ===== verification/MemoryPool.v ===== *)
(** * Memory and object pools

    Model of class [MemoryPool] (src/memory_pool.h) and class [ObjectPool]
    (src/object_pool.h). The pool carves blocks of one size out of chunks it
    gets from [malloc] and threads the free ones into a list that lives in the
    blocks themselves, so the model has a heap of bytes: [bytes] is the memory
    that is allocated, [chunks] the ranges [malloc] gave out. The address
    [malloc] returns is an argument; [malloc_ok] is what the C standard
    promises of it. [Ref] is the same pool with its lists as lists, and
    [Alloc] is the contract of an allocator: disjoint blocks whose contents
    only their owner changes. *)

From stdpp Require Import prelude list gmap sorting.
From coqutil Require Import Byte Word.LittleEndianList.
From S2P Require Import Prelude.

(** ** The heap *)

Record Heap := mkHeap { bytes : gmap Z byte; chunks : gmap Z Z }.

Fixpoint write_bytes (a : Z) (bs : list byte) (m : gmap Z byte) : gmap Z byte :=
  match bs with
  | [] => m
  | b :: bs => <[a := b]> (write_bytes (a + 1) bs m)
  end.

Fixpoint read_bytes (n : nat) (a : Z) (m : gmap Z byte) : option (list byte) :=
  match n with
  | O => Some []
  | S n => b ← m !! a; bs ← read_bytes n (a + 1) m; Some (b :: bs)
  end.

Definition heap_read (n : nat) (a : Z) (h : Heap) : result (list byte) :=
  if a =? 0 then Fault NullPointer
  else match read_bytes n a (bytes h) with Some bs => Ok bs | None => Fault OutOfBounds end.

Definition heap_write (a : Z) (bs : list byte) (h : Heap) : result Heap :=
  if a =? 0 then Fault NullPointer
  else match read_bytes (length bs) a (bytes h) with
       | Some _ => Ok (mkHeap (write_bytes a bs (bytes h)) (chunks h))
       | None => Fault OutOfBounds
       end.

(** [malloc(size)] answers [p]; the memory it gives out is not initialised, its
    contents are [junk]. *)
Definition malloc (p size : Z) (junk : byte) (h : Heap) : Heap :=
  if p =? 0 then h
  else mkHeap (write_bytes p (replicate (Z.to_nat size) junk) (bytes h)) (<[p := size]> (chunks h)).

(** [free(p)]. *)
Definition free (p : Z) (h : Heap) : result Heap :=
  match chunks h !! p with
  | Some size =>
      Ok (mkHeap (filter (fun '(x, _) => ~ (p <= x < p + size)) (bytes h)) (delete p (chunks h)))
  | None => Fault OutOfBounds
  end.

(** A successful [malloc(size)]: an aligned range inside the address space that
    meets no range still allocated. *)
Definition malloc_ok (h : Heap) (p size : Z) : Prop :=
  0 < p /\ p + size < 2 ^ 64 /\ p mod 16 = 0 /\ chunks h !! p = None /\
  map_Forall (fun q s => p + size <= q \/ q + s <= p) (chunks h).

#[export] Instance malloc_ok_dec h p size : Decision (malloc_ok h p size).
Proof. unfold malloc_ok. apply _. Defined.

(** ** The pool *)

Definition sizeof_MemoryBlockNode : Z := 8.
Definition kInitialMallocSize : Z := 40.

Record MemoryPool := mkPool {
  free_list_head_ : Z;
  list_head_ : Z;
  malloc_time_ : Z;
  object_size_ : Z;
}.

Section pool.
Context `{!HostOrder} (junk : byte).

Definition load_next (a : Z) (h : Heap) : result Z := bs ← heap_read 8 a h; Ok (load_int bs).
Definition store_next (a v : Z) (h : Heap) : result Heap := heap_write a (store_int 8 v) h.

Definition MemoryPool_new (ObjectSize : Z) : MemoryPool :=
  mkPool 0 0 0 (if ObjectSize <? sizeof_MemoryBlockNode then sizeof_MemoryBlockNode else ObjectSize).

(** The loop that threads [n] blocks from [ptr] on into the free list. *)
Fixpoint thread_blocks (n : nat) (ptr head size : Z) (h : Heap) : result (Z * Heap) :=
  match n with
  | O => Ok (head, h)
  | S n => h ← store_next ptr head h; thread_blocks n (ptr +u size) ptr size h
  end.

(** The branch of [Allocate] for an empty free list; [p] is what [malloc]
    answers. *)
Definition Allocate_refill (p : Z) (s : MemoryPool) (h : Heap) : result (MemoryPool * Heap) :=
  let malloc_size := kInitialMallocSize +u malloc_time_ s in
  let h := malloc p (u64 (malloc_size * object_size_ s) +u sizeof_MemoryBlockNode) junk h in
  h ← store_next p (list_head_ s) h;
  '(head, h) ← thread_blocks (Z.to_nat malloc_size) (p +u sizeof_MemoryBlockNode)
                 (free_list_head_ s) (object_size_ s) h;
  Ok (mkPool head p (malloc_time_ s +u 1) (object_size_ s), h).

Definition Allocate (p : Z) (s : MemoryPool) (h : Heap) : result (Z * MemoryPool * Heap) :=
  '(s, h) ← (if free_list_head_ s =? 0 then Allocate_refill p s h else Ok (s, h));
  next ← load_next (free_list_head_ s) h;
  Ok (free_list_head_ s, mkPool next (list_head_ s) (malloc_time_ s) (object_size_ s), h).

Definition Deallocate (a : Z) (s : MemoryPool) (h : Heap) : result (MemoryPool * Heap) :=
  if a =? 0 then Ok (s, h)
  else
    h ← store_next a (free_list_head_ s) h;
    Ok (mkPool a (list_head_ s) (malloc_time_ s) (object_size_ s), h).

(** The destructor; [None] when the loop still runs after [fuel] rounds. *)
Fixpoint Destroy_loop (fuel : nat) (s : MemoryPool) (h : Heap) : result (option (MemoryPool * Heap)) :=
  if list_head_ s =? 0 then Ok (Some (s, h))
  else
    match fuel with
    | O => Ok None
    | S fuel =>
        next ← load_next (list_head_ s) h;
        h ← free (list_head_ s) h;
        Destroy_loop fuel (mkPool (free_list_head_ s) next (malloc_time_ s) (object_size_ s)) h
    end.
End pool.

(** ** The reference pool: the same policy on lists *)

Module Ref.
Record RefPool := mkRef { ref_free : list Z; ref_chunks : list (Z * Z) }.

Section ref.
Context (os : Z).

(** The blocks of a chunk at [b] with room for [n]. *)
Definition blocks (b n : Z) : list Z := (fun i => b + 8 + i * os) <$> seqZ 0 n.

Definition all_blocks (cs : list (Z * Z)) : list Z := cs ≫= (fun '(b, n) => blocks b n).

(** When no block is free, a chunk with one block more than the last one is
    added; its last block is used first. *)
Definition ref_refill (p : Z) (r : RefPool) : RefPool :=
  match ref_free r with
  | [] => let n := 40 + zlen (ref_chunks r) in
          mkRef (reverse (blocks p n)) ((p, n) :: ref_chunks r)
  | _ => r
  end.

Definition ref_allocate (p : Z) (r : RefPool) : Z * RefPool :=
  let r := ref_refill p r in
  (hd 0 (ref_free r), mkRef (tl (ref_free r)) (ref_chunks r)).

Definition ref_deallocate (a : Z) (r : RefPool) : RefPool :=
  if a =? 0 then r else mkRef (a :: ref_free r) (ref_chunks r).

(** ** Chunks and blocks *)

Definition chunk_size (n : Z) : Z := n * os + 8.

(** Two ranges of [len] and [len'] bytes share no byte. *)
Definition apart (a len b len' : Z) : Prop := a + len <= b \/ b + len' <= a.

End ref.
End Ref.

(** ** Clients of the pool *)

(** What a client does: allocate (with what [malloc] would answer), give a block
    back, write [bs] at an offset of a block it has. *)
Inductive op :=
| OAllocate (p : Z)
| ODeallocate (a : Z)
| OWrite (b off : Z) (bs : list byte).

(** [w_live] records the blocks handed out and not given back. *)
Record World := mkWorld { w_pool : MemoryPool; w_heap : Heap; w_live : list Z }.

(** The contract of an allocator: a map from the blocks in use to their
    contents. *)
Module Alloc.
Inductive step (os : Z) : gmap Z (list byte) -> op -> gmap Z (list byte) -> Prop :=
| step_allocate A p a c :
    A !! a = None -> a <> 0 -> zlen c = os ->
    (forall b d, A !! b = Some d -> Ref.apart a os b os) ->
    step os A (OAllocate p) (<[a := c]> A)
| step_deallocate A a : step os A (ODeallocate a) (delete a A)
| step_write A b off bs c :
    A !! b = Some c ->
    step os A (OWrite b off bs) (<[b := ztake off c ++ bs ++ zdrop (off + zlen bs) c]> A).

Inductive steps (os : Z) : gmap Z (list byte) -> list op -> gmap Z (list byte) -> Prop :=
| steps_nil A : steps os A [] A
| steps_cons A o B ops C : step os A o B -> steps os B ops C -> steps os A (o :: ops) C.
End Alloc.

Section clients.
Context `{!HostOrder} (junk : byte) (os : Z).

(** The address [Allocate] returned, if that was the operation. *)
Definition do_op (o : op) (w : World) : result (option Z * World) :=
  match o with
  | OAllocate p =>
      '(a, s, h) ← Allocate junk p (w_pool w) (w_heap w);
      Ok (Some a, mkWorld s h (a :: w_live w))
  | ODeallocate a =>
      '(s, h) ← Deallocate a (w_pool w) (w_heap w);
      Ok (None, mkWorld s h (filter (.≠ a) (w_live w)))
  | OWrite b off bs =>
      h ← heap_write (b + off) bs (w_heap w);
      Ok (None, mkWorld (w_pool w) h (w_live w))
  end.

(** The addresses returned, in order, and the state in the end. *)
Fixpoint run_ops (ops : list op) (w : World) : result (list Z * World) :=
  match ops with
  | [] => Ok ([], w)
  | o :: ops => '(a, w) ← do_op o w; '(l, w) ← run_ops ops w; Ok (option_list a ++ l, w)
  end.

(** What [Allocate] needs from [malloc] when it calls it. *)
Definition answer_ok (p : Z) (s : MemoryPool) (h : Heap) : Prop :=
  free_list_head_ s = 0 -> malloc_ok h p (Ref.chunk_size os (40 + malloc_time_ s)).

(** A client that keeps to the rules: it gives back only blocks it has (or a
    null pointer) and writes only inside of them; and [malloc] succeeds. *)
Definition legal (o : op) (w : World) : Prop :=
  match o with
  | OAllocate p => answer_ok p (w_pool w) (w_heap w)
  | ODeallocate a => a = 0 \/ a ∈ w_live w
  | OWrite b off bs => b ∈ w_live w /\ 0 <= off /\ off + zlen bs <= os
  end.

#[export] Instance legal_dec o w : Decision (legal o w).
Proof. destruct o; unfold legal, answer_ok; apply _. Defined.

Fixpoint legal_run (ops : list op) (w : World) : Prop :=
  match ops with
  | [] => True
  | o :: ops => legal o w /\ match do_op o w with Ok (_, w) => legal_run ops w | Fault _ => True end
  end.

#[export] Instance legal_run_dec ops w : Decision (legal_run ops w).
Proof.
  revert w. induction ops as [|o ops IH]; intros w; simpl; [apply _|].
  apply and_dec; [apply _|]. destruct (do_op o w) as [[x w']|f]; apply _.
Defined.

Definition ref_op (o : op) (r : Ref.RefPool) : option Z * Ref.RefPool :=
  match o with
  | OAllocate p => let '(a, r) := Ref.ref_allocate os p r in (Some a, r)
  | ODeallocate a => (None, Ref.ref_deallocate a r)
  | OWrite _ _ _ => (None, r)
  end.

Fixpoint ref_run (ops : list op) (r : Ref.RefPool) : list Z * Ref.RefPool :=
  match ops with
  | [] => ([], r)
  | o :: ops => let '(a, r) := ref_op o r in let '(l, r) := ref_run ops r in (option_list a ++ l, r)
  end.

(** [A] has the blocks in use with what their bytes are. *)
Definition represents (w : World) (A : gmap Z (list byte)) : Prop :=
  forall a c, A !! a = Some c <->
    a ∈ w_live w /\ read_bytes (Z.to_nat os) a (bytes (w_heap w)) = Some c.
End clients.

(** ** Object pools

    [ObjectSize] is [sizeof(T)]; a constructor gives the object its bytes, a
    destructor is a change of the rest of the program's state [E] that may
    depend on the object. The flag is [std::is_trivially_constructible<T>]. *)

Section object_pool.
Context `{!HostOrder} (junk : byte).
Context {Args E : Type} (trivial : bool) (construct : Args -> list byte) (destroy : list byte -> E -> E).
Context (ObjectSize : Z).

Definition NewIf (args : Args) (p : Z) (s : MemoryPool) (h : Heap) : result (Z * MemoryPool * Heap) :=
  '(a, s, h) ← Allocate junk p s h;
  if trivial then Ok (a, s, h) else h ← heap_write a (construct args) h; Ok (a, s, h).

Definition New (args : Args) (p : Z) (w : World) : result (Z * World) :=
  '(a, s, h) ← NewIf args p (w_pool w) (w_heap w);
  Ok (a, mkWorld s h (a :: w_live w)).

Definition DeleteIf (a : Z) (s : MemoryPool) (h : Heap) (e : E) : result (MemoryPool * Heap * E) :=
  e ← (if trivial then Ok e else o ← heap_read (Z.to_nat ObjectSize) a h; Ok (destroy o e));
  '(s, h) ← Deallocate a s h;
  Ok (s, h, e).

Definition Delete (a : Z) (w : World) (e : E) : result (World * E) :=
  if a =? 0 then Ok (w, e)
  else
    '(s, h, e) ← DeleteIf a (w_pool w) (w_heap w) e;
    Ok (mkWorld s h (filter (.≠ a) (w_live w)), e).
End object_pool.
