(* ===== verification/MemoryPoolFacts.v ===== *)
(** * Properties of the memory pool

    The pool's pointer lists are followed in memory ([chain]) and related to the
    reference pool by [sim]; every operation of a client that keeps to the
    rules preserves it, which gives the allocator's contract, the order of reuse
    and what the destructor frees. *)

From stdpp Require Import prelude list gmap sorting.
From coqutil Require Import Byte Word.LittleEndianList.
From S2P Require Import Prelude.
From S2P Require Import MemoryPool.

(** ** Reading and writing bytes *)

Section bytes.
Context `{!HostOrder}.
Implicit Types m : gmap Z byte.

Lemma write_bytes_in a bs m x :
  a <= x < a + zlen bs -> write_bytes a bs m !! x = bs !! Z.to_nat (x - a).
Proof.
  revert a. induction bs as [|b bs IH]; intros a Hx; rewrite ?zlen_nil, ?zlen_cons in Hx; [lia|].
  simpl. destruct (decide (x = a)) as [->|Hne].
  - by rewrite lookup_insert_eq, Z.sub_diag.
  - rewrite lookup_insert_ne, IH by lia.
    by replace (Z.to_nat (x - a)) with (S (Z.to_nat (x - (a + 1)))) by lia.
Qed.

Lemma write_bytes_out a bs m x :
  ~ (a <= x < a + zlen bs) -> write_bytes a bs m !! x = m !! x.
Proof.
  revert a. induction bs as [|b bs IH]; intros a Hx; [done|]. rewrite zlen_cons in Hx. simpl.
  pose proof (zlen_nonneg bs). rewrite lookup_insert_ne by lia. apply IH. lia.
Qed.

Lemma write_bytes_Some a bs m x : is_Some (m !! x) -> is_Some (write_bytes a bs m !! x).
Proof.
  intros Hm. destruct (decide (a <= x < a + zlen bs)) as [Hx|Hx].
  - rewrite write_bytes_in by done. apply lookup_lt_is_Some. unfold zlen in Hx. lia.
  - by rewrite write_bytes_out.
Qed.

Lemma read_bytes_Some n a m bs :
  read_bytes n a m = Some bs <->
  length bs = n /\ forall i : nat, (i < n)%nat -> m !! (a + Z.of_nat i) = bs !! i.
Proof.
  revert a bs. induction n as [|n IH]; intros a bs; simpl.
  - split; [intros [= <-]; split; [done|lia] | intros [Hl _]; by apply nil_length_inv in Hl as ->].
  - split.
    + intros (b & Hb & (bs' & Hbs & [= <-])%bind_Some)%bind_Some. apply IH in Hbs as [Hl Hi].
      split; [simpl; lia|]. intros [|i] Hlt; [by rewrite Z.add_0_r|].
      simpl. rewrite <- Hi by lia. f_equal. lia.
    + intros [Hl Hi]. destruct bs as [|b bs]; [done|]. injection Hl as Hl.
      pose proof (Hi 0%nat ltac:(lia)) as Hb. rewrite Z.add_0_r in Hb. rewrite Hb. simpl.
      assert (read_bytes n (a + 1) m = Some bs) as ->; [|done].
      apply IH. split; [done|]. intros i Hlt.
      etrans; [|apply (Hi (S i)); lia]. f_equal. lia.
Qed.

Lemma read_bytes_total n a m :
  (forall x, a <= x < a + Z.of_nat n -> is_Some (m !! x)) -> is_Some (read_bytes n a m).
Proof.
  revert a. induction n as [|n IH]; intros a Hm; simpl; [by eexists|].
  destruct (Hm a) as [b ->]; [lia|]. destruct (IH (a + 1)) as [bs ->]; [|by eexists].
  intros x Hx. apply Hm. lia.
Qed.

Lemma read_write_same a bs m : read_bytes (length bs) a (write_bytes a bs m) = Some bs.
Proof.
  apply read_bytes_Some. split; [done|]. intros i Hi.
  rewrite write_bytes_in by (unfold zlen; lia). f_equal. lia.
Qed.

(** A write into another range does not change what is read. *)
Lemma read_write_apart n a b bs m :
  a + Z.of_nat n <= b \/ b + zlen bs <= a ->
  read_bytes n a (write_bytes b bs m) = read_bytes n a m.
Proof.
  revert a. induction n as [|n IH]; intros a Hd; simpl; [done|].
  pose proof (zlen_nonneg bs).
  rewrite write_bytes_out by lia. rewrite IH by lia. done.
Qed.

(** A write inside of the range read replaces that part. *)
Lemma read_write_inside n a off bs c m :
  read_bytes n a m = Some c -> 0 <= off -> off + zlen bs <= Z.of_nat n ->
  read_bytes n a (write_bytes (a + off) bs m)
  = Some (ztake off c ++ bs ++ zdrop (off + zlen bs) c).
Proof.
  intros [Hl Hi]%read_bytes_Some Ho Hend. apply read_bytes_Some.
  pose proof (zlen_nonneg bs). unfold ztake, zdrop, zlen in *. split.
  { rewrite !length_app, length_take, length_drop. lia. }
  intros i Hlt. destruct (decide (Z.of_nat i < off)) as [H1|H1].
  { rewrite write_bytes_out by lia. rewrite lookup_app_l by (rewrite length_take; lia).
    rewrite lookup_take_lt by lia. auto. }
  rewrite lookup_app_r by (rewrite length_take; lia). rewrite length_take.
  destruct (decide (Z.of_nat i < off + zlen bs)) as [H2|H2]; unfold zlen in H2.
  - rewrite write_bytes_in by (unfold zlen; lia). rewrite lookup_app_l by lia. f_equal. lia.
  - rewrite write_bytes_out by (unfold zlen; lia). rewrite lookup_app_r by lia.
    rewrite lookup_drop, Hi by lia. f_equal. lia.
Qed.

Lemma load_store_int n z : load_int (store_int n z) = z mod 2 ^ (Z.of_nat n * 8).
Proof.
  unfold load_int, store_int. destruct host_order; rewrite ?rev_involutive; apply le_combine_split.
Qed.

(** ** Pointers *)

(** The [next_node_] at [a] is [v]. *)
Definition points m (a v : Z) : Prop :=
  a <> 0 /\ exists bs, read_bytes 8 a m = Some bs /\ load_int bs = v.

Lemma load_next_points a v h : points (bytes h) a v -> load_next a h = Ok v.
Proof.
  intros (Hn & bs & Hr & Hv). unfold load_next, heap_read. destruct (Z.eqb_spec a 0); [done|].
  rewrite Hr. cbn [mbind result_bind]. by rewrite Hv.
Qed.

Lemma heap_write_ok a bs h :
  a <> 0 -> (forall x, a <= x < a + zlen bs -> is_Some (bytes h !! x)) ->
  heap_write a bs h = Ok (mkHeap (write_bytes a bs (bytes h)) (chunks h)).
Proof.
  intros Hn Hm. unfold heap_write. destruct (Z.eqb_spec a 0); [done|].
  destruct (read_bytes_total (length bs) a (bytes h)) as [? ->]; [done|]. done.
Qed.

Lemma store_next_ok a v h :
  a <> 0 -> (forall x, a <= x < a + 8 -> is_Some (bytes h !! x)) ->
  store_next a v h = Ok (mkHeap (write_bytes a (store_int 8 v) (bytes h)) (chunks h)).
Proof. intros Hn Hm. apply heap_write_ok; [done|]. by rewrite zlen_store_int. Qed.

Lemma points_stored a v m : a <> 0 -> 0 <= v < 2 ^ 64 -> points (write_bytes a (store_int 8 v) m) a v.
Proof.
  intros Hn Hv. split; [done|]. exists (store_int 8 v). split.
  - rewrite <- (length_store_int 8 v) at 1. apply read_write_same.
  - rewrite load_store_int. by apply Z.mod_small.
Qed.

(** ** Linked lists in memory *)

(** From [head], the nodes of [l] are linked in this order. *)
Fixpoint chain m (head : Z) (l : list Z) : Prop :=
  match l with
  | [] => head = 0
  | a :: l => head = a /\ exists next, points m a next /\ chain m next l
  end.

Lemma chain_head m head l : chain m head l -> head = hd 0 l.
Proof. destruct l; [done|]. by intros [-> _]. Qed.

Lemma read_bytes_agree n a m m' :
  (forall x, a <= x < a + Z.of_nat n -> m' !! x = m !! x) -> read_bytes n a m' = read_bytes n a m.
Proof.
  revert a. induction n as [|n IH]; intros a Hm; simpl; [done|].
  rewrite (Hm a) by lia. rewrite IH; [done|]. intros x Hx. apply Hm. lia.
Qed.

Lemma chain_agree m m' head l :
  (forall a x, a ∈ l -> a <= x < a + 8 -> m' !! x = m !! x) -> chain m head l -> chain m' head l.
Proof.
  revert head. induction l as [|a l IH]; intros head Hm Hc; [done|].
  destruct Hc as (-> & next & (Hn & bs & Hr & Hv) & Hc). split; [done|]. exists next. split.
  - split; [done|]. exists bs. rewrite (read_bytes_agree 8 a m); [done|].
    intros x Hx. apply (Hm a); [by left | done].
  - apply IH; [|done]. intros b x Hb. apply Hm. by right.
Qed.

Lemma chain_apart m head l b bs :
  (forall a, a ∈ l -> a + 8 <= b \/ b + zlen bs <= a) ->
  chain m head l -> chain (write_bytes b bs m) head l.
Proof.
  intros Hd. apply chain_agree. intros a x Ha Hx. apply write_bytes_out.
  destruct (Hd a Ha); lia.
Qed.

(** Pushing a node: store the old head into it. *)
Lemma chain_push m head l a :
  a <> 0 -> 0 <= head < 2 ^ 64 -> (forall b, b ∈ l -> b + 8 <= a \/ a + 8 <= b) ->
  chain m head l -> chain (write_bytes a (store_int 8 head) m) a (a :: l).
Proof.
  intros Ha Hh Hf Hc. split; [done|]. exists head. split; [by apply points_stored|].
  apply chain_apart; [|done]. by rewrite zlen_store_int.
Qed.
End bytes.

(** ** Chunks and blocks *)

Module Blocks.
Import Ref.
Section blocks.
Context (os : Z).
Implicit Types cs : list (Z * Z).
Local Abbreviation blocks := (blocks os).
Local Abbreviation all_blocks := (all_blocks os).
Local Abbreviation chunk_size := (chunk_size os).

(** Chunks grow by one block at a time and lie apart from each other. *)
Fixpoint chunks_wf (cs : list (Z * Z)) : Prop :=
  match cs with
  | [] => True
  | (b, n) :: cs =>
      n = 40 + zlen cs /\ 0 < b /\ b + chunk_size n < 2 ^ 64 /\ b mod 16 = 0 /\
      Forall (fun c => apart b (chunk_size n) c.1 (chunk_size c.2)) cs /\ chunks_wf cs
  end.

Lemma elem_of_blocks a b n : a ∈ blocks b n <-> exists i, 0 <= i < n /\ a = b + 8 + i * os.
Proof.
  unfold blocks. rewrite list_elem_of_fmap. setoid_rewrite elem_of_seqZ.
  split; intros (i & H1 & H2); exists i; (split; [lia|lia]).
Qed.

Lemma elem_of_all_blocks a cs :
  a ∈ all_blocks cs <-> exists b n, (b, n) ∈ cs /\ a ∈ blocks b n.
Proof.
  unfold all_blocks. rewrite list_elem_of_bind. split.
  - intros ([b n] & Ha & Hc). eauto.
  - intros (b & n & Hc & Ha). by exists (b, n).
Qed.

Lemma chunks_wf_elem cs b n :
  chunks_wf cs -> (b, n) ∈ cs ->
  40 <= n /\ 0 < b /\ b + chunk_size n < 2 ^ 64 /\ b mod 16 = 0.
Proof.
  induction cs as [|[b' n'] cs IH]; [by intros _ ?%elem_of_nil|].
  intros (Hn & H1 & H2 & H3 & _ & Hcs) [[= -> ->]|Hin]%elem_of_cons; [|by apply IH].
  pose proof (zlen_nonneg cs). lia.
Qed.

Lemma chunks_wf_apart cs b n b' n' :
  chunks_wf cs -> (b, n) ∈ cs -> (b', n') ∈ cs ->
  (b, n) = (b', n') \/ apart b (chunk_size n) b' (chunk_size n').
Proof.
  induction cs as [|[b0 n0] cs IH]; [by intros _ ?%elem_of_nil|].
  intros (_ & _ & _ & _ & Hf & Hcs). rewrite Forall_forall in Hf.
  intros [[= -> ->]|H1]%elem_of_cons [[= -> ->]|H2]%elem_of_cons.
  - by left.
  - right. apply (Hf (b', n') H2).
  - right. destruct (Hf (b, n) H1); [by right | by left].
  - by apply IH.
Qed.

Context (Hos : 8 <= os).

(** A block lies behind the header of its chunk and inside of it. *)
Lemma block_in_chunk a b n :
  a ∈ blocks b n -> b + 8 <= a /\ a + os <= b + chunk_size n.
Proof. intros (i & Hi & ->)%elem_of_blocks. unfold chunk_size. nia. Qed.

Lemma blocks_apart cs a a' :
  chunks_wf cs -> a ∈ all_blocks cs -> a' ∈ all_blocks cs -> a = a' \/ apart a os a' os.
Proof.
  intros Hcs (b & n & Hc & Ha)%elem_of_all_blocks (b' & n' & Hc' & Ha')%elem_of_all_blocks.
  destruct (chunks_wf_apart cs b n b' n' Hcs Hc Hc') as [[= -> ->]|Hd].
  - apply elem_of_blocks in Ha as (i & Hi & ->), Ha' as (j & Hj & ->).
    destruct (Z.lt_trichotomy i j) as [?|[->|?]]; [right; left | by left | right; right]; nia.
  - right. apply block_in_chunk in Ha, Ha'. unfold apart in *. lia.
Qed.

(** A block is apart from the header of every chunk. *)
Lemma block_header_apart cs a b n :
  chunks_wf cs -> a ∈ all_blocks cs -> (b, n) ∈ cs -> apart a os b 8.
Proof.
  intros Hcs (b' & n' & Hc' & Ha)%elem_of_all_blocks Hc.
  pose proof (chunks_wf_elem cs b n Hcs Hc) as (Hn & _).
  apply block_in_chunk in Ha.
  destruct (chunks_wf_apart cs b n b' n' Hcs Hc Hc') as [[= -> ->]|Hd];
    unfold apart, chunk_size in *; [lia|nia].
Qed.

Lemma block_bounds cs a :
  chunks_wf cs -> a ∈ all_blocks cs -> 8 < a /\ a + os < 2 ^ 64.
Proof.
  intros Hcs (b & n & Hc & Ha)%elem_of_all_blocks.
  pose proof (chunks_wf_elem cs b n Hcs Hc). apply block_in_chunk in Ha. lia.
Qed.

Lemma NoDup_blocks b n : NoDup (blocks b n).
Proof.
  apply NoDup_fmap_2_strong; [|apply NoDup_seqZ]. intros i j _ _ Heq. nia.
Qed.

Lemma NoDup_all_blocks cs : chunks_wf cs -> NoDup (all_blocks cs).
Proof.
  induction cs as [|[b n] cs IH]; [intros _; constructor|].
  intros Hcs. change (NoDup (blocks b n ++ all_blocks cs)). apply NoDup_app.
  split; [apply NoDup_blocks|]. split; [|apply IH, Hcs].
  intros a Ha (b' & n' & Hc' & Ha')%elem_of_all_blocks.
  destruct Hcs as (_ & _ & _ & _ & Hf & _). rewrite Forall_forall in Hf.
  apply Hf in Hc'. apply block_in_chunk in Ha, Ha'. unfold apart in Hc'. simpl in Hc'. lia.
Qed.

(** The size asked from [malloc] never wraps: two chunks that exist already
    are together larger than the next one. *)
Lemma next_chunk_fits cs :
  os < 2 ^ 58 -> chunks_wf cs -> chunk_size (40 + zlen cs) < 2 ^ 64 /\ zlen cs + 1 < 2 ^ 64.
Proof.
  intros Hmax Hcs. unfold chunk_size. destruct cs as [|[b n] [|[b' n'] cs]].
  - rewrite zlen_nil. lia.
  - rewrite zlen_cons, zlen_nil. lia.
  - destruct Hcs as (-> & Hb & Hn & _ & Hf & -> & Hb' & Hn' & _).
    apply Forall_cons_1 in Hf as [Hd _]. unfold apart, chunk_size in *. simpl in Hd.
    rewrite !zlen_cons in *. pose proof (zlen_nonneg cs). nia.
Qed.
End blocks.
End Blocks.

(** ** The pool against the reference pool *)

Section simulation.
Context `{!HostOrder} (junk : byte) (os : Z) (Hos : 8 <= os < 2 ^ 58) (foreign : gmap Z Z).
Import Ref Blocks.

Lemma row_cons ptr n :
  (fun i => ptr + i * os) <$> seqZ 0 (Z.of_nat (S n))
  = ptr :: ((fun i => ptr + os + i * os) <$> seqZ 0 (Z.of_nat n)).
Proof.
  rewrite seqZ_cons by lia. rewrite fmap_cons. f_equal; [lia|].
  rewrite <- (fmap_add_seqZ 1 0). rewrite <- list_fmap_compose.
  replace (Z.pred (Z.of_nat (S n))) with (Z.of_nat n) by lia.
  apply list_fmap_ext. intros i x _. simpl. lia.
Qed.

(** The loop links the blocks of [ptr, ptr + n * os) in front of the list and
    writes nowhere else. *)
Lemma thread_blocks_chain n ptr head l h :
  0 < ptr -> ptr + Z.of_nat n * os < 2 ^ 64 -> 0 <= head < 2 ^ 64 ->
  (forall x, ptr <= x < ptr + Z.of_nat n * os -> is_Some (bytes h !! x)) ->
  (forall a, a ∈ l -> apart a 8 ptr (Z.of_nat n * os)) ->
  chain (bytes h) head l ->
  exists head' m, thread_blocks n ptr head os h = Ok (head', mkHeap m (chunks h)) /\
    chain m head' (reverse ((fun i => ptr + i * os) <$> seqZ 0 (Z.of_nat n)) ++ l) /\
    (forall x, ~ (ptr <= x < ptr + Z.of_nat n * os) -> m !! x = bytes h !! x) /\
    (forall x, is_Some (bytes h !! x) -> is_Some (m !! x)).
Proof.
  revert ptr head l h. induction n as [|n IH]; intros ptr head l h Hp Hend Hh Hm Hl Hc.
  { exists head, (bytes h). by destruct h. }
  cbn [thread_blocks]. rewrite store_next_ok by (first [lia | intros; apply Hm; nia]).
  cbn [mbind result_bind]. rewrite u64_small by nia.
  set (h1 := mkHeap _ _).
  destruct (IH (ptr + os) ptr (ptr :: l) h1) as (head' & m & Hrun & Hc' & Hout & Hsome);
    [lia | nia | lia | | | | ].
  - intros x Hx. apply write_bytes_Some, Hm. nia.
  - intros a [->|Ha]%elem_of_cons; [left; lia|]. specialize (Hl a Ha). unfold apart in *. nia.
  - apply chain_push; [lia | lia | | done]. intros b Hb. specialize (Hl b Hb). unfold apart in *. nia.
  - exists head', m. split; [done|]. split; [|split].
    + by rewrite row_cons, reverse_cons, <- app_assoc.
    + intros x Hx. rewrite Hout by nia. apply write_bytes_out. rewrite zlen_store_int. nia.
    + intros x Hx. apply Hsome, write_bytes_Some, Hx.
Qed.

Definition chunk_map (cs : list (Z * Z)) : gmap Z Z :=
  foldr (fun c => <[c.1 := chunk_size os c.2]>) foreign cs.

(** [s] in [h] is the pool [r], and [live] are the blocks in use; [foreign]
    are the allocations of the rest of the program. *)
Record sim (s : MemoryPool) (h : Heap) (r : RefPool) (live : list Z) : Prop := {
  sim_size : object_size_ s = os;
  sim_time : malloc_time_ s = zlen (ref_chunks r);
  sim_wf : chunks_wf os (ref_chunks r);
  sim_fresh : Forall (fun c => foreign !! c.1 = None) (ref_chunks r);
  sim_free : chain (bytes h) (free_list_head_ s) (ref_free r);
  sim_list : chain (bytes h) (list_head_ s) (ref_chunks r).*1;
  sim_part : ref_free r ++ live ≡ₚ all_blocks os (ref_chunks r);
  sim_chunks : chunks h = chunk_map (ref_chunks r);
  sim_bytes b n x : (b, n) ∈ ref_chunks r -> b <= x < b + chunk_size os n -> is_Some (bytes h !! x);
}.

Lemma sim_new ObjectSize m :
  os = Z.max 8 ObjectSize -> sim (MemoryPool_new ObjectSize) (mkHeap m foreign) (mkRef [] []) [].
Proof.
  intros Heq. constructor; try done.
  - unfold MemoryPool_new, sizeof_MemoryBlockNode. simpl. case_cmp; lia.
  - by intros b n x ?%elem_of_nil.
Qed.

Section facts.
Context {s : MemoryPool} {h : Heap} {r : RefPool} {live : list Z} (HR : sim s h r live).

Lemma sim_block a : a ∈ ref_free r \/ a ∈ live -> a ∈ all_blocks os (ref_chunks r).
Proof. intros Ha. rewrite <- (sim_part _ _ _ _ HR). by apply elem_of_app. Qed.

Lemma sim_NoDup : NoDup (ref_free r ++ live).
Proof. rewrite (sim_part _ _ _ _ HR). apply NoDup_all_blocks; [lia | apply HR]. Qed.

(** Blocks, free or in use, that are not the same share no byte. *)
Lemma sim_apart a b :
  a ∈ ref_free r \/ a ∈ live -> b ∈ ref_free r \/ b ∈ live -> a = b \/ apart a os b os.
Proof. intros Ha Hb. eapply blocks_apart; [lia | apply HR | |]; by apply sim_block. Qed.

Lemma sim_allocated a x :
  a ∈ ref_free r \/ a ∈ live -> a <= x < a + os -> is_Some (bytes h !! x).
Proof.
  intros (b & n & Hc & Ha)%sim_block%elem_of_all_blocks Hx.
  apply block_in_chunk in Ha; [|lia]. apply (sim_bytes _ _ _ _ HR b n); [done|lia].
Qed.

Lemma sim_free_head : 0 <= free_list_head_ s < 2 ^ 64.
Proof.
  rewrite (chain_head _ _ _ (sim_free _ _ _ _ HR)).
  destruct (ref_free r) as [|a l] eqn:Hf; simpl; [lia|].
  destruct (block_bounds os ltac:(lia) (ref_chunks r) a); [apply HR | | lia].
  apply sim_block. rewrite Hf. left. by left.
Qed.

Lemma sim_free_empty : free_list_head_ s = 0 <-> ref_free r = [].
Proof.
  rewrite (chain_head _ _ _ (sim_free _ _ _ _ HR)).
  destruct (ref_free r) as [|a l] eqn:Hf; simpl; [done|]. split; [|done].
  destruct (block_bounds os ltac:(lia) (ref_chunks r) a); [apply HR | | lia].
  apply sim_block. rewrite Hf. left. by left.
Qed.

Lemma sim_list_head : 0 <= list_head_ s < 2 ^ 64.
Proof.
  rewrite (chain_head _ _ _ (sim_list _ _ _ _ HR)). pose proof (sim_wf _ _ _ _ HR) as Hcs.
  destruct (ref_chunks r) as [|[b n] cs] eqn:Hr; simpl; [lia|].
  destruct (chunks_wf_elem os _ b n Hcs) as (? & ? & ? & _); [by left|]. unfold chunk_size in *. nia.
Qed.
End facts.

Lemma chunk_map_elem cs b n :
  chunks_wf os cs -> (b, n) ∈ cs -> chunk_map cs !! b = Some (chunk_size os n).
Proof.
  induction cs as [|[b' n'] cs IH]; [by intros _ ?%elem_of_nil|].
  intros Hcs Hin. simpl. destruct (decide (b' = b)) as [->|Hne].
  - rewrite lookup_insert_eq. destruct (chunks_wf_apart os _ b n b n' Hcs) as [[= ->]|Hd];
      [done | by left | done|].
    destruct (chunks_wf_elem os _ b n Hcs Hin) as (? & _).
    destruct Hcs as (? & _). pose proof (zlen_nonneg cs).
    unfold apart, chunk_size in Hd. nia.
  - rewrite lookup_insert_ne by done. apply elem_of_cons in Hin as [[= -> ->]|Hin]; [done|].
    apply IH; [apply Hcs | done].
Qed.

(** A write into one block in use changes neither list. *)
Lemma sim_write s h r live b a bs :
  sim s h r live -> b ∈ live -> b <= a -> a + zlen bs <= b + os ->
  heap_write a bs h = Ok (mkHeap (write_bytes a bs (bytes h)) (chunks h)) /\
  sim s (mkHeap (write_bytes a bs (bytes h)) (chunks h)) r live.
Proof.
  intros HR Hb Ha Hend. split.
  { pose proof (block_bounds os ltac:(lia) _ b (sim_wf _ _ _ _ HR) (sim_block HR b (or_intror Hb))).
    apply heap_write_ok; [lia|]. intros x Hx. apply (sim_allocated HR b); [by right | lia]. }
  constructor; try apply HR; simpl.
  - apply chain_apart; [|apply HR]. intros c Hc.
    destruct (sim_apart HR c b) as [->|Hd]; [by left | by right | | unfold apart in Hd; lia].
    pose proof (sim_NoDup HR) as Hnd. apply NoDup_app in Hnd as (_ & Hnd & _). by destruct (Hnd b).
  - apply chain_apart; [|apply HR]. intros c ([c' n] & -> & Hc)%list_elem_of_fmap. simpl.
    pose proof (block_header_apart os ltac:(lia) _ b c' n (sim_wf _ _ _ _ HR)
      (sim_block HR b (or_intror Hb)) Hc) as Hd. unfold apart in Hd. lia.
  - intros c n x Hc Hx. apply write_bytes_Some. by apply (sim_bytes _ _ _ _ HR c n).
Qed.

Lemma remove_live (a : Z) (l : list Z) :
  NoDup l -> a ∈ l -> l ≡ₚ a :: filter (.≠ a) l.
Proof.
  intros Hnd Ha. apply NoDup_Permutation; [done | |].
  - constructor; [|by apply NoDup_filter]. by intros [? _]%list_elem_of_filter.
  - intros x. rewrite elem_of_cons, list_elem_of_filter.
    destruct (decide (x = a)) as [->|Hne]; [tauto|]. split; [by right; split|].
    intros [?|[_ ?]]; done.
Qed.

Lemma sim_Deallocate s h r live a :
  sim s h r live -> a ∈ live ->
  exists s' h', Deallocate a s h = Ok (s', h') /\ free_list_head_ s' = a /\
    h' = mkHeap (write_bytes a (store_int 8 (free_list_head_ s)) (bytes h)) (chunks h) /\
    sim s' h' (ref_deallocate a r) (filter (.≠ a) live).
Proof.
  intros HR Ha. pose proof (sim_block HR a (or_intror Ha)) as Hblk.
  pose proof (block_bounds os ltac:(lia) _ a (sim_wf _ _ _ _ HR) Hblk).
  pose proof (sim_NoDup HR) as Hnd. apply NoDup_app in Hnd as (_ & Hnd & Hnd').
  unfold Deallocate, ref_deallocate. destruct (Z.eqb_spec a 0); [lia|].
  rewrite store_next_ok; [|done|intros x Hx; apply (sim_allocated HR a); [by right | lia]].
  cbn [mbind result_bind].
  destruct (sim_write s h r live a a (store_int 8 (free_list_head_ s)) HR Ha) as [_ HR'];
    [lia | rewrite zlen_store_int; lia|].
  eexists _, _. split; [done|]. split; [done|]. split; [done|].
  constructor; simpl; try apply HR'.
  - apply chain_push; [done | apply (sim_free_head HR) | | apply HR]. intros c Hc.
    destruct (sim_apart HR c a) as [->|Hd]; [by left | by right | | unfold apart in Hd; lia].
    by destruct (Hnd a).
  - etrans; [|apply (sim_part _ _ _ _ HR)]. symmetry.
    etrans; [apply (Permutation_app_head (ref_free r)), (remove_live a live); done|].
    symmetry. apply (Permutation_middle (ref_free r)).
Qed.

(** What a new chunk looks like after the loop, and that the memory outside of
    it is the old one. *)
Lemma refill_memory h p n lh :
  0 < p -> p + chunk_size os n < 2 ^ 64 -> 0 <= n -> 0 <= lh < 2 ^ 64 ->
  exists head m,
    (h ← store_next p lh (malloc p (chunk_size os n) junk h);
     thread_blocks (Z.to_nat n) (p + 8) 0 os h)
    = Ok (head, mkHeap m (<[p := chunk_size os n]> (chunks h))) /\
    chain m head (reverse (blocks os p n)) /\ points m p lh /\
    (forall x, ~ (p <= x < p + chunk_size os n) -> m !! x = bytes h !! x) /\
    (forall x, p <= x < p + chunk_size os n -> is_Some (m !! x)).
Proof.
  unfold chunk_size. intros Hp Hend Hn Hlh. unfold malloc. destruct (Z.eqb_spec p 0); [lia|].
  set (m0 := write_bytes p _ _).
  assert (forall x, p <= x < p + (n * os + 8) -> is_Some (m0 !! x)) as Hm0.
  { intros x Hx. unfold m0. rewrite write_bytes_in by (rewrite zlen_replicate; lia).
    apply lookup_lt_is_Some. rewrite length_replicate. lia. }
  rewrite store_next_ok; [|lia|intros x Hx; apply Hm0; nia]. cbn [mbind result_bind bytes chunks].
  set (m1 := write_bytes p (store_int 8 _) m0).
  destruct (thread_blocks_chain (Z.to_nat n) (p + 8) 0 [] (mkHeap m1 (<[p:=n * os + 8]> (chunks h))))
    as (head & m & Hrun & Hc & Hout & Hsome);
    [lia | nia | lia | intros x Hx; apply write_bytes_Some, Hm0; nia | by intros a ?%elem_of_nil | done|].
  rewrite Z2Nat.id, app_nil_r in Hc by lia. rewrite Z2Nat.id in Hout by lia. simpl in Hout, Hsome.
  exists head, m. split; [done|]. split; [done|]. split; [|split].
  - destruct (points_stored p lh m0) as (_ & bs & Hr & Hv); [lia|done|].
    split; [lia|]. exists bs. rewrite (read_bytes_agree 8 p m1); [done|]. intros x Hx. apply Hout. lia.
  - intros x Hx. rewrite Hout by nia. unfold m1, m0.
    rewrite !write_bytes_out; [done | rewrite zlen_replicate; nia | rewrite zlen_store_int; nia].
  - intros x Hx. apply Hsome, write_bytes_Some, Hm0, Hx.
Qed.

Lemma chunk_map_None cs p : chunk_map cs !! p = None -> foreign !! p = None.
Proof.
  induction cs as [|[b n] cs IH]; [done|]. simpl. intros [Hcs _]%lookup_insert_None. by apply IH.
Qed.

(** A chunk in such a state extends the pool. *)
Lemma sim_extend s h r live p n head m :
  sim s h r live -> ref_free r = [] -> n = 40 + zlen (ref_chunks r) ->
  malloc_ok h p (chunk_size os n) ->
  chain m head (reverse (blocks os p n)) -> points m p (list_head_ s) ->
  (forall x, ~ (p <= x < p + chunk_size os n) -> m !! x = bytes h !! x) ->
  (forall x, p <= x < p + chunk_size os n -> is_Some (m !! x)) ->
  sim (mkPool head p (zlen (ref_chunks r) + 1) os) (mkHeap m (<[p := chunk_size os n]> (chunks h)))
    (ref_refill os p r) live.
Proof.
  intros HR Hf Hn (Hp & Hend & Hal & Hnone & Hap) Hc Hpt Hkeep Hsome.
  assert (forall b k, (b, k) ∈ ref_chunks r -> apart p (chunk_size os n) b (chunk_size os k)) as Hapart.
  { intros b k Hb. apply Hap. rewrite (sim_chunks _ _ _ _ HR). apply chunk_map_elem; [apply HR | done]. }
  unfold ref_refill. rewrite Hf, <- Hn. constructor; simpl; try done.
  - rewrite zlen_cons. lia.
  - repeat split; try done; [|apply HR]. apply Forall_forall. intros [b k] Hb. by apply Hapart.
  - constructor; [|apply HR]. simpl. apply (chunk_map_None (ref_chunks r)).
    by rewrite <- (sim_chunks _ _ _ _ HR).
  - split; [done|]. exists (list_head_ s). split; [done|].
    apply (chain_agree (bytes h)); [|apply HR]. intros a x ([b k] & -> & Hb)%list_elem_of_fmap Hx.
    apply Hkeep. pose proof (chunks_wf_elem os _ b k (sim_wf _ _ _ _ HR) Hb).
    specialize (Hapart b k Hb). simpl in Hx. unfold apart, chunk_size in *. nia.
  - apply Permutation_app; [apply reverse_Permutation|].
    etrans; [|apply (sim_part _ _ _ _ HR)]. by rewrite Hf.
  - by rewrite (sim_chunks _ _ _ _ HR).
  - intros b k x [[= -> ->]|Hb]%elem_of_cons Hx; [by apply Hsome|].
    rewrite Hkeep; [by apply (sim_bytes _ _ _ _ HR b k)|]. specialize (Hapart b k Hb).
    unfold apart in Hapart. lia.
Qed.

Lemma sim_refill s h r live p :
  sim s h r live -> ref_free r = [] -> malloc_ok h p (chunk_size os (40 + zlen (ref_chunks r))) ->
  exists s' h', Allocate_refill junk p s h = Ok (s', h') /\ sim s' h' (ref_refill os p r) live /\
    forall x, ~ (p <= x < p + chunk_size os (40 + zlen (ref_chunks r))) -> bytes h' !! x = bytes h !! x.
Proof.
  intros HR Hf Hok. pose proof Hok as (Hp & Hend & _).
  destruct (next_chunk_fits os ltac:(lia) (ref_chunks r)) as [Hsz Hcnt]; [lia | apply HR|].
  pose proof (zlen_nonneg (ref_chunks r)) as Hcs0. set (n := 40 + zlen (ref_chunks r)) in *.
  destruct (refill_memory h p n (list_head_ s) Hp Hend ltac:(lia) (sim_list_head HR))
    as (head & m & Hrun & Hc & Hpt & Hkeep & Hsome).
  eexists _, _. split; [|split; [by eapply sim_extend | done]].
  unfold Allocate_refill, sizeof_MemoryBlockNode, kInitialMallocSize.
  rewrite (sim_time _ _ _ _ HR), (sim_size _ _ _ _ HR), (proj2 (sim_free_empty HR) Hf).
  unfold chunk_size in *. rewrite (u64_small (40 + _)) by lia. fold n.
  rewrite (u64_small (n * os)), (u64_small (n * os + 8)), (u64_small (p + 8)) by nia.
  rewrite (u64_small (zlen _ + 1)) by lia.
  destruct (store_next _ _ _) as [h1|] eqn:Hst; [|done]. cbn [mbind result_bind] in *. by rewrite Hrun.
Qed.

(** Taking the first free block. *)
Lemma sim_pop s h r live a l :
  sim s h r live -> ref_free r = a :: l ->
  exists next, load_next (free_list_head_ s) h = Ok next /\ free_list_head_ s = a /\
    sim (mkPool next (list_head_ s) (malloc_time_ s) (object_size_ s)) h (mkRef l (ref_chunks r)) (a :: live).
Proof.
  intros HR Hf. pose proof (sim_free _ _ _ _ HR) as Hc. rewrite Hf in Hc.
  destruct Hc as (Ha & next & Hpt & Hc). exists next. rewrite Ha. split; [by apply load_next_points|].
  split; [done|]. constructor; try apply HR; [done|]. simpl.
  etrans; [|apply (sim_part _ _ _ _ HR)]. rewrite Hf. symmetry. apply (Permutation_middle l).
Qed.

Lemma refill_nonempty p r : exists a l, ref_free (ref_refill os p r) = a :: l.
Proof.
  unfold ref_refill. destruct (ref_free r) as [|a l] eqn:Hf; [|by rewrite Hf; eauto]. simpl.
  destruct (reverse (blocks os p _)) as [|a l] eqn:Hr; [|by eauto].
  apply (f_equal length) in Hr. rewrite length_reverse in Hr. unfold blocks in Hr.
  rewrite length_fmap, length_seqZ in Hr. pose proof (zlen_nonneg (ref_chunks r)). simpl in Hr. lia.
Qed.

Lemma sim_Allocate s h r live p :
  sim s h r live -> answer_ok os p s h ->
  exists s' h', Allocate junk p s h = Ok ((ref_allocate os p r).1, s', h') /\
    sim s' h' (ref_allocate os p r).2 ((ref_allocate os p r).1 :: live) /\
    forall a, a ∈ live -> read_bytes (Z.to_nat os) a (bytes h') = read_bytes (Z.to_nat os) a (bytes h).
Proof.
  intros HR Hok. destruct (refill_nonempty p r) as (a & l & Hne).
  assert (exists s1 h1, (if free_list_head_ s =? 0 then Allocate_refill junk p s h else Ok (s, h)) = Ok (s1, h1) /\
    sim s1 h1 (ref_refill os p r) live /\
    forall b, b ∈ live -> read_bytes (Z.to_nat os) b (bytes h1) = read_bytes (Z.to_nat os) b (bytes h))
    as (s1 & h1 & Hrun & HR1 & Hkeep).
  { destruct (Z.eqb_spec (free_list_head_ s) 0) as [H0|H0].
    - specialize (Hok H0). rewrite (sim_time _ _ _ _ HR) in Hok.
      destruct (sim_refill s h r live p HR) as (s1 & h1 & Hrun & HR1 & Hout);
        [by apply (sim_free_empty HR) | done|]. exists s1, h1. split; [done|]. split; [done|].
      intros b Hb. apply read_bytes_agree. intros x Hx. apply Hout. rewrite Z2Nat.id in Hx by lia.
      apply (or_intror (A := b ∈ ref_free r)), (sim_block HR), elem_of_all_blocks in Hb as (c & n & Hc & Hb).
      apply block_in_chunk in Hb; [|lia]. destruct Hok as (_ & _ & _ & _ & Hap).
      pose proof (Hap c (chunk_size os n)) as Hd. rewrite (sim_chunks _ _ _ _ HR) in Hd.
      specialize (Hd (chunk_map_elem _ _ _ (sim_wf _ _ _ _ HR) Hc)). lia.
    - exists s, h. split; [done|]. split; [|done]. unfold ref_refill.
      destruct (ref_free r) eqn:Hf; [|done]. by destruct H0; apply (sim_free_empty HR). }
  destruct (sim_pop s1 h1 _ live a l HR1 Hne) as (next & Hld & Ha & HR2).
  unfold Allocate, ref_allocate. rewrite Hrun, Hne. cbn [mbind result_bind]. rewrite Hld.
  cbn [mbind result_bind]. rewrite Ha. eauto.
Qed.
End simulation.

(** ** The pool keeps its contract *)

Section contract.
Context `{!HostOrder} (junk : byte) (os : Z) (Hos : 8 <= os < 2 ^ 58) (foreign : gmap Z Z).
Import Ref Blocks.

Local Abbreviation simw w r := (sim os foreign (w_pool w) (w_heap w) r (w_live w)).

Definition op_ok (o : op) (w : World) (r : RefPool) : Prop :=
  exists w', do_op junk o w = Ok ((ref_op os o r).1, w') /\ simw w' (ref_op os o r).2 /\
    forall A, represents os w A -> exists A', Alloc.step os A o A' /\ represents os w' A'.

Lemma sim_contents w r a :
  simw w r -> a ∈ w_live w ->
  exists c, read_bytes (Z.to_nat os) a (bytes (w_heap w)) = Some c /\ zlen c = os.
Proof.
  intros HR Ha. destruct (read_bytes_total (Z.to_nat os) a (bytes (w_heap w))) as [c Hc].
  { intros x Hx. apply (sim_allocated os Hos foreign HR a); [by right | lia]. }
  exists c. split; [done|]. apply read_bytes_Some in Hc as [Hl _]. unfold zlen. lia.
Qed.

(** A write into one block in use leaves the others as they are. *)
Lemma read_other w r a b off bs :
  simw w r -> a ∈ w_live w -> b ∈ w_live w -> a <> b -> 0 <= off -> off + zlen bs <= os ->
  read_bytes (Z.to_nat os) a (write_bytes (b + off) bs (bytes (w_heap w)))
  = read_bytes (Z.to_nat os) a (bytes (w_heap w)).
Proof.
  intros HR Ha Hb Hne Ho Hend. apply read_write_apart.
  destruct (sim_apart os Hos foreign HR a b) as [->|Hd]; [by right | by right | done|].
  unfold apart in Hd. lia.
Qed.

Lemma op_ok_allocate p w r : simw w r -> legal os (OAllocate p) w -> op_ok (OAllocate p) w r.
Proof.
  intros HR Hok. unfold op_ok, do_op, ref_op.
  destruct (sim_Allocate junk os Hos foreign _ _ r _ p HR Hok) as (s & h & Hrun & HR' & Hkeep).
  destruct (ref_allocate os p r) as [a r'] eqn:Hra. simpl in *. rewrite Hrun. cbn [mbind result_bind].
  eexists. split; [done|]. split; [done|]. intros A HA. set (w' := mkWorld s h (a :: w_live w)) in *.
  assert (a ∉ w_live w) as Hni.
  { pose proof (sim_NoDup os Hos foreign HR') as Hnd. apply NoDup_app in Hnd as (_ & _ & Hnd).
    by apply NoDup_cons in Hnd as [? _]. }
  destruct (sim_contents w' r' a HR') as (c & Hc & Hlen); [by left|].
  exists (<[a := c]> A). split.
  - constructor; [|  | done|].
    + destruct (A !! a) eqn:HAa; [|done]. by apply HA in HAa as [? _].
    + pose proof (block_bounds os ltac:(lia) _ a (sim_wf _ _ _ _ _ _ HR')
        (sim_block os foreign HR' a ltac:(right; by left))). lia.
    + intros b d [Hb _]%HA. destruct (sim_apart os Hos foreign HR' a b) as [->|?];
        [right; by left | right; by right | done | done].
  - intros b d. simpl. rewrite elem_of_cons. destruct (decide (b = a)) as [->|Hne].
    + rewrite lookup_insert_eq. simpl in Hc. rewrite Hc. split; [intros [= <-]; auto | by intros [_ [= <-]]].
    + rewrite lookup_insert_ne by done. rewrite (HA b d). split.
      * intros [Hb Hd]. rewrite Hkeep by done. auto.
      * intros [[->|Hb] Hd]; [done|]. by rewrite <- Hkeep.
Qed.

Lemma op_ok_deallocate a w r : simw w r -> a ∈ w_live w -> op_ok (ODeallocate a) w r.
Proof.
  intros HR Ha. unfold op_ok, do_op, ref_op.
  destruct (sim_Deallocate os Hos foreign _ _ r _ a HR Ha) as (s & h & Hrun & _ & Hh & HR').
  rewrite Hrun. cbn [mbind result_bind]. eexists. split; [done|]. split; [done|].
  intros A HA. exists (delete a A). split; [constructor|]. intros b c. simpl.
  rewrite list_elem_of_filter. destruct (decide (b = a)) as [->|Hne].
  { rewrite lookup_delete_eq. split; [done|]. by intros [[? _] _]. }
  rewrite lookup_delete_ne by done. rewrite (HA b c), Hh. simpl.
  pose proof (fun Hb => read_other w r b a 0 (store_int 8 (free_list_head_ (w_pool w))) HR Hb Ha Hne) as Ho.
  rewrite zlen_store_int, Z.add_0_r in Ho.
  split; [intros [Hb Hc] | intros [[_ Hb] Hc]]; rewrite Ho in * by (done || lia); done.
Qed.

Lemma op_ok_null w r : simw w r -> op_ok (ODeallocate 0) w r.
Proof.
  intros HR. exists w. split; [|split; [done|]].
  - unfold do_op, Deallocate. simpl. destruct w as [s h l]. simpl. do 3 f_equal.
    assert (0 ∉ l) as Hl.
    { intros H0. pose proof (block_bounds os ltac:(lia) _ 0 (sim_wf _ _ _ _ _ _ HR)
        (sim_block os foreign HR 0 (or_intror H0))). lia. }
    clear HR. induction l as [|x l IH]; [done|]. apply not_elem_of_cons in Hl as [Hx Hl].
    rewrite filter_cons_True by done. f_equal. by apply IH.
  - intros A HA. exists (delete 0 A). split; [constructor|]. intros b c.
    rewrite lookup_delete_Some, (HA b c). split; [tauto|]. intros [Hb Hc]. split; [|done].
    pose proof (block_bounds os ltac:(lia) _ b (sim_wf _ _ _ _ _ _ HR)
      (sim_block os foreign HR b (or_intror Hb))). lia.
Qed.

Lemma op_ok_write b off bs w r :
  simw w r -> legal os (OWrite b off bs) w -> op_ok (OWrite b off bs) w r.
Proof.
  intros HR (Hb & Ho & Hend). unfold op_ok, do_op, ref_op.
  destruct (sim_write os Hos foreign _ _ r _ b (b + off) bs HR Hb) as [Hrun HR']; [lia | lia|].
  rewrite Hrun. cbn [mbind result_bind]. eexists. split; [done|]. split; [done|].
  intros A HA. destruct (sim_contents w r b HR Hb) as (c & Hc & Hlen).
  exists (<[b := ztake off c ++ bs ++ zdrop (off + zlen bs) c]> A). split.
  { constructor. by apply HA. }
  pose proof (read_write_inside (Z.to_nat os) b off bs c (bytes (w_heap w)) Hc Ho ltac:(lia)) as Hw.
  intros a d. simpl. destruct (decide (a = b)) as [->|Hne].
  - rewrite lookup_insert_eq, Hw. split; [by intros [= <-] | intros [_ [= <-]]; done].
  - rewrite lookup_insert_ne by done. rewrite (HA a d).
    split; intros [Ha Hd]; rewrite (read_other w r) in * by done; done.
Qed.

Lemma do_op_ok o w r : simw w r -> legal os o w -> op_ok o w r.
Proof.
  intros HR Hl. destruct o as [p|a|b off bs].
  - by apply op_ok_allocate.
  - destruct Hl as [->|Ha]; [by apply op_ok_null | by apply op_ok_deallocate].
  - by apply op_ok_write.
Qed.

Lemma run_ops_ok ops w r :
  simw w r -> legal_run junk os ops w ->
  exists w', run_ops junk ops w = Ok ((ref_run os ops r).1, w') /\ simw w' (ref_run os ops r).2 /\
    forall A, represents os w A -> exists A', Alloc.steps os A ops A' /\ represents os w' A'.
Proof.
  revert w r. induction ops as [|o ops IH]; intros w r HR Hl.
  { exists w. split; [done|]. split; [done|]. intros A HA. exists A. split; [constructor | done]. }
  destruct Hl as [Hl Hrest]. destruct (do_op_ok o w r HR Hl) as (w1 & Hrun & HR1 & Hstep).
  simpl. rewrite Hrun in *. cbn [mbind result_bind]. destruct (ref_op os o r) as [x r1]. simpl in *.
  destruct (IH w1 r1 HR1 Hrest) as (w2 & Hrun2 & HR2 & Hsteps). rewrite Hrun2. cbn [mbind result_bind].
  destruct (ref_run os ops r1) as [l r2]. simpl in *. exists w2. split; [done|]. split; [done|].
  intros A HA. destruct (Hstep A HA) as (B & HAB & HB). destruct (Hsteps B HB) as (C & HBC & HC).
  exists C. split; [by econstructor | done].
Qed.

(** ** The destructor *)

Lemma chunk_map_head b n cs :
  chunks_wf os ((b, n) :: cs) -> Forall (fun c => foreign !! c.1 = None) ((b, n) :: cs) ->
  delete b (chunk_map os foreign ((b, n) :: cs)) = chunk_map os foreign cs.
Proof.
  intros Hcs Hf. simpl. rewrite delete_insert_eq. apply delete_id.
  destruct Hcs as (Hn & _ & _ & _ & Hap & Hcs). apply Forall_cons in Hf as [Hb _]. simpl in Hb.
  pose proof (zlen_nonneg cs). assert (40 <= n) as Hn40 by lia. clear Hn.
  induction cs as [|[b' n'] cs IH]; [done|]. simpl.
  apply Forall_cons in Hap as [Hap1 Hap]. destruct Hcs as (Hn' & _ & _ & _ & _ & Hcs).
  unfold apart, chunk_size in Hap1. simpl in Hap1. rewrite zlen_cons in *. pose proof (zlen_nonneg cs).
  rewrite lookup_insert_ne; [by apply IH|]. intros ->. nia.
Qed.

Lemma Destroy_ok cs fuel s h :
  chunks_wf os cs -> Forall (fun c => foreign !! c.1 = None) cs ->
  chain (bytes h) (list_head_ s) cs.*1 -> chunks h = chunk_map os foreign cs ->
  (length cs <= fuel)%nat ->
  exists s' h', Destroy_loop fuel s h = Ok (Some (s', h')) /\ list_head_ s' = 0 /\ chunks h' = foreign.
Proof.
  revert fuel s h. induction cs as [|[b n] cs IH]; intros fuel s h Hcs Hf Hc Hch Hfuel.
  { simpl in Hc, Hch. exists s, h. destruct fuel; simpl; by rewrite Hc. }
  destruct Hc as (Hhd & next & Hpt & Hc). destruct fuel as [|fuel]; [simpl in Hfuel; lia|].
  simpl in Hhd, Hpt. cbn [Destroy_loop]. rewrite Hhd. pose proof Hcs as (_ & Hb & _ & _ & Hap & Hcs').
  destruct (Z.eqb_spec b 0); [lia|]. rewrite (load_next_points b next h Hpt).
  cbn [mbind result_bind]. unfold free. rewrite Hch. simpl (chunk_map _ _ _ !! b). rewrite lookup_insert_eq.
  cbn [mbind result_bind].
  match goal with |- context [Destroy_loop fuel ?s' ?h'] => destruct (IH fuel s' h') as (s2 & h2 & ? & ? & ?) end;
    [done | by apply Forall_cons in Hf as [_ ?] | | | simpl in Hfuel; lia | by eauto].
  - simpl. eapply chain_agree; [|done]. intros a x ([a' k] & -> & Ha)%list_elem_of_fmap Hx.
    rewrite map_lookup_filter. destruct (bytes h !! x); [|done]. simpl. rewrite option_guard_True; [done|].
    rewrite Forall_forall in Hap. pose proof (Hap (a', k) Ha) as Hd.
    pose proof (chunks_wf_elem os cs a' k Hcs' Ha). unfold apart, chunk_size in *. simpl in *. nia.
  - simpl. change (<[b:=chunk_size os n]> _) with (chunk_map os foreign ((b, n) :: cs)).
    by apply chunk_map_head.
Qed.
End contract.

(** ** Properties *)

Section properties.
Context `{!HostOrder} (junk : byte).
Import Ref Blocks.

(** A new pool in a program whose other allocations are [foreign]. *)
Definition fresh_world (ObjectSize : Z) (m : gmap Z byte) (foreign : gmap Z Z) : World :=
  mkWorld (MemoryPool_new ObjectSize) (mkHeap m foreign) [].

Lemma fresh_run ObjectSize m foreign ops :
  ObjectSize < 2 ^ 58 -> legal_run junk (Z.max 8 ObjectSize) ops (fresh_world ObjectSize m foreign) ->
  exists w, run_ops junk ops (fresh_world ObjectSize m foreign)
              = Ok ((ref_run (Z.max 8 ObjectSize) ops (mkRef [] [])).1, w) /\
    sim (Z.max 8 ObjectSize) foreign (w_pool w) (w_heap w)
      (ref_run (Z.max 8 ObjectSize) ops (mkRef [] [])).2 (w_live w) /\
    exists A, Alloc.steps (Z.max 8 ObjectSize) ∅ ops A /\ represents (Z.max 8 ObjectSize) w A.
Proof.
  intros Hsz Hl. set (os := Z.max 8 ObjectSize) in *.
  destruct (run_ops_ok junk os ltac:(lia) foreign ops (fresh_world ObjectSize m foreign) (mkRef [] []))
    as (w & Hrun & HR & Habs); [apply (sim_new os ltac:(lia) foreign ObjectSize m); done | done|].
  exists w. split; [done|]. split; [done|]. apply Habs. intros a c. rewrite lookup_empty.
  split; [done|]. by intros [?%elem_of_nil _].
Qed.

(** C10. The pool implements an allocator: whatever a client does that keeps to
    the rules (allocating, giving blocks back, writing into blocks it has), in
    any order and with any addresses from [malloc], no operation faults; every
    block handed out is apart from all blocks in use, and the contents of a
    block change only by writes to that block. *)
Theorem pool_refines_allocator ObjectSize m foreign ops :
  ObjectSize < 2 ^ 58 -> legal_run junk (Z.max 8 ObjectSize) ops (fresh_world ObjectSize m foreign) ->
  exists l w A, run_ops junk ops (fresh_world ObjectSize m foreign) = Ok (l, w) /\
    Alloc.steps (Z.max 8 ObjectSize) ∅ ops A /\ represents (Z.max 8 ObjectSize) w A.
Proof. intros Hsz Hl. destruct (fresh_run _ _ _ _ Hsz Hl) as (w & ? & _ & A & ? & ?). eauto 10. Qed.

(** C21. The free list threaded through the blocks is equivalent to a list kept
    outside of them: the addresses returned are those of the reference pool,
    which uses the block given back last first and takes a larger chunk only
    when no block is free, its last block first. *)
Theorem pool_matches_reference ObjectSize m foreign ops :
  ObjectSize < 2 ^ 58 -> legal_run junk (Z.max 8 ObjectSize) ops (fresh_world ObjectSize m foreign) ->
  exists w, run_ops junk ops (fresh_world ObjectSize m foreign)
              = Ok ((ref_run (Z.max 8 ObjectSize) ops (mkRef [] [])).1, w) /\
    chain (bytes (w_heap w)) (free_list_head_ (w_pool w))
      (ref_free (ref_run (Z.max 8 ObjectSize) ops (mkRef [] [])).2) /\
    malloc_time_ (w_pool w) = zlen (ref_chunks (ref_run (Z.max 8 ObjectSize) ops (mkRef [] [])).2).
Proof.
  intros Hsz Hl. destruct (fresh_run _ _ _ _ Hsz Hl) as (w & ? & HR & _).
  exists w. split; [done|]. split; apply HR.
Qed.

Lemma length_all_blocks os cs :
  chunks_wf os cs -> 2 * zlen (all_blocks os cs) = zlen cs * (79 + zlen cs).
Proof.
  induction cs as [|[b n] cs IH]; [done|]. intros (-> & _ & _ & _ & _ & Hcs).
  change (all_blocks os ((b, 40 + zlen cs) :: cs)) with (blocks os b (40 + zlen cs) ++ all_blocks os cs).
  rewrite zlen_app, zlen_cons. specialize (IH Hcs). pose proof (zlen_nonneg cs).
  assert (zlen (blocks os b (40 + zlen cs)) = 40 + zlen cs) as ->.
  { unfold blocks. unfold zlen at 1. rewrite length_fmap, length_seqZ. lia. }
  nia.
Qed.

(** No block is lost or duplicated: after [k] chunks the free list (which
    ends) and the blocks in use are together 40 + 41 + ... + (40 + k - 1)
    different blocks, and if objects have a multiple of 8 bytes each of them is
    aligned to 8. *)
Theorem pool_blocks_accounted ObjectSize m foreign ops :
  ObjectSize < 2 ^ 58 -> legal_run junk (Z.max 8 ObjectSize) ops (fresh_world ObjectSize m foreign) ->
  exists l w free, run_ops junk ops (fresh_world ObjectSize m foreign) = Ok (l, w) /\
    chain (bytes (w_heap w)) (free_list_head_ (w_pool w)) free /\
    NoDup (free ++ w_live w) /\
    2 * zlen (free ++ w_live w) = malloc_time_ (w_pool w) * (79 + malloc_time_ (w_pool w)) /\
    (ObjectSize mod 8 = 0 -> Forall (fun a => a mod 8 = 0) (free ++ w_live w)).
Proof.
  intros Hsz Hl. destruct (fresh_run _ _ _ _ Hsz Hl) as (w & Hrun & HR & _).
  eexists _, w, _. split; [done|]. split; [apply HR|]. split; [|split].
  - eapply sim_NoDup; [|done]. lia.
  - rewrite (sim_time _ _ _ _ _ _ HR), <- length_all_blocks with (os := Z.max 8 ObjectSize) by apply HR.
    unfold zlen. by rewrite (Permutation_length (sim_part _ _ _ _ _ _ HR)).
  - intros H8. apply Forall_forall. intros a Ha%elem_of_app.
    apply (sim_block _ _ HR), elem_of_all_blocks in Ha as (b & n & Hc & (i & Hi & ->)%elem_of_blocks).
    destruct (chunks_wf_elem _ _ b n (sim_wf _ _ _ _ _ _ HR) Hc) as (_ & _ & _ & Hb).
    assert (Z.max 8 ObjectSize mod 8 = 0) as Hos8 by (destruct (Z.max_spec 8 ObjectSize) as [[_ ->]|[_ ->]]; done).
    apply Z.mod_divide in Hb as [kb ->], Hos8 as [ko ->]; [|lia|lia].
    apply Z.mod_divide; [lia|]. exists (2 * kb + 1 + i * ko). lia.
Qed.

(** C27. The destructor ends after as many rounds as there are chunks and frees
    every chunk exactly once: the allocations left are those of the rest of
    the program. *)
Theorem pool_destructor_frees_all ObjectSize m foreign ops :
  ObjectSize < 2 ^ 58 -> legal_run junk (Z.max 8 ObjectSize) ops (fresh_world ObjectSize m foreign) ->
  exists l w s h, run_ops junk ops (fresh_world ObjectSize m foreign) = Ok (l, w) /\
    Destroy_loop (Z.to_nat (malloc_time_ (w_pool w))) (w_pool w) (w_heap w) = Ok (Some (s, h)) /\
    list_head_ s = 0 /\ chunks h = foreign.
Proof.
  intros Hsz Hl. destruct (fresh_run _ _ _ _ Hsz Hl) as (w & Hrun & HR & _).
  edestruct (Destroy_ok (Z.max 8 ObjectSize) ltac:(lia) foreign) as (s & h & ? & ? & ?);
    [apply HR .. | | by eauto 10].
  rewrite (sim_time _ _ _ _ _ _ HR). unfold zlen. lia.
Qed.
End properties.

(** ** Objects *)

Lemma read_bytes_prefix n k a m c :
  read_bytes n a m = Some c -> (k <= n)%nat -> read_bytes k a m = Some (take k c).
Proof.
  intros [Hl Hi]%read_bytes_Some Hk. apply read_bytes_Some. rewrite length_take. split; [lia|].
  intros i Hlt. rewrite lookup_take_lt by lia. apply Hi. lia.
Qed.

(** The operation neither gives back nor writes to the block [a]. *)
Definition leaves (a : Z) (o : op) : Prop :=
  match o with OAllocate _ => True | ODeallocate b => b <> a | OWrite b _ _ => b <> a end.

Lemma alloc_steps_leave os A ops B a c :
  Alloc.steps os A ops B -> Forall (leaves a) ops -> A !! a = Some c -> B !! a = Some c.
Proof.
  induction 1 as [A|A o B ops C Hst _ IH]; [done|]. intros [Ho Hops]%Forall_cons Ha.
  apply IH; [done|]. destruct Hst as [A p b d Hb _ _ _|A b|A b off bs d Hb]; simpl in Ho.
  - rewrite lookup_insert_ne; [done|]. intros ->. congruence.
  - by rewrite lookup_delete_ne.
  - by rewrite lookup_insert_ne.
Qed.

Section objects.
Context `{!HostOrder} (junk : byte).
Context {Args E : Type} (construct : Args -> list byte) (destroy : list byte -> E -> E).
Context (ObjectSize : Z) (Hsz : 0 <= ObjectSize < 2 ^ 58).
Context (Hconstruct : forall args, zlen (construct args) = ObjectSize).
Import Ref Blocks.

Lemma New_as_ops foreign w r args p :
  sim (Z.max 8 ObjectSize) foreign (w_pool w) (w_heap w) r (w_live w) ->
  answer_ok (Z.max 8 ObjectSize) p (w_pool w) (w_heap w) ->
  exists a w' r' c, New junk false construct args p w = Ok (a, w') /\ a <> 0 /\ a ∈ w_live w' /\
    sim (Z.max 8 ObjectSize) foreign (w_pool w') (w_heap w') r' (w_live w') /\
    read_bytes (Z.to_nat (Z.max 8 ObjectSize)) a (bytes (w_heap w')) = Some c /\
    take (Z.to_nat ObjectSize) c = construct args.
Proof.
  intros HR Hok. set (os := Z.max 8 ObjectSize) in *. assert (8 <= os < 2 ^ 58) as Hos by lia.
  destruct (sim_Allocate junk os Hos foreign _ _ r _ p HR Hok) as (s & h & Hrun & HR1 & _).
  destruct (ref_allocate os p r) as [a r1]. simpl in *.
  set (w1 := mkWorld s h (a :: w_live w)).
  destruct (sim_contents os Hos foreign w1 r1 a HR1) as (c & Hc & Hlen); [by left|]. simpl in Hc.
  destruct (sim_write os Hos foreign s h r1 (a :: w_live w) a a (construct args) HR1) as [Hw HR2];
    [by left | lia | rewrite Hconstruct; lia|].
  pose proof (block_bounds os ltac:(lia) _ a (sim_wf _ _ _ _ _ _ HR1)
    (sim_block os foreign HR1 a ltac:(right; by left))).
  pose proof (read_write_inside _ a 0 (construct args) c _ Hc ltac:(lia) ltac:(rewrite Hconstruct; lia)) as Hrd.
  rewrite Z.add_0_r in Hrd. unfold New, NewIf. rewrite Hrun. cbn [mbind result_bind].
  rewrite Hw. cbn [mbind result_bind]. eexists _, _, _, _. split; [done|]. split; [lia|].
  split; [by left|]. split; [done|]. split; [done|]. rewrite ztake_0. cbn [app].
  rewrite take_app_le by (pose proof (Hconstruct args); unfold zlen in *; lia).
  apply take_ge. pose proof (Hconstruct args). unfold zlen in *. lia.
Qed.

(** [Delete] of an object in use runs its destructor and gives its block back. *)
Lemma Delete_as_ops foreign w r a e :
  sim (Z.max 8 ObjectSize) foreign (w_pool w) (w_heap w) r (w_live w) -> a ∈ w_live w ->
  exists c w' r', read_bytes (Z.to_nat (Z.max 8 ObjectSize)) a (bytes (w_heap w)) = Some c /\
    Delete false destroy ObjectSize a w e = Ok (w', destroy (take (Z.to_nat ObjectSize) c) e) /\
    w_live w' = filter (.≠ a) (w_live w) /\
    sim (Z.max 8 ObjectSize) foreign (w_pool w') (w_heap w') r' (w_live w').
Proof using Hsz.
  intros HR Ha. set (os := Z.max 8 ObjectSize) in *. assert (8 <= os < 2 ^ 58) as Hos by lia.
  destruct (sim_contents os Hos foreign w r a HR Ha) as (c & Hc & Hlen).
  pose proof (block_bounds os ltac:(lia) _ a (sim_wf _ _ _ _ _ _ HR) (sim_block os foreign HR a (or_intror Ha))).
  destruct (sim_Deallocate os ltac:(lia) foreign _ _ _ _ a HR Ha) as (s & h & Hd & _ & _ & HR').
  exists c, (mkWorld s h (filter (.≠ a) (w_live w))), (ref_deallocate a r). split; [done|].
  unfold Delete, DeleteIf, heap_read. destruct (Z.eqb_spec a 0); [lia|].
  rewrite (read_bytes_prefix _ (Z.to_nat ObjectSize) _ _ _ Hc) by lia. cbn [mbind result_bind].
  rewrite Hd. by split.
Qed.

Lemma represents_exists foreign w r :
  sim (Z.max 8 ObjectSize) foreign (w_pool w) (w_heap w) r (w_live w) ->
  exists A, represents (Z.max 8 ObjectSize) w A.
Proof.
  intros HR. set (os := Z.max 8 ObjectSize) in *.
  pose proof (sim_NoDup os ltac:(lia) foreign HR) as (_ & _ & Hnd)%NoDup_app.
  exists (list_to_map ((fun b => (b, default [] (read_bytes (Z.to_nat os) b (bytes (w_heap w))))) <$> w_live w)).
  intros a c. rewrite <- elem_of_list_to_map.
  - rewrite list_elem_of_fmap. split.
    + intros (b & [= -> ->] & Hb). split; [done|].
      destruct (sim_contents os ltac:(lia) foreign w r b HR Hb) as (c & -> & _). done.
    + intros [Ha Hc]. exists a. by rewrite Hc.
  - rewrite <- list_fmap_compose. cbn. by rewrite list_fmap_id.
Qed.

End objects.

(** ** Concrete pools *)

Module Concrete.
#[local] Existing Instance x86_host.

Definition foreign : gmap Z Z := {[1024 := 100]}.
Definition start : World := fresh_world 16 ∅ foreign.

(** Two blocks, a write into the first one, the second one given back and
    used again. *)
Definition session : list op :=
  [OAllocate 4096; OAllocate 0; OWrite 4728 3 [Byte.x41; Byte.x42]; ODeallocate 4712;
   ODeallocate 0; OAllocate 0].

Lemma session_legal : legal_run Byte.x00 16 session start.
Proof. apply (bool_decide_unpack _). vm_compute. exact I. Qed.

Lemma pool_refines_allocator_witness :
  exists l w A, run_ops Byte.x00 session start = Ok (l, w) /\
    Alloc.steps 16 ∅ session A /\ represents 16 w A.
Proof. apply (pool_refines_allocator Byte.x00 16 ∅ foreign session); [lia | exact session_legal]. Defined.

Lemma pool_matches_reference_witness :
  exists w, run_ops Byte.x00 session start = Ok ([4728; 4712; 4712], w) /\
    chain (bytes (w_heap w)) (free_list_head_ (w_pool w))
      (Ref.ref_free (ref_run 16 session (Ref.mkRef [] [])).2) /\
    malloc_time_ (w_pool w) = 1.
Proof.
  change [4728; 4712; 4712] with (ref_run 16 session (Ref.mkRef [] [])).1.
  exact (pool_matches_reference Byte.x00 16 ∅ foreign session ltac:(lia) session_legal).
Defined.

Lemma pool_blocks_accounted_witness :
  exists l w free, run_ops Byte.x00 session start = Ok (l, w) /\
    chain (bytes (w_heap w)) (free_list_head_ (w_pool w)) free /\
    NoDup (free ++ w_live w) /\
    2 * zlen (free ++ w_live w) = malloc_time_ (w_pool w) * (79 + malloc_time_ (w_pool w)) /\
    Forall (fun a => a mod 8 = 0) (free ++ w_live w).
Proof.
  destruct (pool_blocks_accounted Byte.x00 16 ∅ foreign session ltac:(lia) session_legal)
    as (l & w & free & H1 & H2 & H3 & H4 & H5).
  exists l, w, free. split; [exact H1|]. split; [exact H2|]. split; [exact H3|].
  split; [exact H4 | by apply H5].
Defined.

Lemma pool_destructor_frees_all_witness :
  exists l w s h, run_ops Byte.x00 session start = Ok (l, w) /\
    Destroy_loop (Z.to_nat (malloc_time_ (w_pool w))) (w_pool w) (w_heap w) = Ok (Some (s, h)) /\
    list_head_ s = 0 /\ chunks h = foreign.
Proof. exact (pool_destructor_frees_all Byte.x00 16 ∅ foreign session ltac:(lia) session_legal). Defined.

(** Objects of 16 bytes made from one byte; the destructor counts. *)
Definition build (b : byte) : list byte := replicate 16 b.
Definition count (o : list byte) (n : list (list byte)) : list (list byte) := o :: n.


(** A block given back twice is handed out twice: two objects share it. *)
Lemma double_deallocate_aliases :
  exists w, run_ops Byte.x00
    [OAllocate 4096; ODeallocate 4728; ODeallocate 4728; OAllocate 0; OAllocate 0] start
  = Ok ([4728; 4728; 4728], w).
Proof. eexists. vm_compute. reflexivity. Qed.

(** When [malloc] fails the null pointer it returns is written through. *)
Lemma allocate_out_of_memory :
  Allocate Byte.x00 0 (w_pool start) (w_heap start) = Fault NullPointer.
Proof. vm_compute. reflexivity. Qed.
End Concrete.

(** The first block of a chunk is never aligned to 16, whatever the size of the
    objects. *)
Lemma first_block_misaligned os cs b n :
  Blocks.chunks_wf os cs -> (b, n) ∈ cs -> hd 0 (Ref.blocks os b n) mod 16 = 8.
Proof.
  intros Hcs Hc. destruct (Blocks.chunks_wf_elem os cs b n Hcs Hc) as (Hn & _ & _ & Hb).
  unfold Ref.blocks. rewrite seqZ_cons by lia. simpl. rewrite Z.add_0_r, Z.add_mod, Hb by lia. done.
Qed.
