(* ===== verification/ConnectionPool.v ===== *)
(** * The connections of a server in its object pool

    The composition of the loops of a server with the pool their connections
    live in: [ServerReactorManager::NewOneConnectingFromObjectPool] and
    [DeleteOneConnectingFromObjectPool] (src/reactor_manager.h) as the callbacks
    [CreateConnectionCallback_] and [DestroyConnectionCallback_] of
    [EventManager::InsertNewConnection] and [DestroyClosedConnections]
    (src/event_manager.cc). The loops are used through what an object pool
    promises, [PoolLaws]; MemoryPoolFacts discharges it for [ObjectPool]. Each
    call on the pool is one step: it is made under [object_pool_lock_]. *)

From stdpp Require Import prelude gmap list.
From S2P Require Import Prelude.
From S2P Require Import IoBuffer.
From S2P Require Import Poller.
From S2P Require Import PollerFacts.
From S2P Require Import Connecting.
From S2P Require Import ConnectingFacts.
From S2P Require Import Reactor.
From S2P Require Import LoopSteps.
From S2P Require Import EventLoop.
From S2P Require EventManager.
From S2P Require MemoryPool.
From S2P Require MemoryPoolFacts.

(** ** What an object pool promises *)

(** [New] with the arguments of the constructor and the answer of [malloc],
    should it be asked; [Delete], which runs the destructor; the objects. *)
Class ObjectPool (Args M : Type) := {
  pool_new : Args -> Z -> M -> result (Z * M);
  pool_delete : forall {E : Type}, (E -> E) -> Z -> M -> E -> result (M * E);
  pool_live : M -> gset Z;
}.

Class PoolLaws {Args M} (O : ObjectPool Args M) := {
  pool_ok : M -> Prop;
  (** [malloc] succeeds if it is asked. *)
  pool_ready : Z -> M -> Prop;
  pool_new_ok : forall args p m, pool_ok m -> pool_ready p m ->
    exists a m', pool_new args p m = Ok (a, m') /\ (a ∉ pool_live m) /\ pool_live m' = {[a]} ∪ pool_live m /\ pool_ok m';
  pool_delete_ok : forall E (destroy : E -> E) a m e, pool_ok m -> a ∈ pool_live m ->
    exists m', pool_delete destroy a m e = Ok (m', destroy e) /\ pool_live m' = pool_live m ∖ {[a]} /\ pool_ok m';
}.

Section pooled.
Context {R A F U : Type} `{!Ring R, !BuildConfig}.
Abbreviation Ctx := (IoContext + A)%type.
Abbreviation Fn := (ConnFn + F)%type.
Abbreviation P := (Poller R Ctx Fn).
Abbreviation Op := (IoUringOp Ctx Fn).
Abbreviation W := (World P (Peers (Table U))).
Abbreviation S := (Sys R Ctx Fn (LoopState (Table U))).
Context {M : Type} `{!ObjectPool Z M}.

(** [InsertNewConnection] of a server: the connection is constructed in the pool.
    An entry that is there already gives its connection to the default deleter,
    which frees memory [malloc] did not give out. *)
Definition InsertPooled (p socket_fd so_error : Z) (st : M * S) : result (M * S) :=
  let '(m, s) := st in
  '(i, m) ← pool_new socket_fd p m;
  match table s !! socket_fd with
  | Some _ => Fault OutOfBounds
  | None => Ok (m, InsertNewConnection i socket_fd so_error s)
  end.

(** The body of the loop of [DestroyClosedConnections]. *)
Definition destroy_pooled (fd : Z) (acc : M * S * gset Z) : result (M * S * gset Z) :=
  let '(m, s, remaining_fds) := acc in
  match table s !! fd with
  | Some i =>
      match members (s_env s) !! i with
      | Some c =>
          if IsDisconnected c.1 then
            if EventManager.keeps_waiting c.1
            then Ok (m, set_member i (BumpPendingIoWait 1 c.1, c.2) s, {[fd]} ∪ remaining_fds)
            else
              '(m, s) ← pool_delete (delete_connection i c) i m (set_table (delete fd (table s)) s);
              Ok (m, s, remaining_fds)
          else Ok (m, s, remaining_fds)
      | None => Ok (m, s, remaining_fds)
      end
  | None => Ok (m, s, remaining_fds)
  end.

Fixpoint destroy_all_pooled (fds : list Z) (acc : M * S * gset Z) : result (M * S * gset Z) :=
  match fds with
  | [] => Ok acc
  | fd :: fds => acc ← destroy_pooled fd acc; destroy_all_pooled fds acc
  end.

Definition DestroyClosedPooled (st : M * S) : result (M * S) :=
  '(m, s, remaining_fds) ← destroy_all_pooled (elements (closed_set st.2)) (st.1, st.2, ∅);
  Ok (m, set_deletions (elements remaining_fds) s).

(** ** The pass gives back what it destroys *)

Context {Laws : PoolLaws ObjectPool0}.

(** What of the pool is left when the connections of [s] become those of [s']. *)
Record given_back (s s' : S) (m m' : M) : Prop := {
  gb_fewer : forall i, is_Some (members (s_env s') !! i) -> is_Some (members (s_env s) !! i);
  gb_live : forall i, i ∈ pool_live m' <->
    i ∈ pool_live m /\ (is_Some (members (s_env s) !! i) -> is_Some (members (s_env s') !! i));
}.

Definition housed (s : S) (m : M) : Prop := forall i, is_Some (members (s_env s) !! i) -> i ∈ pool_live m.

Lemma given_back_same s s' m :
  (forall i, is_Some (members (s_env s) !! i) <-> is_Some (members (s_env s') !! i)) -> given_back s s' m m.
Proof. intros Hm. split; intros i; [by rewrite Hm|]. rewrite Hm. tauto. Qed.

Lemma given_back_trans s1 s2 s3 m1 m2 m3 :
  given_back s1 s2 m1 m2 -> given_back s2 s3 m2 m3 -> given_back s1 s3 m1 m3.
Proof. intros [Hf1 Hl1] [Hf2 Hl2]. split; intros i; [auto|]. rewrite Hl2, Hl1. specialize (Hf1 i). specialize (Hf2 i). tauto. Qed.

Lemma destroy_pooled_ok fd m s rem :
  pool_ok m -> housed s m ->
  exists m', destroy_pooled fd (m, s, rem) = Ok (m', (destroy_one fd (s, rem)).1, (destroy_one fd (s, rem)).2) /\
    pool_ok m' /\ given_back s (destroy_one fd (s, rem)).1 m m' /\ housed (destroy_one fd (s, rem)).1 m'.
Proof.
  intros Hok Hh. unfold destroy_pooled, destroy_one. cbv beta iota.
  assert (given_back s s m m) as Hsame by (by apply given_back_same).
  destruct (table s !! fd) as [i|]; [|by eexists].
  destruct (members (s_env s) !! i) as [c|] eqn:Ei; [|by eexists].
  destruct (IsDisconnected c.1); [destruct (EventManager.keeps_waiting c.1)|]; [| |by eexists]; cbn [fst snd].
  - exists m. split; [done|]. split; [done|]. unfold housed. cbn [set_member set_env s_env members]. split.
    + apply given_back_same. cbn [set_member set_env s_env members]. intros j.
      destruct (decide (j = i)) as [->|]; [by rewrite lookup_insert_eq, Ei|by rewrite lookup_insert_ne].
    + intros j Hj. destruct (decide (j = i)) as [->|]; [by apply Hh; rewrite Ei|].
      rewrite lookup_insert_ne in Hj by done. by apply Hh.
  - destruct (pool_delete_ok _ (delete_connection i c) i m (set_table (delete fd (table s)) s) Hok)
      as (m' & Hd & Hlive & Hok'); [by apply Hh; rewrite Ei|].
    exists m'. rewrite Hd. split; [done|]. split; [done|]. unfold housed.
    cbn [delete_connection set_table set_env s_env members]. split.
    + split; cbn [delete_connection set_table set_env s_env members]; intros j;
        [intros [c' [_ Hj]%lookup_delete_Some]; by eexists|]. rewrite Hlive, elem_of_difference, elem_of_singleton.
      destruct (decide (j = i)) as [->|Hne]; [|rewrite lookup_delete_ne by done; naive_solver].
      rewrite lookup_delete_eq, Ei. split; [naive_solver|]. intros [_ Hx]. by destruct (Hx ltac:(eexists; done)).
    + intros j [c' [Hne Hj]%lookup_delete_Some]. rewrite Hlive, elem_of_difference, elem_of_singleton.
      split; [apply Hh; by eexists|done].
Qed.

Lemma destroy_all_pooled_ok fds m s rem :
  pool_ok m -> housed s m ->
  let '(s', rem') := foldl (fun acc fd => destroy_one fd acc) (s, rem) fds in
  exists m', destroy_all_pooled fds (m, s, rem) = Ok (m', s', rem') /\ pool_ok m' /\ given_back s s' m m' /\ housed s' m'.
Proof.
  revert m s rem. induction fds as [|fd fds IH]; intros m s rem Hok Hh; cbn [foldl destroy_all_pooled].
  { exists m. split; [done|]. split; [done|]. split; [by apply given_back_same|done]. }
  destruct (destroy_pooled_ok fd m s rem Hok Hh) as (m1 & -> & Hok1 & Hg1 & Hh1).
  destruct (destroy_one fd (s, rem)) as [s1 rem1]. cbn [fst snd mbind result_bind] in *.
  specialize (IH m1 s1 rem1 Hok1 Hh1). destruct (foldl _ _ _) as [s2 rem2].
  destruct IH as (m2 & -> & Hok2 & Hg2 & Hh2). exists m2. split; [done|]. split; [done|].
  split; [by eapply given_back_trans|done].
Qed.

Lemma DestroyClosedPooled_ok m s :
  pool_ok m -> housed s m ->
  exists m', DestroyClosedPooled (m, s) = Ok (m', DestroyClosedConnections s) /\ pool_ok m' /\
    given_back s (DestroyClosedConnections s) m m'.
Proof.
  intros Hok Hh. pose proof (destroy_all_pooled_ok (elements (closed_set s)) m s ∅ Hok Hh) as Hall.
  unfold DestroyClosedPooled, DestroyClosedConnections. destruct (foldl _ _ _) as [s' rem].
  destruct Hall as (m' & Hrun & Hok' & [Hf Hl] & _). exists m'. cbn [fst snd]. rewrite Hrun.
  split; [done|]. split; [done|]. by split.
Qed.

(** ** Steps that neither add nor destroy connections *)

Definition exactly (D : gset Z) (ms : gmap Z Member) (_ : list Z) (_ : Table U) : Prop :=
  dom ms = D /\ forall i (c : Member), ms !! i = Some c -> self_ c.1 = i.

#[export] Instance exactly_addressed D : Addressed (exactly D).
Proof. intros ms dels x i c [_ Hs] Hi. by apply Hs. Qed.

Lemma exactly_update D i (c c' : Member) ms dels dels' x x' :
  exactly D (<[i := c]> ms) dels x -> self_ c'.1 = self_ c.1 -> exactly D (<[i := c']> ms) dels' x'.
Proof.
  intros [Hd Hs] Hself. split; [by rewrite dom_insert_L in *|].
  intros j cj [[<- <-]|[Hne Hj]]%lookup_insert_Some; [rewrite Hself; apply Hs, lookup_insert_eq|].
  apply Hs. by rewrite lookup_insert_ne.
Qed.

#[export] Instance exactly_steps D i : ClosingInv (at_member (exactly D) i : W -> Prop) (at_member (exactly D) i).
Proof.
  assert (forall w w' : W, at_member (exactly D) i w -> self_ (conn w') = self_ (conn w) -> env w' = env w ->
    at_member (exactly D) i w') as Hany.
  { intros w w' (Hs & Hp & He) Hself Henv. split; [congruence|]. split; [by rewrite Henv|].
    unfold all_members in *. rewrite Hself, Henv. by eapply exactly_update. }
  split; try (intros; by eapply Hany).
  - intros w w' Hw [[? _ _ _ _ _ ?] _]. by eapply Hany.
  - intros w w' Hw [[? _ _ _ _ _ ?] _]. by eapply Hany.
Qed.

Section callbacks.
Context `{!ConnCallbacks W} (kernel_data : cqe -> list Byte.byte).
Context {Hfc : forall E i, LawfulCallbacks (fun _ => filed_at E i : W -> Prop) 0}.
Context {Hec : forall D i, LawfulCallbacks (fun _ => at_member (exactly D) i : W -> Prop) 0}.
Context (other_complete : F -> cqe -> Op -> S -> result (Op * S)) (other_call : Z -> Eventer.call -> S -> result S).
Context (b B : Z) {Hlu : LoopUsers other_complete other_call b B}.
#[local] Instance handlers : Handlers R Ctx Fn (LoopState (Table U)) :=
  loop_handlers kernel_data other_complete other_call.

Definition dom_of (s : S) : gset Z := dom (members (s_env s)).

(** The poller's other users leave the connections to the pool. *)
Class LeavesConnections : Prop := {
  lc_complete : forall f c op (s : S) op' s', other_complete f c op s = Ok (op', s') -> dom_of s' = dom_of s;
  lc_call : forall ev c (s s' : S), other_call ev c s = Ok s' -> dom_of s' = dom_of s;
}.
Context {Hlc : LeavesConnections}.

Lemma enter_exactly s i (c : Member) :
  filed_sys s -> members (s_env s) !! i = Some c -> at_member (exactly (dom_of s)) i (enter i c s).
Proof using. intros Hf. apply (world_at (exactly _)). split; [done|]. apply Hf. Qed.

Lemma leave_exactly D i w s : at_member (exactly D) i w -> dom_of (leave w s) = D.
Proof using. by intros (_ & _ & ? & _). Qed.

Lemma method_dom s i (c : Member) me w :
  filed_sys s -> members (s_env s) !! i = Some c -> run_method me (enter i c s) = Ok w -> dom_of (leave w s) = dom_of s.
Proof using Hec.
  intros Hf Hi Hrun. eapply leave_exactly, run_method_keeps; [apply exactly_steps|done|done|by apply enter_exactly|exact Hrun].
Qed.

Lemma complete_dom fn c op (s : S) op' s' :
  Poller.complete fn c op s = Ok (op', s') -> filed_sys s -> dom_of s' = dom_of s.
Proof using Hec Hlc.
  intros Hrun Hs. destruct fn as [fn|f]; simpl in Hrun; [|by eapply lc_complete].
  unfold conn_complete in Hrun. destruct (context op) as [[x|]|]; try done.
  destruct (members (s_env s) !! ctx_self x) as [m|] eqn:Em; [|done]. bind_ok.
  pose proof (enter_exactly _ _ _ Hs Em) as Hw. apply (leave_exactly _ (ctx_self x)).
  destruct fn, x; simpl in Hok; try done.
  - eapply OnReadComplete_keeps; [apply exactly_steps|done|done|exact Hw|exact Hok].
  - eapply OnWriteComplete_keeps; [apply exactly_steps|done|exact Hw|exact Hok].
Qed.

Lemma HandleCqe_dom c (s s' : S) : HandleCqe c s = Ok s' -> filed_sys s -> filed_sys s' /\ dom_of s' = dom_of s.
Proof using Hec Hfc Hlc Hlu.
  intros Hrun Hs. set (D := dom_of s).
  apply (HandleCqe_env (fun e => filed ∅ (members e) (deletions e) (connection_map (loop_user e)) /\ dom (members e) = D))
    in Hrun; [done| | |done].
  - intros fn c' op s1 op' s2 Hc [Hf Hd]. split; [by eapply (complete_filed kernel_data other_complete other_call b B)|].
    rewrite <-Hd. by apply complete_dom in Hc.
  - intros ev c' s1 s2 Hc [Hf Hd]. split; [by eapply (call_filed kernel_data other_complete other_call b B)|].
    rewrite <-Hd. by eapply lc_call.
Qed.

(** ** The loops of a server *)

(** A step of the server: a loop takes a new connection (of a descriptor no other
    open connection of it has), a method of a connection runs, a completion is
    handled, something happens that touches no connection, a pass of a loop. *)
Inductive serve : M * list S -> M * list S -> Prop :=
| sv_insert m ls k s p fd e m' s' :
    ls !! k = Some s -> pool_ready p m -> table s !! fd = None -> InsertPooled p fd e (m, s) = Ok (m', s') ->
    serve (m, ls) (m', <[k := s']> ls)
| sv_method m ls k s i c me w :
    ls !! k = Some s -> members (s_env s) !! i = Some c -> run_method me (enter i c s) = Ok w ->
    serve (m, ls) (m, <[k := leave w s]> ls)
| sv_cqe m ls k s c s' :
    ls !! k = Some s -> HandleCqe c s = Ok s' -> serve (m, ls) (m, <[k := s']> ls)
| sv_other m ls k s p evs act x :
    ls !! k = Some s ->
    serve (m, ls) (m, <[k := mkSys p evs act
      (mkLoopState (members (s_env s)) (deletions (s_env s)) (mkTable (table s) x))]> ls)
| sv_pass m ls k s m' s' :
    ls !! k = Some s -> DestroyClosedPooled (m, s) = Ok (m', s') -> serve (m, ls) (m', <[k := s']> ls).

(** The objects of the pool are the connections of the loops. *)
Record pooled (st : M * list S) : Prop := {
  po_pool : pool_ok st.1;
  po_filed : forall k s, st.2 !! k = Some s -> filed_sys s;
  po_home : forall i, i ∈ pool_live st.1 <-> exists k s, st.2 !! k = Some s /\ i ∈ dom_of s;
  po_apart : forall j k sj sk i, st.2 !! j = Some sj -> st.2 !! k = Some sk -> i ∈ dom_of sj -> i ∈ dom_of sk -> j = k;
}.

(** Loop [k] goes from [s] to [s']. *)
Lemma pooled_update m ls k s m' s' :
  pooled (m, ls) -> ls !! k = Some s -> pool_ok m' -> filed_sys s' ->
  (forall i, i ∈ pool_live m' <-> i ∈ pool_live m /\ i ∉ dom_of s \/ i ∈ dom_of s') ->
  (forall i, i ∈ dom_of s' -> i ∈ dom_of s \/ i ∉ pool_live m) ->
  pooled (m', <[k := s']> ls).
Proof using.
  intros [Hp Hf Hh Ha] Hk Hok Hf' Hlive Hnew. cbn [fst snd] in *.
  assert (k < length ls)%nat as Hlt by (by eapply lookup_lt_Some).
  assert (forall j sj, <[k := s']> ls !! j = Some sj -> j = k /\ sj = s' \/ j <> k /\ ls !! j = Some sj) as Hcase.
  { intros j sj [(<- & <- & _)|[? ?]]%list_lookup_insert_Some; [by left|right; done]. }
  split; cbn [fst snd]; [done| | |].
  - intros j sj [[-> ->]|[_ Hj]]%Hcase; [done|by eapply Hf].
  - intros i. rewrite Hlive, Hh. split.
    + intros [[(j & sj & Hj & Hi) Hns]|Hi]; [|exists k, s'; split; [by apply list_lookup_insert_eq|done]].
      exists j, sj. split; [|done]. rewrite list_lookup_insert_ne; [done|]. intros <-. by simplify_eq.
    + intros (j & sj & [[-> ->]|[Hne Hj]]%Hcase & Hi); [by right|]. left. split; [by exists j, sj|].
      intros Hs. by apply Hne, (Ha j k sj s i).
  - assert (forall j sj i, j <> k -> ls !! j = Some sj -> i ∈ dom_of sj -> i ∈ dom_of s' -> False) as Hno.
    { intros j sj i Hne Hj Hi Hi'. destruct (Hnew i Hi') as [Hs|Hn]; [by apply Hne, (Ha j k sj s i)|].
      apply Hn, Hh. by exists j, sj. }
    intros i j si sj a [[-> ->]|[Hni Hi]]%Hcase [[-> ->]|[Hnj Hj]]%Hcase Hai Haj; [done| | |by eapply Ha].
    + by destruct (Hno j sj a).
    + by destruct (Hno i si a).
Qed.

Lemma pooled_same m ls k s s' :
  pooled (m, ls) -> ls !! k = Some s -> filed_sys s' -> dom_of s' = dom_of s -> pooled (m, <[k := s']> ls).
Proof using.
  intros Hp Hk Hf Hd. apply (pooled_update m ls k s); [done|done|apply Hp|done| |]; intros i; rewrite Hd; [|by left].
  split; [|intros [[? _]|Hi]; [done|apply (po_home _ Hp); by exists k, s]].
  intros Hi. destruct (decide (i ∈ dom_of s)); [by right|by left].
Qed.

Lemma pooled_housed m ls k s : pooled (m, ls) -> ls !! k = Some s -> housed s m.
Proof using. intros Hp Hk i Hi. apply (po_home _ Hp). exists k, s. split; [done|by apply elem_of_dom]. Qed.

Lemma InsertPooled_ok m ls k s p fd e :
  pooled (m, ls) -> ls !! k = Some s -> pool_ready p m -> table s !! fd = None ->
  exists i m', InsertPooled p fd e (m, s) = Ok (m', InsertNewConnection i fd e s) /\ (i ∉ pool_live m) /\
    pool_live m' = {[i]} ∪ pool_live m /\ pool_ok m' /\ members (s_env s) !! i = None.
Proof using.
  intros Hp Hk Hr Ht. destruct (pool_new_ok fd p m (po_pool _ Hp) Hr) as (i & m' & Hn & Hi & Hl & Hok).
  exists i, m'. unfold InsertPooled. rewrite Hn. cbn [mbind result_bind]. rewrite Ht.
  split; [done|]. split; [done|]. split; [done|]. split; [done|].
  apply not_elem_of_dom. intros Hin. apply Hi, (po_home _ Hp). by exists k, s.
Qed.

Lemma pass_pooled m ls k s :
  pooled (m, ls) -> ls !! k = Some s -> exists m', DestroyClosedPooled (m, s) = Ok (m', DestroyClosedConnections s) /\
    given_back s (DestroyClosedConnections s) m m' /\ pooled (m', <[k := DestroyClosedConnections s]> ls).
Proof using.
  intros Hp Hk. destruct (DestroyClosedPooled_ok m s (po_pool _ Hp) (pooled_housed _ _ _ _ Hp Hk)) as (m' & Hd & Hok & Hg).
  exists m'. split; [done|]. split; [done|]. destruct Hg as [Hf Hl].
  apply (pooled_update m ls k s); [done|done|done|by apply pass_filed, (po_filed _ Hp k)| |].
  - intros i. rewrite Hl. unfold dom_of. rewrite !elem_of_dom. specialize (Hf i). split.
    + intros [Hi Hs]. destruct (decide (is_Some (members (s_env s) !! i))); [right; auto|by left].
    + intros [[Hi Hn]|Hi]; [tauto|]. split; [by apply (pooled_housed _ _ _ _ Hp Hk), Hf|done].
  - intros i Hi. left. unfold dom_of in *. rewrite elem_of_dom in *. by apply Hf.
Qed.

Lemma serve_pooled st st' : serve st st' -> pooled st -> pooled st'.
Proof using Hec Hfc Hlc Hlu.
  intros Hs Hp. destruct Hs as [m ls k s p fd e m' s' Hk Hr Ht Hrun|m ls k s i c me w Hk Hi Hrun
    |m ls k s c s' Hk Hrun|m ls k s p evs act x Hk|m ls k s m' s' Hk Hrun].
  - destruct (InsertPooled_ok m ls k s p fd e Hp Hk Hr Ht) as (i & m1 & Hins & Hni & Hl & Hok & Hm).
    rewrite Hrun in Hins. injection Hins as -> ->. pose proof (po_filed _ Hp k s Hk) as Hf.
    apply (pooled_update m ls k s); [done|done|done|by apply Insert_filed| |]; intros j;
      unfold dom_of; rewrite Insert_fresh by done; cbn [set_table set_env new_connection s_env members]; rewrite dom_insert_L.
    + rewrite Hl. pose proof (pooled_housed _ _ _ _ Hp Hk j) as Hh. rewrite <-elem_of_dom in Hh.
      destruct (decide (j ∈ dom (members (s_env s)))); set_solver.
    + rewrite elem_of_union, elem_of_singleton. intros [->|?]; [by right|by left].
  - pose proof (po_filed _ Hp k s Hk) as Hf. eapply pooled_same; [done|done| |by eapply method_dom].
    eapply leave_filed, run_method_keeps; [apply filed_steps|done|done|by apply enter_filed|exact Hrun].
  - destruct (HandleCqe_dom c s s' Hrun (po_filed _ Hp k s Hk)). by eapply pooled_same.
  - eapply pooled_same; [done|done|by apply (po_filed _ Hp k s Hk)|done].
  - destruct (pass_pooled m ls k s Hp Hk) as (m1 & Hd & _ & Hp'). rewrite Hrun in Hd. by injection Hd as -> ->.
Qed.

Lemma served_pooled st st' : rtc serve st st' -> pooled st -> pooled st'.
Proof using Hec Hfc Hlc Hlu. induction 1 as [|st st1 st2 Hs _ IH]; intros Hp; [done|]. by eapply IH, serve_pooled. Qed.

Definition new_loop (s : S) : Prop := exists r a q evs x, s = event_loop_new r a q evs x.

Lemma start_pooled m ls : pool_ok m -> pool_live m = ∅ -> Forall new_loop ls -> pooled (m, ls).
Proof using.
  intros Hok Hl Hnew. rewrite Forall_lookup in Hnew.
  assert (forall k s, ls !! k = Some s -> filed_sys s /\ dom_of s = ∅) as Hs.
  { intros k s (r & a & q & evs & x & ->)%Hnew. split; [apply new_filed|]. unfold dom_of. simpl. apply dom_empty_L. }
  split; cbn [fst snd]; [done|by intros k s (? & _)%Hs| |].
  - intros i. rewrite Hl. split; [by intros ?%elem_of_empty|]. intros (k & s & (_ & ->)%Hs & ?%elem_of_empty). done.
  - by intros j k sj sk i (_ & ->)%Hs _ ?%elem_of_empty.
Qed.

(** What holds of a server at any time, whatever pool it has. *)
Lemma pooled_connections m ls :
  pooled (m, ls) ->
  (forall i, i ∈ pool_live m <-> exists k s, ls !! k = Some s /\ is_Some (members (s_env s) !! i)) /\
  (forall j k sj sk i, ls !! j = Some sj -> ls !! k = Some sk ->
    is_Some (members (s_env sj) !! i) -> is_Some (members (s_env sk) !! i) -> j = k) /\
  (forall k s, ls !! k = Some s ->
    (forall p fd e, pool_ready p m -> table s !! fd = None ->
      exists i m', InsertPooled p fd e (m, s) = Ok (m', InsertNewConnection i fd e s) /\
        forall j sj, ls !! j = Some sj -> members (s_env sj) !! i = None) /\
    exists m', DestroyClosedPooled (m, s) = Ok (m', DestroyClosedConnections s) /\
      forall i, i ∈ pool_live m' <->
        i ∈ pool_live m /\
        (is_Some (members (s_env s) !! i) -> is_Some (members (s_env (DestroyClosedConnections s)) !! i))).
Proof using.
  intros Hp. split; [|split].
  - intros i. rewrite (po_home _ Hp). unfold dom_of. by setoid_rewrite elem_of_dom.
  - intros j k sj sk i Hj Hk. rewrite <-!elem_of_dom. by apply (po_apart _ Hp).
  - intros k s Hk. split.
    + intros p fd e Hr Ht. destruct (InsertPooled_ok m ls k s p fd e Hp Hk Hr Ht) as (i & m' & Hins & Hni & _).
      exists i, m'. split; [done|]. intros j sj Hj. apply not_elem_of_dom. intros Hi. apply Hni, (po_home _ Hp). by exists j, sj.
    + destruct (pass_pooled m ls k s Hp Hk) as (m' & Hd & [_ Hl] & _). by exists m'.
Qed.
End callbacks.
End pooled.

(** ** The object pool keeps its promises *)

Section object_pool.
Context `{!HostOrder} (junk : Byte.byte) (construct : Z -> list Byte.byte) (ObjectSize : Z).

Definition NewOneConnectingFromObjectPool (fd p : Z) (w : MemoryPool.World) : result (Z * MemoryPool.World) :=
  MemoryPool.New junk false construct fd p w.

Definition DeleteOneConnectingFromObjectPool {E : Type} (destroy : E -> E) (connecting_ptr : Z)
    (w : MemoryPool.World) (e : E) : result (MemoryPool.World * E) :=
  MemoryPool.Delete false (fun _ => destroy) ObjectSize connecting_ptr w e.

#[export] Instance connecting_pool : ObjectPool Z MemoryPool.World := {|
  pool_new := NewOneConnectingFromObjectPool;
  pool_delete E := DeleteOneConnectingFromObjectPool;
  pool_live w := list_to_set (MemoryPool.w_live w);
|}.

Context (foreign : gmap Z Z) (Hsz : 0 <= ObjectSize < 2 ^ 58) (Hc : forall fd, zlen (construct fd) = ObjectSize).

Definition pool_in_order (w : MemoryPool.World) : Prop :=
  exists r, MemoryPoolFacts.sim (Z.max 8 ObjectSize) foreign (MemoryPool.w_pool w) (MemoryPool.w_heap w) r (MemoryPool.w_live w).

Lemma object_pool_new fd p w :
  pool_in_order w -> MemoryPool.answer_ok (Z.max 8 ObjectSize) p (MemoryPool.w_pool w) (MemoryPool.w_heap w) ->
  exists a w', NewOneConnectingFromObjectPool fd p w = Ok (a, w') /\ (a ∉ (pool_live w : gset Z)) /\
    pool_live w' = {[a]} ∪ pool_live w /\ pool_in_order w'.
Proof using Hsz Hc.
  intros [r HR] Hans.
  destruct (MemoryPoolFacts.New_as_ops junk construct ObjectSize Hsz Hc foreign w r fd p HR Hans)
    as (a & w' & r' & _ & Hnew & _ & _ & HR' & _).
  assert (MemoryPool.w_live w' = a :: MemoryPool.w_live w) as Hl.
  { unfold MemoryPool.New in Hnew. bind_ok. done. }
  exists a, w'. split; [done|]. pose proof (MemoryPoolFacts.sim_NoDup (Z.max 8 ObjectSize) ltac:(lia) foreign HR') as (_ & _ & Hnd)%NoDup_app.
  rewrite Hl in Hnd. apply NoDup_cons in Hnd as [Hni _]. cbn [pool_live connecting_pool]. rewrite Hl.
  split; [by rewrite elem_of_list_to_set|]. split; [done|by exists r'].
Qed.

Lemma object_pool_delete E (destroy : E -> E) a w e :
  pool_in_order w -> a ∈ (pool_live w : gset Z) ->
  exists w', DeleteOneConnectingFromObjectPool destroy a w e = Ok (w', destroy e) /\
    pool_live w' = pool_live w ∖ {[a]} /\ pool_in_order w'.
Proof using Hsz.
  intros [r HR] Ha. cbn [pool_live connecting_pool] in Ha. rewrite elem_of_list_to_set in Ha.
  destruct (MemoryPoolFacts.Delete_as_ops (fun _ => destroy) ObjectSize Hsz foreign w r a e HR Ha)
    as (c & w' & r' & _ & Hd & Hl & HR').
  exists w'. split; [done|]. split; [|by exists r']. cbn [pool_live connecting_pool]. rewrite Hl.
  apply set_eq. intros x. rewrite elem_of_difference, !elem_of_list_to_set, elem_of_singleton, list_elem_of_filter. tauto.
Qed.

#[export] Instance connecting_pool_laws : PoolLaws connecting_pool := {|
  pool_ok := pool_in_order;
  pool_ready p w := MemoryPool.answer_ok (Z.max 8 ObjectSize) p (MemoryPool.w_pool w) (MemoryPool.w_heap w);
  pool_new_ok := object_pool_new;
  pool_delete_ok := object_pool_delete;
|}.
End object_pool.

(** ** Servers *)

Section server.
Context {R A F U : Type} `{!Ring R, !BuildConfig, !HostOrder}.
Abbreviation Ctx := (IoContext + A)%type.
Abbreviation Fn := (ConnFn + F)%type.
Abbreviation P := (Poller R Ctx Fn).
Abbreviation Op := (IoUringOp Ctx Fn).
Abbreviation W := (World P (Peers (Table U))).
Abbreviation S := (Sys R Ctx Fn (LoopState (Table U))).
Context `{!ConnCallbacks W} (kernel_data : cqe -> list Byte.byte).
Context {Hfc : forall E i, LawfulCallbacks (fun _ => filed_at E i : W -> Prop) 0}.
Context {Hec : forall D i, LawfulCallbacks (fun _ => at_member (exactly D) i : W -> Prop) 0}.
Context (other_complete : F -> cqe -> Op -> S -> result (Op * S)) (other_call : Z -> Eventer.call -> S -> result S).
Context (b B : Z) {Hlu : LoopUsers other_complete other_call b B} {Hlc : LeavesConnections other_complete other_call}.
(** [sizeof(Connecting)] and the bytes of a constructed one; what [malloc] gave to
    the rest of the program. *)
Context (junk : Byte.byte) (ObjectSize : Z) (construct : Z -> list Byte.byte) (foreign : gmap Z Z).
Context (Hsz : 0 <= ObjectSize < 2 ^ 58) (Hc : forall fd, zlen (construct fd) = ObjectSize).
#[local] Instance pool : ObjectPool Z MemoryPool.World := connecting_pool junk construct ObjectSize.
#[local] Instance laws : PoolLaws pool := connecting_pool_laws junk construct ObjectSize foreign Hsz Hc.

(** C18. The connections of a server are the objects of its pool. Whatever its
    loops have done since it started, in any interleaving: the blocks in use are
    exactly the addresses of the live connections, and no two loops have the same
    one. A new connection gets an address that no connection of any loop has. The
    pass of a loop over its closed connections never gives a wrong pointer to
    the pool, does to the loop what it does without one, and gives back exactly
    the blocks of the connections it destroys. *)
Theorem connections_in_pool mem ls0 m ls :
  Forall new_loop ls0 ->
  rtc (serve kernel_data other_complete other_call) (MemoryPoolFacts.fresh_world ObjectSize mem foreign, ls0) (m, ls) ->
  (forall i, i ∈ pool_live m <-> exists k s, ls !! k = Some s /\ is_Some (members (s_env s) !! i)) /\
  (forall j k sj sk i, ls !! j = Some sj -> ls !! k = Some sk ->
    is_Some (members (s_env sj) !! i) -> is_Some (members (s_env sk) !! i) -> j = k) /\
  (forall k s, ls !! k = Some s ->
    (forall p fd e, pool_ready p m -> table s !! fd = None ->
      exists i m', InsertPooled p fd e (m, s) = Ok (m', InsertNewConnection i fd e s) /\
        forall j sj, ls !! j = Some sj -> members (s_env sj) !! i = None) /\
    exists m', DestroyClosedPooled (m, s) = Ok (m', DestroyClosedConnections s) /\
      forall i, i ∈ pool_live m' <->
        i ∈ pool_live m /\
        (is_Some (members (s_env s) !! i) -> is_Some (members (s_env (DestroyClosedConnections s)) !! i))).
Proof using Hec Hfc Hlc Hlu.
  intros Hnew Hrun. apply pooled_connections. apply (served_pooled kernel_data other_complete other_call b B _ _ Hrun).
  apply start_pooled; [|done|done]. eexists. apply MemoryPoolFacts.sim_new; [lia|done].
Qed.
End server.

(** ** Two loops, two connections *)

Module Concrete.

#[local] Existing Instance x86_host.
#[local] Existing Instance PollerFacts.Concrete.endless_ring.
#[local] Existing Instance PollerFacts.Concrete.old_headers.
Import EventLoop.Concrete (P, W, S, Op, kernel, no_complete, no_call, start).

(** A user who stops the reading of a connection that changes. *)
#[local] Instance hushing : ConnCallbacks W := {|
  OnConnectionCallback_ := Some (fun w => Ok (StopReading w));
  OnMessageCallback_ := None;
  WriteCompleteCallback_ := None;
  HighWaterMarkCallback_ := None;
  CloseCallback_ := None;
|}.

Lemma hushing_lawful (I Ic : W -> Prop) `{!ClosingInv I Ic} : LawfulCallbacks (fun _ => I) 0.
Proof.
  split; try done; simpl. intros f Hf. simplify_eq. intros k w w' Hk Hinv Hcall. simplify_eq.
  eapply ci_still; [exact Hinv|apply still_CancelPendingIo].
Qed.

#[local] Instance hushing_files E i : LawfulCallbacks (fun _ => filed_at E i : W -> Prop) 0 := hushing_lawful _ _.
#[local] Instance hushing_exactly D i : LawfulCallbacks (fun _ => at_member (exactly D) i : W -> Prop) 0 :=
  hushing_lawful _ _.

#[local] Instance no_users : LoopUsers no_complete no_call 0 0 := idle_users 0.

#[local] Instance no_connections : LeavesConnections no_complete no_call.
Proof.
  split.
  - intros f c op s op' s' Hrun. unfold no_complete in Hrun. by simplify_eq.
  - intros ev c s s' Hrun. unfold no_call in Hrun. by simplify_eq.
Qed.

(** Connections of 16 bytes. *)
Definition build (fd : Z) : list Byte.byte := replicate 16 Byte.x41.
Lemma build_size fd : zlen (build fd) = 16.
Proof. reflexivity. Qed.
Lemma size_ok : 0 <= 16 < 2 ^ 58.
Proof. lia. Qed.

#[local] Instance pool : ObjectPool Z MemoryPool.World := connecting_pool Byte.x00 build 16.
#[local] Instance laws : PoolLaws pool := connecting_pool_laws Byte.x00 build 16 ∅ size_ok build_size.

Definition empty_pool : MemoryPool.World := MemoryPoolFacts.fresh_world 16 ∅ ∅.
Definition Server := (MemoryPool.World * list S)%type.

Definition insert (k : nat) (p fd : Z) (st : Server) : option Server :=
  s ← st.2 !! k;
  match InsertPooled p fd 0 (st.1, s) with
  | Ok (m, s') => if bool_decide (pool_ready p st.1 /\ table s !! fd = None) then Some (m, <[k := s']> st.2) else None
  | Fault _ => None
  end.

Definition close (k : nat) (i : Z) (st : Server) : option Server :=
  s ← st.2 !! k;
  c ← members (s_env s) !! i;
  match ForceClose (enter i c s) with Ok w => Some (st.1, <[k := leave w s]> st.2) | Fault _ => None end.

Definition empty : Server := (empty_pool, [start; start]).
Definition one : Server := default empty (insert 0 4096 5 empty).
Definition two : Server := default empty (insert 1 0 5 one).
Definition closed : Server := default empty (close 0 4728 two).

Abbreviation serve := (serve kernel no_complete no_call).

Lemma insert_serve k p fd st st' : insert k p fd st = Some st' -> serve st st'.
Proof.
  destruct st as [m ls]. unfold insert. cbn [fst snd]. intros Hi. destruct (ls !! k) as [s|] eqn:Ek; [|done].
  cbn [mbind option_bind] in Hi. destruct (InsertPooled _ _ _ _) as [[m' s']|] eqn:Er; [|done].
  destruct (bool_decide_reflect (pool_ready p m /\ table s !! fd = None)) as [[Hr Ht]|]; simplify_eq. by eapply sv_insert.
Qed.

Lemma close_serve k i st st' : close k i st = Some st' -> serve st st'.
Proof.
  destruct st as [m ls]. unfold close. cbn [fst snd]. intros Hi. destruct (ls !! k) as [s|] eqn:Ek; [|done].
  cbn [mbind option_bind] in Hi. destruct (members (s_env s) !! i) as [c|] eqn:Ec; [|done].
  cbn [mbind option_bind] in Hi. destruct (ForceClose _) as [w|] eqn:Ew; simplify_eq. by apply (sv_method _ _ _ m ls k s i c MForceClose).
Qed.

Lemma step_to (f : Server -> option Server) st0 st :
  (forall a b, f a = Some b -> serve a b) -> bool_decide (is_Some (f st)) = true ->
  rtc serve st0 st -> rtc serve st0 (default empty (f st)).
Proof.
  intros Hf [st' Hst]%bool_decide_eq_true Hrun. rewrite Hst. simpl. eapply rtc_r; [exact Hrun|by apply Hf].
Qed.

Lemma closed_served : rtc serve empty closed.
Proof.
  apply step_to; [apply close_serve|vm_compute; reflexivity|]. apply step_to; [apply insert_serve|vm_compute; reflexivity|].
  apply step_to; [apply insert_serve|vm_compute; reflexivity|]. apply rtc_refl.
Qed.

Definition loop (k : nat) : S := default start (closed.2 !! k).
Definition view (s : S) : list Z := elements (dom_of s).

Lemma closed_view :
  elements (pool_live closed.1) = [4728; 4712] /\ view (loop 0) = [4728] /\
  view (DestroyClosedConnections (loop 0)) = [] /\ view (loop 1) = [4712].
Proof. split; [vm_compute; reflexivity|]. split; [vm_compute; reflexivity|]. split; vm_compute; reflexivity. Qed.

Lemma loop_0 : closed.2 !! 0%nat = Some (loop 0).
Proof.
  assert (bool_decide (is_Some (closed.2 !! 0%nat)) = true) as Hs by (vm_compute; reflexivity).
  unfold loop. apply bool_decide_eq_true in Hs. destruct (closed.2 !! 0%nat) as [s|]; [reflexivity|by destruct Hs].
Qed.

Lemma view_elem s i : i ∈ view s <-> is_Some (members (s_env s) !! i).
Proof. unfold view, dom_of. by rewrite elem_of_elements, elem_of_dom. Qed.

Lemma connections_in_pool_witness :
  exists m', DestroyClosedPooled (closed.1, loop 0) = Ok (m', DestroyClosedConnections (loop 0)) /\
    (4728 ∉ pool_live m') /\ 4712 ∈ pool_live m'.
Proof.
  destruct (connections_in_pool kernel no_complete no_call 0 0 Byte.x00 16 build ∅ size_ok build_size ∅ [start; start]
    closed.1 closed.2) as (_ & _ & Hloops).
  - apply Forall_cons. split; [by eexists _, _, _, _, _|]. apply Forall_singleton. by eexists _, _, _, _, _.
  - rewrite <-surjective_pairing. exact closed_served.
  - destruct (Hloops 0%nat (loop 0)) as [_ (m' & Hd & Hl)].
    + exact loop_0.
    + destruct closed_view as (Hp & H0 & H0' & H1). exists m'. split; [exact Hd|].
      rewrite !Hl, <-!view_elem, H0, H0'. split.
      * intros [_ Hgone]. exact (proj1 (elem_of_nil _) (Hgone ltac:(apply elem_of_cons; left; reflexivity))).
      * split; [apply elem_of_elements; change (4712 ∈ elements (pool_live closed.1)); rewrite Hp; apply elem_of_cons; right; apply elem_of_cons; left; reflexivity|].
        intros Hin. apply elem_of_cons in Hin as [Hin|Hin]; [discriminate Hin|exact Hin].
Defined.
End Concrete.
