(* ===== verification/SpinLock.v ===== *)
(** * The spin lock

    Model of [MutexLock] and [LockGuard] (src/spin_lock.h), which protect the
    connection table and the closing list of [EventManager], the tasks of
    [Timer], the pool of [ServerReactorManager], the outstanding calls of the RPC
    channels and the connections of the chat room: any number of threads, each
    step one access to the atomic [value_]. The other files take what a lock
    protects as one step; this is what allows it. *)

From stdpp Require Import prelude list.
From S2P Require Import Prelude.

(** A thread outside; in the loop of [Lock], with the local variable [exp]; there,
    after a failed exchange, before [exp] is set again; between [Lock] and
    [Unlock]. *)
Inductive thread := Outside | Trying (exp : bool) | Failed (exp : bool) | Inside.

(** [value_] is [true] when the lock is free. *)
Record MutexLock := mkLock { value_ : bool; users : list thread }.

Definition MutexLock_new (n : nat) : MutexLock := mkLock true (replicate n Outside).

(** [compare_exchange_weak exp false]: the answer, [exp] and the value
    afterwards; it may fail [spurious]ly. *)
Definition compare_exchange_weak (exp spurious value : bool) : bool * bool * bool :=
  if eqb value exp && negb spurious then (true, exp, false) else (false, value, value).

(** The next step of a thread: an outsider calls [Lock], an insider calls
    [Unlock]. *)
Definition thread_step (spurious value : bool) (t : thread) : bool * thread :=
  match t with
  | Outside => (value, Trying true)
  | Trying exp =>
      let '(ok, exp, value) := compare_exchange_weak exp spurious value in
      (value, if ok then Inside else Failed exp)
  | Failed _ => (value, Trying true)
  | Inside => (true, Outside)
  end.

Definition lock_step (i : nat) (spurious : bool) (m : MutexLock) : MutexLock :=
  match users m !! i with
  | Some t =>
      let '(value, t) := thread_step spurious (value_ m) t in mkLock value (<[i := t]> (users m))
  | None => m
  end.

(** Which thread steps, and whether its exchange fails spuriously. *)
Fixpoint lock_steps (l : list (nat * bool)) (m : MutexLock) : MutexLock :=
  match l with [] => m | (i, b) :: l => lock_steps l (lock_step i b m) end.

(** An exchange never expects a held lock. *)
Record lock_ok (m : MutexLock) : Prop := {
  lo_exp : forall i e, users m !! i = Some (Trying e) -> e = true;
  lo_one : forall i j, users m !! i = Some Inside -> users m !! j = Some Inside -> i = j;
  lo_free : value_ m = true <-> forall i, users m !! i <> Some Inside;
}.

(** A step that leaves [value_] alone and neither enters nor leaves. *)
Lemma lock_ok_aside i t t' v us :
  lock_ok (mkLock v us) -> us !! i = Some t -> t <> Inside -> t' <> Inside ->
  (forall e, t' = Trying e -> e = true) -> lock_ok (mkLock v (<[i := t']> us)).
Proof.
  intros [He Ho Hf] Hi Ht Ht' Hexp.
  assert (forall j, <[i := t']> us !! j = Some Inside <-> us !! j = Some Inside) as Hin.
  { intros j. rewrite list_lookup_insert_Some. split; [by intros [(_ & ? & _)|[_ ?]]|].
    intros Hj. right. split; [|done]. intros <-. congruence. }
  split; simpl in *.
  - intros j e. rewrite list_lookup_insert_Some. intros [(_ & ? & _)|[_ Hj]]; [by apply Hexp|by eapply He].
  - intros j k Hj%Hin Hk%Hin. by apply Ho.
  - rewrite Hf. split; intros Hno j Hj; by apply (Hno j), Hin.
Qed.

Lemma lock_step_ok i b m : lock_ok m -> lock_ok (lock_step i b m).
Proof.
  intros Hm. unfold lock_step. destruct (users m !! i) as [t|] eqn:Hi; [|done].
  destruct m as [v us]. simpl in *. pose proof Hm as [He Ho Hf]. simpl in *.
  destruct t as [|e|e|]; simpl.
  - eapply lock_ok_aside; [done|done|done..|]. by intros e [= <-].
  - pose proof (He i e Hi) as ->. unfold compare_exchange_weak.
    destruct v, b; simpl; try (eapply lock_ok_aside; done).
    assert (forall j, us !! j <> Some Inside) as Hno by by apply Hf.
    split; simpl.
    + intros j e. rewrite list_lookup_insert_Some. intros [(_ & ? & _)|[_ Hj]]; [done|by eapply He].
    + intros j k. rewrite !list_lookup_insert_Some.
      intros [(<- & _)|[_ Hj]] [(<- & _)|[_ Hk]]; [done|by apply Hno in Hk|by apply Hno in Hj..].
    + split; [done|]. intros Hnew. destruct (Hnew i). apply list_lookup_insert_eq. by eapply lookup_lt_Some.
  - eapply lock_ok_aside; [done|done|done..|]. by intros ? [= <-].
  - assert (forall j, <[i := Outside]> us !! j <> Some Inside) as Hno.
    { intros j. rewrite list_lookup_insert_Some. intros [(_ & ? & _)|[Hne Hj]]; [done|].
      destruct Hne. by apply Ho. }
    split; simpl; [|by intros j k Hj%Hno|done].
    intros j e. rewrite list_lookup_insert_Some. intros [(_ & ? & _)|[_ Hj]]; [done|by eapply He].
Qed.

Lemma lock_steps_ok l m : lock_ok m -> lock_ok (lock_steps l m).
Proof. revert m. induction l as [|[i b] l IH]; intros m Hm; [done|]. by apply IH, lock_step_ok. Qed.

Lemma lock_ok_new n : lock_ok (MutexLock_new n).
Proof.
  split; simpl; [by intros i e [? _]%lookup_replicate|by intros i j [? _]%lookup_replicate|].
  split; [|done]. by intros _ i [? _]%lookup_replicate.
Qed.

(** C38. The spin lock. Whatever the interleaving of any number of threads that
    call [Lock] and [Unlock] in turn, and however often an exchange fails
    spuriously, at most one thread is between
    [Lock] and [Unlock], and the lock is free exactly when none is. A thread in
    [Lock] that runs undisturbed on a free lock is inside after at most two of
    its steps (without a spurious failure); on a held lock it stays in the
    loop. *)
Theorem spin_lock_exclusive n l :
  let m := lock_steps l (MutexLock_new n) in
  (forall i j, users m !! i = Some Inside -> users m !! j = Some Inside -> i = j) /\
  (value_ m = true <-> forall i, users m !! i <> Some Inside) /\
  (forall i t, users m !! i = Some t -> t <> Outside -> t <> Inside ->
   if value_ m then
     users (lock_step i false m) !! i = Some Inside \/
     users (lock_step i false (lock_step i false m)) !! i = Some Inside
   else forall b, users (lock_step i b m) !! i <> Some Inside).
Proof.
  intros m. destruct (lock_steps_ok l _ (lock_ok_new n)) as [He Ho Hf]. fold m in He, Ho, Hf.
  clearbody m. split_and!; [exact Ho|exact Hf|]. intros i t Hi Ht1 Ht2.
  assert ((i < length (users m))%nat) as Hlt by by eapply lookup_lt_Some.
  destruct m as [v us]. simpl in *. unfold lock_step. simpl. rewrite Hi.
  destruct t as [|e|e|]; try done; [pose proof (He i e Hi) as ->|]; destruct v; simpl.
  - left. by apply list_lookup_insert_eq.
  - intros b. rewrite list_lookup_insert_eq by done. done.
  - right. rewrite list_lookup_insert_eq by done. simpl. apply list_lookup_insert_eq.
    by rewrite length_insert.
  - intros b. rewrite list_lookup_insert_eq by done. done.
Qed.
