(* ===== verification/ReactorManager.v ===== *)
(** * The engines of servers and clients

    Models of [ServerReactorManager] and [ClientReactorManager]
    (src/reactor_manager.h, src/reactor_manager.cc) with the thin classes
    [Server] and [Client] on top of them: which event loop an accepted
    connection goes to, and what a client does with its connector and its one
    connection. *)

From stdpp Require Import prelude gmap list sorting.
From S2P Require Import Prelude.
From S2P Require Import Balancer.
From S2P Require Import Timer.
From S2P Require Connector.

(** ** Server *)

Module Server.

(** An event manager as the engine sees it: its timer with the closures that
    insert accepted descriptors, and the descriptors of the connections that were
    established in it, in order. *)
Record Manager := mkManager {
  timer_ : Timer (Continue := unit) (Task := Z);
  established : list Z;
}.

(** How an event manager was started: [Loop] starts it in a thread of its own,
    [Work] in the caller's, which is there until the loop quits. *)
Inductive mode := OwnThread | Inline.

(** The acceptor, which the constructor sets up as well, is in file Acceptor. The
    slots of the vector [event_managers_] are pointers, which may be equal; event
    managers are numbered, [managers] are those the slots point to, and [loops]
    tells how they were started. *)
Record ServerReactorManager := mkServer {
  event_managers_ : list Z;
  managers : gmap Z Manager;
  balancer_ : Balancer;
  is_started_ : bool;
  loops : gmap Z mode;
}.

(** The acceptor gets the poller of the first manager: without one the
    constructor reads behind the end of the vector. *)
Definition ServerReactorManager_new (ems : list Z) : result ServerReactorManager :=
  match ems with
  | [] => Fault OutOfBounds
  | _ => Ok (mkServer ems (gset_to_gmap (mkManager Timer_new []) (list_to_set ems)) (Balancer_new 0) false ∅)
  end.

Definition set_managers (ms : gmap Z Manager) (b : Balancer) (s : ServerReactorManager) : ServerReactorManager :=
  mkServer (event_managers_ s) ms b (is_started_ s) (loops s).

(** [GetEventerAmount] of the event managers in the slots. *)
Definition amounts (s : ServerReactorManager) : list Z :=
  (fun p => from_option (fun m => zlen (established m)) 0 (managers s !! p)) <$> event_managers_ s.

(** [RunSoon]: a task for now, at the time [tv]. *)
Definition RunSoon (tv : timeval) (fd : Z) (m : Manager) : Manager :=
  mkManager (AddTimeTask (TimePoint_now tv) fd (timer_ m)) (established m).

(** Pick an event manager and have it run the closure that inserts the
    connection. *)
Definition AcceptNewConnectionCallback (tv : timeval) (socket_fd : Z) (s : ServerReactorManager)
  : result ServerReactorManager :=
  '(i, b) ← PickOneEventManager (amounts s) (balancer_ s);
  match event_managers_ s !! Z.to_nat i with
  | None => Fault OutOfBounds
  | Some p => Ok (set_managers (alter (RunSoon tv socket_fd) p (managers s)) b s)
  end.

(** A round of the loop of manager [p] runs the closures that are due at [tv]. *)
Definition run_expired (tv : timeval) (m : Manager) : Manager :=
  let '(expired, t) := GetExpiredTimeTasks tv (timer_ m) in mkManager t (established m ++ expired.*2).
Definition establish (p : Z) (tv : timeval) (s : ServerReactorManager) : ServerReactorManager :=
  set_managers (alter (run_expired tv) p (managers s)) (balancer_ s) s.

(** [EventManager::Loop] and [EventManager::Work]: the first call starts the loop,
    later ones do nothing. [Work] tells whether the caller ran it. *)
Definition loop_one (started : gmap Z mode) (p : Z) : gmap Z mode :=
  match started !! p with None => <[p := OwnThread]> started | Some _ => started end.
Definition work_one (started : gmap Z mode) (p : Z) : gmap Z mode * bool :=
  match started !! p with None => (<[p := Inline]> started, true) | Some _ => (started, false) end.

(** How the managers are started, and whether the caller runs one of the
    loops. *)
Definition Loop (s : ServerReactorManager) : result (ServerReactorManager * bool) :=
  match event_managers_ s with
  | [] => Fault OutOfBounds
  | p :: rest =>
      let '(started, inline) := work_one (foldl loop_one (loops s) rest) p in
      Ok (mkServer (event_managers_ s) (managers s) (balancer_ s) (is_started_ s) started, inline)
  end.

(** [Server::Start]. *)
Definition Start (s : ServerReactorManager) : result (ServerReactorManager * bool) :=
  if is_started_ s then Ok (s, false)
  else Loop (mkServer (event_managers_ s) (managers s) (balancer_ s) true (loops s)).

Inductive event := Accepted (tv : timeval) (fd : Z) | Ran (p : Z) (tv : timeval).

Definition handle (e : event) (s : ServerReactorManager) : result ServerReactorManager :=
  match e with
  | Accepted tv fd => AcceptNewConnectionCallback tv fd s
  | Ran p tv => Ok (establish p tv s)
  end.

Fixpoint handle_all (es : list event) (s : ServerReactorManager) : result ServerReactorManager :=
  match es with [] => Ok s | e :: es => s ← handle e s; handle_all es s end.

(** The descriptors accepted, with the time of each. *)
Definition accepted (es : list event) : list (Z * Z) :=
  es ≫= fun e => match e with Accepted tv fd => [(FNow tv, fd)] | Ran _ _ => [] end.

(** ** Who gets which connection *)

(** The slot of the [k]-th connection. *)
Definition slot (ems : list Z) (k : Z) : option Z := ems !! Z.to_nat (1 + k mod (zlen ems - 1)).

(** The connections for manager [p] among those accepted from number [k] on. *)
Fixpoint share (ems : list Z) (p k : Z) (fds : list (Z * Z)) : list (Z * Z) :=
  match fds with
  | [] => []
  | x :: fds => (if bool_decide (slot ems k = Some p) then [x] else []) ++ share ems p (k + 1) fds
  end.

Lemma share_snoc ems p k fds x :
  share ems p k (fds ++ [x])
  = share ems p k fds ++ (if bool_decide (slot ems (k + zlen fds) = Some p) then [x] else []).
Proof.
  revert k. induction fds as [|y fds IH]; intros k; cbn [share app].
  - rewrite zlen_nil, Z.add_0_r. by rewrite app_nil_r.
  - rewrite IH, zlen_cons, app_assoc. by replace (k + 1 + zlen fds) with (k + (1 + zlen fds)) by lia.
Qed.

Lemma share_in ems p k fds x : x ∈ share ems p k fds -> x ∈ fds.
Proof.
  revert k. induction fds as [|y fds IH]; intros k; cbn [share]; [done|].
  rewrite elem_of_app, elem_of_cons. intros [Hx|Hx]; [|by right; eapply IH].
  destruct (bool_decide _); [|by apply elem_of_nil in Hx]. by apply list_elem_of_singleton in Hx; left.
Qed.

Lemma slot_in ems k : 2 <= zlen ems -> 0 <= k -> exists p, slot ems k = Some p /\ p ∈ tail ems.
Proof.
  intros Hn Hk. unfold slot. pose proof (Z.mod_pos_bound k (zlen ems - 1) ltac:(lia)).
  destruct ems as [|q ems]; [done|]. rewrite zlen_cons in *. cbn [tail].
  replace (Z.to_nat (1 + k mod (1 + zlen ems - 1))) with (S (Z.to_nat (k mod (1 + zlen ems - 1)))) by lia.
  cbn [lookup list_lookup].
  destruct (lookup_lt_is_Some_2 ems (Z.to_nat (k mod (1 + zlen ems - 1)))) as [p Hp]; [unfold zlen in *; lia|].
  exists p. split; [done|]. by eapply list_elem_of_lookup_2.
Qed.

(** A manager in no slot behind the first gets nothing, one in all of them gets
    everything. *)
Lemma share_none ems p k fds : 2 <= zlen ems -> 0 <= k -> p ∉ tail ems -> share ems p k fds = [].
Proof.
  intros Hn Hk Hp. revert k Hk. induction fds as [|x fds IH]; intros k Hk; cbn [share]; [done|].
  destruct (slot_in ems k Hn Hk) as (q & Hq & Hin). rewrite bool_decide_false by (intros ?; simplify_eq; done).
  apply IH. lia.
Qed.

Lemma share_all ems p k fds :
  2 <= zlen ems -> 0 <= k -> Forall (eq p) (tail ems) -> share ems p k fds = fds.
Proof.
  intros Hn Hk Hp. revert k Hk. induction fds as [|x fds IH]; intros k Hk; cbn [share]; [done|].
  destruct (slot_in ems k Hn Hk) as (q & Hq & Hin). rewrite Forall_forall in Hp. rewrite <-(Hp q Hin) in Hq.
  rewrite bool_decide_true by done. cbn [app]. f_equal. apply IH. lia.
Qed.

(** *** The invariant *)

(** The closures that wait, each with its time. *)
Definition pending (m : Manager) : list (Z * Z) := (fun x => (key x, x.2)) <$> time_points_ (timer_ m).

(** The times at which connections were accepted do not go back. *)
Definition forward (fds : list (Z * Z)) : Prop := StronglySorted Z.le fds.*1.

(** [want] is what manager [m] is to get: it has some of it, the rest waits; in
    this order, if the clock does not go back. *)
Definition serves (fds want : list (Z * Z)) (m : Manager) : Prop :=
  exists done, done.*2 = established m /\ done ++ pending m ≡ₚ want /\
    (forward fds -> done ++ pending m = want).

Lemma forward_snoc fds x : forward (fds ++ [x]) -> forward fds /\ Forall (fun y => y.1 <= x.1) fds.
Proof.
  unfold forward. induction fds as [|y fds IH]; simpl; intros Hs; [repeat constructor|].
  apply StronglySorted_inv in Hs as [Hs Hall]. destruct (IH Hs) as [Hf Hl].
  rewrite fmap_app in Hall. apply Forall_app in Hall as [Hall Hx]. split; [by constructor|].
  constructor; [|done]. by apply Forall_cons in Hx as [? _].
Qed.

Lemma serves_post tv fd fds want m :
  (forall x, x ∈ want -> x ∈ fds) -> serves fds want m ->
  serves (fds ++ [(FNow tv, fd)]) (want ++ [(FNow tv, fd)]) (RunSoon tv fd m).
Proof.
  intros Hsub (d & Hd & Hp & Heq). set (x := (TimePoint_now (Continue := unit) tv, fd)).
  exists d. split; [done|]. unfold pending, RunSoon. cbn [timer_ AddTimeTask time_points_]. fold x. split.
  - transitivity (d ++ (FNow tv, fd) :: pending m).
    { apply Permutation_app_head. unfold pending.
      exact (Permutation_map (fun x => (key x, x.2)) (multimap_insert_perm x (time_points_ (timer_ m)))). }
    rewrite <-Permutation_middle, <-Permutation_cons_append. by constructor.
  - intros [Hf Hl]%forward_snoc. rewrite multimap_insert_last.
    + rewrite fmap_app, app_assoc. f_equal. by apply Heq.
    + apply Forall_forall. intros y Hy. rewrite Forall_forall in Hl. apply (Hl (key y, y.2)).
      apply Hsub. rewrite <-Hp. apply elem_of_app. right. apply list_elem_of_fmap. by exists y.
Qed.

Lemma serves_other x fds want m : serves fds want m -> serves (fds ++ [x]) want m.
Proof.
  intros (d & Hd & Hp & Heq). exists d. split; [done|]. split; [done|]. intros [Hf _]%forward_snoc. auto.
Qed.

Lemma serves_run tv fds want m : serves fds want m -> serves fds want (run_expired tv m).
Proof.
  intros (d & Hd & Hp & Heq). unfold run_expired, GetExpiredTimeTasks.
  pose proof (split_expired_app (TimePoint_now tv) (time_points_ (timer_ m))) as Happ.
  destruct (split_expired _ _) as [out rest]. cbn [fst snd] in Happ.
  assert (pending m = ((fun x => (key x, x.2)) <$> out) ++ ((fun x => (key x, x.2)) <$> rest)) as Hpm
    by (unfold pending; by rewrite <-Happ, fmap_app).
  exists (d ++ ((fun x => (key x, x.2)) <$> out)). cbn [established timer_]. split.
  - rewrite fmap_app, Hd. f_equal. rewrite <-list_fmap_compose. done.
  - change (pending (mkManager (mkTimer rest) (established m ++ out.*2))) with ((fun x => (key x, x.2)) <$> rest).
    rewrite <-app_assoc, <-Hpm. done.
Qed.

Record spread (ems : list Z) (fds : list (Z * Z)) (s : ServerReactorManager) : Prop := {
  spread_slots : event_managers_ s = ems;
  spread_strategy : strategy_ (balancer_ s) = kRoundRobin;
  spread_cursor : cursor_ (balancer_ s) = if zlen fds =? 0 then 0 else 1 + (zlen fds - 1) mod (zlen ems - 1);
  spread_managers : dom (managers s) = list_to_set ems;
  spread_serves : forall p m, managers s !! p = Some m -> serves fds (share ems p 0 fds) m;
}.

Lemma spread_new ems s : ServerReactorManager_new ems = Ok s -> spread ems [] s.
Proof.
  intros Hnew. destruct ems as [|p ems]; [done|]. injection Hnew as <-. split; try done.
  - cbn [managers]. by rewrite dom_gset_to_gmap.
  - cbn [managers]. intros q m [_ <-]%lookup_gset_to_gmap_Some. by exists [].
Qed.

Lemma spread_accept ems fds tv fd s :
  2 <= zlen ems < 2 ^ 64 -> spread ems fds s ->
  exists s', AcceptNewConnectionCallback tv fd s = Ok s' /\ spread ems (fds ++ [(FNow tv, fd)]) s'.
Proof.
  intros Hn [Hems Hst Hcur Hdom Hsv]. unfold AcceptNewConnectionCallback. pose proof (zlen_nonneg fds).
  set (n := zlen ems) in *. pose proof (Z.mod_pos_bound (zlen fds - 1) (n - 1) ltac:(lia)).
  pose proof (Z.mod_pos_bound (zlen fds) (n - 1) ltac:(lia)).
  assert (zlen (amounts s) = n) as Ha by (unfold amounts, zlen; by rewrite length_fmap, Hems).
  destruct (balancer_ s) as [st cur] eqn:Hb. cbn [strategy_ cursor_] in *. subst st.
  set (next := 1 + zlen fds mod (n - 1)).
  assert (next_io n cur = next) as Hnext.
  { rewrite Hcur. destruct (Z.eqb_spec (zlen fds) 0) as [Hz|].
    - unfold next. rewrite Hz, Z.mod_0_l by lia. unfold next_io. by destruct (Z.leb_spec n (0 + 1)).
    - rewrite next_io_mod by lia. unfold next. do 2 f_equal. lia. }
  rewrite pick_round_robin; [|lia|rewrite Hcur; destruct (zlen fds =? 0); lia]. rewrite Ha, Hnext.
  cbn [mbind result_bind]. rewrite Hems.
  destruct (slot_in ems (zlen fds)) as (p & Hp & Hin); [lia|lia|].
  pose proof Hp as Hslot. unfold slot in Hp. fold n in Hp. fold next in Hp. rewrite Hp.
  eexists. split; [done|]. split; cbn; try done.
  - rewrite zlen_app, zlen_cons, zlen_nil, (proj2 (Z.eqb_neq _ _)) by lia. unfold next. do 2 f_equal. lia.
  - by rewrite dom_alter_L.
  - intros q m Hm. rewrite share_snoc, Z.add_0_l, Hslot. destruct (decide (p = q)) as [<-|Hne].
    + rewrite bool_decide_true by done. apply lookup_alter_Some in Hm as [(_ & m0 & Hm0 & ->)|[? _]]; [|done].
      apply serves_post; [intros x; apply share_in|by apply Hsv].
    + rewrite bool_decide_false, app_nil_r by congruence.
      apply lookup_alter_Some in Hm as [(? & _)|[_ Hm]]; [done|]. by apply serves_other, Hsv.
Qed.

Lemma spread_establish ems fds p tv s : spread ems fds s -> spread ems fds (establish p tv s).
Proof.
  intros [Hems Hst Hcur Hdom Hsv]. split; cbn; try done; [by rewrite dom_alter_L|].
  intros q m [(<- & m0 & Hm0 & ->)|[_ Hm]]%lookup_alter_Some; [|by apply Hsv]. by apply serves_run, Hsv.
Qed.

Lemma spread_all ems fds es s :
  2 <= zlen ems < 2 ^ 64 -> spread ems fds s ->
  exists s', handle_all es s = Ok s' /\ spread ems (fds ++ accepted es) s'.
Proof.
  intros Hn. revert fds s. induction es as [|e es IH]; intros fds s Hs; cbn [handle_all].
  - unfold accepted. cbn. rewrite app_nil_r. by exists s.
  - destruct e as [tv fd|p tv]; cbn [handle].
    + destruct (spread_accept ems fds tv fd s Hn Hs) as (s' & -> & Hs'). cbn [mbind result_bind].
      destruct (IH _ _ Hs') as (s'' & ? & ?). exists s''. by rewrite <-app_assoc in *.
    + cbn [mbind result_bind]. by apply IH, spread_establish.
Qed.

(** C23. Accepted connections are spread over the I/O slots. With at least two
    slots, whatever the interleaving of the accepting loop with the others,
    every connection is handed over without a fault: the k-th one to the event
    manager in slot [1 + k mod (n - 1)] of the vector. Each manager has
    established or has waiting exactly the connections handed to it, once each,
    and in the order in which they were accepted if the clock does not go back
    between them. So a manager that is in no slot behind the first, as the
    accepting one where every slot has a manager of its own, gets none; and a
    manager that is in all of them, as where all slots share one, gets every
    connection. *)
Theorem connections_spread ems es :
  2 <= zlen ems < 2 ^ 64 ->
  exists s0 s, ServerReactorManager_new ems = Ok s0 /\ handle_all es s0 = Ok s /\
    dom (managers s) = list_to_set ems /\
    forall p m, managers s !! p = Some m ->
      (exists done, done.*2 = established m /\ done ++ pending m ≡ₚ share ems p 0 (accepted es) /\
        (forward (accepted es) -> done ++ pending m = share ems p 0 (accepted es))) /\
      (p ∉ tail ems -> established m = [] /\ pending m = []) /\
      (Forall (eq p) (tail ems) -> established m ++ (pending m).*2 ≡ₚ (accepted es).*2).
Proof.
  intros Hn. assert (exists s0, ServerReactorManager_new ems = Ok s0) as [s0 H0].
  { destruct ems; [rewrite zlen_nil in Hn; lia|by eexists]. }
  destruct (spread_all ems [] es s0 Hn (spread_new ems s0 H0)) as (s & Hrun & [_ _ _ Hdom Hsv]).
  exists s0, s. split; [done|]. split; [done|]. split; [done|]. intros p m Hm.
  destruct (Hsv p m Hm) as (d & Hd & Hp & Heq). rewrite app_nil_l in *. split_and!.
  - by exists d.
  - intros Hno. rewrite share_none in Hp by (done || lia). symmetry in Hp. apply Permutation_nil in Hp.
    apply app_eq_nil in Hp as [-> ->]. done.
  - intros Hall. rewrite share_all in Hp by (done || lia). rewrite <-Hd, <-Hp, fmap_app. done.
Qed.

(** Three managers, of which two do the work. *)
Definition at_time (t : Z) : timeval := mkTimeval 0 t.

Lemma connections_spread_witness :
  exists s0 s, ServerReactorManager_new [0; 1; 2] = Ok s0 /\
    handle_all [Accepted (at_time 10) 10; Accepted (at_time 11) 11; Ran 1 (at_time 12);
                Accepted (at_time 12) 12; Ran 2 (at_time 13); Ran 1 (at_time 13)] s0 = Ok s /\
    forall p m, managers s !! p = Some m -> p ∉ tail [0; 1; 2] -> established m = [] /\ pending m = [].
Proof.
  destruct (connections_spread [0; 1; 2] [Accepted (at_time 10) 10; Accepted (at_time 11) 11; Ran 1 (at_time 12);
                Accepted (at_time 12) 12; Ran 2 (at_time 13); Ran 1 (at_time 13)]) as (s0 & s & H0 & Hs & _ & Hm).
  - vm_compute. split; [discriminate|reflexivity].
  - exists s0, s. split; [exact H0|]. split; [exact Hs|]. intros p m Hp. exact (proj1 (proj2 (Hm p m Hp))).
Defined.

(** The same, evaluated, and with one manager in all slots. *)
Definition served (ems : list Z) (es : list event) : result (list (Z * list Z)) :=
  s0 ← ServerReactorManager_new ems; s ← handle_all es s0;
  Ok ((fun x => (x.1, established x.2)) <$> map_to_list (managers s)).

Lemma two_ways :
  served [0; 1; 2] [Accepted (at_time 10) 10; Accepted (at_time 11) 11; Ran 1 (at_time 12);
                    Accepted (at_time 12) 12; Ran 2 (at_time 13); Ran 1 (at_time 13)]
    = Ok [(2, [11]); (1, [10; 12]); (0, [])] /\
  served [0; 0; 0] [Accepted (at_time 10) 10; Accepted (at_time 11) 11; Ran 0 (at_time 12)]
    = Ok [(0, [10; 11])] /\
  served [0] [Accepted (at_time 10) 10] = Fault OutOfBounds /\ served [] [] = Fault OutOfBounds.
Proof. vm_compute. done. Qed.

End Server.

(** ** Callbacks of a server *)

Module Callbacks.

(** What a callback runs: nothing ([None], an empty function), the server's own
    function, or the user's with number [n]. *)
Inductive code := Own | User (n : Z).

(** The four callbacks an engine holds and hands to its connections. *)
Record Callbacks := mkCallbacks {
  ConnectionCallback_ : option code;
  MessageCallback_ : option code;
  WriteCompleteCallback_ : option code;
  CloseCallback_ : option code;
}.

Record Registry := mkRegistry {
  callbacks_ : Callbacks;
  (** the connections established, each with the callbacks registered on it *)
  connections : list (Z * Callbacks);
}.

(** The engine alone has none. *)
Definition Registry_new : Registry := mkRegistry (mkCallbacks None None None None) [].

Definition SetConnectionCallback (cb : option code) (r : Registry) : Registry :=
  let c := callbacks_ r in
  mkRegistry (mkCallbacks cb (MessageCallback_ c) (WriteCompleteCallback_ c) (CloseCallback_ c)) (connections r).
Definition SetMessageCallback (cb : option code) (r : Registry) : Registry :=
  let c := callbacks_ r in
  mkRegistry (mkCallbacks (ConnectionCallback_ c) cb (WriteCompleteCallback_ c) (CloseCallback_ c)) (connections r).
Definition SetWriteCompleteCallback (cb : option code) (r : Registry) : Registry :=
  let c := callbacks_ r in
  mkRegistry (mkCallbacks (ConnectionCallback_ c) (MessageCallback_ c) cb (CloseCallback_ c)) (connections r).
Definition SetCloseCallback (cb : option code) (r : Registry) : Registry :=
  let c := callbacks_ r in
  mkRegistry (mkCallbacks (ConnectionCallback_ c) (MessageCallback_ c) (WriteCompleteCallback_ c) cb) (connections r).

(** [Server::Server]. *)
Definition Server_new : Registry :=
  SetCloseCallback (Some Own) (SetMessageCallback (Some Own) (SetConnectionCallback (Some Own) Registry_new)).

(** The closure of [AcceptNewConnectionCallback]; [OnEstablishing] calls the
    connection callback, and calling an empty function throws. *)
Definition register_and_establish (fd : Z) (r : Registry) : result Registry :=
  match ConnectionCallback_ (callbacks_ r) with
  | None => Fault NullPointer
  | Some _ => Ok (mkRegistry (callbacks_ r) (connections r ++ [(fd, callbacks_ r)]))
  end.

(** What happens to a server: the user sets a callback, a connection is
    established. *)
Inductive event :=
| SetConnection (cb : code) | SetMessage (cb : code) | SetWriteComplete (cb : code) | SetClose (cb : code)
| Establish (fd : Z).

Definition handle (e : event) (r : Registry) : result Registry :=
  match e with
  | SetConnection cb => Ok (SetConnectionCallback (Some cb) r)
  | SetMessage cb => Ok (SetMessageCallback (Some cb) r)
  | SetWriteComplete cb => Ok (SetWriteCompleteCallback (Some cb) r)
  | SetClose cb => Ok (SetCloseCallback (Some cb) r)
  | Establish fd => register_and_establish fd r
  end.

Fixpoint handle_all (es : list event) (r : Registry) : result Registry :=
  match es with [] => Ok r | e :: es => r ← handle e r; handle_all es r end.

(** The last callback a sequence of events sets, [cb] if it sets none. *)
Definition last_set (pick : event -> option code) (es : list event) (cb : option code) : option code :=
  foldl (fun cb e => match pick e with Some c => Some c | None => cb end) cb es.

Definition callbacks_after (es : list event) (c : Callbacks) : Callbacks :=
  mkCallbacks
    (last_set (fun e => match e with SetConnection cb => Some cb | _ => None end) es (ConnectionCallback_ c))
    (last_set (fun e => match e with SetMessage cb => Some cb | _ => None end) es (MessageCallback_ c))
    (last_set (fun e => match e with SetWriteComplete cb => Some cb | _ => None end) es (WriteCompleteCallback_ c))
    (last_set (fun e => match e with SetClose cb => Some cb | _ => None end) es (CloseCallback_ c)).

Lemma handle_step e r :
  is_Some (ConnectionCallback_ (callbacks_ r)) ->
  exists r', handle e r = Ok r' /\ is_Some (ConnectionCallback_ (callbacks_ r')) /\
    callbacks_ r' = callbacks_after [e] (callbacks_ r) /\
    connections r' = connections r ++ match e with Establish fd => [(fd, callbacks_ r)] | _ => [] end.
Proof.
  intros [cb Hcb]. destruct r as [[c m w cl] l]. simpl in Hcb. subst c.
  destruct e; eexists; (split; [reflexivity|]); simpl; rewrite ?app_nil_r; eauto.
Qed.

(** A server, whatever its user sets and whenever: every connection can be
    established, and it keeps the callbacks that were set last before it was
    established, the server's own where the user set none. *)
Theorem connections_keep_callbacks es :
  exists r, handle_all es Server_new = Ok r /\
    (connections r).*1 = (es ≫= fun e => match e with Establish fd => [fd] | _ => [] end) /\
    callbacks_ r = callbacks_after es (callbacks_ Server_new) /\
    forall before fd after, es = before ++ Establish fd :: after ->
      (fd, callbacks_after before (callbacks_ Server_new)) ∈ connections r.
Proof.
  assert (forall es r0, is_Some (ConnectionCallback_ (callbacks_ r0)) ->
    exists r, handle_all es r0 = Ok r /\ callbacks_ r = callbacks_after es (callbacks_ r0) /\
      (exists l, connections r = connections r0 ++ l /\
        l.*1 = es ≫= fun e => match e with Establish fd => [fd] | _ => [] end) /\
      forall before fd after, es = before ++ Establish fd :: after ->
        (fd, callbacks_after before (callbacks_ r0)) ∈ connections r) as Hgen.
  { intros es0. induction es0 as [|e es0 IH]; intros r0 H0.
    { exists r0. split; [done|]. split; [by destruct r0 as [[]]|]. split; [exists []; by rewrite app_nil_r|].
      intros [|] ???; done. }
    destruct (handle_step e r0 H0) as (r1 & H1 & Hs1 & Hc1 & Hl1).
    destruct (IH r1 Hs1) as (r & Hr & Hc & (l & Hl & Hfst) & Hin). exists r.
    cbn [handle_all]. rewrite H1. split; [done|]. split; [by rewrite Hc, Hc1|]. split.
    - eexists. rewrite Hl, Hl1, <- app_assoc. split; [done|]. rewrite fmap_app, Hfst. by destruct e.
    - intros [|e' before] fd after Heq; simplify_eq/=.
      + rewrite Hl, Hl1. assert (callbacks_after [] (callbacks_ r0) = callbacks_ r0) as -> by (by destruct r0 as [[]]).
        set_solver.
      + specialize (Hin before fd after eq_refl). by rewrite Hc1 in Hin. }
  destruct (Hgen es Server_new) as (r & Hr & Hc & (l & Hl & Hfst) & Hin); [by eexists|].
  exists r. split; [done|]. split; [by rewrite Hl|]. done.
Qed.

(** On the engine alone the first connection faults: nothing sets a connection
    callback. *)
Lemma engine_without_callback fd : handle_all [Establish fd] Registry_new = Fault NullPointer.
Proof. done. Qed.

End Callbacks.

(** ** Client *)

Module Client.

(** Closures given to the loop. *)
Inductive task := TDisconnectInLoop | TStopInLoop.

(** Connections are numbered in the order in which they were set up;
    [established] are their descriptors, [closed] the numbers of those that are
    disconnected; [quits] counts the calls of [Quit]. *)
Record ClientReactorManager := mkClient {
  connector_ : Connector.Connector;
  connection_ : option nat;
  should_retry_ : bool;
  can_connect_ : bool;
  tasks : list task;
  established : list Z;
  closed : list nat;
  quits : nat;
}.

Definition ClientReactorManager_new : ClientReactorManager :=
  mkClient (Connector.Connector_new true) None false true [] [] [] 0.

Definition SetRetryOn (on : bool) (c : ClientReactorManager) : ClientReactorManager :=
  mkClient (connector_ c) (connection_ c) on (can_connect_ c) (tasks c) (established c) (closed c)
    (quits c).

Definition Connect (c : ClientReactorManager) : ClientReactorManager :=
  mkClient (Connector.Start (connector_ c)) (connection_ c) false true (tasks c) (established c)
    (closed c) (quits c).

Definition post (t : task) (c : ClientReactorManager) : ClientReactorManager :=
  mkClient (connector_ c) (connection_ c) (should_retry_ c) (can_connect_ c) (tasks c ++ [t])
    (established c) (closed c) (quits c).
Definition Disconnect (c : ClientReactorManager) : ClientReactorManager := post TDisconnectInLoop c.
Definition Stop (c : ClientReactorManager) : ClientReactorManager := post TStopInLoop c.

(** [Connecting::ForceClose] and [DoClosing]: a connection is marked as
    disconnected before its close callback runs; the callback lets go of the
    current connection and calls [ForceClose] once more, which then does
    nothing. *)
Definition OnClose (n : nat) (c : ClientReactorManager) : ClientReactorManager :=
  if bool_decide (n ∈ closed c) then c
  else
    mkClient (connector_ c) None (should_retry_ c) (can_connect_ c) (tasks c) (established c)
      (closed c ++ [n]) (quits c).

Definition DisconnectInLoop (c : ClientReactorManager) : ClientReactorManager :=
  let connection_to_close := connection_ c in
  let c := mkClient (Connector.Stop (connector_ c)) None false false (tasks c) (established c)
             (closed c) (quits c) in
  let c := match connection_to_close with Some n => OnClose n c | None => c end in
  mkClient (connector_ c) (connection_ c) (should_retry_ c) (can_connect_ c) (tasks c)
    (established c) (closed c) (S (quits c)).
Definition StopInLoop (c : ClientReactorManager) : ClientReactorManager :=
  let connection_to_close := connection_ c in
  let c := mkClient (Connector.Stop (connector_ c)) None false false (tasks c) (established c)
             (closed c) (quits c) in
  let c := match connection_to_close with Some n => OnClose n c | None => c end in
  mkClient (connector_ c) (connection_ c) (should_retry_ c) (can_connect_ c) (tasks c)
    (established c) (closed c) (S (quits c)).

Definition LaunchNewConnectionCallback (socket_fd : Z) (c : ClientReactorManager)
  : ClientReactorManager :=
  mkClient (connector_ c) (Some (length (established c))) (should_retry_ c) (can_connect_ c) (tasks c)
    (established c ++ [socket_fd]) (closed c) (quits c).

(** [~ClientReactorManager]. *)
Definition ClientReactorManager_delete (c : ClientReactorManager) : ClientReactorManager :=
  mkClient (Connector.Stop (connector_ c)) None (should_retry_ c) (can_connect_ c) (tasks c)
    (established c) (closed c) (quits c).

Inductive event :=
| EvConnect | EvDisconnect | EvStop | EvTask | EvConnector (e : Connector.event) | EvClose (n : nat).

Definition set_connector (k : Connector.Connector) (c : ClientReactorManager) : ClientReactorManager :=
  mkClient k (connection_ c) (should_retry_ c) (can_connect_ c) (tasks c) (established c) (closed c)
    (quits c).

(** A connector event, and the callback for each descriptor it hands on. *)
Definition on_connector (e : Connector.event) (c : ClientReactorManager) : ClientReactorManager :=
  let k := Connector.handle e (connector_ c) in
  foldl (fun c fd => LaunchNewConnectionCallback fd c) (set_connector k c)
    (zdrop (zlen (Connector.handed (connector_ c))) (Connector.handed k)).

Definition handle (e : event) (c : ClientReactorManager) : ClientReactorManager :=
  match e with
  | EvConnect => Connect c
  | EvDisconnect => Disconnect c
  | EvStop => Stop c
  | EvTask =>
      match tasks c with
      | [] => c
      | t :: ts =>
          let c := mkClient (connector_ c) (connection_ c) (should_retry_ c) (can_connect_ c) ts
                     (established c) (closed c) (quits c) in
          match t with TDisconnectInLoop => DisconnectInLoop c | TStopInLoop => StopInLoop c end
      end
  | EvConnector e => on_connector e c
  | EvClose n => if bool_decide (n < length (established c))%nat then OnClose n c else c
  end.

Fixpoint handle_all (es : list event) (c : ClientReactorManager) : ClientReactorManager :=
  match es with [] => c | e :: es => handle_all es (handle e c) end.

Lemma launch_fold fds c :
  let c' := foldl (fun c fd => LaunchNewConnectionCallback fd c) c fds in
  forall on, foldl (fun c fd => LaunchNewConnectionCallback fd c) (SetRetryOn on c) fds = SetRetryOn on c'.
Proof. revert c. induction fds as [|fd fds IH]; intros c c' on; [done|]. simpl. apply (IH (LaunchNewConnectionCallback fd c)). Qed.

Lemma handle_retry e on c : exists on', handle e (SetRetryOn on c) = SetRetryOn on' (handle e c).
Proof.
  destruct e; simpl.
  - by exists false.
  - by exists on.
  - by exists on.
  - destruct (tasks c) as [|[] ts]; [by exists on|exists false|exists false].
    all: unfold DisconnectInLoop, StopInLoop, OnClose; simpl; destruct (connection_ c); [|done];
      simpl; by destruct (bool_decide _).
  - exists on. unfold on_connector. simpl.
    change (set_connector (Connector.handle e (connector_ c)) (SetRetryOn on c))
      with (SetRetryOn on (set_connector (Connector.handle e (connector_ c)) c)).
    apply launch_fold.
  - exists on. destruct (bool_decide _); [|done]. unfold OnClose. simpl. by destruct (bool_decide _).
Qed.

(** Connections are closed at most once, and the current one is open. *)
Record client_ok (c : ClientReactorManager) : Prop := {
  ok_closed : NoDup (closed c);
  ok_range : forall n, n ∈ closed c -> (n < length (established c))%nat;
  ok_current : forall n, connection_ c = Some n -> (n < length (established c))%nat /\ n ∉ closed c;
}.

Lemma OnClose_ok n c : client_ok c -> (n < length (established c))%nat -> client_ok (OnClose n c).
Proof.
  intros Hc Hn. unfold OnClose. destruct (bool_decide (n ∈ closed c)) eqn:Hin; [done|].
  apply bool_decide_eq_false_1 in Hin. destruct Hc. split; simpl; [|..|done].
  - apply NoDup_app. split_and!; [done| |apply NoDup_singleton]. by intros x Hx ->%list_elem_of_singleton.
  - intros m. rewrite elem_of_app, list_elem_of_singleton. intros [?|Heq]; [by apply ok_range0|by rewrite Heq].
Qed.

Lemma launch_ok fds c :
  client_ok c -> client_ok (foldl (fun c fd => LaunchNewConnectionCallback fd c) c fds).
Proof.
  revert c. induction fds as [|fd fds IH]; intros c Hc; [done|]. simpl. apply IH. destruct Hc.
  split; simpl; [done| |].
  - intros n Hn. rewrite length_app. simpl. apply ok_range0 in Hn. lia.
  - intros n [= <-]. rewrite length_app. simpl. split; [lia|]. intros Hn%ok_range0. lia.
Qed.

(** Closing the current connection, in either way of stopping. *)
Lemma DisconnectInLoop_eq c :
  client_ok c ->
  client_ok (DisconnectInLoop c) /\ connection_ (DisconnectInLoop c) = None /\
  closed (DisconnectInLoop c) = closed c ++ option_list (connection_ c).
Proof.
  intros Hc. unfold DisconnectInLoop, OnClose. simpl. destruct Hc.
  destruct (connection_ c) as [n|] eqn:Hn; simpl.
  - destruct (ok_current0 n eq_refl) as [Hlt Hnin]. rewrite bool_decide_false by done. simpl.
    split_and!; [|done|done]. split; simpl; [|..|done].
    + apply NoDup_app. split_and!; [done| |apply NoDup_singleton]. by intros x Hx ->%list_elem_of_singleton.
    + intros m. rewrite elem_of_app, list_elem_of_singleton. intros [?|Heq]; [by apply ok_range0|by rewrite Heq].
  - rewrite app_nil_r. split_and!; [|done|done]. by split.
Qed.

Lemma stop_forbids c : Connector.can_connect_ (connector_ (DisconnectInLoop c)) = false.
Proof.
  assert (connector_ (DisconnectInLoop c) = Connector.Stop (connector_ c)) as ->.
  { unfold DisconnectInLoop, OnClose. simpl. destruct (connection_ c); [|done]. simpl.
    by destruct (bool_decide _). }
  unfold Connector.Stop. simpl. destruct (bool_decide _); [|done]. simpl.
  destruct (Connector.eventer_ (connector_ c)); [|done]. by destruct (negb _).
Qed.

Lemma handle_ok e c : client_ok c -> client_ok (handle e c).
Proof.
  intros Hc. destruct e; simpl.
  - destruct Hc. by split.
  - destruct Hc. by split.
  - destruct Hc. by split.
  - destruct (tasks c) as [|t ts]; [done|]. set (c' := mkClient _ _ _ _ ts _ _ _).
    assert (client_ok c') as Hc' by (destruct Hc; by split).
    destruct (DisconnectInLoop_eq c' Hc') as [Hok _]. by destruct t.
  - apply launch_ok. destruct Hc. by split.
  - destruct (bool_decide _) eqn:Hlt; [|done]. apply bool_decide_eq_true_1 in Hlt. by apply OnClose_ok.
Qed.

(** [Disconnect] and [Stop] do the same: in the loop, the connection, if there
    is one, is closed (for the first time) and let go of, the connector is
    stopped and the event loop is told to quit; no connection is ever closed
    twice. The retry flag is never looked at: whatever it is set to, the client
    behaves the same. *)
Theorem client_stop_and_retry es on es' :
  let c := handle_all es ClientReactorManager_new in
  StopInLoop c = DisconnectInLoop c /\
  connection_ (DisconnectInLoop c) = None /\
  closed (DisconnectInLoop c) = closed c ++ option_list (connection_ c) /\
  NoDup (closed (DisconnectInLoop c)) /\
  quits (DisconnectInLoop c) = S (quits c) /\
  Connector.can_connect_ (connector_ (DisconnectInLoop c)) = false /\
  (exists on', handle_all es' (SetRetryOn on c) = SetRetryOn on' (handle_all es' c)).
Proof.
  intros c. assert (forall es c, client_ok c -> client_ok (handle_all es c)) as Hall.
  { clear. induction es as [|e es IH]; intros c Hc; [done|]. by apply IH, handle_ok. }
  assert (client_ok c) as Hc by (apply Hall; split; simpl; [constructor|by intros n ?%elem_of_nil|done]).
  destruct (DisconnectInLoop_eq c Hc) as (Hok & Hnone & Hclosed).
  split_and!; try done.
  - apply (ok_closed _ Hok).
  - unfold DisconnectInLoop, OnClose. simpl.
    destruct (connection_ c); simpl; [by destruct (bool_decide _)|done].
  - apply stop_forbids.
  - clearbody c. clear Hok Hnone Hclosed Hc Hall. revert c on.
    induction es' as [|e es' IH]; intros c on; simpl; [by exists on|].
    destruct (handle_retry e on c) as [on' ->]. apply IH.
Qed.

End Client.
