(* ===== verification/Apps.v ===== *)
(** * The programs of the examples

    What the [main] functions under example/ make of their arguments and what
    becomes of the objects they construct: the servers' vectors of event managers,
    [Server::Start] on them, and their destructors. The parts they are made of are
    in SimpleServers, ReactorManager and Pingpong; the input loop of the chat
    client is in ChatRoom. *)

From Stdlib Require Import Strings.String.
From stdpp Require Import prelude gmap list.
From coqutil Require Import Byte.
From S2P Require Import Prelude.
From S2P Require Import Text.
From S2P Require Import ConnApi.
From S2P Require Import Balancer.
From S2P Require Import HttpFacts.
From S2P Require Import SimpleServers.
From S2P Require ReactorManager.
From S2P Require Pingpong.

(** ** Arguments *)

Module Args.
(** The exceptions that leave [main]. *)
Inductive thrown := InvalidArgument | OutOfRange | LengthError.

Definition is_space (c : byte) : bool := let c := byte.unsigned c in (c =? 32) || ((9 <=? c) && (c <=? 13)).
Definition is_digit (c : byte) : bool := let c := byte.unsigned c in (48 <=? c) && (c <=? 57).

Fixpoint skip_space (s : text) : text :=
  match s with c :: s' => if is_space c then skip_space s' else s | [] => [] end.
Fixpoint take_digits (s : text) : text :=
  match s with c :: s' => if is_digit c then c :: take_digits s' else [] | [] => [] end.

(** The number [strtol] reads in base 10, before it is fitted into a [long];
    [None] when there is none. *)
Definition strtol (s : text) : option Z :=
  let s := skip_space s in
  let '(neg, s) := match s with
                   | Byte.x2d :: s' => (true, s')
                   | Byte.x2b :: s' => (false, s')
                   | _ => (false, s)
                   end in
  match take_digits s with
  | [] => None
  | ds => Some (if (neg : bool) then - dec_value ds else dec_value ds)
  end.

Definition stoi (s : text) : thrown + Z :=
  match strtol s with
  | None => inl InvalidArgument
  | Some v => if (- 2 ^ 31 <=? v) && (v <? 2 ^ 31) then inr v else inl OutOfRange
  end.

(** [strtol] clamps, the conversion to [int] wraps. *)
Definition atoi (s : text) : Z :=
  match strtol s with
  | None => 0
  | Some v => s32 (Z.max (- 2 ^ 63) (Z.min v (2 ^ 63 - 1)))
  end.

(** The port and the number of threads of a server; without an argument vector
    the last branch reads past its end. *)
Definition server_args (io_thread_amount : Z) (argv : list text) : result (thrown + Z * Z) :=
  match argv with
  | [] => Fault OutOfBounds
  | [_] => Ok (inr (4567, io_thread_amount))
  | [_; port] =>
      Ok (match stoi port with inl t => inl t | inr p => inr (u16 p, io_thread_amount) end)
  | _ :: port :: threads :: _ =>
      Ok (match stoi port with
          | inl t => inl t
          | inr p => match stoi threads with inl t => inl t | inr n => inr (u16 p, u64 n) end
          end)
  end.

(** The address the chat client connects to; [None]: the usage is printed. A
    single argument is the address, whatever it is. *)
Definition chat_client_args (argv : list text) : result (option (thrown + text * Z)) :=
  match argv with
  | [] => Fault OutOfBounds
  | [_] => Ok None
  | [_; ip] => Ok (Some (inr (ip, 4567)))
  | _ :: ip :: port :: _ => Ok (Some (match stoi port with inl t => inl t | inr p => inr (ip, u16 p) end))
  end.

(** Address, block size, sessions, time and threads of the ping-pong client;
    [None]: the usage is printed. *)
Record PingpongArgs := mkPingpongArgs {
  host_ip : text; port : Z; block_size : Z; session_count : Z; timeout : Z; thread_count : Z;
}.
Definition pingpong_args (argv : list text) : option PingpongArgs :=
  match argv with
  | [_; a1; a2; a3; a4; a5; a6] =>
      Some (mkPingpongArgs a1 (u16 (atoi a2)) (u64 (atoi a4)) (u64 (atoi a5)) (atoi a6) (u64 (atoi a3)))
  | _ => None
  end.
End Args.

(** ** Servers *)

Module Servers.
Import Args ReactorManager ReactorManager.Callbacks.

(** [std::vector<EventManager*>::max_size()]. *)
Definition max_size : Z := 2 ^ 60 - 1.

(** Event managers are numbered as they are created. *)
Definition numbered (n : nat) : list Z := Z.of_nat <$> List.seq 0 n.

(** The echo, discard, time, chat and HTTP servers create one manager for all
    slots ... *)
Definition make_shared (io_thread_amount : Z) : thrown + list Z :=
  if max_size <? io_thread_amount then inl LengthError
  else inr (Managers.shared (Z.to_nat io_thread_amount) 0).

(** ... the ping-pong server creates one for each, and one more. *)
Definition make_separate (io_thread_amount : Z) : thrown + list Z :=
  let n := io_thread_amount +u 1 in
  if max_size <? n then inl LengthError else inr (numbered (Z.to_nat n)).

(** A server of the examples: the engine of its [Server] with the event managers,
    and the callbacks it gave to it. *)
Record ServerObject := mkServerObject {
  engine : Server.ServerReactorManager;
  registry : Registry;
}.
Definition managers (o : ServerObject) : list Z := Server.event_managers_ (engine o).

(** The numbers of the servers' own callbacks. *)
Definition on_connection : code := User 1.
Definition on_message : code := User 2.

Definition new_server (make : Z -> thrown + list Z) (set : Registry -> Registry) (io_thread_amount : Z)
  : thrown + result ServerObject :=
  match make io_thread_amount with
  | inl t => inl t
  | inr ems => inr (e ← Server.ServerReactorManager_new ems; Ok (mkServerObject e (set Server_new)))
  end.

Definition set_message : Registry -> Registry := SetMessageCallback (Some on_message).
Definition set_both (r : Registry) : Registry := set_message (SetConnectionCallback (Some on_connection) r).

Definition EchoServer_new : Z -> thrown + result ServerObject := new_server make_shared set_message.
Definition DiscardServer_new : Z -> thrown + result ServerObject := new_server make_shared set_message.
Definition TimeServer_new : Z -> thrown + result ServerObject := new_server make_shared set_message.
Definition ChatServer_new : Z -> thrown + result ServerObject := new_server make_shared set_both.
Definition HttpServer_new : Z -> thrown + result ServerObject := new_server make_shared set_both.
Definition PingpongServer_new : Z -> thrown + result ServerObject := new_server make_separate set_both.

(** [Start] of the servers is [Server::Start]. *)
Definition Start (o : ServerObject) : result (ServerObject * bool) :=
  '(e, inline) ← Server.Start (engine o); Ok (mkServerObject e (registry o), inline).

(** [~Server]: the acceptor's eventer takes itself out of the poller of the first
    manager. *)
Definition Server_delete (ems : list Z) (live : gset Z) : result (gset Z) :=
  match ems with
  | [] => Fault OutOfBounds
  | p :: _ => if bool_decide (p ∈ live) then Ok live else Fault OutOfBounds
  end.

(** The destructors: the managers are deleted in the body, the server after it. *)
Definition destroy (ems : list Z) (live : gset Z) : result (gset Z) :=
  live ← Managers.delete_all ems live;
  Server_delete ems live.

Definition server_delete (o : ServerObject) (live : gset Z) : result (gset Z) := destroy (managers o) live.
Definition EchoServer_delete : ServerObject -> gset Z -> result (gset Z) := server_delete.
Definition DiscardServer_delete : ServerObject -> gset Z -> result (gset Z) := server_delete.
Definition TimeServer_delete : ServerObject -> gset Z -> result (gset Z) := server_delete.
Definition ChatServer_delete : ServerObject -> gset Z -> result (gset Z) := server_delete.
Definition HttpServer_delete : ServerObject -> gset Z -> result (gset Z) := server_delete.
Definition PingpongServer_delete : ServerObject -> gset Z -> result (gset Z) := server_delete.

(** What becomes of a program: an exception leaves [main], its behaviour is
    undefined, it serves at a port with these loops, or it ends. When [Start]
    returns while the loop runs in another thread, the destructor of the manager
    tells the loop to quit and waits for it; [quit_lost]: the thread gets to
    [EventManager::Start], which clears the flag, only afterwards, and the
    destructor waits for ever while the loop serves. *)
Inductive program :=
| Uncaught (t : thrown) | Undefined | Serves (port : Z) (server : ServerObject) | Ends.

(** The loops that run. *)
Definition loops (o : ServerObject) : gmap Z Server.mode := Server.loops (engine o).

Definition server_main (new : Z -> thrown + result ServerObject) (delete : ServerObject -> gset Z -> result (gset Z))
    (io_thread_amount : Z) (quit_lost : bool) (argv : list text) : program :=
  match server_args io_thread_amount argv with
  | Fault _ => Undefined
  | Ok (inl t) => Uncaught t
  | Ok (inr (port, n)) =>
      match new n with
      | inl t => Uncaught t
      | inr (Fault _) => Undefined
      | inr (Ok o) =>
          match Start o with
          | Fault _ => Undefined
          | Ok (o, true) => Serves port o
          | Ok (o, false) =>
              if quit_lost then Serves port o
              else match delete o (list_to_set (managers o)) with Fault _ => Undefined | Ok _ => Ends end
          end
      end
  end.

(** The programs, with their default numbers of threads. *)
Definition echo_main : bool -> list text -> program := server_main EchoServer_new EchoServer_delete 3.
Definition discard_main : bool -> list text -> program := server_main DiscardServer_new DiscardServer_delete 3.
Definition time_main : bool -> list text -> program := server_main TimeServer_new TimeServer_delete 3.
Definition chat_server_main : bool -> list text -> program := server_main ChatServer_new ChatServer_delete 3.
Definition http_main : bool -> list text -> program := server_main HttpServer_new HttpServer_delete 4.
Definition pingpong_server_main : bool -> list text -> program := server_main PingpongServer_new PingpongServer_delete 5.

(** [RpcServer::RpcServer], and the demo's [main], which owns four managers and
    would delete them before the server. *)
Definition RpcServer_new (ems : list Z) : result ServerObject :=
  e ← Server.ServerReactorManager_new ems;
  Ok (mkServerObject e (SetConnectionCallback (Some on_connection) Server_new)).
Definition rpc_server_main : program :=
  match o ← RpcServer_new (numbered 4); Start o with
  | Fault _ => Undefined
  | Ok (o, true) => Serves 4567 o
  | Ok (o, false) => match destroy (managers o) (list_to_set (managers o)) with Fault _ => Undefined | Ok _ => Ends end
  end.

(** [main] of the ping-pong client up to [Start]; [None]: the usage. *)
Definition pingpong_main {C} `{!ConnApi C} (argv : list text) : option (thrown + result (Pingpong.PingpongClient C)) :=
  match pingpong_args argv with
  | None => None
  | Some a =>
      Some (if max_size <? thread_count a then inl LengthError
            else inr (Pingpong.PingpongClient_new (block_size a) (session_count a) (timeout a)
                        (Z.to_nat (thread_count a))))
  end.
End Servers.

(** ** Numbers as arguments *)

Section numbers.
Import Args.

Lemma dec_loop_digits fuel n : 0 <= n -> Forall (fun c => is_digit c = true) (dec_loop fuel n).
Proof.
  assert (forall k, 0 <= k < 10 -> is_digit (digit k) = true) as Hd.
  { intros k Hk. pose proof (digit_value k Hk). unfold is_digit. apply andb_true_intro. split; apply Z.leb_le; lia. }
  revert n. induction fuel as [|fuel IH]; intros n Hn; cbn [dec_loop]; [constructor|].
  destruct (Z.ltb_spec n 10); [by constructor; [apply Hd|constructor]|].
  apply Forall_app. split; [apply IH, Z.div_pos; lia|]. constructor; [|constructor].
  apply Hd, Z.mod_pos_bound. lia.
Qed.

Lemma take_digits_all s : Forall (fun c => is_digit c = true) s -> take_digits s = s.
Proof. induction 1 as [|c s Hc Hs IH]; [done|]. cbn [take_digits]. by rewrite Hc, IH. Qed.

(** A number that starts with a digit has neither spaces nor a sign in front. *)
Lemma strtol_digits s :
  Forall (fun c => is_digit c = true) s -> s <> [] -> strtol s = Some (dec_value s).
Proof.
  intros Hs Hne. pose proof (take_digits_all s Hs) as Ht. destruct Hs as [|c s Hc Hs]; [done|].
  unfold strtol. assert (is_space c = false) as Hsp.
  { unfold is_digit, is_space in *. apply andb_true_iff in Hc as [?%Z.leb_le ?%Z.leb_le].
    apply orb_false_iff. split; [apply Z.eqb_neq; lia|]. apply andb_false_iff. right. apply Z.leb_gt. lia. }
  cbn [skip_space]. rewrite Hsp.
  assert (match c with Byte.x2d => False | Byte.x2b => False | _ => True end) as Hsign by by destruct c.
  destruct c; try done; by rewrite Ht.
Qed.

Lemma dec_loop_some fuel n : dec_loop (S fuel) n <> [].
Proof. cbn [dec_loop]. destruct (n <? 10); [done|]. by intros [_ ?]%app_eq_nil. Qed.

Lemma strtol_dec n : 0 <= n < 10 ^ 20 -> strtol (dec n) = Some n.
Proof.
  intros Hn. pose proof (dec_value_dec n Hn) as Hv. revert Hv. unfold dec.
  rewrite (proj2 (Z.ltb_ge n 0)) by lia. intros Hv.
  rewrite strtol_digits; [by rewrite Hv|apply dec_loop_digits; lia|apply dec_loop_some].
Qed.

Lemma stoi_dec n : 0 <= n < 2 ^ 31 -> stoi (dec n) = inr n.
Proof.
  intros Hn. unfold stoi. rewrite strtol_dec by lia.
  rewrite (proj2 (Z.leb_le _ _)), (proj2 (Z.ltb_lt _ _)) by lia. done.
Qed.

Lemma atoi_dec n : 0 <= n < 2 ^ 31 -> atoi (dec n) = n.
Proof.
  intros Hn. unfold atoi. rewrite strtol_dec by lia.
  rewrite Z.min_l, Z.max_r by lia. unfold s32. rewrite sext_small; lia.
Qed.

(** The usage has the port as the argument that must be given; a single argument
    is taken for the address. *)
Lemma chat_client_args_read prog ip p more :
  0 <= p < 65536 ->
  chat_client_args (prog :: ip :: dec p :: more) = Ok (Some (inr (ip, p))) /\
  chat_client_args [prog; dec p] = Ok (Some (inr (dec p, 4567))).
Proof.
  intros Hp. cbn [chat_client_args]. rewrite stoi_dec by lia. split; [|done].
  unfold u16. by rewrite Z.mod_small by lia.
Qed.
End numbers.

(** ** Servers and their managers *)

Section servers.
Import Args Servers ReactorManager.

Lemma loop_all l (started : gmap Z Server.mode) :
  foldl Server.loop_one started l = started ∪ gset_to_gmap Server.OwnThread (list_to_set l).
Proof.
  revert started. induction l as [|p l IH]; intros started; cbn [foldl].
  { cbn [list_to_set]. by rewrite gset_to_gmap_empty, (right_id_L ∅ (∪)). }
  rewrite IH. unfold Server.loop_one. cbn [list_to_set]. rewrite gset_to_gmap_union_singleton.
  apply map_eq. intros q. rewrite !lookup_union. destruct (started !! p) as [m|] eqn:Ep.
  - destruct (decide (q = p)) as [->|Hne]; [|by rewrite lookup_insert_ne].
    rewrite Ep, lookup_insert_eq. by destruct (gset_to_gmap _ _ !! p).
  - destruct (decide (q = p)) as [->|Hne]; [|by rewrite !lookup_insert_ne].
    rewrite !lookup_insert_eq, Ep. by destruct (gset_to_gmap _ _ !! p).
Qed.

(** Construction and start on a vector with a first slot: the other managers get
    threads of their own, and the caller runs the first unless it has one. *)
Lemma start_outcome p rest set :
  exists e, Server.ServerReactorManager_new (p :: rest) = Ok e /\
    let others := gset_to_gmap Server.OwnThread (list_to_set rest) in
    Start (mkServerObject e set)
    = Ok (mkServerObject (Server.mkServer (p :: rest) (Server.managers e) (Server.balancer_ e) true
            (if bool_decide (p ∈ rest) then others else <[p := Server.Inline]> others)) set,
          negb (bool_decide (p ∈ rest))).
Proof.
  eexists. split; [done|]. cbv zeta. unfold Start, Server.Start, Server.Loop, Server.work_one.
  cbn [engine Server.is_started_ Server.event_managers_ Server.loops].
  rewrite loop_all, (left_id_L ∅ (∪)), lookup_gset_to_gmap.
  destruct (bool_decide_reflect (p ∈ rest)) as [Hin|Hin].
  - rewrite option_guard_True by (by apply elem_of_list_to_set). done.
  - rewrite option_guard_False by (by rewrite elem_of_list_to_set). done.
Qed.

Lemma numbered_rest k : (0 : Z) ∉ ((Z.of_nat <$> List.seq 1 k) : list Z).
Proof. intros (i & Hi & Hin)%list_elem_of_fmap. apply elem_of_seq in Hin. lia. Qed.

Lemma deleted_gone ems : forall live live', Managers.delete_all ems live = Ok live' ->
  live' ⊆ live /\ forall p, p ∈ ems -> p ∉ live'.
Proof.
  induction ems as [|q ems IH]; intros live live' Hd; cbn [Managers.delete_all] in Hd.
  { simplify_eq. split; [done|]. by intros p ?%elem_of_nil. }
  destruct (bool_decide _); [|done]. destruct (IH _ _ Hd) as [Hs Hg]. split; [set_solver|].
  intros p [->|Hp]%elem_of_cons; [set_solver|by apply Hg].
Qed.

(** No server survives its destructor: the managers are gone when the acceptor
    turns to its poller. *)
Lemma destroy_undefined p ems live : exists f, destroy (p :: ems) live = Fault f.
Proof.
  unfold destroy. destruct (Managers.delete_all (p :: ems) live) as [live'|f] eqn:Hd; cbn [mbind result_bind]; [|by eexists].
  destruct (deleted_gone _ _ _ Hd) as [_ Hg]. unfold Server_delete.
  rewrite bool_decide_false by (apply Hg; by left). by eexists.
Qed.

Lemma server_args_dec d prog p n more :
  0 <= p < 65536 -> 0 <= n < 2 ^ 31 ->
  server_args d (prog :: dec p :: dec n :: more) = Ok (inr (p, n)).
Proof.
  intros Hp Hn. unfold server_args. rewrite !stoi_dec by lia. unfold u16. rewrite Z.mod_small by lia.
  by rewrite u64_small by lia.
Qed.

(** The server with its callbacks: what the engine will hand its connections. *)
Definition started (ems : list Z) (loops : gmap Z Server.mode) (set : Callbacks.Registry -> Callbacks.Registry)
    (o : ServerObject) : Prop :=
  exists e, Server.ServerReactorManager_new ems = Ok e /\
    o = mkServerObject (Server.mkServer ems (Server.managers e) (Server.balancer_ e) true loops)
          (set Callbacks.Server_new).

(** With one manager the balancer has no loop to choose. *)
Lemma one_manager_refuses p loops set o tv fd :
  started [p] loops set o -> Server.AcceptNewConnectionCallback tv fd (engine o) = Fault OutOfBounds.
Proof. by intros (e & [= <-] & ->). Qed.

(** With two slots at least every connection is handed on. *)
Lemma started_accepts ems loops set o es :
  2 <= zlen ems < 2 ^ 64 -> started ems loops set o -> exists s, Server.handle_all es (engine o) = Ok s.
Proof.
  intros Hn (e & He & ->). pose proof (Server.spread_new ems e He) as [].
  destruct (Server.spread_all ems [] es (Server.mkServer ems (Server.managers e) (Server.balancer_ e) true loops))
    as (s & Hs & _); [done|by split|by exists s].
Qed.

(** A server that shares one manager, with [n] slots. *)
Lemma shared_main set d lost argv p n :
  server_args d argv = Ok (inr (p, n)) -> 0 <= n < 2 ^ 31 ->
  if n =? 1 then
    exists o, server_main (new_server make_shared set) server_delete d lost argv = Serves p o /\
      started [0] {[0 := Server.Inline]} set o
  else if (1 <? n) && lost then
    exists o, server_main (new_server make_shared set) server_delete d lost argv = Serves p o /\
      started (Managers.shared (Z.to_nat n) 0) {[0 := Server.OwnThread]} set o
  else server_main (new_server make_shared set) server_delete d lost argv = Undefined.
Proof.
  intros Hargs Hn. unfold server_main. rewrite Hargs. unfold new_server, make_shared, max_size.
  rewrite (proj2 (Z.ltb_ge _ _)) by lia. unfold Managers.shared.
  destruct (Z.to_nat n) as [|k] eqn:En; [by assert (n = 0) as -> by lia|]. cbn [replicate].
  destruct (start_outcome 0 (replicate k 0) (set Callbacks.Server_new)) as (e & He & HS).
  rewrite He. cbn [mbind result_bind]. rewrite HS. destruct k as [|k].
  - assert (n = 1) as -> by lia. cbn. rewrite gset_to_gmap_empty, insert_empty.
    eexists. split; [done|]. by eexists.
  - rewrite (proj2 (Z.eqb_neq n 1)), (proj2 (Z.ltb_lt 1 n)) by lia. cbn [andb].
    rewrite bool_decide_true by (cbn [replicate]; by left). cbn [negb]. destruct lost.
    + eexists. split; [done|]. exists e. split; [done|]. do 2 f_equal.
      assert (list_to_set (replicate (S k) 0) = ({[0]} : gset Z)) as ->; [|by rewrite gset_to_gmap_singleton].
      apply set_eq. intros q. rewrite elem_of_list_to_set, elem_of_replicate, elem_of_singleton.
      split; [by intros [-> _]|]. intros ->. by split.
    + unfold server_delete. cbn [managers engine Server.event_managers_].
      by destruct (destroy_undefined 0 (replicate (S k) 0) (list_to_set (0 :: replicate (S k) 0))) as [f ->].
Qed.

Lemma separate_main d lost argv p n :
  server_args d argv = Ok (inr (p, n)) -> 0 <= n < 2 ^ 31 ->
  exists o, server_main PingpongServer_new PingpongServer_delete d lost argv = Serves p o /\
    started (numbered (S (Z.to_nat n)))
      (<[0 := Server.Inline]> (gset_to_gmap Server.OwnThread (list_to_set (Z.of_nat <$> List.seq 1 (Z.to_nat n))))) set_both o.
Proof.
  intros Hargs Hn. unfold server_main. rewrite Hargs.
  unfold PingpongServer_new, new_server, make_separate, max_size.
  rewrite (u64_small (n + 1)) by lia. cbv zeta. rewrite (proj2 (Z.ltb_ge _ _)) by lia.
  replace (Z.to_nat (n + 1)) with (S (Z.to_nat n)) by lia. unfold numbered. cbn [List.seq fmap list_fmap].
  destruct (start_outcome (Z.of_nat 0) (Z.of_nat <$> List.seq 1 (Z.to_nat n)) (set_both Callbacks.Server_new)) as (e & He & HS).
  rewrite He. cbn [mbind result_bind]. rewrite HS, bool_decide_false by apply numbered_rest. cbn [negb].
  eexists. split; [done|]. by exists e.
Qed.

(** The programs that share one manager, with what they set. *)
Definition sharing_mains : list ((bool -> list text -> program) * (Callbacks.Registry -> Callbacks.Registry)) :=
  [(echo_main, set_message); (discard_main, set_message); (time_main, set_message);
   (chat_server_main, set_both); (http_main, set_both)].

(** C19. The server programs on a port and a number of threads, which they read
    back from their decimal texts. The ping-pong server serves at its port: the
    main thread accepts, each other event manager has its thread, and with at
    least one of them every connection is handed on. The echo, discard, time, chat
    and HTTP servers put one event manager into all slots, and with no number of
    threads do they do what is meant. With 0 the constructor reads behind the
    empty vector. With 1 the program serves, in the main thread, and listens at
    its port, but its first connection is handed to a manager behind the end of
    the vector. With more, [Start] returns at once and the destructor deletes
    the manager twice, unless the request to quit is lost: then the one loop
    serves, in its own thread, and takes every connection, while the destructor
    waits for ever. *)
Theorem server_programs lost prog p n more :
  0 <= p < 65536 -> 0 <= n < 2 ^ 31 ->
  let argv := prog :: dec p :: dec n :: more in
  (exists o, pingpong_server_main lost argv = Serves p o /\
    (forall i, loops o !! i =
       if i =? 0 then Some Server.Inline else if (0 <? i) && (i <=? n) then Some Server.OwnThread else None) /\
    (1 <= n -> forall es, exists s, Server.handle_all es (engine o) = Ok s)) /\
  (forall main set, (main, set) ∈ sharing_mains ->
    (n = 0 -> main lost argv = Undefined) /\
    (n = 1 -> exists o, main lost argv = Serves p o /\ loops o = {[0 := Server.Inline]} /\
       forall tv fd, Server.AcceptNewConnectionCallback tv fd (engine o) = Fault OutOfBounds) /\
    (2 <= n -> lost = false -> main lost argv = Undefined) /\
    (2 <= n -> lost = true -> exists o, main lost argv = Serves p o /\ loops o = {[0 := Server.OwnThread]} /\
       forall es, exists s, Server.handle_all es (engine o) = Ok s)).
Proof.
  intros Hp Hn argv. assert (forall d, server_args d argv = Ok (inr (p, n))) as Hargs
    by (intros; by apply server_args_dec).
  clearbody argv. split.
  - destruct (separate_main 5 lost argv p n (Hargs 5) Hn) as (o & Ho & Hst). exists o. split; [done|]. split.
    + destruct Hst as (e & _ & ->). cbn [loops engine Server.loops].
      intros i. destruct (Z.eqb_spec i 0) as [->|Hi]; [by rewrite lookup_insert_eq|].
      rewrite lookup_insert_ne, lookup_gset_to_gmap by done.
      assert (i ∈ (list_to_set (Z.of_nat <$> List.seq 1 (Z.to_nat n)) : gset Z) <-> 0 < i <= n) as Hin.
      { rewrite elem_of_list_to_set, list_elem_of_fmap. split.
        - intros (k & -> & Hk%elem_of_seq). lia.
        - intros Hr. exists (Z.to_nat i). rewrite elem_of_seq. lia. }
      destruct (Z.ltb_spec 0 i), (Z.leb_spec i n); cbn [andb];
        [rewrite option_guard_True by (apply Hin; lia); done|..];
        (rewrite option_guard_False; [done|]; rewrite Hin; lia).
    + intros H1 es. eapply started_accepts; [|exact Hst].
      unfold numbered, zlen. rewrite length_fmap, length_seq. lia.
  - intros main set Hm.
    assert (exists d, main = (fun lost => server_main (new_server make_shared set) server_delete d lost)) as [d ->].
    { unfold sharing_mains in Hm. repeat (apply elem_of_cons in Hm as [Hm|Hm]; [simplify_eq; by eexists|]).
      by apply elem_of_nil in Hm. }
    pose proof (shared_main set d lost argv p n (Hargs d) Hn) as Hmain. split_and!.
    + intros ->. exact Hmain.
    + intros ->. destruct Hmain as (o & Ho & Hst). exists o. split; [done|].
      split; [by destruct Hst as (e & _ & ->)|]. intros tv fd. by eapply one_manager_refuses.
    + intros H2 ->. by rewrite (proj2 (Z.eqb_neq _ _)), andb_false_r in Hmain by lia.
    + intros H2 ->. rewrite (proj2 (Z.eqb_neq _ _)), (proj2 (Z.ltb_lt _ _)) in Hmain by lia.
      destruct Hmain as (o & Ho & Hst). exists o. split; [done|].
      split; [by destruct Hst as (e & _ & ->)|]. intros es. eapply started_accepts; [|exact Hst].
      unfold Managers.shared, zlen. rewrite length_replicate. lia.
Qed.

(** Without arguments, as their default numbers of threads are more than one. *)
Lemma default_server_undefined set d prog :
  2 <= d < 2 ^ 31 -> server_main (new_server make_shared set) server_delete d false [prog] = Undefined.
Proof.
  intros Hd. pose proof (shared_main set d false [prog] 4567 d eq_refl ltac:(lia)) as Hmain.
  by rewrite (proj2 (Z.eqb_neq _ _)), andb_false_r in Hmain by lia.
Qed.

(** The ping-pong client, started with a thread at least, has its managers; when
    it is destroyed each of them is found. *)
Lemma pingpong_main_ok {C} `{!ConnApi C} prog ip p th bs ss ti :
  0 <= p < 65536 -> 1 <= th < 2 ^ 31 -> 0 <= bs < 2 ^ 31 -> 0 <= ss < 2 ^ 31 -> 0 <= ti < 2 ^ 31 ->
  exists c c' : Pingpong.PingpongClient C,
    pingpong_main [prog; ip; dec p; dec th; dec bs; dec ss; dec ti] = Some (inr (Ok c)) /\
    Pingpong.session_count_ c = ss /\ Pingpong.timeout_ c = ti /\ Pingpong.message_ c = Pingpong.block bs /\
    Pingpong.PingpongClient_delete c = Ok c'.
Proof.
  intros Hp Hth Hbs Hss Hti. unfold pingpong_main, pingpong_args. cbn [thread_count block_size session_count timeout].
  rewrite !atoi_dec by lia. rewrite !u64_small by lia. unfold max_size. rewrite (proj2 (Z.ltb_ge _ _)) by lia.
  destruct (Pingpong.PingpongClient_new_ok (C := C) bs ss ti (Z.to_nat th)) as (c & -> & Hm & Hs & Ht & _ & Hmsg & _); [lia|].
  destruct (Pingpong.PingpongClient_delete_ok _ c Hm) as (c' & Hd & _). by exists c, c'.
Qed.
End servers.

(** ** An evaluation *)

Module Concrete.
Import Args Servers.

Lemma server_programs_witness :
  (exists o, pingpong_server_main false (txt "server" :: dec 8080 :: dec 2 :: []) = Serves 8080 o) /\
  echo_main false (txt "server" :: dec 8080 :: dec 2 :: []) = Undefined.
Proof.
  destruct (server_programs false (txt "server") 8080 2 []) as [(o & Hs & _) Hm]; [lia|lia|].
  split; [by exists o|]. apply (Hm echo_main set_message); [by left|lia|reflexivity].
Defined.

(** Text behind the number is ignored, too large a number throws, a port wraps. *)
Lemma arguments_read :
  stoi (txt "80x") = inr 80 /\ stoi (txt "x") = inl InvalidArgument /\ stoi (txt "2147483648") = inl OutOfRange /\
  server_args 3 [txt "server"; txt "70000"] = Ok (inr (4464, 3)) /\
  echo_main false [txt "server"; txt "80"; txt "-1"] = Uncaught LengthError /\
  pingpong_server_main false [txt "server"; txt "80"; txt "-1"] = Undefined /\
  http_main false [txt "server"] = Undefined.
Proof. split_and!; reflexivity. Qed.

(** The RPC demo serves. *)
Lemma rpc_server_serves :
  exists o, rpc_server_main = Serves 4567 o /\ loops o !! 0 = Some ReactorManager.Server.Inline.
Proof. eexists. split; reflexivity. Qed.
End Concrete.
